(** * VillageSQL extension subsystem: Victionary, SemVer and uninstall path

    A shallow embedding of the parts of the VillageSQL server sources that
    the specification's testable properties talk about:

    - [villagesql/common/semver.cc]                  (module [Semver])
    - [villagesql/schema/victionary_client.h]        (modules [StdMap], [SystemTableMap])
    - [villagesql/schema/descriptor/type_context.h]  (module [Schema])
    - [villagesql/sql/metadata_modifier.cc]          (module [MetadataModifier])
    - [villagesql/veb/sql_extension.cc]              (module [Uninstall])

    Conventions.  [std::string] is [string] (a list of 8-bit characters),
    [size_t] and [unsigned long] are [N] with the LP64 width written out,
    [std::vector] is [list], [std::map<std::string, V>] is a key-sorted
    association list ([StdMap]), the per-session map
    [std::map<THD *, ...>] is a [gmap] keyed by the address of the session. *)

From Stdlib Require Import NArith ZArith Bool List Lia.
From Stdlib Require Import Strings.Ascii Strings.String Numbers.DecimalString.
From Stdlib Require Import Numbers.DecimalN Numbers.DecimalPos.
From Stdlib Require Import Sorting.Sorted Structures.OrdersEx.
From stdpp Require Import gmap.
Import ListNotations.

Local Open Scope string_scope.
Local Open Scope N_scope.

(* ================================================================== *)
(** * Character and string primitives of the C and C++ runtime *)
(* ================================================================== *)

Module CStr.

(** [std::isdigit], [std::isalpha], [std::isalnum] on an [unsigned char],
    in the "C" locale the server classifies identifiers with. *)
Definition isdigit (c : ascii) : bool :=
  let n := N_of_ascii c in (48 <=? n) && (n <=? 57).

Definition isalpha (c : ascii) : bool :=
  let n := N_of_ascii c in
  ((65 <=? n) && (n <=? 90)) || ((97 <=? n) && (n <=? 122)).

Definition isalnum (c : ascii) : bool := isalpha c || isdigit c.

(** [std::all_of] over the characters of a string. *)
Fixpoint all_of (p : ascii -> bool) (s : string) : bool :=
  match s with
  | EmptyString => true
  | String c r => p c && all_of p r
  end.

(** [std::count(s.begin(), s.end(), c)]. *)
Fixpoint count (c : ascii) (s : string) : N :=
  match s with
  | EmptyString => 0
  | String d r => (if Ascii.eqb d c then 1 else 0) + count c r
  end.

Definition size (s : string) : N := N.of_nat (String.length s).

(** [std::string::npos] on an LP64 target. *)
Definition npos : N := 18446744073709551615.

(** [s.find(c, pos)]: index of the first [c] at or after [pos], or [npos]. *)
Fixpoint find_at (c : ascii) (s : string) (here : N) : N :=
  match s with
  | EmptyString => npos
  | String d r => if Ascii.eqb d c then here else find_at c r (here + 1)
  end.

Fixpoint drop (n : nat) (s : string) : string :=
  match n, s with
  | O, _ => s
  | S _, EmptyString => EmptyString
  | S k, String _ r => drop k r
  end.

Fixpoint take (n : nat) (s : string) : string :=
  match n, s with
  | O, _ => EmptyString
  | S _, EmptyString => EmptyString
  | S k, String c r => String c (take k r)
  end.

Definition find_from (c : ascii) (pos : N) (s : string) : N :=
  if size s <? pos then npos
  else find_at c (drop (N.to_nat pos) s) pos.

Definition find (c : ascii) (s : string) : N := find_from c 0 s.

(** [s.substr(pos, n)] for [pos <= s.size()]: at most [n] characters
    starting at [pos].  ([pos > size] throws; no caller does that.) *)
Definition substr (s : string) (pos n : N) : string :=
  take (N.to_nat (N.min n (size s - pos))) (drop (N.to_nat pos) s).

(** [s.substr(pos)]. *)
Definition substr_from (s : string) (pos : N) : string := substr s pos npos.

(** [string_view::remove_prefix(n)]. *)
Definition remove_prefix (n : N) (s : string) : string := drop (N.to_nat n) s.

(** [s.empty()]. *)
Definition is_empty_string (s : string) : bool :=
  match s with EmptyString => true | _ => false end.

(** First character, [s[0]]. *)
Definition front (s : string) : option ascii :=
  match s with EmptyString => None | String c _ => Some c end.

Definition front_is (c : ascii) (s : string) : bool :=
  match s with EmptyString => false | String d _ => Ascii.eqb d c end.

(** [ULONG_MAX] on an LP64 target (the extension loader is POSIX-only:
    [dlopen], [.so]). *)
Definition ULONG_MAX : N := 18446744073709551615.

Definition digit_value (c : ascii) : N := N_of_ascii c - 48.

(** Value of the longest prefix of decimal digits, read left to right. *)
Fixpoint digits_value (s : string) (acc : N) : N :=
  match s with
  | EmptyString => acc
  | String c r =>
      if isdigit c then digits_value r (10 * acc + digit_value c) else acc
  end.

(** [strtoul(s, nullptr, 10)] on a string that starts with a digit: the
    value of the digit prefix, clamped to [ULONG_MAX] on overflow. *)
Definition strtoul (s : string) : N :=
  let v := digits_value s 0 in
  if v <=? ULONG_MAX then v else ULONG_MAX.

(** [std::stoul(s)] on a string that does not start with white space or
    a sign (its call sites are guarded by [is_numeric]).  [None] stands
    for the exception it throws: [std::invalid_argument] when there is no
    digit to convert, [std::out_of_range] when the value does not fit
    [unsigned long]. *)
Definition stoul (s : string) : option N :=
  match s with
  | EmptyString => None
  | String c _ =>
      if isdigit c then
        let v := digits_value s 0 in
        if v <=? ULONG_MAX then Some v else None
      else None
  end.

(** [printf("%lu", n)]. *)
Definition print_lu (n : N) : string := NilEmpty.string_of_uint (N.to_uint n).

(** [std::string::operator<]: lexicographic on unsigned bytes. *)
Definition str_lt (a b : string) : bool := String.ltb a b.

End CStr.

(* ================================================================== *)
(** * [villagesql/common/semver.cc] *)
(* ================================================================== *)

Module Semver.
Import CStr.

Record Semver : Type := mkSemver {
  major_ : N;
  minor_ : N;
  patch_ : N;
  prerelease_ : list string;
  build_metadata_ : list string;
  valid_ : bool
}.

(** [Semver::Semver()]. *)
Definition Semver_default : Semver := mkSemver 0 0 0 [] [] false.

Definition is_valid (v : Semver) : bool := valid_ v.

Definition is_numeric (str : string) : bool :=
  match str with
  | EmptyString => false
  | _ => all_of isdigit str
  end.

Definition is_valid_identifier (id : string) : bool :=
  match id with
  | EmptyString => false
  | _ => all_of (fun c => isalnum c || Ascii.eqb c "-") id
  end.

Definition has_leading_zero (str : string) : bool :=
  (1 <? size str) && front_is "0" str.

(** Outcome of one of the two identifier-splitting loops of [parse]. *)
Inductive split_result : Type :=
| SplitOk (ids : list string)
| SplitError (msg : string)
| SplitOutOfFuel.

(** The [while (!prerelease_str.empty())] loop.  Every iteration removes
    the separator, so [String.length] of the initial view bounds the
    number of iterations; [fuel] counts them down. *)
Fixpoint split_prerelease (fuel : nat) (prerelease_str : string)
    (prerelease_tmp : list string) : split_result :=
  match prerelease_str with
  | EmptyString => SplitOk prerelease_tmp
  | _ =>
      match fuel with
      | O => SplitOutOfFuel
      | S fuel' =>
          (* Remove '-' or '.' *)
          let prerelease_str := remove_prefix 1 prerelease_str in
          let dot := find "." prerelease_str in
          let identifier := substr prerelease_str 0 dot in
          if negb (is_valid_identifier identifier) then
            SplitError "Invalid pre-release identifier"
          else if is_numeric identifier && has_leading_zero identifier then
            SplitError
              "Numeric pre-release identifiers must not have leading zeros"
          else
            split_prerelease fuel'
              (remove_prefix (size identifier) prerelease_str)
              (prerelease_tmp ++ [identifier])
      end
  end.

(** The [while (!build_str.empty())] loop. *)
Fixpoint split_build (fuel : nat) (build_str : string)
    (build_metadata_tmp : list string) : split_result :=
  match build_str with
  | EmptyString => SplitOk build_metadata_tmp
  | _ =>
      match fuel with
      | O => SplitOutOfFuel
      | S fuel' =>
          (* Remove '+' or '.' *)
          let build_str := remove_prefix 1 build_str in
          let dot := find "." build_str in
          let identifier := substr build_str 0 dot in
          if negb (is_valid_identifier identifier) then
            SplitError "Invalid build metadata identifier"
          else
            split_build fuel'
              (remove_prefix (size identifier) build_str)
              (build_metadata_tmp ++ [identifier])
      end
  end.

Inductive parse_result : Type :=
| Parsed (v : Semver)
| ParseError (msg : string)
| ParseOutOfFuel.

(** [Semver::parse]: the state of [*this] afterwards is [v] for
    [Parsed v] and [Semver()] otherwise; the [bool] it returns is
    [valid_] of that state. *)
Definition parse (s : string) : parse_result :=
  match s with
  | EmptyString => ParseError "Empty version string"
  | _ =>
  (* Separate core version (MAJOR.MINOR.PATCH) *)
  let core_version := substr s 0 (N.min (find "+" s) (find "-" s)) in
  let s := remove_prefix (size core_version) s in
  if negb (count "." core_version =? 2) then
    ParseError "Invalid core version format, expected MAJOR.MINOR.PATCH"
  else
  let minor_pos := find "." core_version in
  let patch_pos := find_from "." (minor_pos + 1) core_version in
  let major_str := substr core_version 0 minor_pos in
  let minor_str :=
    substr core_version (minor_pos + 1) (patch_pos - minor_pos - 1) in
  let patch_str := substr_from core_version (patch_pos + 1) in
  if negb (is_numeric major_str) || negb (is_numeric minor_str)
     || negb (is_numeric patch_str) then
    ParseError "MAJOR, MINOR, and PATCH must be numeric"
  else if has_leading_zero major_str || has_leading_zero minor_str
          || has_leading_zero patch_str then
    ParseError "Version numbers must not have leading zeros"
  else
  let major_tmp := strtoul major_str in
  let minor_tmp := strtoul minor_str in
  let patch_tmp := strtoul patch_str in
  if (major_tmp =? ULONG_MAX) || (minor_tmp =? ULONG_MAX)
     || (patch_tmp =? ULONG_MAX) then
    ParseError "Version number out of range"
  else
  (* Parse pre-release if present *)
  let pre :=
    if front_is "-" s then
      let prerelease_str := substr s 0 (find "+" s) in
      let s' := remove_prefix (size prerelease_str) s in
      match split_prerelease (String.length prerelease_str)
              prerelease_str [] with
      | SplitOk [] =>
          (SplitError "Pre-release section cannot be empty", s')
      | r => (r, s')
      end
    else (SplitOk [], s) in
  match pre with
  | (SplitError msg, _) => ParseError msg
  | (SplitOutOfFuel, _) => ParseOutOfFuel
  | (SplitOk prerelease_tmp, s) =>
  (* Parse build metadata if present *)
  let build :=
    if front_is "+" s then
      match split_build (String.length s) s [] with
      | SplitOk [] => SplitError "Build metadata section cannot be empty"
      | r => r
      end
    else SplitOk [] in
  match build with
  | SplitError msg => ParseError msg
  | SplitOutOfFuel => ParseOutOfFuel
  | SplitOk build_metadata_tmp =>
      Parsed (mkSemver major_tmp minor_tmp patch_tmp
                prerelease_tmp build_metadata_tmp true)
  end
  end
  end.

Definition from_string (version_str : string) : Semver :=
  match parse version_str with
  | Parsed v => v
  | _ => Semver_default
  end.

(** [Semver::from_components]. *)
Definition from_components (major minor patch : N)
    (prerelease build_metadata : list string) : Semver :=
  if negb (forallb (fun id =>
              is_valid_identifier id
              && negb (is_numeric id && has_leading_zero id)) prerelease)
  then Semver_default
  else if negb (forallb is_valid_identifier build_metadata)
  then Semver_default
  else mkSemver major minor patch prerelease build_metadata true.

(** What [snprintf(buf, sz, ...)] leaves in [buf] when the formatted text
    is [full]: at most [sz - 1] characters, then the terminating NUL. *)
Definition snprintf_buf (sz : N) (full : string) : string :=
  take (N.to_nat (sz - 1)) full ++ String zero EmptyString.

(** [Semver::to_string].  [snprintf] returns the length [n] the text
    would have had; [std::string r(buf, n)] then copies [n] bytes out of
    the [sz]-byte buffer.  For [n <= sz] that is a defined read (for
    [n = sz] it takes the terminating NUL along); for [n > sz] it reads
    past the buffer, which has no defined result: [None]. *)
Definition to_string (v : Semver) : option string :=
  if negb (valid_ v) then Some ""
  else
    let sz := 33 in (* 3x ten digits + 2 dots + 1 null *)
    let full :=
      print_lu (major_ v) ++ "." ++ print_lu (minor_ v) ++ "."
        ++ print_lu (patch_ v) in
    let buf := snprintf_buf sz full in
    let n := size full in
    if sz <? n then None
    else
      let r := take (N.to_nat n) buf in
      let r :=
        fold_left (fun (r : string) '(i, id) =>
                     r ++ String (if Nat.eqb i 0 then "-" else ".")%char id)
          (combine (seq 0 (List.length (prerelease_ v))) (prerelease_ v)) r in
      let r :=
        fold_left (fun (r : string) '(i, id) =>
                     r ++ String (if Nat.eqb i 0 then "+" else ".")%char id)
          (combine (seq 0 (List.length (build_metadata_ v)))
             (build_metadata_ v)) r in
      Some r.

(** The identifier-by-identifier loop of [compare_prerelease], over the
    first [min_size] positions of both lists.  [Some None] means the loop
    ran to its end without returning; the outer [None] is the exception
    of [std::stoul]. *)
Fixpoint compare_identifiers (ls rs : list string) : option (option Z) :=
  match ls, rs with
  | l :: ls', r :: rs' =>
      let l_numeric := is_numeric l in
      let r_numeric := is_numeric r in
      if l_numeric && r_numeric then
        (* Both numeric - compare numerically *)
        match stoul l with
        | None => None
        | Some l_val =>
            match stoul r with
            | None => None
            | Some r_val =>
                if l_val <? r_val then Some (Some (-1)%Z)
                else if r_val <? l_val then Some (Some 1%Z)
                else compare_identifiers ls' rs'
            end
        end
      else if l_numeric && negb r_numeric then Some (Some (-1)%Z)
      else if negb l_numeric && r_numeric then Some (Some 1%Z)
      else
        (* Both alphanumeric - compare lexically *)
        if str_lt l r then Some (Some (-1)%Z)
        else if str_lt r l then Some (Some 1%Z)
        else compare_identifiers ls' rs'
  | _, _ => Some None
  end.

Definition is_nil {A} (l : list A) : bool :=
  match l with [] => true | _ => false end.

(** [Semver::compare_prerelease]; [None] is an exception escaping it. *)
Definition compare_prerelease (this other : Semver) : option Z :=
  (* No pre-release > has pre-release *)
  if is_nil (prerelease_ this) && negb (is_nil (prerelease_ other))
  then Some 1%Z
  else if negb (is_nil (prerelease_ this)) && is_nil (prerelease_ other)
  then Some (-1)%Z
  else if is_nil (prerelease_ this) && is_nil (prerelease_ other)
  then Some 0%Z
  else
    match compare_identifiers (prerelease_ this) (prerelease_ other) with
    | None => None
    | Some (Some r) => Some r
    | Some None =>
        (* All compared identifiers are equal, check length *)
        let n := List.length (prerelease_ this) in
        let m := List.length (prerelease_ other) in
        if Nat.ltb n m then Some (-1)%Z
        else if Nat.ltb m n then Some 1%Z
        else Some 0%Z
    end.

Definition list_string_eqb (a b : list string) : bool :=
  if List.list_eq_dec String.string_dec a b then true else false.

(** [operator==]. *)
Definition op_eq (this other : Semver) : bool :=
  if negb (valid_ this) || negb (valid_ other) then false
  else (major_ this =? major_ other) && (minor_ this =? minor_ other)
       && (patch_ this =? patch_ other)
       && list_string_eqb (prerelease_ this) (prerelease_ other).
       (* Build metadata is ignored per semver spec *)

(** [operator!=]. *)
Definition op_ne (this other : Semver) : bool := negb (op_eq this other).

(** [operator<]; [None] is an exception escaping it. *)
Definition op_lt (this other : Semver) : option bool :=
  if negb (valid_ this) || negb (valid_ other) then Some false
  else if negb (major_ this =? major_ other)
  then Some (major_ this <? major_ other)
  else if negb (minor_ this =? minor_ other)
  then Some (minor_ this <? minor_ other)
  else if negb (patch_ this =? patch_ other)
  then Some (patch_ this <? patch_ other)
  else
    (* Core versions are equal, compare pre-release *)
    match compare_prerelease this other with
    | None => None
    | Some c => Some (c <? 0)%Z
    end.

(** [operator<=]: [*this < other || *this == other]. *)
Definition op_le (this other : Semver) : option bool :=
  match op_lt this other with
  | None => None
  | Some true => Some true
  | Some false => Some (op_eq this other)
  end.

(** [operator>]: the negation of [operator<=]. *)
Definition op_gt (this other : Semver) : option bool :=
  option_map negb (op_le this other).

(** [operator>=]: the negation of [operator<]. *)
Definition op_ge (this other : Semver) : option bool :=
  option_map negb (op_lt this other).

End Semver.

(* ================================================================== *)
(** * [std::map<std::string, V>] *)
(* ================================================================== *)

(** An ordered map from strings is a list of bindings kept strictly
    increasing in the key ([std::less<std::string>], i.e. bytewise
    lexicographic order).  Iteration order is list order. *)
Module StdMap.

Definition t (V : Type) : Type := list (string * V).

Definition keys {V} (m : t V) : list string := List.map fst m.

Definition key_lt (a b : string) : Prop := String.compare a b = Lt.

(** The representation invariant of the red-black tree. *)
Definition ok {V} (m : t V) : Prop := StronglySorted key_lt (keys m).

Section Ops.
Context {V : Type}.

(** [m.find(k)], [m.end()] being [None]. *)
Fixpoint find (k : string) (m : t V) : option V :=
  match m with
  | [] => None
  | (k', v) :: r => if String.eqb k' k then Some v else find k r
  end.

(** [m[k] = v]. *)
Fixpoint assign (k : string) (v : V) (m : t V) : t V :=
  match m with
  | [] => [(k, v)]
  | (k', v') :: r =>
      match String.compare k k' with
      | Lt => (k, v) :: (k', v') :: r
      | Eq => (k, v) :: r
      | Gt => (k', v') :: assign k v r
      end
  end.

(** [m.erase(k)]. *)
Fixpoint erase (k : string) (m : t V) : t V :=
  match m with
  | [] => []
  | (k', v') :: r =>
      if String.eqb k' k then erase k r else (k', v') :: erase k r
  end.

(** [m.emplace(k, v)]: inserts only when [k] is absent. *)
Definition emplace (k : string) (v : V) (m : t V) : t V :=
  match find k m with
  | Some _ => m
  | None => assign k v m
  end.

(** [m.lower_bound(k)]: the iterator to the first binding whose key is
    not less than [k], as the remaining suffix of the iteration. *)
Fixpoint lower_bound (k : string) (m : t V) : t V :=
  match m with
  | [] => []
  | (k', v) :: r => if String.ltb k' k then lower_bound k r else m
  end.

(** [while (it != end && it->first < upper) { ...; ++it; }]. *)
Fixpoint while_below (upper : string) (it : t V) : t V :=
  match it with
  | [] => []
  | (k', v) :: r =>
      if String.ltb k' upper then (k', v) :: while_below upper r else []
  end.

End Ops.
End StdMap.

(* ================================================================== *)
(** * [villagesql/schema/victionary_client.h]: [SystemTableMap] *)
(* ================================================================== *)

(** What [SystemTableMap<EntryType>] requires of its entry type: a
    [key_type] with a normalized string [str()], and [key()]. *)
Class EntryType (E : Type) : Type := {
  key_type : Type;
  key : E -> key_type;
  key_str : key_type -> string;
}.

(** An execution that ends abnormally: a failed [assert] or
    [should_assert_if_*] in a build with assertions, or the dereference of
    a null pointer.  The model stops there with [Aborted].  A function
    with an argument [ndebug] is modelled for both builds; the others are
    modelled for the build with assertions. *)
Inductive checked (A : Type) : Type :=
| Returned (a : A)
| Aborted.
Arguments Returned {A}.
Arguments Aborted {A}.

(** [if (should_assert_if_...(e)) { ...; return r; }] of [error.h], once
    the check has failed: the build with assertions aborts inside the
    macro, the build with [NDEBUG] runs the branch and returns [r]. *)
Definition should_assert {A} (ndebug : bool) (r : A) : checked A :=
  if ndebug then Returned r else Aborted.

(** A [THD *]; [0] is [nullptr]. *)
Definition THD_ptr : Type := N.
Definition nullptr : THD_ptr := 0.

Module SystemTableMap.

Inductive OperationType : Type := INSERT | UPDATE | DELETE.

Definition OperationType_eqb (a b : OperationType) : bool :=
  match a, b with
  | INSERT, INSERT | UPDATE, UPDATE | DELETE, DELETE => true
  | _, _ => false
  end.

(** A [std::shared_ptr<EntryType>] as the maps see it: the object it
    owns and the strong count of its control block.  Other owners (the
    holders registered on a [MEM_ROOT], client-managed copies) show up
    only through [use_count]. *)
Record shared_ptr (E : Type) : Type := mk_shared {
  obj : E;
  use_count : N
}.
Arguments mk_shared {E}.
Arguments obj {E}.
Arguments use_count {E}.

(** [std::make_shared<EntryType>(std::move(entry))]. *)
Definition make_shared {E} (e : E) : shared_ptr E := mk_shared e 1.

Section Map.
Context {E : Type} `{EntryType E}.

(** [PendingOperation<EntryType>].  The three shapes are the only ones
    the two constructors are called with: [INSERT] with an entry and a
    default key, [UPDATE] with an entry and the old key, [DELETE] with a
    null entry and the key to delete. *)
Inductive PendingOperation : Type :=
| PendingInsert (e : E)
| PendingUpdate (e : E) (old_key : key_type)
| PendingDelete (k : key_type).

Definition op_type (op : PendingOperation) : OperationType :=
  match op with
  | PendingInsert _ => INSERT
  | PendingUpdate _ _ => UPDATE
  | PendingDelete _ => DELETE
  end.

(** [op->entry], [None] being the null pointer. *)
Definition entry (op : PendingOperation) : option E :=
  match op with
  | PendingInsert e | PendingUpdate e _ => Some e
  | PendingDelete _ => None
  end.

(** [op->key.str()]; the default-constructed key of an [INSERT] has the
    empty string. *)
Definition stored_key_str (op : PendingOperation) : string :=
  match op with
  | PendingInsert _ => ""
  | PendingUpdate _ k | PendingDelete k => key_str k
  end.

(** The map state.  The hit and miss statistics, which no lookup result
    depends on, are left out. *)
Record SystemTableMap : Type := mkMap {
  m_committed : StdMap.t (shared_ptr E);
  m_uncommitted : gmap N (list PendingOperation)
}.

Definition empty_map : SystemTableMap := mkMap [] ∅.

(** [get_committed(key_str)]; [ks] is the argument [key_str]. *)
Definition get_committed (st : SystemTableMap) (ks : string)
  : option E :=
  match StdMap.find ks (m_committed st) with
  | None => None
  | Some p => Some (obj p)
  end.

(** One step of the scan in [get]: does [op] replace
    [most_recent_op]? *)
Definition scan_matches (ks : string) (op : PendingOperation)
  : bool :=
  (* For ops with entry, use entry's key; otherwise use stored key *)
  let op_key :=
    match entry op with
    | Some e => key_str (key e)
    | None => stored_key_str op
    end in
  String.eqb op_key ks
  || (OperationType_eqb (op_type op) UPDATE
      && String.eqb (stored_key_str op) ks).

Definition most_recent_op (ks : string)
    (ops : list PendingOperation) : option PendingOperation :=
  fold_left
    (fun most_recent op =>
       if scan_matches ks op then Some op else most_recent)
    ops None.

(** [get(thd, key_str)]. *)
Definition get (st : SystemTableMap) (thd : THD_ptr) (ks : string)
  : option E :=
  let fallback := get_committed st ks in
  if thd =? nullptr then fallback
  else
    match m_uncommitted st !! thd with
    | None => fallback
    | Some ops =>
        match most_recent_op ks ops with
        | Some op =>
            if OperationType_eqb (op_type op) DELETE then None
            else entry op
        | None => fallback
        end
    end.

(** [get_use_count(key_str)]. *)
Definition get_use_count (st : SystemTableMap) (ks : string) : N :=
  match StdMap.find ks (m_committed st) with
  | None => 0
  | Some p => use_count p
  end.

(** [has_uncommitted(thd)]. *)
Definition has_uncommitted (st : SystemTableMap) (thd : THD_ptr) : bool :=
  match m_uncommitted st !! thd with
  | Some (_ :: _) => true
  | _ => false
  end.

(** [m_uncommitted[&thd].link_in_list(op, &op->next)]. *)
Definition link_in_list (st : SystemTableMap) (thd : THD_ptr)
    (op : PendingOperation) : SystemTableMap :=
  mkMap (m_committed st)
    (<[thd := (default [] (m_uncommitted st !! thd) ++ [op])%list]>
       (m_uncommitted st)).

(** [MarkForInsertion], [MarkForUpdate], [MarkForDeletion].  They return
    [false]: the only failure they test for is a null result of [new]
    or [make_shared], which do not return null. *)
Definition MarkForInsertion (st : SystemTableMap) (thd : THD_ptr) (e : E)
  : bool * SystemTableMap :=
  (false, link_in_list st thd (PendingInsert e)).

Definition MarkForUpdate (st : SystemTableMap) (thd : THD_ptr) (e : E)
    (old_key : key_type) : bool * SystemTableMap :=
  (false, link_in_list st thd (PendingUpdate e old_key)).

Definition MarkForDeletion (st : SystemTableMap) (thd : THD_ptr)
    (k : key_type) : bool * SystemTableMap :=
  (false, link_in_list st thd (PendingDelete k)).

(** The body of the [while (op)] loop of [commit]. *)
Definition apply_op (committed : StdMap.t (shared_ptr E))
    (op : PendingOperation) : StdMap.t (shared_ptr E) :=
  match op with
  | PendingInsert e | PendingUpdate e _ =>
      (* For INSERT and UPDATE, add/replace entry in committed map *)
      let key := key_str (key e) in
      let committed := StdMap.assign key (make_shared e) committed in
      (* For UPDATE with key change, also remove old key *)
      let old_key := stored_key_str op in
      if OperationType_eqb (op_type op) UPDATE
         && negb (String.eqb old_key "") && negb (String.eqb old_key key)
      then StdMap.erase old_key committed
      else committed
  | PendingDelete _ =>
      (* For DELETE, remove from committed map using stored key *)
      StdMap.erase (stored_key_str op) committed
  end.

(** [commit(thd)]. *)
Definition commit (st : SystemTableMap) (thd : THD_ptr) : SystemTableMap :=
  if thd =? nullptr then st
  else
    match m_uncommitted st !! thd with
    | None => st (* No uncommitted operations *)
    | Some ops =>
        mkMap (fold_left apply_op ops (m_committed st))
          (delete thd (m_uncommitted st))
    end.

(** [rollback(thd)]. *)
Definition rollback (st : SystemTableMap) (thd : THD_ptr)
  : SystemTableMap :=
  if thd =? nullptr then st
  else mkMap (m_committed st) (delete thd (m_uncommitted st)).

(** [clear()]. *)
Definition clear (st : SystemTableMap) : SystemTableMap := empty_map.

(** [upper = prefix_str; upper.back() = upper.back() + 1;] with the
    wrap-around of a one-byte [char]. *)
Fixpoint next_string (prefix_str : string) : string :=
  match prefix_str with
  | EmptyString => EmptyString
  | String c EmptyString =>
      String (ascii_of_N ((N_of_ascii c + 1) mod 256)) EmptyString
  | String c r => String c (next_string r)
  end.

(** The committed bindings [get_prefix_committed] and
    [has_prefix_committed] walk over. *)
Definition prefix_range (st : SystemTableMap) (prefix_str : string)
  : StdMap.t (shared_ptr E) :=
  let upper := next_string prefix_str in
  StdMap.while_below upper (StdMap.lower_bound prefix_str (m_committed st)).

(** [get_prefix_committed(prefix)], on [prefix.str()]. *)
Definition get_prefix_committed (st : SystemTableMap)
    (prefix_str : string) : list E :=
  match prefix_str with
  | EmptyString => []
  | _ => List.map (fun kv => obj (snd kv)) (prefix_range st prefix_str)
  end.

(** [has_prefix_committed(prefix)], on [prefix.str()]. *)
Definition has_prefix_committed (st : SystemTableMap)
    (prefix_str : string) : bool :=
  match prefix_str with
  | EmptyString => false
  | _ =>
      let upper := next_string prefix_str in
      match StdMap.lower_bound prefix_str (m_committed st) with
      | [] => false
      | (k, _) :: _ => String.ltb k upper
      end
  end.

(** [get_all_committed()]. *)
Definition get_all_committed (st : SystemTableMap) : list E :=
  List.map (fun kv => obj (snd kv)) (m_committed st).

(** [acquire_or_create(key, cleanup_scope, create_args...)].  [create]
    is [TableTraits<EntryType>::create] with the forwarded arguments;
    [register_cleanup_fails] is what [cleanup_scope.register_cleanup]
    returns.  The copy of the [shared_ptr] held by the cleanup raises
    [use_count] by one.  (The [DBUG_EXECUTE_IF] fault injection of
    debug builds is left out.) *)
Definition acquire_or_create
    (create : key_type -> checked (option (shared_ptr E)))
    (st : SystemTableMap) (k : key_type) (register_cleanup_fails : bool)
  : checked (option E * SystemTableMap) :=
  let ks := key_str k in
  let created :=
    match StdMap.find ks (m_committed st) with
    | Some _ => Returned (Some (m_committed st))
    | None =>
        (* Entry doesn't exist - create it *)
        match create k with
        | Aborted => Aborted
        | Returned None => Returned None
        | Returned (Some new_entry) =>
            (* Store in committed map *)
            Returned (Some (StdMap.emplace ks new_entry (m_committed st)))
        end
    end in
  match created with
  | Aborted => Aborted
  | Returned None => Returned (None, st)
  | Returned (Some committed) =>
      (* Acquire the entry (existing or newly created) *)
      match StdMap.find ks committed with
      | None => Aborted (* [it] is a valid iterator here *)
      | Some p =>
          if register_cleanup_fails
          then Returned (None, mkMap committed (m_uncommitted st))
          else
            Returned
              (Some (obj p),
               mkMap
                 (StdMap.assign ks (mk_shared (obj p) (use_count p + 1))
                    committed)
                 (m_uncommitted st))
      end
  end.

(** S's pending list: empty for the null session and for a session
    without an entry in [m_uncommitted]. *)
Definition pending (st : SystemTableMap) (thd : THD_ptr)
  : list PendingOperation :=
  if thd =? nullptr then [] else default [] (m_uncommitted st !! thd).

End Map.
Arguments PendingOperation E {_}.
Arguments SystemTableMap E {_}.
End SystemTableMap.

(* ================================================================== *)
(** * Keys and entries of the Victionary maps *)
(* ================================================================== *)

Module Schema.
Import CStr SystemTableMap.

(** Modelled from the spec: the host's [casedn(charset, name)], which is
    not part of these sources.  The spec has the normalization functions
    "return lowercase"; the model lowers the ASCII letters and leaves
    every other byte as it is. *)
Definition to_lower (c : ascii) : ascii :=
  let n := N_of_ascii c in
  if (65 <=? n) && (n <=? 90) then ascii_of_N (n + 32) else c.

Fixpoint casedn (name : string) : string :=
  match name with
  | EmptyString => EmptyString
  | String c r => String (to_lower c) (casedn r)
  end.

(** [villagesql/schema/systable/helpers.cc].  The global
    [::lower_case_table_names] is passed as [lctn]. *)
Definition normalize_database_name (lctn : N) (name : string) : string :=
  if lctn =? 0 then name (* Case-sensitive, store as-is *)
  else casedn name.

Definition normalize_table_name (lctn : N) (name : string) : string :=
  if lctn =? 0 then name else casedn name.

Definition normalize_column_name (name : string) : string := casedn name.
Definition normalize_extension_name (name : string) : string := casedn name.
Definition normalize_type_name (name : string) : string := casedn name.

(** ** [properties.h] *)
Record PropertyKey : Type := mkPropertyKey {
  pk_name : string;
  pk_normalized_key : string
}.
Definition PropertyKey_make (name : string) : PropertyKey :=
  mkPropertyKey name (normalize_extension_name name).

Record PropertyEntry : Type := mkPropertyEntry {
  pe_key : PropertyKey;
  pe_value : string;
  pe_description : string
}.

#[export] Instance PropertyEntry_entry : EntryType PropertyEntry :=
  {| key_type := PropertyKey; key := pe_key; key_str := pk_normalized_key |}.

(** ** [custom_columns.h] *)
Record ColumnKeyPrefix : Type := mkColumnKeyPrefix {
  ckp_db : string;
  ckp_table : string;
  ckp_normalized_prefix : string
}.
Definition ColumnKeyPrefix_make (lctn : N) (db_name table_name : string)
  : ColumnKeyPrefix :=
  mkColumnKeyPrefix db_name table_name
    (normalize_database_name lctn db_name ++ "." ++
     (match table_name with
      | EmptyString => ""
      | _ => normalize_table_name lctn table_name ++ "."
      end)).

Record ColumnKey : Type := mkColumnKey {
  ck_db : string;
  ck_table : string;
  ck_column : string;
  ck_normalized_key : string
}.
Definition ColumnKey_make (lctn : N) (db_name table_name column_name : string)
  : ColumnKey :=
  mkColumnKey db_name table_name column_name
    (normalize_database_name lctn db_name ++ "." ++
     normalize_table_name lctn table_name ++ "." ++
     normalize_column_name column_name).

Record ColumnEntry : Type := mkColumnEntry {
  ce_key : ColumnKey;
  ce_extension_name : string;
  ce_extension_version : string;
  ce_type_name : string
}.
Definition ce_db_name (c : ColumnEntry) : string := ck_db (ce_key c).
Definition ce_table_name (c : ColumnEntry) : string := ck_table (ce_key c).
Definition ce_column_name (c : ColumnEntry) : string := ck_column (ce_key c).

#[export] Instance ColumnEntry_entry : EntryType ColumnEntry :=
  {| key_type := ColumnKey; key := ce_key; key_str := ck_normalized_key |}.

(** ** [extensions.h] *)
Record ExtensionKey : Type := mkExtensionKey {
  ek_extension_name : string;
  ek_normalized_key : string
}.
Definition ExtensionKey_make (name : string) : ExtensionKey :=
  mkExtensionKey name (normalize_extension_name name).

Record ExtensionEntry : Type := mkExtensionEntry {
  ee_key : ExtensionKey;
  ee_extension_version : string;
  ee_veb_sha256 : string
}.
Definition ee_extension_name (e : ExtensionEntry) : string :=
  ek_extension_name (ee_key e).

#[export] Instance ExtensionEntry_entry : EntryType ExtensionEntry :=
  {| key_type := ExtensionKey; key := ee_key; key_str := ek_normalized_key |}.

(** ** [type_descriptor.h], [type_descriptor.cc] *)
Record TypeDescriptorKeyPrefix : Type := mkTypeDescriptorKeyPrefix {
  tdp_type_name : string;
  tdp_extension_name : string;
  tdp_normalized_prefix : string
}.
Definition TypeDescriptorKeyPrefix_make (type_name extension_name : string)
  : TypeDescriptorKeyPrefix :=
  mkTypeDescriptorKeyPrefix type_name extension_name
    (normalize_type_name type_name ++ "." ++
     (match extension_name with
      | EmptyString => ""
      | _ => normalize_extension_name extension_name ++ "."
      end)).

Record TypeDescriptorKey : Type := mkTypeDescriptorKey {
  tdk_type_name : string;
  tdk_extension_name : string;
  tdk_extension_version : string;
  tdk_normalized_key : string
}.
Definition TypeDescriptorKey_make
    (type_name extension_name extension_version : string)
  : TypeDescriptorKey :=
  mkTypeDescriptorKey type_name extension_name extension_version
    (normalize_type_name type_name ++ "." ++
     normalize_extension_name extension_name ++ "." ++
     normalize_extension_name extension_version).

(** [TypeDescriptorKey()]: the four strings are empty. *)
Definition TypeDescriptorKey_default : TypeDescriptorKey :=
  mkTypeDescriptorKey "" "" "" "".

(** [TypeDescriptorKey::operator==]. *)
Definition TypeDescriptorKey_eqb (a b : TypeDescriptorKey) : bool :=
  String.eqb (tdk_normalized_key a) (tdk_normalized_key b).

(** Function pointers are addresses; [0] is [nullptr]. *)
Record TypeDescriptor : Type := mkTypeDescriptor {
  td_key : TypeDescriptorKey;
  td_implementation_type : N;
  td_persisted_length : Z;
  td_max_decode_buffer_length : Z;
  td_encode : N;
  td_decode : N;
  td_compare : N;
  td_hash : N
}.
Definition td_type_name (d : TypeDescriptor) : string :=
  tdk_type_name (td_key d).
Definition td_extension_name (d : TypeDescriptor) : string :=
  tdk_extension_name (td_key d).
Definition td_extension_version (d : TypeDescriptor) : string :=
  tdk_extension_version (td_key d).

#[export] Instance TypeDescriptor_entry : EntryType TypeDescriptor :=
  {| key_type := TypeDescriptorKey; key := td_key;
     key_str := tdk_normalized_key |}.

(** ** [extension_descriptor.h], [veb_file.h] *)
Record ExtensionRegistration : Type := mkExtensionRegistration {
  er_registration : N;
  er_so_path : string;
  er_dlhandle : N;
  er_unregister_func : N
}.

Record ExtensionDescriptorKey : Type := mkExtensionDescriptorKey {
  edk_extension_name : string;
  edk_extension_version : string;
  edk_normalized_key : string
}.
Definition ExtensionDescriptorKey_make
    (extension_name extension_version : string) : ExtensionDescriptorKey :=
  mkExtensionDescriptorKey extension_name extension_version
    (normalize_extension_name extension_name ++ "." ++
     normalize_extension_name extension_version).

Record ExtensionDescriptor : Type := mkExtensionDescriptor {
  ed_key : ExtensionDescriptorKey;
  ed_registration : ExtensionRegistration
}.

#[export] Instance ExtensionDescriptor_entry
  : EntryType ExtensionDescriptor :=
  {| key_type := ExtensionDescriptorKey; key := ed_key;
     key_str := edk_normalized_key |}.

(** ** [type_context.h] *)
Record TypeParameters : Type := mkTypeParameters {
  tp_params : StdMap.t string;
  tp_normalized_key : string
}.

(** [TypeParameters::build_normalized_key]. *)
Definition build_normalized_key (params : StdMap.t string) : string :=
  fold_left
    (fun (normalized_key : string) (kv : string * string) =>
       (match normalized_key with
        | EmptyString => normalized_key
        | _ => normalized_key ++ ";"
        end) ++ (fst kv ++ "=" ++ snd kv))
    params "".

Definition TypeParameters_make (params : StdMap.t string) : TypeParameters :=
  mkTypeParameters params (build_normalized_key params).

(** [TypeParameters()]. *)
Definition TypeParameters_default : TypeParameters :=
  mkTypeParameters [] "".

Record TypeContextKey : Type := mkTypeContextKey {
  tck_descriptor_key : TypeDescriptorKey;
  tck_parameters : TypeParameters;
  tck_normalized_key : string
}.
Definition TypeContextKey_make (desc_key : TypeDescriptorKey)
    (params : TypeParameters) : TypeContextKey :=
  mkTypeContextKey desc_key params
    (match tp_normalized_key params with
     | EmptyString => tdk_normalized_key desc_key
     | _ => tdk_normalized_key desc_key ++ "." ++ tp_normalized_key params
     end).

(** [descriptor_] is a [const TypeDescriptor *] into the
    [type_descriptors] map: [None] is the null pointer, [Some d] a
    pointer to the (immutable) descriptor [d]. *)
Record TypeContext : Type := mkTypeContext {
  descriptor_ : option TypeDescriptor;
  key_ : TypeContextKey
}.

(** [TypeContext::TypeContext(key, descriptor)].  Its two checks are
    plain [assert]s: with [NDEBUG] they expand to nothing and the
    constructor stores whatever it is given. *)
Definition TypeContext_ctor (ndebug : bool) (key : TypeContextKey)
    (descriptor : option TypeDescriptor) : checked TypeContext :=
  if ndebug then Returned (mkTypeContext descriptor key)
  else
    match descriptor with
    | None => Aborted (* assert(descriptor) *)
    | Some d =>
        if TypeDescriptorKey_eqb (td_key d) (tck_descriptor_key key)
        then Returned (mkTypeContext descriptor key)
        else Aborted (* assert(descriptor->key() == key.descriptor_key()) *)
    end.

(** The defaulted move constructor and move assignment,
    [TypeContext(TypeContext &&)] and [operator=(TypeContext &&)]: the
    first component is the context that is built or assigned to, which
    takes the descriptor pointer and the key of [other]; the second is
    [other] afterwards.  Moving a pointer copies it; what a moved-from
    key holds is left open by the language, and [moved_from] stands for
    it. *)
Definition TypeContext_move (moved_from : TypeContextKey -> TypeContextKey)
    (other : TypeContext) : TypeContext * TypeContext :=
  (mkTypeContext (descriptor_ other) (key_ other),
   mkTypeContext (descriptor_ other) (moved_from (key_ other))).

(** The accessors of [TypeContext], all of them [const]. *)
Definition tc_key (c : TypeContext) : TypeContextKey := key_ c.
Definition tc_parameters (c : TypeContext) : TypeParameters :=
  tck_parameters (key_ c).
Definition tc_descriptor (c : TypeContext) : option TypeDescriptor :=
  descriptor_ c.
(** [extension_name()], [extension_version()] and [type_name()]
    dereference [descriptor_]. *)
Definition tc_extension_name (c : TypeContext) : option string :=
  option_map td_extension_name (descriptor_ c).
Definition tc_extension_version (c : TypeContext) : option string :=
  option_map td_extension_version (descriptor_ c).
Definition tc_type_name (c : TypeContext) : option string :=
  option_map td_type_name (descriptor_ c).

#[export] Instance TypeContext_entry : EntryType TypeContext :=
  {| key_type := TypeContextKey; key := key_;
     key_str := tck_normalized_key |}.

(** [TableTraits<TypeContext>::create]; the result is the
    [std::shared_ptr<TypeContext>], [None] being the empty pointer. *)
Definition TypeContext_create (ndebug : bool) (key : TypeContextKey)
    (descriptor : option TypeDescriptor)
  : checked (option (shared_ptr TypeContext)) :=
  match descriptor with
  | None => Returned None
  | Some _ =>
      match TypeContext_ctor ndebug key descriptor with
      | Returned c => Returned (Some (make_shared c))
      | Aborted => Aborted
      end
  end.

End Schema.

(* ================================================================== *)
(** * [VictionaryClient] *)
(* ================================================================== *)

Module Victionary.
Import CStr SystemTableMap Schema.

(** The six maps and the [m_initialized] flag.  The reader-writer lock
    is not modelled: every function below runs with the guard its source
    takes, in a single thread. *)
Record VictionaryClient : Type := mkVictionary {
  m_initialized : bool;
  m_properties : SystemTableMap PropertyEntry;
  m_columns : SystemTableMap ColumnEntry;
  m_extensions : SystemTableMap ExtensionEntry;
  m_type_descriptors : SystemTableMap TypeDescriptor;
  m_extension_descriptors : SystemTableMap ExtensionDescriptor;
  m_type_contexts : SystemTableMap TypeContext
}.

Definition with_columns (v : VictionaryClient)
    (c : SystemTableMap ColumnEntry) : VictionaryClient :=
  mkVictionary (m_initialized v) (m_properties v) c (m_extensions v)
    (m_type_descriptors v) (m_extension_descriptors v) (m_type_contexts v).

(** [GetCustomColumnsForTable]. *)
Definition GetCustomColumnsForTable (lctn : N) (v : VictionaryClient)
    (db_name table_name : string) : list ColumnEntry :=
  if negb (m_initialized v) then []
  else get_prefix_committed (m_columns v)
         (ckp_normalized_prefix (ColumnKeyPrefix_make lctn db_name table_name)).

(** [commit_all_tables]. *)
Definition commit_all_tables (v : VictionaryClient) (thd : THD_ptr)
  : VictionaryClient :=
  if negb (m_initialized v) || (thd =? nullptr) then v
  else
    mkVictionary (m_initialized v)
      (commit (m_properties v) thd)
      (commit (m_columns v) thd)
      (commit (m_extensions v) thd)
      (commit (m_type_descriptors v) thd)
      (commit (m_extension_descriptors v) thd)
      (commit (m_type_contexts v) thd).

(** [rollback_all_tables]. *)
Definition rollback_all_tables (v : VictionaryClient) (thd : THD_ptr)
  : VictionaryClient :=
  if negb (m_initialized v) || (thd =? nullptr) then v
  else
    mkVictionary (m_initialized v)
      (rollback (m_properties v) thd)
      (rollback (m_columns v) thd)
      (rollback (m_extensions v) thd)
      (rollback (m_type_descriptors v) thd)
      (rollback (m_extension_descriptors v) thd)
      (rollback (m_type_contexts v) thd).

(** [clear_all_tables]. *)
Definition clear_all_tables (v : VictionaryClient) : VictionaryClient :=
  if negb (m_initialized v) then v
  else
    mkVictionary (m_initialized v)
      (clear (m_properties v))
      (clear (m_columns v))
      (clear (m_extensions v))
      (clear (m_type_descriptors v))
      (clear (m_extension_descriptors v))
      (clear (m_type_contexts v)).

End Victionary.

(* ================================================================== *)
(** * [villagesql/sql/metadata_modifier.cc] *)
(* ================================================================== *)

Module MetadataModifier.
Import CStr SystemTableMap Schema Victionary.

Record Croutine_entry : Type := mkCroutine {
  cr_extension_name : string;
  cr_function_name : string
}.

Record Metadata_modifier : Type := mkModifier {
  to_add_ : list ColumnEntry;
  to_remove_ : list ColumnEntry;
  (* Pair of (new_entry, old_key) where old_key is the key of the old entry *)
  to_rename_ : list (ColumnEntry * ColumnKey);
  to_call_ : list Croutine_entry
}.

Definition is_empty {A} (l : list A) : bool :=
  match l with [] => true | _ => false end.

Definition has_entries (mm : Metadata_modifier) : bool :=
  negb (is_empty (to_add_ mm)) || negb (is_empty (to_remove_ mm))
  || negb (is_empty (to_rename_ mm)) || negb (is_empty (to_call_ mm)).

(** What the host does for the calls that leave these sources. *)
Record Host : Type := mkHost {
  (* [thd->mdl_context.acquire_locks] fails *)
  acquire_locks_fails : bool;
  (* [find_udf_qualified(extension, function)] finds the function *)
  udf_exists : string -> string -> bool;
  (* [open_tables] in [add_system_table] fails *)
  open_tables_fails : bool
}.

(** One [for] loop of [mark_victionary_modifications]: [mark] is the
    [MarkFor...] call of its body; a [true] from it returns at once. *)
Definition mark_each {A} (mark : SystemTableMap ColumnEntry -> A ->
                                 bool * SystemTableMap ColumnEntry)
    (items : list A) (start : bool * SystemTableMap ColumnEntry)
  : bool * bool * SystemTableMap ColumnEntry :=
  fold_left
    (fun (acc : bool * bool * SystemTableMap ColumnEntry) (x : A) =>
       let '(failed, marked, columns) := acc in
       if failed then acc
       else
         let '(err, columns') := mark columns x in
         if err then (true, marked, columns) else (false, true, columns'))
    items (false, fst start, snd start).

(** [mark_victionary_modifications(thd, marked)]: the returned [bool],
    [marked], the modifier and the Victionary afterwards. *)
Definition mark_victionary_modifications (mm : Metadata_modifier)
    (vclient : VictionaryClient) (thd : THD_ptr)
  : checked (bool * bool * Metadata_modifier * VictionaryClient) :=
  if negb (m_initialized vclient) then Aborted
  else if thd =? nullptr then Aborted
  else
    let marked := false in
    let columns := m_columns vclient in
    (* 1. Process removals. *)
    let '(failed, marked, columns) :=
      mark_each (fun cols entry => MarkForDeletion cols thd (key entry))
        (to_remove_ mm) (marked, columns) in
    if failed then Returned (true, marked, mm, with_columns vclient columns)
    else
    let mm := mkModifier (to_add_ mm) [] (to_rename_ mm) (to_call_ mm) in
    (* 2. Process renames (updates with old key). *)
    let '(failed, marked, columns) :=
      mark_each (fun cols (p : ColumnEntry * ColumnKey) =>
                   MarkForUpdate cols thd (fst p) (snd p))
        (to_rename_ mm) (marked, columns) in
    if failed then Returned (true, marked, mm, with_columns vclient columns)
    else
    let mm := mkModifier (to_add_ mm) (to_remove_ mm) [] (to_call_ mm) in
    (* 3. Process additions. *)
    let '(failed, marked, columns) :=
      mark_each (fun cols entry => MarkForInsertion cols thd entry)
        (to_add_ mm) (marked, columns) in
    if failed then Returned (true, marked, mm, with_columns vclient columns)
    else
    let mm := mkModifier [] (to_remove_ mm) (to_rename_ mm) (to_call_ mm) in
    Returned (false, marked, mm, with_columns vclient columns).

(** The lambda [validate_entry] of [validate_entries]: [None] when the
    entry validates, the reported error otherwise. *)
Definition validate_entry (vclient : VictionaryClient) (entry : ColumnEntry)
  : option string :=
  if is_empty_string (ce_extension_name entry)
     || is_empty_string (ce_type_name entry)
  then None (* Nothing to validate *)
  else
    let type_descriptor_key :=
      TypeDescriptorKey_make (ce_type_name entry) (ce_extension_name entry)
        (ce_extension_version entry) in
    match get_committed (m_type_descriptors vclient)
            (tdk_normalized_key type_descriptor_key) with
    | None =>
        Some ("Custom type '" ++ ce_type_name entry ++ "' from extension '"
              ++ ce_extension_name entry ++ "' version '"
              ++ ce_extension_version entry ++ "' not found")
    | Some type_descriptor =>
        if negb (String.eqb (td_extension_name type_descriptor)
                   (ce_extension_name entry))
           || negb (String.eqb (td_extension_version type_descriptor)
                      (ce_extension_version entry))
        then
          Some ("Extension Name: " ++ ce_extension_name entry ++ " Version: "
                ++ ce_extension_version entry
                ++ " is not found for custom type '" ++ ce_type_name entry
                ++ "'")
        else None
    end.

(** First error of a validation loop. *)
Fixpoint first_error {A} (check : A -> option string) (items : list A)
  : option string :=
  match items with
  | [] => None
  | x :: r =>
      match check x with
      | Some msg => Some msg
      | None => first_error check r
      end
  end.

Definition validate_routine (host : Host) (vclient : VictionaryClient)
    (routine : Croutine_entry) : option string :=
  match get_committed (m_extensions vclient)
          (ek_normalized_key (ExtensionKey_make (cr_extension_name routine)))
  with
  | None =>
      Some ("Extension '" ++ cr_extension_name routine
            ++ "' not found for custom function '"
            ++ cr_function_name routine ++ "'")
  | Some _ =>
      if udf_exists host (cr_extension_name routine)
           (cr_function_name routine)
      then None
      else Some ("Custom function '" ++ cr_function_name routine
                 ++ "' not found in extension '"
                 ++ cr_extension_name routine ++ "'")
  end.

(** [validate_entries()]: [Returned None] is the [false] of success. *)
Definition validate_entries (host : Host) (mm : Metadata_modifier)
    (vclient : VictionaryClient) : checked (option string) :=
  if negb (m_initialized vclient) then Aborted
  else
    Returned
      match first_error (validate_entry vclient) (to_add_ mm) with
      | Some msg => Some msg
      | None =>
      match first_error (validate_entry vclient) (to_remove_ mm) with
      | Some msg => Some msg
      | None =>
      match first_error (fun p => validate_entry vclient (fst p))
              (to_rename_ mm) with
      | Some msg => Some msg
      | None => first_error (validate_routine host vclient) (to_call_ mm)
      end end end.

(** The extension names [lock_extensions_shared] requests a shared MDL
    lock for: every non-empty name once, normalized, the latest request
    first ([push_front]). *)
Definition add_mdl_request (acc : list string * list string)
    (ext_name : string) : list string * list string :=
  let '(mdl_requests, seen_extensions) := acc in
  if is_empty_string ext_name
     || existsb (String.eqb ext_name) seen_extensions
  then acc
  else (ek_normalized_key (ExtensionKey_make ext_name) :: mdl_requests,
        ext_name :: seen_extensions).

Definition mdl_requests (mm : Metadata_modifier) : list string :=
  let acc := fold_left add_mdl_request
               (List.map ce_extension_name (to_add_ mm)) ([], []) in
  let acc := fold_left add_mdl_request
               (List.map ce_extension_name (to_remove_ mm)) acc in
  let acc := fold_left add_mdl_request
               (List.map (fun p => ce_extension_name (fst p)) (to_rename_ mm))
               acc in
  let acc := fold_left add_mdl_request
               (List.map cr_extension_name (to_call_ mm)) acc in
  fst acc.

(** [lock_extensions_shared(thd)]. *)
Definition lock_extensions_shared (host : Host) (mm : Metadata_modifier)
    (thd : THD_ptr) : checked bool :=
  if thd =? nullptr then Aborted
  else if is_empty (mdl_requests mm) then Returned false
  else Returned (acquire_locks_fails host).

Record apply_result : Type := mkApply {
  la_failed : bool;                 (* the returned [bool] *)
  la_error : option string;         (* what [villagesql_error] reported *)
  la_locked : list string;          (* shared extension locks taken *)
  la_modifier : Metadata_modifier;
  la_vclient : VictionaryClient
}.

(** [lock_and_apply(thd)]. *)
Definition lock_and_apply (host : Host) (mm : Metadata_modifier)
    (vclient : VictionaryClient) (thd : THD_ptr) : checked apply_result :=
  (* Early return if no modifications are pending. *)
  if negb (has_entries mm) then Returned (mkApply false None [] mm vclient)
  else
  (* 1. Acquire MDL_SHARED locks on all referenced extensions. *)
  match lock_extensions_shared host mm thd with
  | Aborted => Aborted
  | Returned true => Returned (mkApply true None [] mm vclient)
  | Returned false =>
  let locked := mdl_requests mm in
  (* 2. Validate that all referenced types exist with matching extension
        info. *)
  match validate_entries host mm vclient with
  | Aborted => Aborted
  | Returned (Some msg) =>
      Returned (mkApply true (Some msg) locked mm vclient)
  | Returned None =>
  (* 3. Mark all modifications in Victionary Client. *)
  match mark_victionary_modifications mm vclient thd with
  | Aborted => Aborted
  | Returned (true, _, mm', vclient') =>
      Returned (mkApply true None locked mm' vclient')
  | Returned (false, marked, mm', vclient') =>
  (* 4. Add VillageSQL system table to THD's query list. *)
  if marked && open_tables_fails host
  then Returned (mkApply true (Some "Cannot open custom_columns table")
                   locked mm' vclient')
  else Returned (mkApply false None locked mm' vclient')
  end end end.

End MetadataModifier.

(* ================================================================== *)
(** * [villagesql/veb/sql_extension.cc]: UNINSTALL EXTENSION *)
(* ================================================================== *)

Module Uninstall.
Import CStr SystemTableMap Schema Victionary.

(** [printf("%d", count)] for a count that is never negative. *)
Definition print_d (count : Z) : string := print_lu (Z.to_N count).

(** [check_for_columns_of_extension]: the returned [bool] and the error
    it reports.  [count] is an [int]; it counts list elements and stays
    far below [INT_MAX]. *)
Definition check_for_columns_of_extension (ext_entry : ExtensionEntry)
    (all_columns : list ColumnEntry) : bool * option string :=
  let '(count, first_col) :=
    fold_left
      (fun (acc : Z * option ColumnEntry) (col : ColumnEntry) =>
         let '(count, first_col) := acc in
         if String.eqb (ce_extension_name col) (ee_extension_name ext_entry)
            && String.eqb (ce_extension_version col)
                 (ee_extension_version ext_entry)
         then ((count + 1)%Z,
               if (count =? 0)%Z then Some col else first_col)
         else acc)
      all_columns (0%Z, None) in
  match first_col with
  | Some first_col =>
      (true,
       Some ("Cannot drop extension `" ++ ee_extension_name ext_entry
             ++ "` as " ++ print_d count
             ++ " column(s) depend on it, e.g. "
             ++ ce_db_name first_col ++ "." ++ ce_table_name first_col
             ++ "." ++ ce_column_name first_col ++ " has type "
             ++ ce_type_name first_col))
  | None => (false, None)
  end.

(** The condition both loops over the type contexts test.  The
    accessors go through [descriptor_]. *)
Definition type_context_of (extension_name extension_version : string)
    (type_context : TypeContext) : checked bool :=
  match tc_extension_name type_context,
        tc_extension_version type_context with
  | Some name, Some version =>
      Returned (String.eqb name extension_name
                && String.eqb version extension_version)
  | _, _ => Aborted
  end.

Definition type_desc_of (extension_name extension_version : string)
    (type_desc : TypeDescriptor) : bool :=
  String.eqb (td_extension_name type_desc) extension_name
  && String.eqb (td_extension_version type_desc) extension_version.

(** The first loop over [all_type_contexts]: the type name of the first
    context of the extension whose [use_count] exceeds 1. *)
Fixpoint type_context_in_use (contexts : SystemTableMap TypeContext)
    (extension_name extension_version : string)
    (all_type_contexts : list TypeContext) : checked (option string) :=
  match all_type_contexts with
  | [] => Returned None
  | type_context :: rest =>
      match type_context_of extension_name extension_version
              type_context with
      | Aborted => Aborted
      | Returned true =>
          let use_count :=
            get_use_count contexts (key_str (key type_context)) in
          if 1 <? use_count
          then match tc_type_name type_context with
               | Some n => Returned (Some n)
               | None => Aborted
               end
          else type_context_in_use contexts extension_name
                 extension_version rest
      | Returned false =>
          type_context_in_use contexts extension_name extension_version rest
      end
  end.

(** The loop over [all_type_descs]. *)
Fixpoint type_desc_in_use (descs : SystemTableMap TypeDescriptor)
    (extension_name extension_version : string)
    (all_type_descs : list TypeDescriptor) : option string :=
  match all_type_descs with
  | [] => None
  | type_desc :: rest =>
      if type_desc_of extension_name extension_version type_desc then
        let use_count := get_use_count descs (key_str (key type_desc)) in
        if 1 <? use_count then Some (td_type_name type_desc)
        else type_desc_in_use descs extension_name extension_version rest
      else type_desc_in_use descs extension_name extension_version rest
  end.

(** The two marking loops. *)
Fixpoint mark_type_contexts (contexts : SystemTableMap TypeContext)
    (thd : THD_ptr) (extension_name extension_version : string)
    (all_type_contexts : list TypeContext)
  : checked (SystemTableMap TypeContext) :=
  match all_type_contexts with
  | [] => Returned contexts
  | type_context :: rest =>
      match type_context_of extension_name extension_version
              type_context with
      | Aborted => Aborted
      | Returned true =>
          mark_type_contexts
            (snd (MarkForDeletion contexts thd (key type_context)))
            thd extension_name extension_version rest
      | Returned false =>
          mark_type_contexts contexts thd extension_name extension_version
            rest
      end
  end.

Definition mark_type_descs (descs : SystemTableMap TypeDescriptor)
    (thd : THD_ptr) (extension_name extension_version : string)
    (all_type_descs : list TypeDescriptor) : SystemTableMap TypeDescriptor :=
  fold_left
    (fun descs type_desc =>
       if type_desc_of extension_name extension_version type_desc
       then snd (MarkForDeletion descs thd (key type_desc))
       else descs)
    all_type_descs descs.

Record removal : Type := mkRemoval {
  rm_failed : bool;                 (* the returned [bool] *)
  rm_error : option string;         (* what [villagesql_error] reported *)
  rm_vclient : VictionaryClient;
  rm_to_unregister : option ExtensionRegistration
}.

Definition in_use_message (extension_name type_name : string) : string :=
  "Cannot uninstall extension '" ++ extension_name ++ "': type '"
  ++ type_name ++ "' is currently in use".

(** [remove_extension_from_victionary(thd, victionary, extension_name,
    to_unregister)], [thd] not null. *)
Definition remove_extension_from_victionary (thd : THD_ptr)
    (victionary : VictionaryClient) (extension_name : string)
  : checked removal :=
  let refuse msg := Returned (mkRemoval true (Some msg) victionary None) in
  match get_committed (m_extensions victionary)
          (ek_normalized_key (ExtensionKey_make extension_name)) with
  | None => refuse ("Extension '" ++ extension_name ++ "' is not installed")
  | Some ext_entry =>
  (* Delete all custom types for this extension (RESTRICT behavior - fails
     if any type has dependent columns) *)
  let all_columns := get_all_committed (m_columns victionary) in
  match check_for_columns_of_extension ext_entry all_columns with
  | (true, msg) => Returned (mkRemoval true msg victionary None)
  | (false, _) =>
  (* Check for active references to TypeContexts and TypeDescriptors. A
     use_count > 1 means something other than the Victionary holds a
     reference. *)
  let all_type_contexts := get_all_committed (m_type_contexts victionary) in
  match type_context_in_use (m_type_contexts victionary) extension_name
          (ee_extension_version ext_entry) all_type_contexts with
  | Aborted => Aborted
  | Returned (Some type_name) =>
      refuse (in_use_message extension_name type_name)
  | Returned None =>
  let all_type_descs := get_all_committed (m_type_descriptors victionary) in
  match type_desc_in_use (m_type_descriptors victionary) extension_name
          (ee_extension_version ext_entry) all_type_descs with
  | Some type_name => refuse (in_use_message extension_name type_name)
  | None =>
  (* Delete TypeContexts for this extension *)
  match mark_type_contexts (m_type_contexts victionary) thd extension_name
          (ee_extension_version ext_entry) all_type_contexts with
  | Aborted => Aborted
  | Returned type_contexts =>
  (* Delete TypeDescriptors for this extension *)
  let type_descriptors :=
    mark_type_descs (m_type_descriptors victionary) thd extension_name
      (ee_extension_version ext_entry) all_type_descs in
  let extensions :=
    snd (MarkForDeletion (m_extensions victionary) thd (key ext_entry)) in
  let ext_desc :=
    get_committed (m_extension_descriptors victionary)
      (edk_normalized_key
         (ExtensionDescriptorKey_make extension_name
            (ee_extension_version ext_entry))) in
  let '(to_unregister, extension_descriptors) :=
    match ext_desc with
    | Some ext_desc =>
        (Some (ed_registration ext_desc),
         snd (MarkForDeletion (m_extension_descriptors victionary) thd
                (key ext_desc)))
    | None => (None, m_extension_descriptors victionary)
    end in
  Returned
    (mkRemoval false None
       (mkVictionary (m_initialized victionary) (m_properties victionary)
          (m_columns victionary) extensions type_descriptors
          extension_descriptors type_contexts)
       to_unregister)
  end end end end end.

(** What the host does for the calls that leave these sources. *)
Record Host : Type := mkHost {
  global_read_lock_fails : bool;   (* [acquire_shared_global_read_lock] *)
  backup_lock_fails : bool;        (* [acquire_shared_backup_lock] *)
  extension_lock_fails : bool;     (* [lock_extension_exclusive] *)
  open_tables_fails : bool;        (* [open_and_lock_tables] *)
  write_uncommitted_fails : bool;  (* [write_all_uncommitted_entries] *)
  unregister_vdfs_fails : bool;    (* [unregister_vdfs_from_extension] *)
  commit_fails : bool              (* the commit in [end_transaction] *)
}.

(** The calls of [execute] that reach outside the Victionary, in the
    order they are made. *)
Inductive event : Type :=
| AcquireSharedGlobalReadLock
| AcquireSharedBackupLock
| LockExtensionExclusive (normalized_name : string)
| OpenAndLockTables
| VillagesqlError (msg : string)
| WriteAllUncommittedEntries
| UnregisterVdfs (extension_name : string) (reg : ExtensionRegistration)
| LogWarning (msg : string)
| UnloadVefExtension (reg : ExtensionRegistration)
| MyOk
| TransactionRolledBack
| TransactionCommitted
| TransactionCommitFailed.

(** Modelled from the spec: the host's [end_transaction(thd, error)],
    which is not part of these sources.  With [error] it rolls the
    transaction back; without, it commits, and "the Victionary's
    composite [commit_all] promotes the staged ops; on failure,
    [rollback_all] discards them".  It returns [true] on failure. *)
Definition end_transaction (host : Host) (victionary : VictionaryClient)
    (thd : THD_ptr) (error : bool)
  : bool * list event * VictionaryClient :=
  if error
  then (true, [TransactionRolledBack], rollback_all_tables victionary thd)
  else if commit_fails host
  then (true, [TransactionCommitFailed], rollback_all_tables victionary thd)
  else (false, [TransactionCommitted], commit_all_tables victionary thd).

Record outcome : Type := mkOutcome {
  result : bool;                (* what [execute] returns *)
  trace : list event;
  final : VictionaryClient
}.

Definition finish (pre : list event)
    (r : bool * list event * VictionaryClient) : outcome :=
  let '(res, evs, v) := r in mkOutcome res (List.app pre evs) v.

(** [Sql_cmd_uninstall_extension::execute(thd)], [m_name] being
    [extension_name]. *)
Definition execute (host : Host) (victionary : VictionaryClient)
    (thd : THD_ptr) (extension_name : string) : checked outcome :=
  let t := [AcquireSharedGlobalReadLock] in
  if global_read_lock_fails host then Returned (mkOutcome true t victionary)
  else
  let t := List.app t [AcquireSharedBackupLock] in
  if backup_lock_fails host then Returned (mkOutcome true t victionary)
  else
  let t := List.app t
             [LockExtensionExclusive
                (ek_normalized_key (ExtensionKey_make extension_name))] in
  if extension_lock_fails host then Returned (mkOutcome true t victionary)
  else
  let t := List.app t [OpenAndLockTables] in
  if open_tables_fails host then
    Returned (finish
                (List.app t [VillagesqlError "Cannot open extension tables"])
                (end_transaction host victionary thd true))
  else
  (* Phase 1: Do all lookups and mark operations while holding lock *)
  match remove_extension_from_victionary thd victionary extension_name with
  | Aborted => Aborted
  | Returned rm =>
  let t := List.app t
             match rm_error rm with
             | Some msg => [VillagesqlError msg]
             | None => []
             end in
  if rm_failed rm then
    Returned (finish t (end_transaction host (rm_vclient rm) thd true))
  else
  (* Phase 2: write tables *)
  let t := List.app t [WriteAllUncommittedEntries] in
  if write_uncommitted_fails host then
    Returned
      (finish
         (List.app t [VillagesqlError ("Failed to delete extension '"
                                       ++ extension_name ++ "'")])
         (end_transaction host (rm_vclient rm) thd true))
  else
  let t := List.app t
             match rm_to_unregister rm with
             | Some to_unregister =>
                 (* Unregister VDFs before unloading extension (function
                    pointers become invalid after unload) *)
                 List.app
                   (UnregisterVdfs extension_name to_unregister
                    :: (if unregister_vdfs_fails host
                        then (* Log warning but don't fail *)
                          [LogWarning
                             ("Failed to unregister some VDFs for extension '"
                              ++ extension_name ++ "'")]
                        else []))
                   [UnloadVefExtension to_unregister]
             | None => []
             end in
  let t := List.app t [MyOk] in
  (* Phase 3: perform the commit *)
  Returned (finish t (end_transaction host (rm_vclient rm) thd false))
  end.

End Uninstall.

(* ================================================================== *)
(** * What the specification says about SemVer *)
(* ================================================================== *)

Module SemverSpec.
Import CStr Semver.

(** The version a string parses to. *)
Definition v (s : string) : Semver := from_string s.

(** The precedence chain of the SemVer 2.0.0 document. *)
Definition precedence_chain : list string :=
  ["1.0.0-alpha"; "1.0.0-alpha.1"; "1.0.0-alpha.beta"; "1.0.0-beta";
   "1.0.0-beta.2"; "1.0.0-beta.11"; "1.0.0-rc.1"; "1.0.0"].

(** All pairs [(a, b)] of a list with [a] before [b]. *)
Fixpoint ordered_pairs {A} (l : list A) : list (A * A) :=
  match l with
  | [] => []
  | x :: r => (List.map (fun y => (x, y)) r ++ ordered_pairs r)%list
  end.

(** A pre-release identifier is numeric (digits only, read as a number)
    or alphanumeric. *)
Inductive identifier : Type :=
| Numeric (n : N)
| Alphanumeric (id : string).

Definition classify (id : string) : identifier :=
  if is_numeric id then Numeric (digits_value id 0) else Alphanumeric id.

(** Numeric identifiers compare numerically and come before alphanumeric
    ones, which compare lexically in ASCII order. *)
Definition identifier_compare (a b : identifier) : comparison :=
  match a, b with
  | Numeric x, Numeric y => N.compare x y
  | Numeric _, Alphanumeric _ => Lt
  | Alphanumeric _, Numeric _ => Gt
  | Alphanumeric x, Alphanumeric y => String.compare x y
  end.

(** Identifier lists compare element by element; a strict prefix is
    smaller. *)
Fixpoint identifiers_compare (l r : list identifier) : comparison :=
  match l, r with
  | [], [] => Eq
  | [], _ :: _ => Lt
  | _ :: _, [] => Gt
  | a :: l', b :: r' =>
      match identifier_compare a b with
      | Eq => identifiers_compare l' r'
      | c => c
      end
  end.

(** [a] precedes [b]: major, minor and patch numerically; on equal cores
    a version with pre-release identifiers precedes the one without, and
    two pre-release lists compare as above.  Build metadata plays no
    part. *)
Definition precedes (a b : Semver) : bool :=
  match N.compare (major_ a) (major_ b) with
  | Lt => true
  | Gt => false
  | Eq =>
      match N.compare (minor_ a) (minor_ b) with
      | Lt => true
      | Gt => false
      | Eq =>
          match N.compare (patch_ a) (patch_ b) with
          | Lt => true
          | Gt => false
          | Eq =>
              match prerelease_ a, prerelease_ b with
              | [], _ => false
              | _ :: _, [] => true
              | la, lb =>
                  match identifiers_compare (List.map classify la)
                          (List.map classify lb) with
                  | Lt => true
                  | _ => false
                  end
              end
          end
      end
  end.

(** Every numeric identifier of the list fits an [unsigned long]. *)
Definition numeric_in_range (ids : list string) : bool :=
  forallb (fun id => negb (is_numeric id)
                     || (digits_value id 0 <=? ULONG_MAX)) ids.

(** What the loop of [compare_prerelease] returns for an outcome of the
    comparison over the common positions: nothing when they are equal. *)
Definition sign (c : comparison) : option Z :=
  match c with
  | Eq => None
  | Lt => Some (-1)%Z
  | Gt => Some 1%Z
  end.

(** The comparison over the common positions of two lists. *)
Fixpoint common_compare (l r : list identifier) : comparison :=
  match l, r with
  | a :: l', b :: r' =>
      match identifier_compare a b with
      | Eq => common_compare l' r'
      | c => c
      end
  | _, _ => Eq
  end.

End SemverSpec.

(* ================================================================== *)
(** * The text of a version *)
(* ================================================================== *)

Module SemverText.
Import CStr Semver.

(** [c] does not occur in [a]. *)
Definition lacks (c : ascii) (a : string) : bool :=
  all_of (fun d => negb (Ascii.eqb d c)) a.

(** The core [MAJOR.MINOR.PATCH] of three dot-free fields. *)
Definition dotted3 (M m p : string) : string :=
  M ++ String "." (m ++ String "." p).

(** The text [to_string] appends for a list of identifiers: the first one
    after [c], each later one after a dot. *)
Fixpoint joined (c : ascii) (ids : list string) : string :=
  match ids with
  | [] => ""
  | id :: rest => String c (id ++ joined "." rest)
  end.

(** What [parse] and [from_components] ask of a pre-release identifier. *)
Definition prerelease_id_ok (id : string) : bool :=
  is_valid_identifier id && negb (is_numeric id && has_leading_zero id).

(** [MAJOR.MINOR.PATCH] as [%lu.%lu.%lu] formats it, without a limit. *)
Definition core_text (v : Semver) : string :=
  dotted3 (print_lu (major_ v)) (print_lu (minor_ v)) (print_lu (patch_ v)).

(** The whole version string: core, [-] pre-release, [+] build metadata. *)
Definition text (v : Semver) : string :=
  core_text v ++ joined "-" (prerelease_ v) ++ joined "+" (build_metadata_ v).

(** The state every valid [Semver] that [parse] builds is in: components
    below the [ULONG_MAX] sentinel and checked identifiers. *)
Definition well_formed (v : Semver) : bool :=
  valid_ v
  && (major_ v <? ULONG_MAX) && (minor_ v <? ULONG_MAX)
  && (patch_ v <? ULONG_MAX)
  && forallb prerelease_id_ok (prerelease_ v)
  && forallb is_valid_identifier (build_metadata_ v).

End SemverText.

(* ================================================================== *)
(** * What the specification says about [SystemTableMap] *)
(* ================================================================== *)

Module MapSpec.
Import SystemTableMap.

Section Spec.
Context {E : Type} `{EntryType E}.

(** A pending operation touches [k] when its new key (the key of its
    entry) or, for Update and Delete, its stored old key equals [k]. *)
Definition touches (k : string) (op : PendingOperation E) : bool :=
  match op with
  | PendingInsert e => String.eqb (key_str (key e)) k
  | PendingUpdate e old_key =>
      String.eqb (key_str (key e)) k || String.eqb (key_str old_key) k
  | PendingDelete old_key => String.eqb (key_str old_key) k
  end.

(** The last operation of a pending list that touches [k]. *)
Fixpoint last_touching (k : string) (ops : list (PendingOperation E))
  : option (PendingOperation E) :=
  match ops with
  | [] => None
  | op :: rest =>
      match last_touching k rest with
      | Some later => Some later
      | None => if touches k op then Some op else None
      end
  end.

(** The value an operation leaves: nothing for a Delete, its entry
    otherwise. *)
Definition value_of (op : PendingOperation E) : option E :=
  match op with
  | PendingDelete _ => None
  | PendingInsert e | PendingUpdate e _ => Some e
  end.

(** The effect of one operation on what is committed under the key [k]:
    Insert and Update assign the entry to the new key; an Update whose old
    key is non-empty and differs from the new key erases the old key;
    Delete erases its key. *)
Definition step_key (k : string) (cur : option E) (op : PendingOperation E)
  : option E :=
  match op with
  | PendingInsert e =>
      if String.eqb (key_str (key e)) k then Some e else cur
  | PendingUpdate e old_key =>
      if String.eqb (key_str (key e)) k then Some e
      else if negb (String.eqb (key_str old_key) "")
              && negb (String.eqb (key_str old_key) (key_str (key e)))
              && String.eqb (key_str old_key) k
      then None
      else cur
  | PendingDelete old_key =>
      if String.eqb (key_str old_key) k then None else cur
  end.

(** [p] is a strict prefix of [k]. *)
Definition strict_prefix (p k : string) : bool :=
  String.prefix p k && negb (String.eqb p k).

(** The committed entries whose normalized key has [p] as a strict
    prefix, and those that have it as a prefix. *)
Definition entries_with_strict_prefix (st : SystemTableMap E) (p : string)
  : list E :=
  List.filter (fun e => strict_prefix p (key_str (key e)))
    (get_all_committed st).

(** The prefix query returns exactly the multiset of the committed
    entries whose key has [p] as a strict prefix. *)
Definition returns_strictly_prefixed (st : SystemTableMap E) (p : string)
  : Prop :=
  Permutation (get_prefix_committed st p) (entries_with_strict_prefix st p).

Definition entries_with_prefix (st : SystemTableMap E) (p : string) : list E :=
  List.filter (fun e => String.prefix p (key_str (key e)))
    (get_all_committed st).

(** The last byte of a string. *)
Fixpoint last_byte (s : string) : option ascii :=
  match s with
  | EmptyString => None
  | String c EmptyString => Some c
  | String _ r => last_byte r
  end.

(** The invariant of the committed map: the bindings are sorted by key and
    every entry is stored under its own normalized key. *)
Definition committed_ok (st : SystemTableMap E) : Prop :=
  StdMap.ok (m_committed st)
  /\ Forall (fun kv => key_str (key (obj (snd kv))) = fst kv) (m_committed st).

Definition is_nil {A} (l : list A) : bool :=
  match l with [] => true | _ => false end.

End Spec.
End MapSpec.

(* ================================================================== *)
(** * What the specification says about [TypeContext] *)
(* ================================================================== *)

Module TypeContextSpec.
Import SystemTableMap Schema.

(** A context holds a non-null descriptor pointer whose key equals
    ([TypeDescriptorKey::operator==]) the descriptor-key component of the
    context's own key. *)
Definition holds_matching_descriptor (c : TypeContext) : bool :=
  match tc_descriptor c with
  | Some d => TypeDescriptorKey_eqb (td_key d) (tck_descriptor_key (tc_key c))
  | None => false
  end.

Definition all_contexts_match (st : SystemTableMap TypeContext) : Prop :=
  Forall (fun kv => holds_matching_descriptor (obj (snd kv)) = true)
    (m_committed st).

(** The non-null half of it. *)
Definition has_descriptor (c : TypeContext) : bool :=
  match tc_descriptor c with Some _ => true | None => false end.

Definition all_contexts_have_descriptor (st : SystemTableMap TypeContext)
  : Prop :=
  Forall (fun kv => has_descriptor (obj (snd kv)) = true) (m_committed st).

(** [descriptor] is what a caller may hand to the constructor for [key]:
    a non-null pointer to a descriptor with the key's descriptor key. *)
Definition fits (key : TypeContextKey) (descriptor : option TypeDescriptor)
  : bool :=
  match descriptor with
  | Some d => TypeDescriptorKey_eqb (td_key d) (tck_descriptor_key key)
  | None => false
  end.

(** The objects a map holds are left as they are. *)
Definition objects_kept (st st' : SystemTableMap TypeContext) : Prop :=
  forall k p, StdMap.find k (m_committed st) = Some p ->
              exists p', StdMap.find k (m_committed st') = Some p'
                         /\ obj p' = obj p.

End TypeContextSpec.

(* ================================================================== *)
(** * What the specification says about DDL staging *)
(* ================================================================== *)

Module StagingSpec.
Import SystemTableMap Schema MetadataModifier.

(** Removals first, then renames, then insertions. *)
Definition staged_ops (mm : Metadata_modifier)
  : list (PendingOperation ColumnEntry) :=
  (List.map (fun entry : ColumnEntry =>
               @PendingDelete ColumnEntry ColumnEntry_entry (ce_key entry))
     (to_remove_ mm)
   ++ List.map (fun p : ColumnEntry * ColumnKey =>
                  @PendingUpdate ColumnEntry ColumnEntry_entry (fst p) (snd p))
        (to_rename_ mm)
   ++ List.map (@PendingInsert ColumnEntry ColumnEntry_entry) (to_add_ mm))%list.

End StagingSpec.

(* ================================================================== *)
(** * What the specification says about UNINSTALL EXTENSION *)
(* ================================================================== *)

Module UninstallSpec.
Import SystemTableMap Schema Victionary Uninstall.

(** A column references the extension at its committed version. *)
Definition column_references (ext : ExtensionEntry) (col : ColumnEntry)
  : bool :=
  String.eqb (ce_extension_name col) (ee_extension_name ext)
  && String.eqb (ce_extension_version col) (ee_extension_version ext).

(** A type descriptor, a type context, belongs to the extension at its
    committed version. *)
Definition descriptor_belongs (ext : ExtensionEntry) (d : TypeDescriptor)
  : bool :=
  String.eqb (td_extension_name d) (ee_extension_name ext)
  && String.eqb (td_extension_version d) (ee_extension_version ext).

Definition context_belongs (ext : ExtensionEntry) (c : TypeContext) : bool :=
  match tc_descriptor c with
  | Some d => descriptor_belongs ext d
  | None => false
  end.

(** The condition under which uninstall is to be refused. *)
Definition must_refuse (v : VictionaryClient) (ext : ExtensionEntry) : bool :=
  existsb (column_references ext) (get_all_committed (m_columns v))
  || existsb (fun kv => context_belongs ext (obj (snd kv))
                        && (1 <? use_count (snd kv)))
       (m_committed (m_type_contexts v))
  || existsb (fun kv => descriptor_belongs ext (obj (snd kv))
                        && (1 <? use_count (snd kv)))
       (m_committed (m_type_descriptors v)).

(** No event that unloads the extension (unregistering its VDFs, closing
    the shared object) comes before the commit has succeeded. *)
Fixpoint unloads_after_commit (committed : bool) (t : list event) : bool :=
  match t with
  | [] => true
  | TransactionCommitted :: rest => unloads_after_commit true rest
  | UnregisterVdfs _ _ :: rest | UnloadVefExtension _ :: rest =>
      committed && unloads_after_commit committed rest
  | _ :: rest => unloads_after_commit committed rest
  end.

Definition unloads (t : list event) : bool :=
  existsb (fun ev => match ev with
                     | UnloadVefExtension _ => true
                     | _ => false
                     end) t.

End UninstallSpec.

(* ================================================================== *)
(** * Scenarios *)
(* ================================================================== *)

Module Scenario.
Import CStr SystemTableMap Schema Victionary MetadataModifier Uninstall.

(** [lower_case_table_names = 1]. *)
Definition lctn : N := 1.

(** A session. *)
Definition thd : THD_ptr := 4660.

(** The release build: [NDEBUG] is defined. *)
Definition release : bool := true.

Definition empty_victionary : VictionaryClient :=
  mkVictionary true empty_map empty_map empty_map empty_map empty_map
    empty_map.

(** The extension [myext] 1.0.0 with one type, [COMPLEX]. *)
Definition complex_key : TypeDescriptorKey :=
  TypeDescriptorKey_make "COMPLEX" "myext" "1.0.0".

Definition complex_descriptor : TypeDescriptor :=
  mkTypeDescriptor complex_key 0 16 64 4096 4104 4112 0.

Definition myext_registration : ExtensionRegistration :=
  mkExtensionRegistration 8192 "_expanded/myext/ab12/lib/myext.so" 12288 8200.

Definition myext_descriptor : ExtensionDescriptor :=
  mkExtensionDescriptor (ExtensionDescriptorKey_make "myext" "1.0.0")
    myext_registration.

Definition myext_entry : ExtensionEntry :=
  mkExtensionEntry (ExtensionKey_make "myext") "1.0.0" "ab12".

(** What INSTALL EXTENSION myext stages, committed. *)
Definition installed : VictionaryClient :=
  let v := empty_victionary in
  let descs := snd (MarkForInsertion (m_type_descriptors v) thd
                      complex_descriptor) in
  let ext_descs := snd (MarkForInsertion (m_extension_descriptors v) thd
                          myext_descriptor) in
  let exts := snd (MarkForInsertion (m_extensions v) thd myext_entry) in
  commit_all_tables
    (mkVictionary true (m_properties v) (m_columns v) exts descs ext_descs
       (m_type_contexts v))
    thd.

Definition complex_context_key : TypeContextKey :=
  TypeContextKey_make complex_key TypeParameters_default.

(** An open table share has resolved [COMPLEX]: [acquire_or_create] has
    put the context into the map and the share's [MEM_ROOT] holds a
    second reference to it. *)
Definition installed_in_use : VictionaryClient :=
  match acquire_or_create
          (fun k => TypeContext_create release k (Some complex_descriptor))
          (m_type_contexts installed) complex_context_key false with
  | Returned (_, contexts) =>
      mkVictionary true (m_properties installed) (m_columns installed)
        (m_extensions installed) (m_type_descriptors installed)
        (m_extension_descriptors installed) contexts
  | Aborted => installed
  end.

(** A column [db.t.x] of type [COMPLEX], and the column with the empty
    name of the same table. *)
Definition column_x : ColumnEntry :=
  mkColumnEntry (ColumnKey_make lctn "db" "t" "x") "myext" "1.0.0" "COMPLEX".

Definition column_x_v2 : ColumnEntry :=
  mkColumnEntry (ColumnKey_make lctn "db" "t" "x") "myext" "1.0.0" "COMPLEX2".

Definition column_unnamed : ColumnEntry :=
  mkColumnEntry (ColumnKey_make lctn "db" "t" "") "myext" "1.0.0" "COMPLEX".

Definition columns_of (entries : list ColumnEntry)
  : SystemTableMap ColumnEntry :=
  commit (fold_left (fun c e => snd (MarkForInsertion c thd e)) entries
            empty_map) thd.

Definition with_table (entries : list ColumnEntry) : VictionaryClient :=
  with_columns installed (columns_of entries).

(** A host on which every call succeeds, and one on which only the commit
    fails. *)
Definition host_ok : Uninstall.Host :=
  Uninstall.mkHost false false false false false false false.

Definition host_commit_fails : Uninstall.Host :=
  Uninstall.mkHost false false false false false false true.

Definition table_prefix : string :=
  ckp_normalized_prefix (ColumnKeyPrefix_make lctn "db" "t").

(** MODIFY of [db.t.x] from one custom type to another: remove and add of
    the same key. *)
Definition modify_x : Metadata_modifier :=
  mkModifier [column_x_v2] [column_x] [] [].

Definition run (host : Uninstall.Host) (v : VictionaryClient)
    (extension_name : string) : option outcome :=
  match execute host v thd extension_name with
  | Returned o => Some o
  | Aborted => None
  end.

End Scenario.

(* ================================================================== *)
(** * What a session sees of a [SystemTableMap] *)
(* ================================================================== *)

Module SessionSpec.
Import SystemTableMap MapSpec.

Section Spec.
Context {E : Type} `{EntryType E}.

(** What a session with the pending list [ops] sees under [k], given what
    is committed there. *)
Definition view (k : string) (ops : list (PendingOperation E))
    (committed : option E) : option E :=
  match last_touching k ops with
  | Some op => value_of op
  | None => committed
  end.

(** The operation does not move its entry to another key: an Update is
    staged with the key of its own entry as the old key. *)
Definition keeps_key (op : PendingOperation E) : bool :=
  match op with
  | PendingUpdate e old_key => String.eqb (key_str old_key) (key_str (key e))
  | _ => true
  end.

(** [st'] is [st] after one of the three marking calls of session [thd]. *)
Inductive marked (st : SystemTableMap E) (thd : THD_ptr)
  : PendingOperation E -> SystemTableMap E -> Prop :=
| marked_insertion (e : E) :
    marked st thd (PendingInsert e) (snd (MarkForInsertion st thd e))
| marked_update (e : E) (old_key : key_type) :
    marked st thd (PendingUpdate e old_key)
      (snd (MarkForUpdate st thd e old_key))
| marked_deletion (k : key_type) :
    marked st thd (PendingDelete k) (snd (MarkForDeletion st thd k)).

End Spec.
End SessionSpec.

(* ================================================================== *)
(** * [victionary_client.h]: reference-counted lookups *)
(* ================================================================== *)

Module Acquire.
Import SystemTableMap.

Section Map.
Context {E : Type} `{EntryType E}.

(** The binding of [ks] with one more owner of its entry. *)
Definition add_owner (st : SystemTableMap E) (ks : string)
    (p : shared_ptr E) : SystemTableMap E :=
  mkMap (StdMap.assign ks (mk_shared (obj p) (use_count p + 1))
           (m_committed st))
    (m_uncommitted st).

(** [acquire(key_str, cleanup_scope)].  [register_cleanup_fails] is what
    [cleanup_scope.register_cleanup] returns; on failure the holder is
    deleted again and the count is as before.  (The [DBUG_EXECUTE_IF]
    fault injection of debug builds is left out.) *)
Definition acquire (st : SystemTableMap E) (ks : string)
    (register_cleanup_fails : bool) : option E * SystemTableMap E :=
  match StdMap.find ks (m_committed st) with
  | None => (None, st)
  | Some p =>
      (* Make a heap-allocated copy of the shared_ptr (increments refcount) *)
      if register_cleanup_fails then (None, st)
      else (Some (obj p), add_owner st ks p)
  end.

(** [acquire_client_managed(key)]: the caller owns the returned copy. *)
Definition acquire_client_managed (st : SystemTableMap E) (k : key_type)
  : option (shared_ptr E) * SystemTableMap E :=
  match StdMap.find (key_str k) (m_committed st) with
  | None => (None, st)
  | Some p =>
      (Some (mk_shared (obj p) (use_count p + 1)),
       add_owner st (key_str k) p)
  end.

(** [release_shared_ptr_ref], the cleanup that [acquire] and
    [acquire_or_create] register: the holder is deleted, and the entry
    it kept alive has one owner less.  [ks] is the key of that entry,
    which the map may have erased since. *)
Definition release_shared_ptr_ref (st : SystemTableMap E) (ks : string)
  : SystemTableMap E :=
  match StdMap.find ks (m_committed st) with
  | None => st
  | Some p =>
      mkMap (StdMap.assign ks (mk_shared (obj p) (use_count p - 1))
               (m_committed st))
        (m_uncommitted st)
  end.

End Map.
End Acquire.

(* ================================================================== *)
(** * [villagesql/types/util.cc]: attaching a type to a field *)
(* ================================================================== *)

Module TypeUtil.
Import CStr SystemTableMap Schema Victionary.

(** [SchemaManager::VILLAGESQL_SCHEMA_NAME]. *)
Definition VILLAGESQL_SCHEMA_NAME : string := "villagesql".

Record injected : Type := mkInjected {
  inj_failed : bool;                      (* the returned [bool] *)
  inj_type_context : option TypeContext;  (* [field->set_type_context] *)
  inj_vclient : VictionaryClient
}.

Definition with_type_contexts (v : VictionaryClient)
    (c : SystemTableMap TypeContext) : VictionaryClient :=
  mkVictionary (m_initialized v) (m_properties v) (m_columns v)
    (m_extensions v) (m_type_descriptors v) (m_extension_descriptors v) c.

(** [MaybeInjectCustomType(thd, share, field)] for a non-null [field]:
    [db_name] and [table_name] are those of the share, [column_name] is
    [field->field_name], [register_cleanup_fails] is the outcome of
    registering on [share.mem_root]. *)
Definition MaybeInjectCustomType (ndebug : bool) (lctn : N)
    (vclient : VictionaryClient)
    (thd : THD_ptr) (db_name table_name column_name : string)
    (register_cleanup_fails : bool) : checked injected :=
  let failed (v : VictionaryClient) :=
    should_assert ndebug (mkInjected true None v) in
  if thd =? nullptr then failed vclient (* should_assert_if_null(thd) *)
  else
  (* Skip special databases *)
  if String.eqb db_name "mysql" || String.eqb db_name VILLAGESQL_SCHEMA_NAME
  then Returned (mkInjected false None vclient)
  else if negb (m_initialized vclient)
  then Returned (mkInjected false None vclient)
  else
  (* Create ColumnEntry to get normalized key *)
  let key := ColumnKey_make lctn db_name table_name column_name in
  match get (m_columns vclient) thd (ck_normalized_key key) with
  | None => Returned (mkInjected false None vclient)
  | Some column_entry =>
  (* This is a custom type - cross-reference with TypeDescriptor. *)
  let type_descriptor_key :=
    TypeDescriptorKey_make (ce_type_name column_entry)
      (ce_extension_name column_entry)
      (ce_extension_version column_entry) in
  (* Note: the TypeDescriptor must already be committed. *)
  match get_committed (m_type_descriptors vclient)
          (tdk_normalized_key type_descriptor_key) with
  | None => failed vclient (* should_assert_if_null(type_descriptor) *)
  | Some type_descriptor =>
  let parameters := TypeParameters_default in
  let type_context_key :=
    TypeContextKey_make type_descriptor_key parameters in
  match acquire_or_create
          (fun k => TypeContext_create ndebug k (Some type_descriptor))
          (m_type_contexts vclient) type_context_key
          register_cleanup_fails with
  | Aborted => Aborted
  | Returned (None, contexts) =>
      (* should_assert_if_null(tc) *)
      failed (with_type_contexts vclient contexts)
  | Returned (Some tc, contexts) =>
      Returned (mkInjected false (Some tc)
                  (with_type_contexts vclient contexts))
  end end end.

Record resolved : Type := mkResolved {
  res_failed : bool;                (* the returned [bool] *)
  res_result : option TypeContext;  (* [result] *)
  res_vclient : VictionaryClient
}.

(** [ResolveTypeToContext(extension_name, type_name, mem_root, result)]. *)
Definition ResolveTypeToContext (ndebug : bool) (vclient : VictionaryClient)
    (extension_name type_name : string) (register_cleanup_fails : bool)
  : checked resolved :=
  let failed (v : VictionaryClient) :=
    should_assert ndebug (mkResolved true None v) in
  (* should_assert_if_false(vclient.is_initialized()) *)
  if negb (m_initialized vclient) then failed vclient
  else
  let prefix := TypeDescriptorKeyPrefix_make type_name extension_name in
  match get_prefix_committed (m_type_descriptors vclient)
          (tdp_normalized_prefix prefix) with
  | [] =>
      (* The type didn't resolve, which isn't a failure here. *)
      Returned (mkResolved false None vclient)
  | [type_descriptor] =>
      let type_descriptor_key :=
        TypeDescriptorKey_make (td_type_name type_descriptor)
          (td_extension_name type_descriptor)
          (td_extension_version type_descriptor) in
      let empty_parameters := TypeParameters_default in
      let type_context_key :=
        TypeContextKey_make type_descriptor_key empty_parameters in
      match acquire_or_create
              (fun k => TypeContext_create ndebug k (Some type_descriptor))
              (m_type_contexts vclient) type_context_key
              register_cleanup_fails with
      | Aborted => Aborted
      | Returned (None, contexts) =>
          (* should_assert_if_null(result) *)
          failed (with_type_contexts vclient contexts)
      | Returned (Some tc, contexts) =>
          Returned (mkResolved false (Some tc)
                      (with_type_contexts vclient contexts))
      end
  | _ :: _ :: _ =>
      (* should_assert_if_true(results.size() > 1) *)
      failed vclient
  end.

(** [TableHasCustomColumns(db_name, table_name)], both not null. *)
Definition TableHasCustomColumns (lctn : N) (vclient : VictionaryClient)
    (db_name table_name : string) : bool :=
  (* Skip special databases *)
  if String.eqb db_name "mysql" || String.eqb db_name VILLAGESQL_SCHEMA_NAME
  then false
  else if negb (m_initialized vclient) then false
  else has_prefix_committed (m_columns vclient)
         (ckp_normalized_prefix (ColumnKeyPrefix_make lctn db_name table_name)).

(** [AreTypesCompatible(tc1, tc2)]; the accessors go through
    [descriptor_]. *)
Definition AreTypesCompatible (tc1 tc2 : TypeContext) : checked bool :=
  match tc_descriptor tc1, tc_descriptor tc2 with
  | Some d1, Some d2 =>
      Returned (String.eqb (td_type_name d1) (td_type_name d2)
                && String.eqb (td_extension_name d1) (td_extension_name d2)
                && String.eqb (td_extension_version d1)
                     (td_extension_version d2))
  | _, _ => Aborted
  end.

End TypeUtil.

(* ================================================================== *)
(** * The life of a [TypeContext] in the cache *)
(* ================================================================== *)

Module ContextCache.
Import CStr SystemTableMap Schema Victionary Uninstall Acquire TypeUtil.
Import MapSpec TypeContextSpec.

(** The key of the descriptor comes from one of the two constructors of
    [TypeDescriptorKey], whose members are private: it is the key the
    three-string constructor builds from the names the descriptor
    reports, or the default one. *)
Definition key_constructed (d : TypeDescriptor) : Prop :=
  td_key d
  = TypeDescriptorKey_make (td_type_name d) (td_extension_name d)
      (td_extension_version d)
  \/ td_key d = TypeDescriptorKey_default.

(** The map of type descriptors as the Victionary keeps it: sorted,
    every descriptor under its own key, every key a constructed one. *)
Definition descriptors_ok (descs : SystemTableMap TypeDescriptor) : Prop :=
  committed_ok descs /\ Forall key_constructed (get_all_committed descs).

(** All that is staged on the cache are deletions. *)
Definition only_deletions (st : SystemTableMap TypeContext) : Prop :=
  forall thd, Forall (fun op => entry op = None) (pending st thd).

(** The invariant of the cache: every context it holds has a matching
    descriptor, and nothing but deletions is staged on it. *)
Definition cache_ok (st : SystemTableMap TypeContext) : Prop :=
  all_contexts_match st /\ only_deletions st.

(** Every place of the sources that works on [m_type_contexts], as a
    step from the cache before to the cache after:
    - [MaybeInjectCustomType] and [ResolveTypeToContext] ([util.cc]),
      the two callers of [acquire_or_create], in a Victionary whose
      descriptor map is well formed (for the first, that every
      descriptor is stored under its own key is enough);
    - [AnnotateCustomColumnsInTmpTable], one [acquire] for each field;
    - [AcquireTypeContextClientManaged];
    - the cleanup [release_shared_ptr_ref] of a holder;
    - [remove_extension_from_victionary] ([sql_extension.cc]), which
      reads the cache and marks contexts for deletion;
    - [commit_all_tables], [rollback_all_tables] and [clear_all_tables]
      ([victionary_client.cc]). *)
Inductive cache_step (ndebug : bool) (lctn : N)
  : SystemTableMap TypeContext -> SystemTableMap TypeContext -> Prop :=
| inject_step (v : VictionaryClient) (thd : THD_ptr)
    (db_name table_name column_name : string)
    (register_cleanup_fails : bool) (r : injected) :
    committed_ok (m_type_descriptors v) ->
    MaybeInjectCustomType ndebug lctn v thd db_name table_name column_name
      register_cleanup_fails = Returned r ->
    cache_step ndebug lctn (m_type_contexts v)
      (m_type_contexts (inj_vclient r))
| resolve_step (v : VictionaryClient) (extension_name type_name : string)
    (register_cleanup_fails : bool) (r : resolved) :
    descriptors_ok (m_type_descriptors v) ->
    ResolveTypeToContext ndebug v extension_name type_name
      register_cleanup_fails = Returned r ->
    cache_step ndebug lctn (m_type_contexts v)
      (m_type_contexts (res_vclient r))
| annotate_step (st : SystemTableMap TypeContext) (k : TypeContextKey)
    (register_cleanup_fails : bool) :
    cache_step ndebug lctn st
      (snd (acquire st (key_str k) register_cleanup_fails))
| client_managed_step (st : SystemTableMap TypeContext)
    (k : TypeContextKey) :
    cache_step ndebug lctn st (snd (acquire_client_managed st k))
| release_step (st : SystemTableMap TypeContext) (ks : string) :
    cache_step ndebug lctn st (release_shared_ptr_ref st ks)
| uninstall_step (v : VictionaryClient) (thd : THD_ptr)
    (extension_name : string) (rm : removal) :
    remove_extension_from_victionary thd v extension_name = Returned rm ->
    cache_step ndebug lctn (m_type_contexts v)
      (m_type_contexts (rm_vclient rm))
| commit_step (v : VictionaryClient) (thd : THD_ptr) :
    cache_step ndebug lctn (m_type_contexts v)
      (m_type_contexts (commit_all_tables v thd))
| rollback_step (v : VictionaryClient) (thd : THD_ptr) :
    cache_step ndebug lctn (m_type_contexts v)
      (m_type_contexts (rollback_all_tables v thd))
| clear_step (v : VictionaryClient) :
    cache_step ndebug lctn (m_type_contexts v)
      (m_type_contexts (clear_all_tables v)).

(** A key that stays in the cache keeps naming the same context. *)
Definition contexts_unchanged (st st' : SystemTableMap TypeContext) : Prop :=
  forall k p p',
    StdMap.find k (m_committed st) = Some p ->
    StdMap.find k (m_committed st') = Some p' ->
    obj p' = obj p.

(** What a call of [MaybeInjectCustomType] or [ResolveTypeToContext]
    leaves of a cache of matching contexts. *)
Definition stays_matching (st st' : SystemTableMap TypeContext) : Prop :=
  all_contexts_match st' /\ m_uncommitted st' = m_uncommitted st
  /\ contexts_unchanged st st'.

End ContextCache.

(* ================================================================== *)
(** * What owning an entry means *)
(* ================================================================== *)

Module OwnerSpec.
Import SystemTableMap.

Section Spec.
Context {E : Type} `{EntryType E}.

(** Every pointer the committed map stores counts the map itself among
    its owners. *)
Definition owners_counted (st : SystemTableMap E) : Prop :=
  Forall (fun kv => 1 <= use_count (snd kv)) (m_committed st).

(** Two states return the same from every lookup. *)
Definition same_lookups (st st' : SystemTableMap E) : Prop :=
  (forall k, get_committed st' k = get_committed st k)
  /\ (forall thd k, get st' thd k = get st thd k)
  /\ get_all_committed st' = get_all_committed st.

End Spec.
End OwnerSpec.

(* ================================================================== *)
(** * What a run of UNINSTALL EXTENSION looks like *)
(* ================================================================== *)

Module UninstallTrace.
Import SystemTableMap Schema Victionary Uninstall UninstallSpec.

Definition registration_eqb (a b : ExtensionRegistration) : bool :=
  (er_registration a =? er_registration b)
  && String.eqb (er_so_path a) (er_so_path b)
  && (er_dlhandle a =? er_dlhandle b)
  && (er_unregister_func a =? er_unregister_func b).

(** Every unload of a shared object comes after the VDFs of the same
    registration were unregistered; [unregistered] collects the
    registrations seen so far. *)
Fixpoint unregistered_before_unload
    (unregistered : list ExtensionRegistration) (t : list event) : bool :=
  match t with
  | [] => true
  | UnregisterVdfs _ reg :: rest =>
      unregistered_before_unload (reg :: unregistered) rest
  | UnloadVefExtension reg :: rest =>
      existsb (registration_eqb reg) unregistered
      && unregistered_before_unload unregistered rest
  | _ :: rest => unregistered_before_unload unregistered rest
  end.

Definition is_error (ev : event) : bool :=
  match ev with VillagesqlError _ => true | _ => false end.

Definition is_write (ev : event) : bool :=
  match ev with WriteAllUncommittedEntries => true | _ => false end.

Definition is_ok (ev : event) : bool :=
  match ev with MyOk => true | _ => false end.

Definition touches_host_state (ev : event) : bool :=
  match ev with
  | WriteAllUncommittedEntries | UnregisterVdfs _ _ | UnloadVefExtension _
  | MyOk => true
  | _ => false
  end.

(** The extension, its descriptor and every type of it are gone from the
    committed maps. *)
Definition extension_gone (v : VictionaryClient) (ext : ExtensionEntry)
  : Prop :=
  get_committed (m_extensions v) (ek_normalized_key (ee_key ext)) = None
  /\ get_committed (m_extension_descriptors v)
       (edk_normalized_key
          (ExtensionDescriptorKey_make (ee_extension_name ext)
             (ee_extension_version ext))) = None
  /\ (forall d, In d (get_all_committed (m_type_descriptors v)) ->
                descriptor_belongs ext d = false)
  /\ (forall c, In c (get_all_committed (m_type_contexts v)) ->
                context_belongs ext c = false).

(** The session has nothing staged in any of the maps of the
    Victionary. *)
Definition nothing_staged (v : VictionaryClient) (thd : THD_ptr) : Prop :=
  pending (m_properties v) thd = []
  /\ pending (m_columns v) thd = []
  /\ pending (m_extensions v) thd = []
  /\ pending (m_type_descriptors v) thd = []
  /\ pending (m_extension_descriptors v) thd = []
  /\ pending (m_type_contexts v) thd = [].

End UninstallTrace.

(* ================================================================== *)
(** * [villagesql/sql/metadata_modifier.cc]: tracking DDL *)
(* ================================================================== *)

Module Ddl.
Import CStr SystemTableMap Schema Victionary MetadataModifier TypeUtil.

(** The statements hold the metadata lock of the tables they name when
    they reach these functions, so the [assert]s on
    [owns_equal_or_stronger_lock] hold and are not spelled out. *)

(** [Metadata_modifier custom_columns;]. *)
Definition Metadata_modifier_new : Metadata_modifier := mkModifier [] [] [] [].

(** The databases [add_columns], [remove_columns] and [alter_columns]
    skip. *)
Definition special_database (db_name : string) : bool :=
  String.eqb db_name "mysql" || String.eqb db_name "sys"
  || String.eqb db_name VILLAGESQL_SCHEMA_NAME.

(** [ColumnEntry(ColumnKey key)]: the key alone. *)
Definition ColumnEntry_of_key (key : ColumnKey) : ColumnEntry :=
  mkColumnEntry key "" "" "".

(** [remove_columns(thd, {db_name, table_name})], both names not null:
    the returned [bool] and the modifier afterwards. *)
Definition remove_columns (lctn : N) (vclient : VictionaryClient)
    (mm : Metadata_modifier) (db_name table_name : string)
  : bool * Metadata_modifier :=
  (* Skip special databases *)
  if special_database db_name then (false, mm)
  else if negb (m_initialized vclient) then (false, mm)
  else
    (* Get all custom columns for this table. *)
    let custom_columns :=
      GetCustomColumnsForTable lctn vclient db_name table_name in
    (false,
     mkModifier (to_add_ mm)
       (to_remove_ mm
        ++ List.map
             (fun entry =>
                ColumnEntry_of_key
                  (ColumnKey_make lctn db_name table_name
                     (ce_column_name entry)))
             custom_columns)%list
       (to_rename_ mm) (to_call_ mm)).

(** [rename_columns_table(thd, old_name, new_name)], no name null. *)
Definition rename_columns_table (lctn : N) (vclient : VictionaryClient)
    (mm : Metadata_modifier) (old_db old_table new_db new_table : string)
  : bool * Metadata_modifier :=
  if negb (m_initialized vclient) then (false, mm)
  else
    let custom_columns :=
      GetCustomColumnsForTable lctn vclient old_db old_table in
    (false,
     mkModifier (to_add_ mm) (to_remove_ mm)
       (to_rename_ mm
        ++ List.map
             (fun old_col =>
                (mkColumnEntry
                   (ColumnKey_make lctn new_db new_table
                      (ce_column_name old_col))
                   (ce_extension_name old_col)
                   (ce_extension_version old_col) (ce_type_name old_col),
                 ce_key old_col))
             custom_columns)%list
       (to_call_ mm)).

(** [add_functions(croutines_list)]; the asserts want both names
    non-empty. *)
Definition add_functions (mm : Metadata_modifier)
    (croutines_list : list Croutine_entry) : checked Metadata_modifier :=
  if forallb (fun routine =>
                negb (is_empty_string (cr_extension_name routine))
                && negb (is_empty_string (cr_function_name routine)))
       croutines_list
  then Returned (mkModifier (to_add_ mm) (to_remove_ mm) (to_rename_ mm)
                   (to_call_ mm ++ croutines_list)%list)
  else Aborted.

(** [process_drop(thd, drop_temporary, tables)]; a table is its
    [(db, table_name)]. *)
Definition process_drop (lctn : N) (host : Host) (vclient : VictionaryClient)
    (thd : THD_ptr) (drop_temporary : bool) (tables : list (string * string))
  : checked apply_result :=
  if drop_temporary
  then Returned (mkApply false None [] Metadata_modifier_new vclient)
  else
    let custom_columns :=
      fold_left
        (fun mm table =>
           snd (remove_columns lctn vclient mm (fst table) (snd table)))
        tables Metadata_modifier_new in
    lock_and_apply host custom_columns vclient thd.

(** [process_rename(thd, table_list)]: [table_list] holds the pairs
    (old, new). *)
Definition process_rename (lctn : N) (host : Host)
    (vclient : VictionaryClient) (thd : THD_ptr)
    (table_list : list ((string * string) * (string * string)))
  : checked apply_result :=
  let custom_columns :=
    fold_left
      (fun mm pair =>
         let '((old_db, old_table), (new_db, new_table)) := pair in
         snd (rename_columns_table lctn vclient mm old_db old_table
                new_db new_table))
      table_list Metadata_modifier_new in
  lock_and_apply host custom_columns vclient thd.

(** [process_calls(thd, croutines_list)]. *)
Definition process_calls (host : Host) (vclient : VictionaryClient)
    (thd : THD_ptr) (croutines_list : list Croutine_entry)
  : checked apply_result :=
  match add_functions Metadata_modifier_new croutines_list with
  | Aborted => Aborted
  | Returned modifier => lock_and_apply host modifier vclient thd
  end.

(** [Metadata_modifier::commit(thd)] and [rollback(thd)]. *)
Definition commit (vclient : VictionaryClient) (thd : THD_ptr)
  : bool * VictionaryClient :=
  if negb (m_initialized vclient) then (false, vclient)
  else (false, commit_all_tables vclient thd).

Definition rollback (vclient : VictionaryClient) (thd : THD_ptr)
  : VictionaryClient :=
  if negb (m_initialized vclient) then vclient
  else rollback_all_tables vclient thd.

End Ddl.

(* ================================================================== *)
(** * What DDL tracking is to achieve *)
(* ================================================================== *)

Module DdlSpec.
Import CStr SystemTableMap Schema Victionary MetadataModifier SemverText.
Import MapSpec.

(** The extension names a modifier refers to, in the order
    [lock_extensions_shared] visits them. *)
Definition referenced_extensions (mm : Metadata_modifier) : list string :=
  (List.map ce_extension_name (to_add_ mm)
   ++ List.map ce_extension_name (to_remove_ mm)
   ++ List.map (fun p => ce_extension_name (fst p)) (to_rename_ mm)
   ++ List.map cr_extension_name (to_call_ mm))%list.

(** The names [add_mdl_request] accepts out of [names], given the ones
    [seen] before. *)
Fixpoint fresh (names seen : list string) : list string :=
  match names with
  | [] => []
  | n :: rest =>
      if is_empty_string n || existsb (String.eqb n) seen
      then fresh rest seen
      else n :: fresh rest (n :: seen)
  end.

(** The column entries a modifier carries. *)
Definition carried_columns (mm : Metadata_modifier) : list ColumnEntry :=
  (to_add_ mm ++ to_remove_ mm ++ List.map fst (to_rename_ mm))%list.

(** The entry names a type that is committed with the very extension
    name and version of the entry. *)
Definition type_is_installed (v : VictionaryClient) (entry : ColumnEntry)
  : Prop :=
  exists d,
    get_committed (m_type_descriptors v)
      (tdk_normalized_key
         (TypeDescriptorKey_make (ce_type_name entry)
            (ce_extension_name entry) (ce_extension_version entry)))
    = Some d
    /\ td_extension_name d = ce_extension_name entry
    /\ td_extension_version d = ce_extension_version entry.

(** All maps but [columns] are the same objects, and the committed
    columns are. *)
Definition only_columns_staged (v v' : VictionaryClient) : Prop :=
  m_initialized v' = m_initialized v
  /\ m_properties v' = m_properties v
  /\ m_extensions v' = m_extensions v
  /\ m_type_descriptors v' = m_type_descriptors v
  /\ m_extension_descriptors v' = m_extension_descriptors v
  /\ m_type_contexts v' = m_type_contexts v
  /\ m_committed (m_columns v') = m_committed (m_columns v).

Definition table_prefix (lctn : N) (db_name table_name : string) : string :=
  ckp_normalized_prefix (ColumnKeyPrefix_make lctn db_name table_name).

(** The entry is stored under the key of a column of the table
    [db_name.table_name]: the key that [ColumnKey(db_name, table_name,
    column_name)] builds for the entry's own column name. *)
Definition column_of (lctn : N) (db_name table_name : string)
    (e : ColumnEntry) : Prop :=
  ck_normalized_key (ce_key e)
  = ck_normalized_key
      (ColumnKey_make lctn db_name table_name (ce_column_name e)).

(** Whatever [GetCustomColumnsForTable] finds for the table is a column
    of the table.  The query goes by key prefix, so it also finds the
    columns of a table whose name goes on after this one's with a dot
    ([t.u] for [t]); this says the Victionary holds none of those. *)
Definition finds_own_columns (lctn : N) (v : VictionaryClient)
    (db_name table_name : string) : Prop :=
  Forall (column_of lctn db_name table_name)
    (GetCustomColumnsForTable lctn v db_name table_name).

End DdlSpec.

(* ================================================================== *)
(** * The order of versions, three ways *)
(* ================================================================== *)

Module SemverOrder.
Import CStr Semver SemverSpec.

(** Two comparisons, the first one deciding unless it says [Eq]. *)
Definition lex_pair {A B} (ca : A -> A -> comparison)
    (cb : B -> B -> comparison) (x y : A * B) : comparison :=
  match ca (fst x) (fst y) with
  | Eq => cb (snd x) (snd y)
  | c => c
  end.

(** Pre-release lists: the empty list (a release) is above every other
    one; two non-empty lists compare identifier by identifier. *)
Definition prerelease_compare (l r : list identifier) : comparison :=
  match l, r with
  | [], [] => Eq
  | [], _ :: _ => Gt
  | _ :: _, [] => Lt
  | _, _ => identifiers_compare l r
  end.

(** What of a version takes part in comparisons. *)
Definition precedence_key (v : Semver)
  : N * (N * (N * list identifier)) :=
  (major_ v, (minor_ v, (patch_ v, List.map classify (prerelease_ v)))).

Definition key_compare
  : N * (N * (N * list identifier)) -> N * (N * (N * list identifier))
    -> comparison :=
  lex_pair N.compare
    (lex_pair N.compare (lex_pair N.compare prerelease_compare)).

Definition version_compare (a b : Semver) : comparison :=
  key_compare (precedence_key a) (precedence_key b).

(** A comparison that is a strict total order: swapping the arguments
    swaps the outcome, [Lt] is transitive, and [Eq] is equality. *)
Record strict_total {T} (cmp : T -> T -> comparison) : Prop := mkStrictTotal {
  cmp_swap : forall x y, cmp y x = CompOpp (cmp x y);
  cmp_trans : forall x y z, cmp x y = Lt -> cmp y z = Lt -> cmp x z = Lt;
  cmp_eq : forall x y, cmp x y = Eq -> x = y;
  cmp_refl : forall x, cmp x x = Eq
}.

(** Lists compare element by element; a strict prefix is smaller. *)
Fixpoint list_compare {T} (cmp : T -> T -> comparison) (l r : list T)
  : comparison :=
  match l, r with
  | [], [] => Eq
  | [], _ :: _ => Lt
  | _ :: _, [] => Gt
  | a :: l', b :: r' =>
      match cmp a b with
      | Eq => list_compare cmp l' r'
      | c => c
      end
  end.

(** The state of a valid [Semver] that [compare_prerelease] can handle
    without an exception: checked identifiers, the numeric ones within
    [unsigned long]. *)
Definition comparable (v : Semver) : bool :=
  valid_ v
  && forallb SemverText.prerelease_id_ok (prerelease_ v)
  && numeric_in_range (prerelease_ v).

End SemverOrder.

(* ================================================================== *)
(** * What RENAME TABLE makes of a column entry *)
(* ================================================================== *)

Module RenameSpec.
Import CStr SystemTableMap Schema.

(** The entry [rename_columns_table] builds for a column of the old
    table: the same column, extension, version and type under the new
    database and table. *)
Definition renamed (lctn : N) (new_db new_table : string)
    (old_col : ColumnEntry) : ColumnEntry :=
  mkColumnEntry
    (ColumnKey_make lctn new_db new_table (ce_column_name old_col))
    (ce_extension_name old_col) (ce_extension_version old_col)
    (ce_type_name old_col).

(** The update [mark_victionary_modifications] stages for it. *)
Definition rename_op (lctn : N) (new_db new_table : string)
    (old_col : ColumnEntry) : PendingOperation ColumnEntry :=
  @PendingUpdate ColumnEntry ColumnEntry_entry
    (renamed lctn new_db new_table old_col) (ce_key old_col).

End RenameSpec.

(* ================================================================== *)
(** * [villagesql/types/util.cc]: renaming a table in place *)
(* ================================================================== *)

Module TableRename.
Import CStr SystemTableMap Schema Victionary.

(** [HandleCustomColumnsForTableRename(thd, old_db, old_table, new_db,
    new_table)], called with the write lock held: the returned [bool]
    and the Victionary afterwards.  [MarkForUpdate] never reports a
    failure, so the error return is not taken. *)
Definition HandleCustomColumnsForTableRename (lctn : N)
    (vclient : VictionaryClient) (thd : THD_ptr)
    (old_db old_table new_db new_table : string)
  : bool * VictionaryClient :=
  if negb (m_initialized vclient) then (false, vclient)
  else
    (* Get all custom columns for the old table *)
    let custom_columns :=
      GetCustomColumnsForTable lctn vclient old_db old_table in
    match custom_columns with
    | [] => (false, vclient) (* No custom columns to rename *)
    | _ =>
        (* Mark each column for update with new db/table names *)
        (false,
         with_columns vclient
           (fold_left
              (fun columns old_col =>
                 let new_entry :=
                   mkColumnEntry
                     (ColumnKey_make lctn new_db new_table
                        (ce_column_name old_col))
                     (ce_extension_name old_col)
                     (ce_extension_version old_col)
                     (ce_type_name old_col) in
                 snd (MarkForUpdate columns thd new_entry (ce_key old_col)))
              custom_columns (m_columns vclient)))
    end.

End TableRename.

(* ================================================================== *)
(** * Type parameters without separators *)
(* ================================================================== *)

Module ParametersSpec.
Import CStr Schema SemverText.

(** Neither a name nor a value contains [;] or [=], the separators of
    the normalized key. *)
Definition separator_free (params : StdMap.t string) : bool :=
  forallb (fun kv : string * string =>
             lacks ";" (fst kv) && lacks "=" (fst kv)
             && lacks ";" (snd kv) && lacks "=" (snd kv)) params.

(** [operator==] of [TypeParameters]. *)
Definition TypeParameters_eqb (a b : TypeParameters) : bool :=
  String.eqb (tp_normalized_key a) (tp_normalized_key b).

End ParametersSpec.

(* ================================================================== *)
(** * [villagesql/sql/metadata_modifier.cc]: CREATE and ALTER TABLE *)
(* ================================================================== *)

Module Create.
Import CStr SystemTableMap Schema Victionary MetadataModifier Ddl.

(** What [add_columns] and [alter_columns] read of a [Create_field]: its
    name, [change] (the name of the column that MODIFY or CHANGE COLUMN
    replaces, null otherwise) and its [custom_type_context], null for a
    column of a built-in type. *)
Record Create_field : Type := mkCreate_field {
  field_name : string;
  change : option string;
  custom_type_context : option TypeContext
}.

(** What [ensure_engine_is_innodb] reads of a [handlerton]: whether
    [db_type] is [DB_TYPE_INNODB], and the name
    [ha_resolve_storage_engine_name] gives it. *)
Record handlerton : Type := mkHandlerton {
  is_innodb : bool;
  storage_engine_name : string
}.

(** What [process_create] reads of [HA_CREATE_INFO]: the
    [HA_LEX_CREATE_TMP_TABLE] bit of [options], and [db_type]. *)
Record HA_CREATE_INFO : Type := mkCreateInfo {
  create_tmp_table : bool;
  db_type : option handlerton
}.

(** [ensure_engine_is_innodb(hton, operation)]: the error it reports, if
    any.  [assert(hton)] stops on a null [hton]. *)
Definition ensure_engine_is_innodb (hton : option handlerton)
    (operation : string) : checked (option string) :=
  match hton with
  | None => Aborted
  | Some h =>
      if negb (is_innodb h)
      then Returned
             (Some ("Custom types are only supported with InnoDB storage engine. "
                    ++ "Cannot " ++ operation ++ " with "
                    ++ storage_engine_name h ++ " storage engine."))
      else Returned None
  end.

(** The test of the inner loop of [add_columns]; [same_name a b] is
    [my_strcasecmp(system_charset_info, a, b) == 0], a function of the
    host. *)
Definition duplicate_of (same_name : string -> string -> bool)
    (db_name table_name field : string) (entry : ColumnEntry) : bool :=
  same_name field (ce_column_name entry)
  && same_name db_name (ce_db_name entry)
  && same_name table_name (ce_table_name entry).

(** One iteration of the loop over the create list. *)
Definition add_column (lctn : N) (same_name : string -> string -> bool)
    (db_name table_name : string) (to_add : list ColumnEntry)
    (create_field : Create_field) : checked (list ColumnEntry) :=
  match custom_type_context create_field with
  | None => Returned to_add (* Not a custom type column. *)
  | Some type_context =>
      (* Skip duplicate column entries. *)
      if existsb (duplicate_of same_name db_name table_name
                    (field_name create_field)) to_add
      then Returned to_add
      else
        (* This column uses a custom type - create entry. *)
        match descriptor_ type_context with
        | None => Aborted
        | Some d =>
            Returned
              (to_add
               ++ [mkColumnEntry
                     (ColumnKey_make lctn db_name table_name
                        (field_name create_field))
                     (td_extension_name d) (td_extension_version d)
                     (td_type_name d)])%list
        end
  end.

(** The entry [to_add_.emplace_back] builds for a column and its type
    context; the accessors of the context dereference [descriptor_]. *)
Definition new_entry (lctn : N) (db_name table_name : string)
    (create_field : Create_field) (type_context : TypeContext)
  : checked ColumnEntry :=
  match descriptor_ type_context with
  | None => Aborted
  | Some d =>
      Returned
        (mkColumnEntry
           (ColumnKey_make lctn db_name table_name (field_name create_field))
           (td_extension_name d) (td_extension_version d) (td_type_name d))
  end.

(** [add_columns(thd, {db_name, table_name}, create_fields)], both names
    not null and the table locked: the returned [bool] and the modifier
    afterwards. *)
Definition add_columns (lctn : N) (same_name : string -> string -> bool)
    (mm : Metadata_modifier) (db_name table_name : string)
    (create_fields : list Create_field)
  : checked (bool * Metadata_modifier) :=
  (* Skip special databases *)
  if special_database db_name then Returned (false, mm)
  else
    match
      fold_left
        (fun acc create_field =>
           match acc with
           | Aborted => Aborted
           | Returned to_add =>
               add_column lctn same_name db_name table_name to_add
                 create_field
           end)
        create_fields (Returned (to_add_ mm))
    with
    | Aborted => Aborted
    | Returned to_add =>
        Returned (false,
                  mkModifier to_add (to_remove_ mm) (to_rename_ mm)
                    (to_call_ mm))
    end.

(** [process_create(thd, create_info, alter_info, db, table_name)];
    [alter_info] is its [create_list]. *)
Definition process_create (lctn : N) (same_name : string -> string -> bool)
    (host : Host) (vclient : VictionaryClient) (thd : THD_ptr)
    (create_info : option HA_CREATE_INFO)
    (alter_info : option (list Create_field)) (db table_name : string)
  : checked apply_result :=
  let nothing := mkApply false None [] Metadata_modifier_new vclient in
  match create_info, alter_info with
  | Some create_info, Some create_list =>
      if create_tmp_table create_info then Returned nothing
      else
        match add_columns lctn same_name Metadata_modifier_new db table_name
                create_list with
        | Aborted => Aborted
        | Returned (true, custom_columns) =>
            Returned (mkApply true None [] custom_columns vclient)
        | Returned (false, custom_columns) =>
            (* Check storage engine if custom columns were added *)
            let engine :=
              if has_entries custom_columns
              then ensure_engine_is_innodb (db_type create_info)
                     "create table"
              else Returned None in
            match engine with
            | Aborted => Aborted
            | Returned (Some msg) =>
                Returned (mkApply true (Some msg) [] custom_columns vclient)
            | Returned None => lock_and_apply host custom_columns vclient thd
            end
        end
  | _, _ => Returned nothing
  end.

(** ** ALTER TABLE *)

(** An [Alter_drop]: whether its [type] is [Alter_drop::COLUMN], and its
    [name]. *)
Record Alter_drop : Type := mkAlter_drop {
  drop_is_column : bool;
  drop_name : string
}.

(** An [Alter_column]: whether [change_type()] is [RENAME_COLUMN], its
    [name] and its [m_new_name]. *)
Record Alter_column : Type := mkAlter_column {
  is_rename_column : bool;
  alter_name : string;
  m_new_name : string
}.

(** What [alter_columns] reads of an [Alter_info]: the [ALTER_RENAME]
    bit of [flags], the new names (null when absent) and the three
    lists. *)
Record Alter_info : Type := mkAlter_info {
  alter_rename : bool;
  new_db_name : option string;
  new_table_name : option string;
  drop_list : list Alter_drop;
  alter_list : list Alter_column;
  create_list : list Create_field
}.

(** [custom_column_names.count(name)]. *)
Definition names_count (custom_column_names : list string) (name : string)
  : bool :=
  existsb (String.eqb name) custom_column_names.

(** 1. Handle DROP COLUMN - delete from custom_columns if custom type. *)
Definition alter_drops (lctn : N) (db_name table_name : string)
    (custom_column_names : list string) (drops : list Alter_drop)
    (to_remove : list ColumnEntry) : list ColumnEntry :=
  fold_left
    (fun to_remove drop =>
       if drop_is_column drop
          && names_count custom_column_names (drop_name drop)
       then (to_remove
             ++ [ColumnEntry_of_key
                   (ColumnKey_make lctn db_name table_name (drop_name drop))])
            %list
       else to_remove)
    drops to_remove.

(** 2. Handle RENAME COLUMN - update custom_columns entry. *)
Definition alter_renames (lctn : N) (db_name table_name : string)
    (custom_columns : list ColumnEntry) (custom_column_names : list string)
    (alters : list Alter_column) (to_rename : list (ColumnEntry * ColumnKey))
  : list (ColumnEntry * ColumnKey) :=
  fold_left
    (fun to_rename alter =>
       if is_rename_column alter
          && names_count custom_column_names (alter_name alter)
       then
         (* Find the existing entry to get full metadata *)
         match List.find
                 (fun col => String.eqb (ce_column_name col)
                               (alter_name alter))
                 custom_columns with
         | Some old_entry =>
             (* Create new entry with renamed column *)
             (to_rename
              ++ [(mkColumnEntry
                     (ColumnKey_make lctn db_name table_name
                        (m_new_name alter))
                     (ce_extension_name old_entry)
                     (ce_extension_version old_entry)
                     (ce_type_name old_entry),
                   ce_key old_entry)])%list
         | None => to_rename
         end
       else to_rename)
    alters to_rename.

(** 3. Handle ADD/MODIFY/CHANGE COLUMN from create_list: one column, on
    the two vectors [(to_add, to_remove)]. *)
Definition alter_field (lctn : N) (db_name table_name : string)
    (custom_column_names : list string)
    (acc : list ColumnEntry * list ColumnEntry) (field : Create_field)
  : checked (list ColumnEntry * list ColumnEntry) :=
  let '(to_add, to_remove) := acc in
  let removal (name : string) :=
    (to_remove
     ++ [ColumnEntry_of_key (ColumnKey_make lctn db_name table_name name)])
    %list in
  let addition (type_context : TypeContext) (to_remove : list ColumnEntry) :=
    match new_entry lctn db_name table_name field type_context with
    | Aborted => Aborted
    | Returned entry => Returned ((to_add ++ [entry])%list, to_remove)
    end in
  match change field with
  | Some old_name =>
      (* This is MODIFY COLUMN or CHANGE COLUMN *)
      let was_custom_type := names_count custom_column_names old_name in
      match was_custom_type, custom_type_context field with
      | true, None =>
          (* Changing FROM custom TO non-custom - delete entry *)
          Returned (to_add, removal old_name)
      | false, Some type_context =>
          (* Changing FROM non-custom TO custom - insert entry *)
          addition type_context to_remove
      | true, Some type_context =>
          (* Changing FROM custom TO custom - use delete-then-insert
             pattern *)
          addition type_context (removal old_name)
      | false, None => Returned acc
      end
  | None =>
      match custom_type_context field with
      | Some type_context =>
          (* This is ADD COLUMN with custom type - insert entry *)
          addition type_context to_remove
      | None => Returned acc
      end
  end.

(** [alter_columns(thd, {db_name, table_name}, alter_info)], both names
    not null and the table locked. *)
Definition alter_columns (lctn : N) (vclient : VictionaryClient)
    (mm : Metadata_modifier) (db_name table_name : string)
    (alter_info : option Alter_info) : checked (bool * Metadata_modifier) :=
  match alter_info with
  | None => Returned (false, mm) (* No alter info, nothing to do *)
  | Some alter_info =>
  (* Skip special databases *)
  if special_database db_name then Returned (false, mm)
  else if negb (m_initialized vclient) then Returned (false, mm)
  else
    (* 0. Handle ALTER TABLE RENAME - update all custom columns with new
          table name *)
    let renamed :=
      match alter_rename alter_info, new_table_name alter_info with
      | true, Some new_table =>
          let new_db := default db_name (new_db_name alter_info) in
          rename_columns_table lctn vclient mm db_name table_name new_db
            new_table
      | _, _ => (false, mm)
      end in
    if fst renamed then Returned (true, snd renamed)
    else
      let mm := snd renamed in
      (* Get all current custom columns for this table *)
      let custom_columns :=
        GetCustomColumnsForTable lctn vclient db_name table_name in
      (* Build a set of custom column names for fast lookup *)
      let custom_column_names := List.map ce_column_name custom_columns in
      let to_remove :=
        alter_drops lctn db_name table_name custom_column_names
          (drop_list alter_info) (to_remove_ mm) in
      let to_rename :=
        alter_renames lctn db_name table_name custom_columns
          custom_column_names (alter_list alter_info) (to_rename_ mm) in
      match
        fold_left
          (fun acc field =>
             match acc with
             | Aborted => Aborted
             | Returned acc =>
                 alter_field lctn db_name table_name custom_column_names
                   acc field
             end)
          (create_list alter_info) (Returned (to_add_ mm, to_remove))
      with
      | Aborted => Aborted
      | Returned (to_add, to_remove) =>
          Returned (false, mkModifier to_add to_remove to_rename (to_call_ mm))
      end
  end.

(** What [process_alter] reads of its [Table_ref]: the names, and of
    [table] (null when the table is not open) whether [s->tmp_table]
    differs from [NO_TMP_TABLE], and [s->db_type()]. *)
Record TABLE : Type := mkTABLE {
  is_tmp_table : bool;
  share_db_type : option handlerton
}.

Record Table_ref : Type := mkTable_ref {
  tr_db : string;
  tr_table_name : string;
  tr_table : option TABLE
}.

(** [process_alter(thd, table_list, alter_info)]. *)
Definition process_alter (lctn : N) (host : Host)
    (vclient : VictionaryClient) (thd : THD_ptr)
    (table_list : option Table_ref) (alter_info : option Alter_info)
  : checked apply_result :=
  let nothing := mkApply false None [] Metadata_modifier_new vclient in
  match table_list with
  | None => Returned nothing
  | Some table_list =>
      match tr_table table_list with
      | None => Returned nothing
      | Some table =>
          if is_tmp_table table then Returned nothing
          else
            match alter_columns lctn vclient Metadata_modifier_new
                    (tr_db table_list) (tr_table_name table_list)
                    alter_info with
            | Aborted => Aborted
            | Returned (true, custom_columns) =>
                Returned (mkApply true None [] custom_columns vclient)
            | Returned (false, custom_columns) =>
                (* Check storage engine if custom columns are being
                   added. *)
                let engine :=
                  if has_entries custom_columns
                  then ensure_engine_is_innodb (share_db_type table)
                         "alter table"
                  else Returned None in
                match engine with
                | Aborted => Aborted
                | Returned (Some msg) =>
                    Returned
                      (mkApply true (Some msg) [] custom_columns vclient)
                | Returned None =>
                    lock_and_apply host custom_columns vclient thd
                end
            end
      end
  end.

End Create.

(* ================================================================== *)
(** * What CREATE TABLE is to record *)
(* ================================================================== *)

Module CreateSpec.
Import CStr SystemTableMap Schema Create.

(** The entry of a column of the create list whose type context holds
    the descriptor [d]. *)
Definition entry_of (lctn : N) (db_name table_name : string)
    (create_field : Create_field) (d : TypeDescriptor) : ColumnEntry :=
  mkColumnEntry
    (ColumnKey_make lctn db_name table_name (field_name create_field))
    (td_extension_name d) (td_extension_version d) (td_type_name d).

(** The column has a custom type, and its context holds [d]. *)
Definition custom_with (create_field : Create_field) (d : TypeDescriptor)
  : Prop :=
  exists type_context,
    custom_type_context create_field = Some type_context
    /\ descriptor_ type_context = Some d.

(** The entries of the custom columns of a create list, in its order. *)
Definition entries_of (lctn : N) (db_name table_name : string)
    (create_fields : list Create_field) : list ColumnEntry :=
  flat_map
    (fun create_field =>
       match custom_type_context create_field with
       | Some type_context =>
           match descriptor_ type_context with
           | Some d => [entry_of lctn db_name table_name create_field d]
           | None => []
           end
       | None => []
       end)
    create_fields.

(** No column of the list has the name of an earlier one, as far as
    [my_strcasecmp] can tell. *)
Fixpoint no_repeated_name (same_name : string -> string -> bool)
    (names : list string) : bool :=
  match names with
  | [] => true
  | earlier :: rest =>
      forallb (fun later => negb (same_name later earlier)) rest
      && no_repeated_name same_name rest
  end.

Definition is_custom (create_field : Create_field) : bool :=
  match custom_type_context create_field with
  | Some _ => true
  | None => false
  end.

End CreateSpec.

(* ================================================================== *)
(** * More scenarios *)
(* ================================================================== *)

Module MoreScenarios.
Import CStr SystemTableMap Schema Victionary MetadataModifier Scenario.

(** A second session. *)
Definition other_thd : THD_ptr := 4661.

(** CREATE TABLE db.t (x COMPLEX) under way in session [thd]: the column
    is staged, not committed. *)
Definition creating_table : VictionaryClient :=
  with_columns installed
    (snd (MarkForInsertion (m_columns installed) thd column_x)).

(** A host on which every lock is granted, every function is found and
    the system table opens. *)
Definition ddl_host_ok : MetadataModifier.Host :=
  MetadataModifier.mkHost false (fun _ _ => true) false.

(** The type context of [COMPLEX]. *)
Definition complex_context : TypeContext :=
  mkTypeContext (Some complex_descriptor) complex_context_key.

(** CREATE TABLE db.t (x COMPLEX), as the planning phase collects it. *)
Definition create_x : Metadata_modifier :=
  mkModifier [column_x] [] [] [].

End MoreScenarios.

(* ================================================================== *)
(** * Scenarios of CREATE and ALTER TABLE *)
(* ================================================================== *)

Module DdlScenarios.
Import CStr SystemTableMap Schema Victionary MetadataModifier Create.
Import Scenario MoreScenarios.

(** [my_strcasecmp] on ASCII names. *)
Definition same_name (a b : string) : bool :=
  String.eqb (casedn a) (casedn b).

Definition innodb : handlerton := mkHandlerton true "InnoDB".
Definition myisam : handlerton := mkHandlerton false "MyISAM".

(** The create list of [(n INT, x COMPLEX)]. *)
Definition field_n : Create_field := mkCreate_field "n" None None.
Definition field_x : Create_field :=
  mkCreate_field "x" None (Some complex_context).

Definition create_n_x : list Create_field := [field_n; field_x].

(** The open base table [db.t] on InnoDB. *)
Definition table_t : TABLE := mkTABLE false (Some innodb).

(** The parameters of [VECTOR(1536, cosine)] and of [VECTOR(3, cosine)]. *)
Definition vector_1536 : StdMap.t string :=
  [("dimension", "1536"); ("metric", "cosine")].
Definition vector_3 : StdMap.t string :=
  [("dimension", "3"); ("metric", "cosine")].

End DdlScenarios.

(* ================================================================== *)
(** * Facts about [Semver] *)
(* ================================================================== *)

Module SemverProofs.
Import CStr Semver SemverSpec.

(** ** The loops of [parse] terminate within their fuel *)

Lemma length_drop_le (n : nat) (s : string) :
  (String.length (drop n s) <= String.length s)%nat.
Proof.
  revert s; induction n as [|n IH]; intros [|c r]; simpl; try lia.
  specialize (IH r); lia.
Qed.

Lemma remove_prefix_1 (c : ascii) (r : string) :
  remove_prefix 1 (String c r) = r.
Proof. reflexivity. Qed.

Lemma split_prerelease_fuel (fuel : nat) :
  forall s acc, (String.length s <= fuel)%nat ->
                split_prerelease fuel s acc <> SplitOutOfFuel.
Proof.
  induction fuel as [|fuel IH]; intros [|c r] acc Hlen; simpl in *;
    try discriminate; try lia.
  destruct (negb _); [discriminate|].
  destruct (_ && _); [discriminate|].
  apply IH. rewrite remove_prefix_1. unfold remove_prefix.
  pose proof (length_drop_le (N.to_nat (size (substr r 0 (find "." r)))) r).
  lia.
Qed.

Lemma split_build_fuel (fuel : nat) :
  forall s acc, (String.length s <= fuel)%nat ->
                split_build fuel s acc <> SplitOutOfFuel.
Proof.
  induction fuel as [|fuel IH]; intros [|c r] acc Hlen; simpl in *;
    try discriminate; try lia.
  destruct (negb _); [discriminate|].
  apply IH. rewrite remove_prefix_1. unfold remove_prefix.
  pose proof (length_drop_le (N.to_nat (size (substr r 0 (find "." r)))) r).
  lia.
Qed.

(** [parse] always returns: it never runs out of the fuel it is given. *)
Lemma parse_returns (s : string) : parse s <> ParseOutOfFuel.
Proof.
  unfold parse. destruct s as [|c0 s0]; [discriminate|].
  set (s := String c0 s0).
  destruct (negb (count "." _ =? 2)); [discriminate|].
  destruct (_ || _ || _); [discriminate|].
  destruct (_ || _ || _); [discriminate|].
  destruct (_ || _ || _); [discriminate|].
  match goal with
  | |- context [front_is "-" ?x] => destruct (front_is "-" x)
  end.
  - match goal with
    | |- context [split_prerelease ?f ?x ?a] =>
        pose proof (split_prerelease_fuel f x a (Nat.le_refl _)) as Hpre;
        destruct (split_prerelease f x a) as [[|i ids]|msg|]
    end; try discriminate; try congruence.
    match goal with
    | |- context [front_is "+" ?x] => destruct (front_is "+" x)
    end; [|discriminate].
    match goal with
    | |- context [split_build ?f ?x ?a] =>
        pose proof (split_build_fuel f x a (Nat.le_refl _)) as Hb;
        destruct (split_build f x a) as [[|j js]|msg|]
    end; try discriminate; congruence.
  - match goal with
    | |- context [front_is "+" ?x] => destruct (front_is "+" x)
    end; [|discriminate].
    match goal with
    | |- context [split_build ?f ?x ?a] =>
        pose proof (split_build_fuel f x a (Nat.le_refl _)) as Hb;
        destruct (split_build f x a) as [[|j js]|msg|]
    end; try discriminate; congruence.
Qed.

(** ** The examples of the specification *)

Lemma precedence_chain_pairwise :
  forallb (fun p => match op_lt (v (fst p)) (v (snd p)) with
                    | Some true => true
                    | _ => false
                    end)
    (ordered_pairs precedence_chain) = true.
Proof. vm_compute. reflexivity. Qed.

Lemma precedence_chain_valid :
  forallb (fun s => is_valid (v s)) precedence_chain = true.
Proof. vm_compute. reflexivity. Qed.

Lemma build_metadata_equal_example :
  op_eq (v "1.0.0+build1") (v "1.0.0+build2") = true.
Proof. vm_compute. reflexivity. Qed.

Lemma leading_zero_rejected_example :
  parse "01.2.3" = ParseError "Version numbers must not have leading zeros"
  /\ parse "1.02.3" = ParseError "Version numbers must not have leading zeros"
  /\ parse "1.2.03" = ParseError "Version numbers must not have leading zeros"
  /\ parse "1.2.3-01"
     = ParseError "Numeric pre-release identifiers must not have leading zeros".
Proof. vm_compute. repeat split; reflexivity. Qed.

(** Build metadata takes no part in [operator==] and [operator<]. *)
Lemma build_metadata_ignored (a b : Semver) (ba bb : list string) :
  let a' := mkSemver (major_ a) (minor_ a) (patch_ a) (prerelease_ a) ba
              (valid_ a) in
  let b' := mkSemver (major_ b) (minor_ b) (patch_ b) (prerelease_ b) bb
              (valid_ b) in
  op_eq a' b' = op_eq a b /\ op_lt a' b' = op_lt a b.
Proof. destruct a, b; split; reflexivity. Qed.

(** ** [operator<] against the precedence of SemVer 2.0.0 *)

Lemma stoul_numeric (id : string) :
  is_numeric id = true -> (digits_value id 0 <=? ULONG_MAX) = true ->
  stoul id = Some (digits_value id 0).
Proof.
  destruct id as [|c r]; [discriminate|].
  unfold is_numeric, stoul. cbn [all_of].
  intros Hnum Hfit. apply andb_true_iff in Hnum as [Hc _].
  now rewrite Hc, Hfit.
Qed.

Lemma compare_identifiers_spec (ls : list string) :
  forall rs,
    numeric_in_range ls = true -> numeric_in_range rs = true ->
    compare_identifiers ls rs
    = Some (sign (common_compare (List.map classify ls)
                    (List.map classify rs))).
Proof.
  induction ls as [|l ls IH]; intros [|r rs] Hl Hr; try reflexivity.
  cbn [numeric_in_range forallb] in Hl, Hr.
  apply andb_true_iff in Hl as [Hl Hls].
  apply andb_true_iff in Hr as [Hr Hrs].
  cbn [compare_identifiers List.map common_compare].
  destruct (is_numeric l) eqn:Nl, (is_numeric r) eqn:Nr;
    cbn [andb negb orb] in *.
  - assert (Hcl : classify l = Numeric (digits_value l 0))
      by (unfold classify; now rewrite Nl).
    assert (Hcr : classify r = Numeric (digits_value r 0))
      by (unfold classify; now rewrite Nr).
    rewrite Hcl, Hcr. cbn [identifier_compare].
    rewrite (stoul_numeric l Nl Hl), (stoul_numeric r Nr Hr).
    unfold N.ltb. rewrite (N.compare_antisym (digits_value l 0)).
    destruct (N.compare (digits_value l 0) (digits_value r 0));
      cbn [CompOpp sign]; try reflexivity.
    now apply IH.
  - assert (Hcl : classify l = Numeric (digits_value l 0))
      by (unfold classify; now rewrite Nl).
    assert (Hcr : classify r = Alphanumeric r)
      by (unfold classify; now rewrite Nr).
    now rewrite Hcl, Hcr.
  - assert (Hcl : classify l = Alphanumeric l)
      by (unfold classify; now rewrite Nl).
    assert (Hcr : classify r = Numeric (digits_value r 0))
      by (unfold classify; now rewrite Nr).
    now rewrite Hcl, Hcr.
  - assert (Hcl : classify l = Alphanumeric l)
      by (unfold classify; now rewrite Nl).
    assert (Hcr : classify r = Alphanumeric r)
      by (unfold classify; now rewrite Nr).
    rewrite Hcl, Hcr. cbn [identifier_compare].
    unfold str_lt, String.ltb. rewrite (String.compare_antisym r l).
    destruct (String.compare l r); cbn [CompOpp sign]; try reflexivity.
    now apply IH.
Qed.

Lemma identifiers_compare_common (l : list identifier) :
  forall r,
    identifiers_compare l r
    = match common_compare l r with
      | Eq => Nat.compare (List.length l) (List.length r)
      | c => c
      end.
Proof.
  induction l as [|a l IH]; intros [|b r]; try reflexivity.
  cbn [identifiers_compare common_compare List.length].
  destruct (identifier_compare a b); try reflexivity.
  rewrite IH. now destruct (common_compare l r).
Qed.

(** For valid versions whose numeric pre-release identifiers fit an
    [unsigned long], [operator<] is the precedence of SemVer 2.0.0. *)
Lemma op_lt_is_precedence (a b : Semver) :
  is_valid a = true -> is_valid b = true ->
  numeric_in_range (prerelease_ a) = true ->
  numeric_in_range (prerelease_ b) = true ->
  op_lt a b = Some (precedes a b).
Proof.
  unfold is_valid, op_lt, precedes. intros -> -> Ha Hb.
  cbn [negb orb].
  destruct (N.eqb_spec (major_ a) (major_ b)) as [->|Hmaj]; cbn [negb].
  2:{ unfold N.ltb. destruct (N.compare_spec (major_ a) (major_ b));
        [contradiction | reflexivity | reflexivity]. }
  rewrite N.compare_refl.
  destruct (N.eqb_spec (minor_ a) (minor_ b)) as [->|Hmin]; cbn [negb].
  2:{ unfold N.ltb. destruct (N.compare_spec (minor_ a) (minor_ b));
        [contradiction | reflexivity | reflexivity]. }
  rewrite N.compare_refl.
  destruct (N.eqb_spec (patch_ a) (patch_ b)) as [->|Hpat]; cbn [negb].
  2:{ unfold N.ltb. destruct (N.compare_spec (patch_ a) (patch_ b));
        [contradiction | reflexivity | reflexivity]. }
  rewrite N.compare_refl.
  unfold compare_prerelease.
  destruct (prerelease_ a) as [|x xs] eqn:Hpa;
    destruct (prerelease_ b) as [|y ys] eqn:Hpb; try reflexivity.
  cbn [Semver.is_nil negb andb].
  rewrite compare_identifiers_spec by assumption.
  rewrite identifiers_compare_common.
  rewrite !List.length_map.
  destruct (common_compare (List.map classify (x :: xs))
              (List.map classify (y :: ys))); cbn [sign]; try reflexivity.
  destruct (Nat.ltb_spec (List.length (x :: xs)) (List.length (y :: ys)))
    as [Hlt|Hge].
  - apply Nat.compare_lt_iff in Hlt. now rewrite Hlt.
  - destruct (Nat.ltb_spec (List.length (y :: ys)) (List.length (x :: xs)))
      as [Hgt|Hle].
    + apply Nat.compare_gt_iff in Hgt. now rewrite Hgt.
    + assert (Heq : List.length (x :: xs) = List.length (y :: ys)) by lia.
      apply Nat.compare_eq_iff in Heq. now rewrite Heq.
Qed.

(** ** Comparisons with an invalid version *)

(** C9.  Whenever one of two versions is invalid, [a == b] and [a < b]
    are both false; so an invalid version is not equal to itself, and,
    [operator>] being the negation of [operator<=], two invalid versions
    are each greater than the other. *)
Theorem invalid_comparisons_are_false (a b : Semver)
    (Hinv : is_valid a = false \/ is_valid b = false) :
  op_eq a b = false
  /\ op_lt a b = Some false
  /\ (is_valid a = false -> op_eq a a = false)
  /\ (is_valid a = false -> is_valid b = false ->
      op_gt a b = Some true /\ op_gt b a = Some true).
Proof.
  unfold is_valid in *.
  assert (Hab : negb (valid_ a) || negb (valid_ b) = true).
  { destruct Hinv as [-> | ->]; [reflexivity | apply orb_true_r]. }
  split; [|split; [|split]].
  - unfold op_eq. now rewrite Hab.
  - unfold op_lt. now rewrite Hab.
  - intros Ha. unfold op_eq. now rewrite Ha.
  - intros Ha Hb. unfold op_gt, op_le, op_lt, op_eq.
    now rewrite Ha, Hb.
Qed.

Lemma invalid_comparisons_are_false_witness :
  is_valid Semver_default = false
  /\ op_eq Semver_default (v "1.0.0") = false
  /\ op_lt Semver_default (v "1.0.0") = Some false
  /\ op_eq Semver_default Semver_default = false.
Proof.
  pose proof (invalid_comparisons_are_false Semver_default (v "1.0.0")
                (or_introl eq_refl)) as (H1 & H2 & H3 & _).
  split; [reflexivity|].
  split; [exact H1|]. split; [exact H2 | exact (H3 eq_refl)].
Defined.

(** ** Numeric pre-release identifiers beyond [unsigned long] *)

(** C7.  [parse] accepts a numeric pre-release identifier of any length
    (only the three core numbers are checked against the range), and
    [compare_prerelease] converts it with [std::stoul]: on the valid
    versions [1.0.0-18446744073709551616] and [1.0.0-1], [operator<]
    does not return but leaves with [std::out_of_range], in both
    directions.  Numeric comparison of identifiers is therefore not
    available for all valid versions. *)
Theorem lt_throws_on_large_numeric_identifier :
  let a := from_string "1.0.0-18446744073709551616" in
  let b := from_string "1.0.0-1" in
  is_valid a = true /\ is_valid b = true
  /\ prerelease_ a = ["18446744073709551616"]
  /\ op_lt a b = None /\ op_lt b a = None.
Proof. vm_compute. repeat split; reflexivity. Qed.

(** ** [to_string] and the 33-byte buffer *)

(** C8.  The buffer of [to_string] holds "3x ten digits", but an
    [unsigned long] has up to twenty.  The valid version
    [12345678901234567890.1234567890.1] prints to 33 characters:
    [snprintf] keeps 32 of them and the NUL, [std::string r(buf, 33)]
    copies exactly those, and the result does not parse back. *)
Theorem to_string_truncates_long_versions :
  let ver := from_string "12345678901234567890.1234567890.1" in
  is_valid ver = true
  /\ to_string ver
     = Some ("12345678901234567890.1234567890." ++ String zero "")
  /\ (forall s, to_string ver = Some s ->
                is_valid (from_string s) = false)
  /\ to_string (from_string "12345678901234567890.12345678901.1") = None.
Proof.
  assert (Hprint : to_string (from_string "12345678901234567890.1234567890.1")
                   = Some ("12345678901234567890.1234567890."
                           ++ String zero ""))
    by (vm_compute; reflexivity).
  cbv zeta. split; [vm_compute; reflexivity|].
  split; [exact Hprint|].
  split; [|vm_compute; reflexivity].
  intros s Hs. rewrite Hprint in Hs. injection Hs as <-.
  vm_compute. reflexivity.
Qed.

(** A second way the round trip is lost: [from_components] admits
    [ULONG_MAX] as a component, [parse] takes the same number for the
    overflow mark of [strtoul]. *)
Lemma ulong_max_component_does_not_parse_back :
  let ver := from_components ULONG_MAX 0 0 [] [] in
  is_valid ver = true
  /\ to_string ver = Some "18446744073709551615.0.0"
  /\ parse "18446744073709551615.0.0"
     = ParseError "Version number out of range".
Proof. vm_compute. repeat split; reflexivity. Qed.

End SemverProofs.

(* ================================================================== *)
(** * [to_string] and [from_string] inside the buffer's range *)
(* ================================================================== *)

Module RoundTripProofs.
Import CStr Semver SemverText.

(** ** Strings: [take], [drop], [find] over a concatenation *)

Lemma app_String (c : ascii) (a b : string) :
  String c a ++ b = String c (a ++ b).
Proof. reflexivity. Qed.

Lemma app_empty_l (b : string) : "" ++ b = b.
Proof. reflexivity. Qed.

Ltac unfold_app := rewrite ?app_String, ?app_empty_l.

Lemma app_assoc_s (a b c : string) : (a ++ b) ++ c = a ++ (b ++ c).
Proof. induction a as [|x a IH]; unfold_app; [reflexivity|now f_equal]. Qed.

Lemma length_app_s (a b : string) :
  String.length (a ++ b) = (String.length a + String.length b)%nat.
Proof.
  induction a as [|x a IH]; unfold_app; simpl; [reflexivity|now rewrite IH].
Qed.

Lemma size_app (a b : string) : size (a ++ b) = size a + size b.
Proof. unfold size. rewrite length_app_s. lia. Qed.

Lemma size_String (c : ascii) (r : string) : size (String c r) = 1 + size r.
Proof. unfold size. simpl String.length. lia. Qed.

Lemma app_empty_r (a : string) : a ++ "" = a.
Proof. induction a as [|x a IH]; unfold_app; simpl; [reflexivity|now f_equal]. Qed.

Lemma take_app_length (a b : string) : take (String.length a) (a ++ b) = a.
Proof. induction a as [|x a IH]; unfold_app; simpl; [reflexivity|now f_equal]. Qed.

Lemma drop_app_length (a b : string) : drop (String.length a) (a ++ b) = b.
Proof. induction a as [|x a IH]; unfold_app; simpl; [reflexivity|exact IH]. Qed.

Lemma take_all (n : nat) (a : string) :
  (String.length a <= n)%nat -> take n a = a.
Proof.
  revert n; induction a as [|x a IH]; intros [|n] H; simpl in *;
    try reflexivity; try lia.
  rewrite IH; [reflexivity|lia].
Qed.

Lemma to_nat_size (a : string) : N.to_nat (size a) = String.length a.
Proof. unfold size. apply Nat2N.id. Qed.

Lemma find_at_lacks (c : ascii) (a b : string) (h : N) :
  lacks c a = true -> find_at c (a ++ b) h = find_at c b (h + size a).
Proof.
  revert h; induction a as [|x a IH]; intros h Hl; unfold_app.
  - f_equal. unfold size. simpl. lia.
  - simpl in Hl. apply andb_true_iff in Hl as [Hx Ha].
    simpl. destruct (Ascii.eqb x c); [discriminate|].
    rewrite IH by exact Ha. f_equal. rewrite size_String. lia.
Qed.

Lemma find_at_here (c : ascii) (r : string) (h : N) :
  find_at c (String c r) h = h.
Proof. simpl. now rewrite Ascii.eqb_refl. Qed.

Lemma find_at_ge (c : ascii) (s : string) (h : N) :
  h <= npos -> h + size s <= npos -> h <= find_at c s h.
Proof.
  revert h; induction s as [|x s IH]; intros h Hh Hs; simpl.
  - exact Hh.
  - destruct (Ascii.eqb x c); [lia|].
    rewrite size_String in Hs.
    specialize (IH (h + 1)). lia.
Qed.

Lemma lacks_app (c : ascii) (a b : string) :
  lacks c (a ++ b) = lacks c a && lacks c b.
Proof.
  unfold lacks. induction a as [|x a IH]; unfold_app; simpl; [reflexivity|].
  now rewrite IH, andb_assoc.
Qed.

Lemma all_of_impl (p q : ascii -> bool) (s : string) :
  (forall c, p c = true -> q c = true) ->
  all_of p s = true -> all_of q s = true.
Proof.
  intros Hpq. induction s as [|x s IH]; simpl; [reflexivity|].
  intros H. apply andb_true_iff in H as [Hx Hs].
  now rewrite (Hpq _ Hx), IH.
Qed.

Lemma count_app (c : ascii) (a b : string) :
  count c (a ++ b) = count c a + count c b.
Proof.
  induction a as [|x a IH]; unfold_app; simpl; [reflexivity|rewrite IH; lia].
Qed.

Lemma count_lacks (c : ascii) (a : string) : lacks c a = true -> count c a = 0.
Proof.
  induction a as [|x a IH]; simpl; [reflexivity|].
  intros H. apply andb_true_iff in H as [Hx Ha].
  destruct (Ascii.eqb x c); [discriminate|]. now rewrite IH.
Qed.

Lemma remove_prefix_app (a b : string) : remove_prefix (size a) (a ++ b) = b.
Proof. unfold remove_prefix. rewrite to_nat_size. apply drop_app_length. Qed.

(** ** [%lu] prints what [strtoul] reads back *)

Lemma digits_value_acc (d : Decimal.uint) (acc : positive) :
  digits_value (NilEmpty.string_of_uint d) (Npos acc)
  = Npos (Pos.of_uint_acc d acc).
Proof.
  revert acc; induction d; intros acc; cbn [NilEmpty.string_of_uint];
    try reflexivity;
    cbn [digits_value Pos.of_uint_acc];
    match goal with
    | |- context [isdigit ?c] => change (isdigit c) with true; cbv iota
    end;
    match goal with
    | |- context [10 * N.pos acc + digit_value ?c] =>
        match goal with
        | |- _ = N.pos (Pos.of_uint_acc _ ?p) =>
            replace (10 * N.pos acc + digit_value c) with (N.pos p)
              by (let v := eval vm_compute in (digit_value c) in
                  change (digit_value c) with v; lia)
        end
    end; apply IHd.
Qed.

Lemma digits_value_of_uint (d : Decimal.uint) :
  digits_value (NilEmpty.string_of_uint d) 0 = N.of_uint d.
Proof.
  unfold N.of_uint.
  induction d; cbn [NilEmpty.string_of_uint Pos.of_uint];
    try reflexivity;
    cbn [digits_value];
    match goal with
    | |- context [isdigit ?c] => change (isdigit c) with true; cbv iota
    end;
    [ exact IHd | .. ];
    match goal with
    | |- context [10 * 0 + digit_value ?c] =>
        match goal with
        | |- _ = N.pos (Pos.of_uint_acc _ ?p) =>
            change (10 * 0 + digit_value c) with (N.pos p)
        end
    end; apply digits_value_acc.
Qed.

Lemma digits_value_print_lu (n : N) : digits_value (print_lu n) 0 = n.
Proof.
  unfold print_lu. rewrite digits_value_of_uint.
  apply DecimalN.Unsigned.of_to.
Qed.

Lemma all_digits_of_uint (d : Decimal.uint) :
  all_of isdigit (NilEmpty.string_of_uint d) = true.
Proof. induction d; cbn [NilEmpty.string_of_uint all_of]; auto. Qed.

Lemma to_uint_not_Nil (n : N) : N.to_uint n <> Decimal.Nil.
Proof.
  destruct n as [|p]; [discriminate|].
  apply DecimalPos.Unsigned.to_uint_nonnil.
Qed.

Lemma print_lu_not_empty (n : N) : print_lu n <> "".
Proof.
  unfold print_lu. generalize (to_uint_not_Nil n).
  destruct (N.to_uint n); intros H; try discriminate. now elim H.
Qed.

Lemma is_numeric_print_lu (n : N) : is_numeric (print_lu n) = true.
Proof.
  generalize (print_lu_not_empty n).
  unfold is_numeric, print_lu.
  generalize (all_digits_of_uint (N.to_uint n)).
  destruct (NilEmpty.string_of_uint (N.to_uint n)); intros Hd Hne;
    [now elim Hne|exact Hd].
Qed.

Lemma nzhead_not_D0 (d d' : Decimal.uint) :
  Decimal.nzhead d <> Decimal.D0 d'.
Proof. induction d; simpl; try discriminate. exact IHd. Qed.

Lemma unorm_D0_Nil (d d' : Decimal.uint) :
  Decimal.unorm d = Decimal.D0 d' -> d' = Decimal.Nil.
Proof.
  unfold Decimal.unorm. generalize (nzhead_not_D0 d d').
  destruct (Decimal.nzhead d); intros Hn H; try discriminate.
  - now injection H.
  - now elim Hn.
Qed.

Lemma to_uint_normal (n : N) : Decimal.unorm (N.to_uint n) = N.to_uint n.
Proof.
  rewrite <- DecimalN.Unsigned.to_of.
  now rewrite DecimalN.Unsigned.of_to.
Qed.

Lemma no_leading_zero_print_lu (n : N) : has_leading_zero (print_lu n) = false.
Proof.
  unfold has_leading_zero, print_lu.
  generalize (to_uint_normal n).
  destruct (N.to_uint n) as [|d|d|d|d|d|d|d|d|d|d] eqn:E; intros Hn;
    cbn [NilEmpty.string_of_uint front_is];
    try (apply andb_false_r);
    try (change (Ascii.eqb _ "0") with false; apply andb_false_r).
  apply unorm_D0_Nil in Hn. subst d. reflexivity.
Qed.

Lemma strtoul_print_lu (n : N) : n <= ULONG_MAX -> strtoul (print_lu n) = n.
Proof.
  intros Hn. unfold strtoul. rewrite digits_value_print_lu.
  destruct (N.leb_spec n ULONG_MAX); [reflexivity|lia].
Qed.

Lemma lacks_digits (c : ascii) (s : string) :
  isdigit c = false -> all_of isdigit s = true -> lacks c s = true.
Proof.
  intros Hc. apply all_of_impl. intros d Hd.
  destruct (Ascii.eqb_spec d c); [congruence|reflexivity].
Qed.

Lemma lacks_print_lu (c : ascii) (n : N) :
  isdigit c = false -> lacks c (print_lu n) = true.
Proof. intros Hc. apply lacks_digits, all_digits_of_uint. exact Hc. Qed.

(** ** Cutting a rendered version back into its parts *)

Lemma find_zero (c : ascii) (s : string) : find c s = find_at c s 0.
Proof.
  unfold find, find_from.
  destruct (N.ltb_spec (size s) 0); [lia|reflexivity].
Qed.

Lemma drop_at (a b : string) (pos : N) :
  pos = size a -> drop (N.to_nat pos) (a ++ b) = b.
Proof. intros ->. rewrite to_nat_size. apply drop_app_length. Qed.

Lemma substr_mid (a m rest : string) (pos n : N) :
  pos = size a -> N.min n (size (m ++ rest)) = size m ->
  substr (a ++ (m ++ rest)) pos n = m.
Proof.
  intros Hpos Hn. unfold substr.
  rewrite (drop_at a (m ++ rest) pos Hpos).
  replace (size (a ++ (m ++ rest)) - pos) with (size (m ++ rest))
    by (rewrite (size_app a), Hpos; lia).
  rewrite Hn, to_nat_size. apply take_app_length.
Qed.

Lemma substr_head (m rest : string) (n : N) :
  N.min n (size (m ++ rest)) = size m -> substr (m ++ rest) 0 n = m.
Proof. intros Hn. now apply (substr_mid "" m rest 0 n). Qed.

Lemma size_dotted3 (M m p : string) :
  size (dotted3 M m p) = size M + 1 + size m + 1 + size p.
Proof.
  unfold dotted3. rewrite size_app, size_String, size_app, size_String. lia.
Qed.

Section Core.
Variables M m p : string.
Hypothesis HM : lacks "." M = true.
Hypothesis Hm : lacks "." m = true.
Hypothesis Hp : lacks "." p = true.
Hypothesis Hsize : size (dotted3 M m p) <= npos.

Lemma count_dotted3 : count "." (dotted3 M m p) = 2.
Proof.
  unfold dotted3. rewrite count_app. cbn [count].
  rewrite count_app. cbn [count].
  rewrite !count_lacks by assumption. reflexivity.
Qed.

Lemma minor_pos_dotted3 : find "." (dotted3 M m p) = size M.
Proof.
  rewrite find_zero. unfold dotted3.
  rewrite find_at_lacks by exact HM. apply find_at_here.
Qed.

Lemma dotted3_after_major :
  dotted3 M m p = (M ++ ".") ++ (m ++ String "." p).
Proof. unfold dotted3. now rewrite app_assoc_s. Qed.

Lemma dotted3_after_minor :
  dotted3 M m p = (M ++ String "." (m ++ ".")) ++ (p ++ "").
Proof.
  unfold dotted3. rewrite app_empty_r.
  rewrite app_assoc_s, app_String.
  now rewrite app_assoc_s.
Qed.

Lemma patch_pos_dotted3 :
  find_from "." (size M + 1) (dotted3 M m p) = size M + 1 + size m.
Proof.
  unfold find_from.
  destruct (N.ltb_spec (size (dotted3 M m p)) (size M + 1)) as [Hlt|_];
    [rewrite size_dotted3 in Hlt; lia|].
  rewrite dotted3_after_major, drop_at
    by (rewrite size_app; reflexivity).
  rewrite find_at_lacks by exact Hm. apply find_at_here.
Qed.

Lemma major_str_dotted3 : substr (dotted3 M m p) 0 (size M) = M.
Proof.
  unfold dotted3. apply substr_head. rewrite size_app. lia.
Qed.

Lemma minor_str_dotted3 :
  substr (dotted3 M m p) (size M + 1) (size M + 1 + size m - size M - 1) = m.
Proof.
  rewrite dotted3_after_major. apply substr_mid.
  - rewrite size_app. reflexivity.
  - rewrite size_app. lia.
Qed.

Lemma patch_str_dotted3 :
  substr_from (dotted3 M m p) (size M + 1 + size m + 1) = p.
Proof.
  unfold substr_from. rewrite dotted3_after_minor. apply substr_mid.
  - rewrite size_app, size_String, size_app.
    change (size ".") with 1. lia.
  - rewrite app_empty_r. generalize (size_dotted3 M m p).
    unfold npos in *. lia.
Qed.

End Core.

(** ** Identifier lists *)

Lemma fold_joined_from (sep : ascii) (ids : list string) :
  forall (k : nat) (r : string),
    fold_left (fun (r : string) '(i, id) =>
                 r ++ String (if Nat.eqb i 0 then sep else ".")%char id)
      (combine (seq (S k) (List.length ids)) ids) r
    = r ++ joined "." ids.
Proof.
  induction ids as [|id rest IH]; intros k r.
  - cbn. now rewrite app_empty_r.
  - cbn [List.length seq combine fold_left joined Nat.eqb].
    rewrite IH, app_assoc_s, app_String. reflexivity.
Qed.

Lemma fold_joined (sep : ascii) (ids : list string) (r : string) :
  fold_left (fun (r : string) '(i, id) =>
               r ++ String (if Nat.eqb i 0 then sep else ".")%char id)
    (combine (seq 0 (List.length ids)) ids) r
  = r ++ joined sep ids.
Proof.
  destruct ids as [|id rest].
  - cbn. now rewrite app_empty_r.
  - cbn [List.length seq combine fold_left joined Nat.eqb].
    rewrite fold_joined_from, app_assoc_s, app_String.
    reflexivity.
Qed.

Lemma valid_identifier_lacks (c : ascii) (id : string) :
  isalnum c || Ascii.eqb c "-" = false ->
  is_valid_identifier id = true -> lacks c id = true.
Proof.
  intros Hc Hid. destruct id as [|x id]; [discriminate|].
  unfold is_valid_identifier in Hid. revert Hid. apply all_of_impl.
  intros d Hd. destruct (Ascii.eqb_spec d c); [congruence|reflexivity].
Qed.

Lemma joined_lacks (c : ascii) (ids : list string) :
  isalnum c || Ascii.eqb c "-" = false ->
  forallb is_valid_identifier ids = true ->
  forall sep, Ascii.eqb sep c = false -> Ascii.eqb "." c = false ->
              lacks c (joined sep ids) = true.
Proof.
  intros Hc. induction ids as [|id rest IH]; intros Hids sep Hsep Hdot.
  - reflexivity.
  - cbn [forallb] in Hids. apply andb_true_iff in Hids as [Hid Hrest].
    cbn [joined]. unfold lacks. cbn [all_of]. rewrite Hsep. cbn [negb andb].
    fold (lacks c (id ++ joined "." rest)).
    rewrite lacks_app, (valid_identifier_lacks c id Hc Hid).
    now rewrite IH.
Qed.

Lemma joined_front (c : ascii) (ids : list string) :
  joined c ids = "" \/ front_is c (joined c ids) = true.
Proof.
  destruct ids; [now left|right]. cbn. apply Ascii.eqb_refl.
Qed.

(** The first identifier of [id.rest...] is [id]. *)
Lemma first_identifier (id : string) (rest : list string) :
  is_valid_identifier id = true ->
  size (id ++ joined "." rest) <= npos ->
  substr (id ++ joined "." rest) 0 (find "." (id ++ joined "." rest)) = id.
Proof.
  intros Hid Hsize. apply substr_head.
  rewrite find_zero, find_at_lacks
    by (now apply valid_identifier_lacks).
  rewrite size_app in *.
  destruct rest as [|id' rest]; cbn [joined].
  - cbn [find_at]. change (size "") with 0 in *. lia.
  - rewrite find_at_here. lia.
Qed.

Lemma split_prerelease_joined (ids : list string) :
  forall (c : ascii) (acc : list string) (fuel : nat),
    forallb prerelease_id_ok ids = true ->
    (String.length (joined c ids) <= fuel)%nat ->
    size (joined c ids) <= npos ->
    split_prerelease fuel (joined c ids) acc = SplitOk (acc ++ ids)%list.
Proof.
  induction ids as [|id rest IH]; intros c acc fuel Hids Hfuel Hsize.
  - destruct fuel; cbn; now rewrite List.app_nil_r.
  - cbn [forallb] in Hids. apply andb_true_iff in Hids as [Hid Hrest].
    unfold prerelease_id_ok in Hid. apply andb_true_iff in Hid as [Hv Hz].
    apply negb_true_iff in Hz.
    cbn [joined] in *. rewrite size_String in Hsize.
    destruct fuel as [|fuel]; [simpl in Hfuel; lia|].
    cbn [split_prerelease]. rewrite SemverProofs.remove_prefix_1.
    rewrite first_identifier by (assumption || lia).
    rewrite Hv, Hz. cbn [negb]. rewrite remove_prefix_app.
    rewrite IH.
    + now rewrite <- List.app_assoc.
    + exact Hrest.
    + simpl in Hfuel. rewrite length_app_s in Hfuel. lia.
    + rewrite size_app in Hsize. lia.
Qed.

Lemma split_build_joined (ids : list string) :
  forall (c : ascii) (acc : list string) (fuel : nat),
    forallb is_valid_identifier ids = true ->
    (String.length (joined c ids) <= fuel)%nat ->
    size (joined c ids) <= npos ->
    split_build fuel (joined c ids) acc = SplitOk (acc ++ ids)%list.
Proof.
  induction ids as [|id rest IH]; intros c acc fuel Hids Hfuel Hsize.
  - destruct fuel; cbn; now rewrite List.app_nil_r.
  - cbn [forallb] in Hids. apply andb_true_iff in Hids as [Hv Hrest].
    cbn [joined] in *. rewrite size_String in Hsize.
    destruct fuel as [|fuel]; [simpl in Hfuel; lia|].
    cbn [split_build]. rewrite SemverProofs.remove_prefix_1.
    rewrite first_identifier by (assumption || lia).
    rewrite Hv. cbn [negb]. rewrite remove_prefix_app.
    rewrite IH.
    + now rewrite <- List.app_assoc.
    + exact Hrest.
    + simpl in Hfuel. rewrite length_app_s in Hfuel. lia.
    + rewrite size_app in Hsize. lia.
Qed.

(** ** The round trip *)

Lemma to_string_text (v : Semver) :
  valid_ v = true -> size (core_text v) <= 32 -> to_string v = Some (text v).
Proof.
  intros Hv Hlen. unfold to_string. rewrite Hv. cbn [negb]. cbv zeta.
  change (print_lu (major_ v) ++ "." ++ print_lu (minor_ v) ++ "."
            ++ print_lu (patch_ v)) with (core_text v).
  destruct (N.ltb_spec 33 (size (core_text v))) as [Hlt|_]; [lia|].
  unfold snprintf_buf. change (N.to_nat (33 - 1)) with 32%nat.
  rewrite (take_all 32 (core_text v)) by (unfold size in Hlen; lia).
  rewrite to_nat_size, take_app_length, !fold_joined.
  unfold text. now rewrite app_assoc_s.
Qed.

Lemma core_text_lacks (c : ascii) (v : Semver) :
  isdigit c = false -> Ascii.eqb "." c = false ->
  lacks c (core_text v) = true.
Proof.
  intros Hc Hdot. unfold core_text, dotted3.
  rewrite lacks_app, lacks_print_lu by exact Hc.
  unfold lacks at 1. cbn [all_of]. rewrite Hdot. cbn [negb andb].
  fold (lacks c (print_lu (minor_ v) ++ String "." (print_lu (patch_ v)))).
  rewrite lacks_app, lacks_print_lu by exact Hc.
  unfold lacks at 1. cbn [all_of]. rewrite Hdot. cbn [negb andb].
  now apply lacks_print_lu.
Qed.

(** Where the core version ends: at the first [+] or [-], or at the end. *)
Lemma core_cut (C R : string) :
  lacks "+" C = true -> lacks "-" C = true ->
  size (C ++ R) <= npos ->
  R = "" \/ front_is "+" R = true \/ front_is "-" R = true ->
  substr (C ++ R) 0 (N.min (find "+" (C ++ R)) (find "-" (C ++ R))) = C.
Proof.
  intros Hplus Hminus Hsize HR. apply substr_head.
  rewrite !find_zero, !find_at_lacks by assumption.
  rewrite size_app in *. rewrite !N.add_0_l.
  assert (Hge : forall c, size C <= find_at c R (size C))
    by (intros c; apply find_at_ge; lia).
  destruct HR as [->|[HR|HR]].
  - cbn [find_at]. change (size "") with 0 in *. lia.
  - destruct R as [|x R]; [discriminate|]. cbn [front_is] in HR.
    apply Ascii.eqb_eq in HR. subst x. rewrite find_at_here.
    specialize (Hge "-"%char). lia.
  - destruct R as [|x R]; [discriminate|]. cbn [front_is] in HR.
    apply Ascii.eqb_eq in HR. subst x. rewrite find_at_here.
    specialize (Hge "+"%char). lia.
Qed.

Theorem round_trip_within_buffer (v : Semver) :
  well_formed v = true ->
  size (core_text v) <= 32 ->
  size (text v) <= npos ->
  to_string v = Some (text v) /\ from_string (text v) = v.
Proof.
  intros Hwf Hcore Hsize. unfold well_formed in Hwf.
  repeat (apply andb_true_iff in Hwf as [Hwf ?]).
  split; [now apply to_string_text|].
  unfold from_string.
  assert (Hne : exists c0 s0, text v = String c0 s0).
  { unfold text, core_text, dotted3.
    generalize (print_lu_not_empty (major_ v)).
    destruct (print_lu (major_ v)) as [|c0 s0]; [now intros []|].
    intros _. rewrite app_String. eauto. }
  destruct Hne as (c0 & s0 & Hs).
  unfold parse. rewrite Hs. cbv zeta. rewrite <- !Hs.
  clear c0 s0 Hs.
  set (R := joined "-" (prerelease_ v) ++ joined "+" (build_metadata_ v)).
  assert (HR : R = "" \/ front_is "+" R = true \/ front_is "-" R = true).
  { subst R. destruct (prerelease_ v) as [|id rest].
    - rewrite app_empty_l.
      destruct (joined_front "+" (build_metadata_ v)); auto.
    - right; right. reflexivity. }
  change (text v) with (core_text v ++ R) in *.
  rewrite core_cut, remove_prefix_app;
    [|now apply core_text_lacks|now apply core_text_lacks|exact Hsize
     |exact HR].
  assert (Hdot : forall n, lacks "." (print_lu n) = true)
    by (intros n; now apply lacks_print_lu).
  assert (Hcs : size (core_text v) <= npos) by (unfold npos; lia).
  unfold core_text in *.
  rewrite count_dotted3, minor_pos_dotted3, patch_pos_dotted3,
    major_str_dotted3, minor_str_dotted3, patch_str_dotted3 by auto.
  change (negb (2 =? 2)) with false. cbv iota.
  rewrite !is_numeric_print_lu, !no_leading_zero_print_lu.
  cbn [negb orb].
  apply N.ltb_lt in H3, H2, H1.
  rewrite !strtoul_print_lu by lia.
  destruct (N.eqb_spec (major_ v) ULONG_MAX); [lia|].
  destruct (N.eqb_spec (minor_ v) ULONG_MAX); [lia|].
  destruct (N.eqb_spec (patch_ v) ULONG_MAX); [lia|].
  cbn [orb].
  rewrite size_app in Hsize. subst R. rewrite size_app in Hsize.
  set (P := joined "-" (prerelease_ v)) in *.
  set (B := joined "+" (build_metadata_ v)) in *.
  assert (Hpre :
    (if front_is "-" (P ++ B)
     then
       match
         split_prerelease (String.length (substr (P ++ B) 0 (find "+" (P ++ B))))
           (substr (P ++ B) 0 (find "+" (P ++ B))) []
       with
       | SplitOk [] =>
           (SplitError "Pre-release section cannot be empty",
            remove_prefix (size (substr (P ++ B) 0 (find "+" (P ++ B))))
              (P ++ B))
       | r =>
           (r, remove_prefix (size (substr (P ++ B) 0 (find "+" (P ++ B))))
                 (P ++ B))
       end
     else (SplitOk [], P ++ B))
    = (SplitOk (prerelease_ v), B)).
  { destruct (prerelease_ v) as [|id rest] eqn:Epre.
    - subst P. cbn [joined]. rewrite app_empty_l. subst B.
      now destruct (build_metadata_ v).
    - assert (HP : substr (P ++ B) 0 (find "+" (P ++ B)) = P).
      { apply substr_head.
        rewrite find_zero, find_at_lacks, size_app, N.add_0_l.
        - subst B. destruct (build_metadata_ v) as [|id' rest'];
            cbn [joined].
          + cbn [find_at]. change (size "") with 0 in *. lia.
          + rewrite find_at_here. lia.
        - subst P. apply joined_lacks; try reflexivity.
          revert H0. clear. generalize (id :: rest). intros l.
          induction l as [|x l IH]; [reflexivity|]. cbn [forallb].
          intros Hx. apply andb_true_iff in Hx as [Hx Hl].
          unfold prerelease_id_ok in Hx.
          apply andb_true_iff in Hx as [Hx _]. now rewrite Hx, IH. }
      rewrite HP, remove_prefix_app.
      replace (front_is "-" (P ++ B)) with true by (subst P; reflexivity).
      subst P. rewrite split_prerelease_joined; try lia; auto. }
  rewrite Hpre. clear Hpre.
  assert (Hbuild :
    (if front_is "+" B
     then
       match split_build (String.length B) B [] with
       | SplitOk [] => SplitError "Build metadata section cannot be empty"
       | r => r
       end
     else SplitOk [])
    = SplitOk (build_metadata_ v)).
  { destruct (build_metadata_ v) as [|id rest] eqn:Ebuild.
    - reflexivity.
    - replace (front_is "+" B) with true by (subst B; reflexivity).
      subst B. rewrite split_build_joined; try lia; auto. }
  rewrite Hbuild. clear Hbuild.
  destruct v; cbn in *. now subst.
Qed.

(** ** Ten digits per component fit the buffer *)

Lemma digits_value_lower (s : string) :
  all_of isdigit s = true ->
  forall acc, acc * 10 ^ size s <= digits_value s acc.
Proof.
  induction s as [|c r IH]; intros Hd acc.
  - change (size "") with 0. cbn [digits_value]. rewrite N.pow_0_r. lia.
  - cbn [all_of] in Hd. apply andb_true_iff in Hd as [Hc Hr].
    cbn [digits_value]. rewrite Hc, size_String, N.pow_add_r, N.pow_1_r.
    specialize (IH Hr (10 * acc + digit_value c)).
    assert (0 < 10 ^ size r) by (apply N.neq_0_lt_0, N.pow_nonzero; lia).
    nia.
Qed.

Lemma print_lu_short (n : N) : n < 10 ^ 10 -> size (print_lu n) <= 10.
Proof.
  intros Hn. generalize (digits_value_print_lu n) (to_uint_normal n).
  unfold print_lu.
  destruct (N.to_uint n) as [|d|d|d|d|d|d|d|d|d|d]; intros Hv Hnorm;
    cbn [NilEmpty.string_of_uint] in *;
    [ change (size "") with 0; lia
    | apply unorm_D0_Nil in Hnorm; subst d;
      cbn [NilEmpty.string_of_uint]; change (size "0") with 1; lia
    | .. ];
    rewrite size_String;
    cbn [digits_value] in Hv;
    match type of Hv with
    | context [isdigit ?c] =>
        change (isdigit c) with true in Hv; cbv iota in Hv;
        let k := eval vm_compute in (10 * 0 + digit_value c) in
        change (10 * 0 + digit_value c) with k in Hv
    end;
    match type of Hv with
    | digits_value ?r ?k = _ =>
        pose proof (digits_value_lower r (all_digits_of_uint d) k) as Hlow
    end;
    rewrite Hv in Hlow;
    assert (Hlt : 10 ^ size (NilEmpty.string_of_uint d) < 10 ^ 10) by nia;
    apply N.pow_lt_mono_r_iff in Hlt; lia.
Qed.

Lemma core_text_fits (v : Semver) :
  major_ v < 10 ^ 10 -> minor_ v < 10 ^ 10 -> patch_ v < 10 ^ 10 ->
  size (core_text v) <= 32.
Proof.
  intros HM Hm Hp. unfold core_text. rewrite size_dotted3.
  apply print_lu_short in HM. apply print_lu_short in Hm.
  apply print_lu_short in Hp. lia.
Qed.

(** ** What [parse] accepts is well formed *)

Lemma strtoul_lt (s : string) :
  (strtoul s =? ULONG_MAX) = false -> (strtoul s <? ULONG_MAX) = true.
Proof.
  unfold strtoul. destruct (N.leb_spec (digits_value s 0) ULONG_MAX).
  - intros Hne. apply N.eqb_neq in Hne. apply N.ltb_lt. lia.
  - now rewrite N.eqb_refl.
Qed.

Lemma split_prerelease_ok (fuel : nat) :
  forall s acc ids,
    split_prerelease fuel s acc = SplitOk ids ->
    forallb prerelease_id_ok acc = true ->
    forallb prerelease_id_ok ids = true.
Proof.
  induction fuel as [|fuel IH]; intros [|c r] acc ids; cbn [split_prerelease];
    try discriminate; try (intros [= <-]; trivial).
  destruct (is_valid_identifier _) eqn:Hv; [|discriminate]. cbn [negb].
  destruct (_ && _) eqn:Hz; [discriminate|].
  intros Hsplit Hacc. apply (IH _ _ _ Hsplit).
  rewrite forallb_app, Hacc. cbn [forallb]. unfold prerelease_id_ok.
  now rewrite Hv, Hz.
Qed.

Lemma split_build_ok (fuel : nat) :
  forall s acc ids,
    split_build fuel s acc = SplitOk ids ->
    forallb is_valid_identifier acc = true ->
    forallb is_valid_identifier ids = true.
Proof.
  induction fuel as [|fuel IH]; intros [|c r] acc ids; cbn [split_build];
    try discriminate; try (intros [= <-]; trivial).
  destruct (is_valid_identifier _) eqn:Hv; [|discriminate]. cbn [negb].
  intros Hsplit Hacc. apply (IH _ _ _ Hsplit).
  rewrite forallb_app, Hacc. cbn [forallb]. now rewrite Hv.
Qed.

Lemma from_string_well_formed (s : string) :
  is_valid (from_string s) = true -> well_formed (from_string s) = true.
Proof.
  unfold from_string, parse. destruct s as [|c0 s0]; [discriminate|].
  generalize (String c0 s0). clear c0 s0. intros s. cbv zeta.
  destruct (negb (count "." _ =? 2)); [discriminate|].
  destruct (_ || _ || _); [discriminate|].
  destruct (_ || _ || _); [discriminate|].
  destruct (_ || _ || _) eqn:Hrange; [discriminate|].
  apply orb_false_iff in Hrange as [Hrange Hp].
  apply orb_false_iff in Hrange as [HM Hm].
  apply strtoul_lt in HM, Hm, Hp.
  assert (Hfinish : forall pre build,
    forallb prerelease_id_ok pre = true ->
    forallb is_valid_identifier build = true ->
    well_formed
      (mkSemver
         (strtoul (substr (substr s 0 (N.min (find "+" s) (find "-" s))) 0
            (find "." (substr s 0 (N.min (find "+" s) (find "-" s))))))
         (strtoul
            (substr (substr s 0 (N.min (find "+" s) (find "-" s)))
               (find "." (substr s 0 (N.min (find "+" s) (find "-" s))) + 1)
               (find_from "."
                  (find "." (substr s 0 (N.min (find "+" s) (find "-" s)))
                   + 1)
                  (substr s 0 (N.min (find "+" s) (find "-" s)))
                - find "." (substr s 0 (N.min (find "+" s) (find "-" s)))
                - 1)))
         (strtoul
            (substr_from (substr s 0 (N.min (find "+" s) (find "-" s)))
               (find_from "."
                  (find "." (substr s 0 (N.min (find "+" s) (find "-" s)))
                   + 1)
                  (substr s 0 (N.min (find "+" s) (find "-" s))) + 1)))
         pre build true) = true).
  { intros pre build Hpre Hbuild. unfold well_formed.
    cbn [valid_ major_ minor_ patch_ prerelease_ build_metadata_].
    now rewrite HM, Hm, Hp, Hpre, Hbuild. }
  match goal with
  | |- context [front_is "-" ?x] => destruct (front_is "-" x)
  end.
  - match goal with
    | |- context [split_prerelease ?f ?x ?a] =>
        pose proof (split_prerelease_ok f x a) as Hpre;
        destruct (split_prerelease f x a) as [[|i ids]|msg|]
    end; try discriminate.
    specialize (Hpre _ eq_refl eq_refl).
    match goal with
    | |- context [front_is "+" ?x] => destruct (front_is "+" x)
    end; [|intros _; now apply Hfinish].
    match goal with
    | |- context [split_build ?f ?x ?a] =>
        pose proof (split_build_ok f x a) as Hb;
        destruct (split_build f x a) as [[|j js]|msg|]
    end; try discriminate.
    intros _. apply Hfinish; [exact Hpre|now apply Hb].
  - match goal with
    | |- context [front_is "+" ?x] => destruct (front_is "+" x)
    end; [|intros _; now apply Hfinish].
    match goal with
    | |- context [split_build ?f ?x ?a] =>
        pose proof (split_build_ok f x a) as Hb;
        destruct (split_build f x a) as [[|j js]|msg|]
    end; try discriminate.
    intros _. apply Hfinish; [reflexivity|now apply Hb].
Qed.

(** [from_components] checks the identifiers, not the components. *)
Lemma from_components_well_formed (major minor patch : N)
    (prerelease build_metadata : list string) :
  major < ULONG_MAX -> minor < ULONG_MAX -> patch < ULONG_MAX ->
  is_valid (from_components major minor patch prerelease build_metadata)
  = true ->
  well_formed (from_components major minor patch prerelease build_metadata)
  = true.
Proof.
  intros HM Hm Hp. unfold from_components.
  fold prerelease_id_ok.
  destruct (forallb prerelease_id_ok prerelease) eqn:Hpre;
    [|discriminate].
  destruct (forallb is_valid_identifier build_metadata) eqn:Hbuild;
    [|discriminate].
  intros _. cbn [negb]. unfold well_formed.
  cbn [valid_ major_ minor_ patch_ prerelease_ build_metadata_].
  apply N.ltb_lt in HM, Hm, Hp. now rewrite HM, Hm, Hp, Hpre, Hbuild.
Qed.

(** ** The round trip inside the range the buffer was sized for *)

(** With at most ten digits per component ([3x ten digits + 2 dots]),
    a well-formed version prints to its text and parses back to itself. *)
Theorem round_trip_ten_digits (v : Semver) :
  well_formed v = true ->
  major_ v < 10 ^ 10 -> minor_ v < 10 ^ 10 -> patch_ v < 10 ^ 10 ->
  size (text v) <= npos ->
  exists s, to_string v = Some s /\ from_string s = v.
Proof.
  intros Hwf HM Hm Hp Hsize. exists (text v).
  apply round_trip_within_buffer; auto using core_text_fits.
Qed.

(** The same for whatever [from_string] accepted. *)
Corollary parsed_round_trip (s : string) :
  let v := from_string s in
  is_valid v = true ->
  major_ v < 10 ^ 10 -> minor_ v < 10 ^ 10 -> patch_ v < 10 ^ 10 ->
  size (text v) <= npos ->
  exists s', to_string v = Some s' /\ from_string s' = v.
Proof.
  intros v Hv. apply round_trip_ten_digits.
  now apply from_string_well_formed.
Qed.

Example parsed_round_trip_example :
  exists s', to_string (from_string "1.2.3-rc.1+build.5") = Some s'
             /\ from_string s' = from_string "1.2.3-rc.1+build.5".
Proof.
  apply (parsed_round_trip "1.2.3-rc.1+build.5");
    vm_compute; (reflexivity || discriminate).
Qed.

End RoundTripProofs.

(* ================================================================== *)
(** * Facts about [StdMap] *)
(* ================================================================== *)

Module StdMapProofs.
Import StdMap.

Lemma ascii_compare_OT (a b : ascii) :
  Ascii.compare a b = Ascii_as_OT.compare a b.
Proof. reflexivity. Qed.

Lemma string_compare_OT (a : string) :
  forall b, String.compare a b = String_as_OT.compare a b.
Proof.
  induction a as [|x a IH]; intros [|y b]; simpl; try reflexivity.
  all: rewrite ascii_compare_OT, IH;
    now destruct (Ascii_as_OT.compare x y).
Qed.

Lemma key_lt_trans (a b c : string) : key_lt a b -> key_lt b c -> key_lt a c.
Proof.
  unfold key_lt. rewrite !string_compare_OT.
  intros Hab Hbc.
  exact (StrictOrder_Transitive (R := String_as_OT.lt) a b c Hab Hbc).
Qed.

Lemma key_lt_irrefl (a : string) : ~ key_lt a a.
Proof.
  unfold key_lt. rewrite string_compare_OT.
  exact (StrictOrder_Irreflexive (R := String_as_OT.lt) a).
Qed.

Lemma compare_refl (a : string) : String.compare a a = Eq.
Proof.
  induction a as [|c a IH]; simpl; [reflexivity|].
  unfold Ascii.compare. now rewrite N.compare_refl.
Qed.

Lemma ltb_lt (a b : string) : String.ltb a b = true <-> key_lt a b.
Proof.
  unfold String.ltb, key_lt.
  destruct (String.compare a b); split; congruence.
Qed.

Lemma compare_gt_lt (a b : string) :
  String.compare a b = Gt -> key_lt b a.
Proof.
  unfold key_lt. intros H. rewrite String.compare_antisym, H. reflexivity.
Qed.

Section Lookup.
Context {V : Type}.
Implicit Types (m : t V) (k : string) (v : V).

Lemma find_assign k v m k' :
  find k' (assign k v m) = if String.eqb k k' then Some v else find k' m.
Proof.
  induction m as [|[k0 v0] r IH]; simpl; [reflexivity|].
  destruct (String.compare k k0) eqn:C; simpl.
  - apply String.compare_eq_iff in C. subst k0.
    now destruct (String.eqb k k').
  - reflexivity.
  - rewrite IH.
    destruct (String.eqb_spec k0 k'), (String.eqb_spec k k');
      try reflexivity.
    subst. rewrite compare_refl in C. discriminate.
Qed.

Lemma find_erase k m k' :
  find k' (erase k m) = if String.eqb k k' then None else find k' m.
Proof.
  induction m as [|[k0 v0] r IH]; simpl.
  - now destruct (String.eqb k k').
  - destruct (String.eqb_spec k0 k) as [-> | Hne]; simpl.
    + rewrite IH. now destruct (String.eqb k k').
    + rewrite IH.
      destruct (String.eqb_spec k0 k'), (String.eqb_spec k k');
        try reflexivity.
      congruence.
Qed.

Lemma find_emplace_absent k v m :
  find k m = None -> find k (emplace k v m) = Some v.
Proof.
  intros Hk. unfold emplace. rewrite Hk, find_assign.
  now rewrite String.eqb_refl.
Qed.

(** The operations keep the bindings sorted. *)
Lemma keys_assign_In k v m x :
  In x (keys (assign k v m)) -> x = k \/ In x (keys m).
Proof.
  induction m as [|[k0 v0] r IH]; simpl.
  - intros [->|[]]; now left.
  - destruct (String.compare k k0) eqn:C; simpl.
    + intros [->|H]; [now left | right; now right].
    + intros [->|[->|H]]; [now left | right; now left | right; now right].
    + intros [->|H]; [right; now left|].
      destruct (IH H); [now left | right; now right].
Qed.

Lemma ok_assign k v m : ok m -> ok (assign k v m).
Proof.
  unfold ok. induction m as [|[k0 v0] r IH]; simpl; intros Hok.
  - repeat constructor.
  - inversion Hok as [|? ? Hr Hall]; subst.
    destruct (String.compare k k0) eqn:C; simpl.
    + apply String.compare_eq_iff in C. subst. now constructor.
    + constructor; [assumption|].
      constructor; [exact C|].
      eapply List.Forall_impl; [|exact Hall].
      intros x Hx. eapply key_lt_trans; [exact C | exact Hx].
    + constructor; [now apply IH|].
      apply List.Forall_forall. intros x Hx.
      destruct (keys_assign_In _ _ _ _ Hx) as [->|Hin].
      * now apply compare_gt_lt.
      * rewrite List.Forall_forall in Hall. now apply Hall.
Qed.

Lemma keys_erase_In k m x : In x (keys (erase k m)) -> In x (keys m).
Proof.
  induction m as [|[k0 v0] r IH]; simpl; [tauto|].
  destruct (String.eqb k0 k); simpl; intuition.
Qed.

Lemma ok_erase k m : ok m -> ok (erase k m).
Proof.
  unfold ok. induction m as [|[k0 v0] r IH]; simpl; intros Hok.
  - constructor.
  - inversion Hok as [|? ? Hr Hall]; subst.
    destruct (String.eqb k0 k); simpl; [now apply IH|].
    constructor; [now apply IH|].
    apply List.Forall_forall. intros x Hx.
    rewrite List.Forall_forall in Hall. apply Hall.
    now apply keys_erase_In in Hx.
Qed.

Lemma ok_emplace k v m : ok m -> ok (emplace k v m).
Proof.
  intros Hok. unfold emplace. destruct (find k m); [assumption|].
  now apply ok_assign.
Qed.

(** On sorted bindings, the range scan is a filter. *)
Lemma while_below_filter upper m :
  ok m ->
  while_below upper m
  = List.filter (fun kv => String.ltb (fst kv) upper) m.
Proof.
  unfold ok. induction m as [|[k0 v0] r IH]; simpl; intros Hok;
    [reflexivity|].
  inversion Hok as [|? ? Hr Hall]; subst.
  destruct (String.ltb k0 upper) eqn:Hlt.
  - now rewrite IH.
  - symmetry. clear IH Hok Hr.
    induction r as [|[k1 v1] r IHr]; simpl; [reflexivity|].
    inversion Hall as [|? ? H1 Hrest]; subst.
    destruct (String.ltb k1 upper) eqn:Hlt1.
    + exfalso. apply ltb_lt in Hlt1.
      assert (key_lt k0 upper) by (eapply key_lt_trans; eassumption).
      apply ltb_lt in H. congruence.
    + now apply IHr.
Qed.

Lemma lower_bound_filter k m :
  ok m ->
  lower_bound k m
  = List.filter (fun kv => negb (String.ltb (fst kv) k)) m.
Proof.
  unfold ok. induction m as [|[k0 v0] r IH]; simpl; intros Hok;
    [reflexivity|].
  inversion Hok as [|? ? Hr Hall]; subst.
  destruct (String.ltb k0 k) eqn:Hlt; simpl.
  - now apply IH.
  - f_equal. clear IH Hok Hr.
    induction r as [|[k1 v1] r IHr]; simpl; [reflexivity|].
    inversion Hall as [|? ? H1 Hrest]; subst.
    destruct (String.ltb k1 k) eqn:Hlt1; simpl.
    + exfalso. apply ltb_lt in Hlt1.
      assert (key_lt k0 k) by (eapply key_lt_trans; eassumption).
      apply ltb_lt in H. congruence.
    + f_equal. now apply IHr.
Qed.

Lemma ok_filter (p : string * V -> bool) m : ok m -> ok (List.filter p m).
Proof.
  unfold ok. induction m as [|[k0 v0] r IH]; simpl; intros Hok;
    [constructor|].
  inversion Hok as [|? ? Hr Hall]; subst.
  destruct (p (k0, v0)); simpl; [|now apply IH].
  constructor; [now apply IH|].
  apply List.Forall_forall. intros x Hx.
  rewrite List.Forall_forall in Hall. apply Hall.
  unfold keys in *. apply List.in_map_iff in Hx as [kv [<- Hin]].
  apply List.in_map. apply List.filter_In in Hin. tauto.
Qed.

Lemma range_scan_filter lo upper m :
  ok m ->
  while_below upper (lower_bound lo m)
  = List.filter
      (fun kv => negb (String.ltb (fst kv) lo)
                 && String.ltb (fst kv) upper) m.
Proof.
  intros Hok. rewrite lower_bound_filter by assumption.
  rewrite while_below_filter by now apply ok_filter.
  induction m as [|kv r IH]; simpl; [reflexivity|].
  assert (Hr : ok r) by (unfold ok in *; now inversion Hok).
  destruct (negb (String.ltb (fst kv) lo)); simpl.
  - destruct (String.ltb (fst kv) upper); now rewrite IH.
  - now apply IH.
Qed.

End Lookup.
End StdMapProofs.

(* ================================================================== *)
(** * Facts about [SystemTableMap] *)
(* ================================================================== *)

Module MapProofs.
Import SystemTableMap MapSpec StdMapProofs.

Section Proofs.
Context {E : Type} `{EntryType E}.
Implicit Types (st : SystemTableMap E) (op : PendingOperation E)
  (ops : list (PendingOperation E)) (k : string) (thd : THD_ptr).

Lemma scan_matches_touches k op : scan_matches k op = touches k op.
Proof.
  destruct op as [e | e old | old]; unfold scan_matches; simpl;
    rewrite ?orb_false_r; reflexivity.
Qed.

Lemma scan_from k ops :
  forall acc,
    fold_left (fun most_recent op =>
                 if scan_matches k op then Some op else most_recent) ops acc
    = match last_touching k ops with
      | Some op => Some op
      | None => acc
      end.
Proof.
  induction ops as [|op rest IH]; intros acc; simpl; [reflexivity|].
  rewrite IH, scan_matches_touches.
  destruct (last_touching k rest); [reflexivity|].
  now destruct (touches k op).
Qed.

Lemma most_recent_op_last k ops : most_recent_op k ops = last_touching k ops.
Proof.
  unfold most_recent_op. rewrite scan_from.
  now destruct (last_touching k ops).
Qed.

(** C1.  For every session and key, [get] returns what the last pending
    operation of the session touching the key leaves (nothing for a
    Delete, its entry otherwise), and [get_committed] when no pending
    operation of the session touches the key; this for any pending list,
    rename chains included. *)
Theorem get_reflects_last_pending_op st thd k :
  get st thd k
  = match last_touching k (pending st thd) with
    | Some op => value_of op
    | None => get_committed st k
    end.
Proof.
  unfold get, pending.
  destruct (thd =? nullptr); [reflexivity|].
  destruct (m_uncommitted st !! thd) as [ops|]; simpl; [|reflexivity].
  rewrite most_recent_op_last.
  destruct (last_touching k ops) as [[e | e old | old]|]; reflexivity.
Qed.

(** ** [commit] *)

Lemma get_committed_apply_op (m : StdMap.t (shared_ptr E)) op k :
  option_map obj (StdMap.find k (apply_op m op))
  = step_key k (option_map obj (StdMap.find k m)) op.
Proof.
  destruct op as [e | e old | old]; simpl.
  - rewrite find_assign. now destruct (String.eqb (key_str (key e)) k).
  - destruct (String.eqb_spec (key_str old) ""), 
      (String.eqb_spec (key_str old) (key_str (key e))); simpl;
      rewrite ?find_erase, ?find_assign.
    + now destruct (String.eqb (key_str (key e)) k).
    + now destruct (String.eqb (key_str (key e)) k).
    + now destruct (String.eqb (key_str (key e)) k).
    + destruct (String.eqb_spec (key_str (key e)) k) as [<-|Hk].
      * destruct (String.eqb_spec (key_str old) (key_str (key e)));
          [contradiction | reflexivity].
      * now destruct (String.eqb (key_str old) k).
  - rewrite find_erase. now destruct (String.eqb (key_str old) k).
Qed.

Lemma get_committed_fold ops :
  forall (m : StdMap.t (shared_ptr E)) k,
    option_map obj (StdMap.find k (fold_left apply_op ops m))
    = fold_left (step_key k) ops (option_map obj (StdMap.find k m)).
Proof.
  induction ops as [|op rest IH]; intros m k; simpl; [reflexivity|].
  now rewrite IH, get_committed_apply_op.
Qed.

Lemma get_committed_find st k :
  get_committed st k = option_map obj (StdMap.find k (m_committed st)).
Proof. unfold get_committed. now destruct (StdMap.find k (m_committed st)). Qed.

Lemma commit_lookup st thd k :
  get_committed (commit st thd) k
  = fold_left (step_key k) (pending st thd) (get_committed st k).
Proof.
  unfold commit, pending.
  destruct (thd =? nullptr); [reflexivity|].
  destruct (m_uncommitted st !! thd) as [ops|]; simpl; [|reflexivity].
  rewrite !get_committed_find. simpl. apply get_committed_fold.
Qed.

Lemma commit_pending_same st thd : pending (commit st thd) thd = [].
Proof.
  unfold commit, pending.
  destruct (thd =? nullptr) eqn:Hn; [reflexivity|].
  destruct (m_uncommitted st !! thd) as [ops|] eqn:Hops; simpl.
  - now rewrite lookup_delete_eq.
  - now rewrite Hops.
Qed.

Lemma commit_pending_other st thd thd' :
  thd' <> thd -> pending (commit st thd) thd' = pending st thd'.
Proof.
  intros Hne. unfold commit, pending.
  destruct (thd' =? nullptr); [reflexivity|].
  destruct (thd =? nullptr); [reflexivity|].
  destruct (m_uncommitted st !! thd) as [ops|]; simpl; [|reflexivity].
  now rewrite lookup_delete_ne by congruence.
Qed.

(** C2.  [commit] applies the session's pending operations to the
    committed map in staging order: for every key, what is committed
    afterwards is the fold of the per-key effect of the operations (Insert
    and Update assign the new key, a renaming Update erases its non-empty
    old key, Delete erases its key) over what was committed before.  The
    session's list is drained, other sessions' lists are untouched. *)
Theorem commit_applies_in_staging_order st thd :
  (forall k,
      get_committed (commit st thd) k
      = fold_left (step_key k) (pending st thd) (get_committed st k))
  /\ pending (commit st thd) thd = []
  /\ (forall thd', thd' <> thd ->
                   pending (commit st thd) thd' = pending st thd').
Proof.
  split; [intros k; apply commit_lookup|].
  split; [apply commit_pending_same|].
  intros thd'. apply commit_pending_other.
Qed.

(** A Delete followed by an Insert on the same key yields the inserted
    entry. *)
Lemma commit_delete_then_insert st thd (old : key_type) (e : E) :
  pending st thd = [PendingDelete old; PendingInsert e] ->
  key_str old = key_str (key e) ->
  get_committed (commit st thd) (key_str (key e)) = Some e.
Proof.
  intros Hp Hk. rewrite commit_lookup, Hp. simpl.
  now rewrite String.eqb_refl.
Qed.

(** A renaming Update followed by a Delete of the old key leaves only the
    new key. *)
Lemma commit_rename_then_delete st thd (old : key_type) (e : E) :
  pending st thd = [PendingUpdate e old; PendingDelete old] ->
  key_str old <> key_str (key e) ->
  get_committed (commit st thd) (key_str (key e)) = Some e
  /\ get_committed (commit st thd) (key_str old) = None.
Proof.
  intros Hp Hk. rewrite !commit_lookup, Hp. simpl.
  rewrite !String.eqb_refl.
  destruct (String.eqb_spec (key_str old) (key_str (key e)));
    [contradiction|].
  split; reflexivity.
Qed.

(** ** The invariant of the committed map *)

Lemma committed_ok_empty : committed_ok (empty_map (E := E)).
Proof. split; constructor. Qed.

Lemma keyed_assign (m : StdMap.t (shared_ptr E)) k (p : shared_ptr E) :
  key_str (key (obj p)) = k ->
  Forall (fun kv => key_str (key (obj (snd kv))) = fst kv) m ->
  Forall (fun kv => key_str (key (obj (snd kv))) = fst kv)
    (StdMap.assign k p m).
Proof.
  intros Hk. induction m as [|[k0 v0] r IH]; simpl; intros Hall.
  - now repeat constructor.
  - inversion Hall as [|? ? H0 Hr]; subst.
    destruct (String.compare (key_str (key (obj p))) k0).
    + now constructor.
    + now repeat constructor.
    + constructor; [assumption | now apply IH].
Qed.

Lemma keyed_erase (m : StdMap.t (shared_ptr E)) k :
  Forall (fun kv => key_str (key (obj (snd kv))) = fst kv) m ->
  Forall (fun kv => key_str (key (obj (snd kv))) = fst kv) (StdMap.erase k m).
Proof.
  induction m as [|[k0 v0] r IH]; simpl; intros Hall; [constructor|].
  inversion Hall as [|? ? H0 Hr]; subst.
  destruct (String.eqb k0 k); [now apply IH|].
  constructor; [assumption | now apply IH].
Qed.

Lemma apply_op_ok (m : StdMap.t (shared_ptr E)) op :
  StdMap.ok m /\ Forall (fun kv => key_str (key (obj (snd kv))) = fst kv) m ->
  StdMap.ok (apply_op m op)
  /\ Forall (fun kv => key_str (key (obj (snd kv))) = fst kv) (apply_op m op).
Proof.
  intros [Hok Hkeyed].
  destruct op as [e | e old | old]; simpl.
  - split; [now apply ok_assign | now apply keyed_assign].
  - destruct (_ && _).
    + split; [now apply ok_erase, ok_assign
             | now apply keyed_erase, keyed_assign].
    + split; [now apply ok_assign | now apply keyed_assign].
  - split; [now apply ok_erase | now apply keyed_erase].
Qed.

Lemma commit_ok st thd : committed_ok st -> committed_ok (commit st thd).
Proof.
  unfold committed_ok, commit. intros Hok.
  destruct (thd =? nullptr); [assumption|].
  destruct (m_uncommitted st !! thd) as [ops|]; [|assumption]. simpl.
  revert Hok. generalize (m_committed st).
  induction ops as [|op rest IH]; intros m Hm; simpl; [assumption|].
  apply IH. now apply apply_op_ok.
Qed.

Lemma link_in_list_ok st thd op :
  committed_ok st -> committed_ok (link_in_list st thd op).
Proof. intros Hok. exact Hok. Qed.

End Proofs.
End MapProofs.

(* ================================================================== *)
(** * The prefix queries *)
(* ================================================================== *)

Module PrefixProofs.
Import SystemTableMap MapSpec StdMapProofs.

Lemma ascii_of_N_of_ascii_inj (a b : ascii) :
  N_of_ascii a = N_of_ascii b -> a = b.
Proof.
  intros Heq.
  rewrite <- (ascii_N_embedding a), <- (ascii_N_embedding b).
  now rewrite Heq.
Qed.

Lemma N_of_ascii_succ (c : ascii) :
  N_of_ascii c < 255 ->
  N_of_ascii (ascii_of_N ((N_of_ascii c + 1) mod 256)) = N_of_ascii c + 1.
Proof.
  intros Hc. rewrite N.mod_small by lia.
  apply N_ascii_embedding. lia.
Qed.

Lemma prefix_cons (c d : ascii) (p k : string) :
  String.prefix (String c p) (String d k)
  = if Ascii.eqb c d then String.prefix p k else false.
Proof.
  simpl. destruct (ascii_dec c d) as [->|Hne].
  - now rewrite Ascii.eqb_refl.
  - destruct (Ascii.eqb_spec c d); [contradiction | reflexivity].
Qed.

Lemma ltb_cons (c d : ascii) (a b : string) :
  String.ltb (String c a) (String d b)
  = match N.compare (N_of_ascii c) (N_of_ascii d) with
    | Lt => true
    | Eq => String.ltb a b
    | Gt => false
    end.
Proof.
  unfold String.ltb. simpl. unfold Ascii.compare.
  now destruct (N.compare (N_of_ascii c) (N_of_ascii d)).
Qed.

Lemma ltb_nil_r (a : string) : String.ltb a "" = false.
Proof. now destruct a. Qed.

(** The keys in [[p, next_string p)] are the keys that start with [p],
    provided bumping the last byte of [p] does not wrap around. *)
Lemma range_is_prefix (p : string) :
  p <> "" ->
  (forall c, last_byte p = Some c -> N_of_ascii c < 255) ->
  forall k,
    negb (String.ltb k p) && String.ltb k (next_string p)
    = String.prefix p k.
Proof.
  induction p as [|c p IH]; [congruence|].
  intros _ Hlast k.
  destruct p as [|c2 p2].
  - (* the last byte *)
    assert (Hc : N_of_ascii c < 255) by now apply Hlast.
    cbn [next_string].
    destruct k as [|d r]; [reflexivity|].
    rewrite prefix_cons, !ltb_cons, N_of_ascii_succ by assumption.
    rewrite ltb_nil_r.
    destruct (N.compare_spec (N_of_ascii d) (N_of_ascii c)) as [Heq|Hlt|Hgt].
    + apply ascii_of_N_of_ascii_inj in Heq. subst d.
      rewrite Ascii.eqb_refl.
      assert (Hs : N.compare (N_of_ascii c) (N_of_ascii c + 1) = Lt)
        by (apply N.compare_lt_iff; lia).
      rewrite Hs. now destruct r.
    + destruct (Ascii.eqb_spec c d) as [->|_]; [lia | reflexivity].
    + destruct (Ascii.eqb_spec c d) as [->|_]; [lia|].
      destruct (N.compare_spec (N_of_ascii d) (N_of_ascii c + 1));
        try reflexivity; lia.
  - (* an inner byte *)
    cbn [next_string].
    destruct k as [|d r]; [reflexivity|].
    rewrite prefix_cons, !ltb_cons.
    destruct (N.compare_spec (N_of_ascii d) (N_of_ascii c)) as [Heq|Hlt|Hgt].
    + apply ascii_of_N_of_ascii_inj in Heq. subst d.
      rewrite Ascii.eqb_refl. apply IH; [discriminate|].
      intros c' Hc'. apply Hlast. exact Hc'.
    + destruct (Ascii.eqb_spec c d) as [->|_]; [lia | reflexivity].
    + destruct (Ascii.eqb_spec c d) as [->|_]; [lia | reflexivity].
Qed.

Section Proofs.
Context {E : Type} `{EntryType E}.
Implicit Types (st : SystemTableMap E) (p : string).

Lemma has_prefix_iff_nonempty st p :
  has_prefix_committed st p = negb (is_nil (get_prefix_committed st p)).
Proof.
  unfold has_prefix_committed, get_prefix_committed, prefix_range.
  destruct p as [|c r]; [reflexivity|].
  destruct (StdMap.lower_bound (String c r) (m_committed st)) as [|[k v] rest];
    [reflexivity|].
  generalize (next_string (String c r)). intros upper.
  cbn [StdMap.while_below].
  now destruct (String.ltb k upper).
Qed.

Lemma get_prefix_committed_is_filter st p :
  committed_ok st -> p <> "" ->
  (forall c, last_byte p = Some c -> N_of_ascii c < 255) ->
  get_prefix_committed st p = entries_with_prefix st p.
Proof.
  intros [Hok Hkeyed] Hne Hlast.
  unfold get_prefix_committed, prefix_range, entries_with_prefix,
    get_all_committed.
  destruct p as [|c r]; [congruence|].
  rewrite range_scan_filter by assumption.
  induction (m_committed st) as [|[k0 v0] m IH]; [reflexivity|].
  inversion Hkeyed as [|? ? Hk0 Hrest]; subst. simpl in Hk0.
  assert (Hm : StdMap.ok m) by (unfold StdMap.ok in *; now inversion Hok).
  cbn [List.filter List.map fst snd].
  rewrite range_is_prefix by assumption.
  rewrite Hk0.
  destruct (String.prefix (String c r) k0); cbn [List.map fst snd];
    now rewrite IH.
Qed.

(** C6 (as amended).  For every prefix string that is not empty and whose
    last byte is not 0xFF (every [ColumnKeyPrefix] and
    [TypeDescriptorKeyPrefix] string ends in a dot),
    [get_prefix_committed] returns, in key order, exactly the committed
    entries whose normalized key starts with the prefix string, the entry
    whose key equals it included; for the empty prefix string it returns
    nothing; and [has_prefix_committed] is true exactly when
    [get_prefix_committed] is not empty. *)
Theorem get_prefix_committed_returns_prefixed st p :
  has_prefix_committed st p = negb (is_nil (get_prefix_committed st p))
  /\ (p = "" -> get_prefix_committed st p = [])
  /\ (committed_ok st -> p <> "" ->
      (forall c, last_byte p = Some c -> N_of_ascii c < 255) ->
      get_prefix_committed st p = entries_with_prefix st p
      /\ Permutation (get_prefix_committed st p) (entries_with_prefix st p)).
Proof.
  split; [apply has_prefix_iff_nonempty|].
  split; [now intros ->|].
  intros Hok Hne Hlast.
  rewrite get_prefix_committed_is_filter by assumption.
  split; reflexivity.
Qed.

End Proofs.

(** The strings of the two prefix key types are not empty and end in a
    dot, so the amended statement covers every prefix the typed interface
    can pass. *)
Lemma last_byte_dot (s : string) : last_byte (s ++ ".") = Some "."%char.
Proof.
  induction s as [|c s IH]; [reflexivity|].
  simpl. rewrite IH. now destruct s.
Qed.

Lemma append_assoc (a b c : string) : (a ++ b) ++ c = a ++ (b ++ c).
Proof.
  induction a as [|x a IH]; [reflexivity|].
  change (String x ((a ++ b) ++ c) = String x (a ++ (b ++ c))).
  now rewrite IH.
Qed.

Lemma append_dot_not_empty (s : string) : s ++ "." <> "".
Proof. now destruct s. Qed.

Lemma column_prefix_ends_in_dot (lctn : N) (db_name table_name : string) :
  let p := Schema.ckp_normalized_prefix
             (Schema.ColumnKeyPrefix_make lctn db_name table_name) in
  p <> "" /\ last_byte p = Some "."%char.
Proof.
  unfold Schema.ColumnKeyPrefix_make. cbn [Schema.ckp_normalized_prefix].
  destruct table_name as [|c r].
  - split; [apply append_dot_not_empty | apply last_byte_dot].
  - rewrite <- !append_assoc.
    split; [apply append_dot_not_empty | apply last_byte_dot].
Qed.

Lemma type_prefix_ends_in_dot (type_name extension_name : string) :
  let p := Schema.tdp_normalized_prefix
             (Schema.TypeDescriptorKeyPrefix_make type_name extension_name) in
  p <> "" /\ last_byte p = Some "."%char.
Proof.
  unfold Schema.TypeDescriptorKeyPrefix_make.
  cbn [Schema.tdp_normalized_prefix].
  destruct extension_name as [|c r].
  - split; [apply append_dot_not_empty | apply last_byte_dot].
  - rewrite <- !append_assoc.
    split; [apply append_dot_not_empty | apply last_byte_dot].
Qed.

(** [GetCustomColumnsForTable] returns the committed columns whose key
    starts with the prefix of the table. *)
Lemma custom_columns_for_table (lctn : N) (v : Victionary.VictionaryClient)
    (db_name table_name : string) :
  Victionary.m_initialized v = true ->
  committed_ok (Victionary.m_columns v) ->
  Victionary.GetCustomColumnsForTable lctn v db_name table_name
  = entries_with_prefix (Victionary.m_columns v)
      (Schema.ckp_normalized_prefix
         (Schema.ColumnKeyPrefix_make lctn db_name table_name)).
Proof.
  intros Hinit Hok. unfold Victionary.GetCustomColumnsForTable.
  rewrite Hinit. cbn [negb].
  destruct (column_prefix_ends_in_dot lctn db_name table_name) as [Hne Hdot].
  apply get_prefix_committed_is_filter; [assumption | assumption |].
  intros c Hc. rewrite Hdot in Hc. injection Hc as <-.
  vm_compute. reflexivity.
Qed.

End PrefixProofs.

(* ================================================================== *)
(** * Facts about [TypeContext] *)
(* ================================================================== *)

Module TypeContextProofs.
Import SystemTableMap Schema TypeContextSpec StdMapProofs MapSpec.

Lemma Forall_assign {V} (P : string * V -> Prop) k v (m : StdMap.t V) :
  P (k, v) -> Forall P m -> Forall P (StdMap.assign k v m).
Proof.
  intros Hkv. induction m as [|[k0 v0] r IH]; simpl; intros Hall.
  - now repeat constructor.
  - inversion Hall as [|? ? H0 Hr]; subst.
    destruct (String.compare k k0).
    + now constructor.
    + now repeat constructor.
    + constructor; [assumption | now apply IH].
Qed.

Lemma Forall_find {V} (P : string * V -> Prop) k v (m : StdMap.t V) :
  Forall P m -> StdMap.find k m = Some v -> P (k, v).
Proof.
  induction m as [|[k0 v0] r IH]; simpl; intros Hall Hf; [discriminate|].
  inversion Hall as [|? ? H0 Hr]; subst.
  destruct (String.eqb_spec k0 k) as [->|Hne].
  - now injection Hf as <-.
  - now apply IH.
Qed.

Lemma match_has_descriptor (c : TypeContext) :
  holds_matching_descriptor c = true -> has_descriptor c = true.
Proof.
  unfold holds_matching_descriptor, has_descriptor.
  now destruct (tc_descriptor c).
Qed.

Lemma all_match_have_descriptor (st : SystemTableMap TypeContext) :
  all_contexts_match st -> all_contexts_have_descriptor st.
Proof.
  unfold all_contexts_match, all_contexts_have_descriptor.
  apply List.Forall_impl. intros kv. apply match_has_descriptor.
Qed.

(** The constructor stores what it is given; with assertions it
    completes only for a descriptor that fits the key. *)
Lemma ctor_stores ndebug key d c :
  TypeContext_ctor ndebug key d = Returned c ->
  c = mkTypeContext d key /\ (ndebug = false -> fits key d = true).
Proof.
  unfold TypeContext_ctor, fits. destruct ndebug.
  - intros [= <-]. split; [reflexivity|discriminate].
  - destruct d as [desc|]; [|discriminate].
    destruct (TypeDescriptorKey_eqb (td_key desc) (tck_descriptor_key key))
      eqn:Heq; [|discriminate].
    intros [= <-]. now split.
Qed.

Lemma create_stores ndebug key d p :
  TypeContext_create ndebug key d = Returned (Some p) ->
  p = make_shared (mkTypeContext d key) /\ d <> None
  /\ (ndebug = false -> fits key d = true).
Proof.
  unfold TypeContext_create. destruct d as [desc|]; [|discriminate].
  destruct (TypeContext_ctor ndebug key (Some desc)) as [c|] eqn:Hc;
    [|discriminate].
  intros [= <-]. apply ctor_stores in Hc as [-> Hfits].
  split; [reflexivity|]. split; [discriminate|exact Hfits].
Qed.

Lemma fits_matches key d :
  fits key d = true ->
  holds_matching_descriptor (mkTypeContext d key) = true.
Proof. intros Hfits. exact Hfits. Qed.

(** [acquire_or_create] through [create], for a property [P] of
    contexts that the created context has. *)
Lemma acquire_or_create_keeps (P : TypeContext -> Prop) ndebug
    (st st' : SystemTableMap TypeContext) (k : TypeContextKey) d fails
    (r : option TypeContext) :
  Forall (fun kv => P (obj (snd kv))) (m_committed st) ->
  (d <> None -> (ndebug = false -> fits k d = true) ->
   P (mkTypeContext d k)) ->
  acquire_or_create (fun k => TypeContext_create ndebug k d) st k fails
  = Returned (r, st') ->
  Forall (fun kv => P (obj (snd kv))) (m_committed st')
  /\ (forall c, r = Some c -> P c)
  /\ objects_kept st st'
  /\ m_uncommitted st' = m_uncommitted st.
Proof.
  unfold acquire_or_create, objects_kept.
  change (@key_str TypeContext TypeContext_entry k)
    with (tck_normalized_key k).
  intros Hall Hcreated.
  destruct (StdMap.find (tck_normalized_key k) (m_committed st)) as [p0|] eqn:Hfind.
  - (* the entry exists *)
    rewrite Hfind.
    destruct fails; intros [= <- <-]; simpl.
    + split; [assumption|]. split; [discriminate|]. split; [eauto|reflexivity].
    + pose proof (Forall_find _ _ _ _ Hall Hfind) as Hp0. simpl in Hp0.
      split; [now apply Forall_assign|].
      split; [now intros c [= <-]|]. split; [|reflexivity].
      intros k1 p1 Hk1. rewrite find_assign.
      destruct (String.eqb_spec (tck_normalized_key k) k1) as [<-|Hne]; [|eauto].
      rewrite Hfind in Hk1. injection Hk1 as <-. eauto.
  - (* the entry is created *)
    destruct (TypeContext_create ndebug k d) as [[new_entry|]|] eqn:Hcreate;
      [| intros [= <- <-]; split; [assumption|];
         split; [discriminate | split; [eauto|reflexivity]]
       | discriminate].
    apply create_stores in Hcreate as (-> & Hsome & Hfits).
    specialize (Hcreated Hsome Hfits).
    set (new_entry := make_shared (mkTypeContext d k)).
    unfold StdMap.emplace. rewrite Hfind, find_assign, String.eqb_refl.
    assert (Hall' : Forall (fun kv => P (obj (snd kv)))
                      (StdMap.assign (tck_normalized_key k) new_entry
                         (m_committed st)))
      by now apply Forall_assign.
    assert (Hkept : forall k1 p1,
               StdMap.find k1 (m_committed st) = Some p1 ->
               StdMap.find k1
                 (StdMap.assign (tck_normalized_key k) new_entry (m_committed st))
               = Some p1).
    { intros k1 p1 Hk1. rewrite find_assign.
      destruct (String.eqb_spec (tck_normalized_key k) k1) as [<-|Hne]; [|assumption].
      congruence. }
    destruct fails; intros [= <- <-]; simpl.
    + split; [assumption|]. split; [discriminate|]. split; [|reflexivity].
      intros k1 p1 Hk1. eauto.
    + split; [now apply Forall_assign|].
      split; [now intros c [= <-]|]. split; [|reflexivity].
      intros k1 p1 Hk1. rewrite find_assign.
      destruct (String.eqb_spec (tck_normalized_key k) k1) as [<-|Hne]; [congruence|].
      rewrite (Hkept _ _ Hk1). eauto.
Qed.

(** In every build the cache keeps holding contexts with a descriptor,
    whatever [create] is given. *)
Lemma acquire_or_create_has_descriptor ndebug
    (st st' : SystemTableMap TypeContext) (k : TypeContextKey) d fails
    (r : option TypeContext) :
  all_contexts_have_descriptor st ->
  acquire_or_create (fun k => TypeContext_create ndebug k d) st k fails
  = Returned (r, st') ->
  all_contexts_have_descriptor st'
  /\ (forall c, r = Some c -> has_descriptor c = true).
Proof.
  intros Hall Hacq.
  destruct (acquire_or_create_keeps (fun c => has_descriptor c = true)
              ndebug st st' k d fails r Hall) as (H1 & H2 & _);
    [|exact Hacq|now split].
  intros Hsome _. unfold has_descriptor. cbn. now destruct d.
Qed.

(** It keeps holding matching contexts when the descriptor handed to
    [create] fits the key, which the build with assertions checks. *)
Lemma acquire_or_create_matches ndebug
    (st st' : SystemTableMap TypeContext) (k : TypeContextKey) d fails
    (r : option TypeContext) :
  all_contexts_match st ->
  ndebug = false \/ fits k d = true ->
  acquire_or_create (fun k => TypeContext_create ndebug k d) st k fails
  = Returned (r, st') ->
  all_contexts_match st'
  /\ (forall c, r = Some c -> holds_matching_descriptor c = true)
  /\ objects_kept st st'
  /\ m_uncommitted st' = m_uncommitted st.
Proof.
  intros Hall Hfits Hacq.
  apply (acquire_or_create_keeps
           (fun c => holds_matching_descriptor c = true)
           ndebug st st' k d fails r Hall); [|exact Hacq].
  intros _ Hchecked. apply fits_matches.
  destruct Hfits as [Hbuild|Hfits]; [now apply Hchecked|exact Hfits].
Qed.

End TypeContextProofs.

(* ================================================================== *)
(** * Facts about DDL staging *)
(* ================================================================== *)

Module StagingProofs.
Import SystemTableMap Schema Victionary MetadataModifier.
Import MapSpec MapProofs StagingSpec.

Section Link.
Context {E : Type} `{EntryType E}.
Implicit Types (st : SystemTableMap E) (thd : THD_ptr).

Lemma pending_link st thd op :
  thd <> nullptr ->
  pending (link_in_list st thd op) thd = (pending st thd ++ [op])%list.
Proof.
  intros Hthd. unfold pending, link_in_list. simpl.
  destruct (N.eqb_spec thd nullptr) as [|_]; [contradiction|].
  now rewrite lookup_insert_eq.
Qed.

Lemma pending_link_all {A} (mk : A -> PendingOperation E) st thd items :
  thd <> nullptr ->
  pending (fold_left (fun c x => link_in_list c thd (mk x)) items st) thd
  = (pending st thd ++ List.map mk items)%list.
Proof.
  intros Hthd. revert st.
  induction items as [|x rest IH]; intros st; simpl.
  - now rewrite app_nil_r.
  - rewrite IH, pending_link by assumption. now rewrite <- app_assoc.
Qed.

Lemma committed_link_all {A} (mk : A -> PendingOperation E) st thd items :
  m_committed (fold_left (fun c x => link_in_list c thd (mk x)) items st)
  = m_committed st.
Proof.
  revert st. induction items as [|x rest IH]; intros st; simpl;
    [reflexivity|].
  now rewrite IH.
Qed.

Lemma fold_insert_untouched k (l : list E) :
  forall cur,
    (forall e, In e l -> key_str (key e) <> k) ->
    fold_left (step_key k) (List.map PendingInsert l) cur = cur.
Proof.
  induction l as [|a l IH]; intros cur Hno; simpl; [reflexivity|].
  destruct (String.eqb_spec (key_str (key a)) k) as [Heq|_].
  - exfalso. apply (Hno a); [now left | assumption].
  - apply IH. intros e He. apply Hno. now right.
Qed.

Lemma fold_insert_present k (l : list E) :
  forall cur e,
    In e l -> key_str (key e) = k ->
    exists e', In e' l /\ key_str (key e') = k
               /\ fold_left (step_key k) (List.map PendingInsert l) cur
                  = Some e'.
Proof.
  induction l as [|a l IH]; intros cur e Hin Hk; [destruct Hin|].
  simpl.
  destruct (existsb (fun x => String.eqb (key_str (key x)) k) l) eqn:Hex.
  - apply existsb_exists in Hex as (e2 & Hin2 & Hk2).
    apply String.eqb_eq in Hk2.
    destruct (IH (if String.eqb (key_str (key a)) k then Some a else cur)
                e2 Hin2 Hk2) as (e' & Hin' & Hk' & Hfold).
    exists e'. split; [now right | now split].
  - assert (Hno : forall x, In x l -> key_str (key x) <> k).
    { intros x Hx Hkx.
      assert (existsb (fun x => String.eqb (key_str (key x)) k) l = true).
      { apply existsb_exists. exists x. split; [assumption|].
        now apply String.eqb_eq. }
      congruence. }
    destruct Hin as [->|Hin]; [|exfalso; now apply (Hno e)].
    exists e. split; [now left|]. split; [assumption|].
    rewrite fold_insert_untouched by assumption.
    now rewrite (proj2 (String.eqb_eq _ _) Hk).
Qed.

End Link.

Lemma mark_each_links {A} (mk : A -> PendingOperation ColumnEntry)
    (thd : THD_ptr) (items : list A) :
  forall (marked : bool) (cols : SystemTableMap ColumnEntry),
    mark_each (fun c x => (false, link_in_list c thd (mk x))) items
      (marked, cols)
    = (false, marked || negb (is_empty items),
       fold_left (fun c x => link_in_list c thd (mk x)) items cols).
Proof.
  unfold mark_each. simpl.
  assert (Hgen : forall (l : list A) marked cols,
             fold_left
               (fun (acc : bool * bool * SystemTableMap ColumnEntry) (x : A) =>
                  let '(failed, marked, columns) := acc in
                  if failed then acc
                  else
                    let '(err, columns') :=
                      (false, link_in_list columns thd (mk x)) in
                    if err then (true, marked, columns)
                    else (false, true, columns'))
               l (false, marked, cols)
             = (false, marked || negb (is_empty l),
                fold_left (fun c x => link_in_list c thd (mk x)) l cols)).
  { induction l as [|x rest IH]; intros marked cols; simpl.
    - now rewrite orb_false_r.
    - rewrite IH. simpl. now rewrite orb_true_r. }
  intros marked cols. apply Hgen.
Qed.

Lemma mark_victionary_modifications_stages (mm : Metadata_modifier)
    (vclient : VictionaryClient) (thd : THD_ptr) :
  m_initialized vclient = true -> thd <> nullptr ->
  exists marked cols,
    mark_victionary_modifications mm vclient thd
    = Returned (false, marked, mkModifier [] [] [] (to_call_ mm),
                with_columns vclient cols)
    /\ pending cols thd
       = (pending (m_columns vclient) thd ++ staged_ops mm)%list
    /\ m_committed cols = m_committed (m_columns vclient)
    /\ marked = negb (is_empty (staged_ops mm)).
Proof.
  intros Hinit Hthd. unfold mark_victionary_modifications.
  rewrite Hinit. simpl negb. cbv iota.
  destruct (N.eqb_spec thd nullptr) as [|_]; [contradiction|].
  unfold MarkForDeletion, MarkForUpdate, MarkForInsertion.
  rewrite (mark_each_links
             (fun entry : ColumnEntry =>
                @PendingDelete ColumnEntry ColumnEntry_entry (ce_key entry))).
  cbv beta iota zeta. simpl to_rename_. simpl to_add_.
  rewrite (mark_each_links
             (fun p : ColumnEntry * ColumnKey =>
                @PendingUpdate ColumnEntry ColumnEntry_entry (fst p) (snd p))).
  cbv beta iota zeta. simpl to_add_.
  rewrite (mark_each_links (@PendingInsert ColumnEntry ColumnEntry_entry)).
  cbv beta iota zeta. simpl.
  eexists _, _. split; [reflexivity|].
  split; [|split].
  - rewrite !pending_link_all by assumption.
    unfold staged_ops. now rewrite <- !app_assoc.
  - now rewrite !committed_link_all.
  - unfold staged_ops.
    destruct (to_remove_ mm), (to_rename_ mm), (to_add_ mm); reflexivity.
Qed.

(** C5.  With an initialized Victionary and a session,
    [mark_victionary_modifications] returns success, having appended to
    the session's pending list of the columns map all removals, then all
    renames, then all insertions, whatever the order in which the three
    vectors were filled; the same holds for every successful
    [lock_and_apply].  With the in-order commit, every key of an entry to
    add ends up committed with an entry to add, also when the same key was
    among the removals (the custom-to-custom MODIFY).  And
    [lock_and_apply] succeeds exactly when there is nothing to stage, or
    the extension locks are granted, the validation passes and the
    system table opens; it returns whenever the locks are granted and
    the validation passes. *)
Theorem staging_order_removes_renames_inserts (mm : Metadata_modifier)
    (vclient : VictionaryClient) (thd : THD_ptr)
    (Hinit : m_initialized vclient = true) (Hthd : thd <> nullptr) :
  exists marked cols,
    mark_victionary_modifications mm vclient thd
    = Returned (false, marked, mkModifier [] [] [] (to_call_ mm),
                with_columns vclient cols)
    /\ pending cols thd
       = (pending (m_columns vclient) thd ++ staged_ops mm)%list
    /\ m_committed cols = m_committed (m_columns vclient)
    /\ (forall e, In e (to_add_ mm) ->
          exists e', In e' (to_add_ mm)
                     /\ key_str (key e') = key_str (key e)
                     /\ get_committed
                          (m_columns
                             (commit_all_tables (with_columns vclient cols)
                                thd))
                          (key_str (key e)) = Some e')
    /\ (forall host r,
          lock_and_apply host mm vclient thd = Returned r ->
          la_failed r = false ->
          pending (m_columns (la_vclient r)) thd
          = (pending (m_columns vclient) thd ++ staged_ops mm)%list)
    /\ (forall host r,
          lock_and_apply host mm vclient thd = Returned r ->
          la_failed r = false
          <-> has_entries mm = false
              \/ (lock_extensions_shared host mm thd = Returned false
                  /\ validate_entries host mm vclient = Returned None
                  /\ marked && open_tables_fails host = false))
    /\ (forall host,
          lock_extensions_shared host mm thd = Returned false ->
          validate_entries host mm vclient = Returned None ->
          exists r, lock_and_apply host mm vclient thd = Returned r).
Proof.
  destruct (mark_victionary_modifications_stages mm vclient thd Hinit Hthd)
    as (marked & cols & Hmark & Hpending & Hcommitted & Hmarked).
  exists marked, cols.
  split; [exact Hmark|]. split; [exact Hpending|].
  split; [exact Hcommitted|]. split; [|split; [|split]].
  - intros e Hin.
    unfold commit_all_tables. simpl m_initialized. rewrite Hinit.
    destruct (N.eqb_spec thd nullptr) as [|_]; [contradiction|].
    simpl. rewrite commit_lookup, Hpending.
    unfold staged_ops. rewrite !fold_left_app.
    match goal with
    | |- context [fold_left _ (List.map _ (to_add_ mm)) ?cur] =>
        destruct (fold_insert_present (E := ColumnEntry)
                    (key_str (key e)) (to_add_ mm) cur e Hin eq_refl)
          as (e' & Hin' & Hk' & Hfold)
    end.
    exists e'. split; [exact Hin'|]. split; [exact Hk' | exact Hfold].
  - intros host r Hr Hok. unfold lock_and_apply in Hr.
    destruct (has_entries mm) eqn:Hent; simpl in Hr.
    + destruct (lock_extensions_shared host mm thd) as [[|]|];
        [injection Hr as <-; discriminate | | discriminate].
      destruct (validate_entries host mm vclient) as [[msg|]|];
        [injection Hr as <-; discriminate | | discriminate].
      rewrite Hmark in Hr.
      destruct (marked && open_tables_fails host);
        injection Hr as <-; [discriminate|]. exact Hpending.
    + injection Hr as <-. simpl.
      unfold has_entries in Hent. unfold staged_ops.
      destruct (to_add_ mm), (to_remove_ mm), (to_rename_ mm);
        try discriminate.
      simpl. now rewrite app_nil_r.
  - intros host r Hr. unfold lock_and_apply in Hr.
    destruct (has_entries mm) eqn:Hent; cbn [negb] in Hr.
    + destruct (lock_extensions_shared host mm thd) as [[|]|];
        [injection Hr as <-; cbn [la_failed]; split;
           [discriminate|intros [|(? & _)]; discriminate]
        | | discriminate].
      destruct (validate_entries host mm vclient) as [[msg|]|];
        [injection Hr as <-; cbn [la_failed]; split;
           [discriminate|intros [|(_ & ? & _)]; discriminate]
        | | discriminate].
      rewrite Hmark in Hr.
      destruct (marked && open_tables_fails host);
        injection Hr as <-; cbn [la_failed].
      * split; [discriminate|intros [|(_ & _ & ?)]; discriminate].
      * split; [intros _; right; now repeat split|reflexivity].
    + injection Hr as <-. cbn [la_failed]. split; [now left|reflexivity].
  - intros host Hlock Hval. unfold lock_and_apply.
    rewrite Hlock, Hval, Hmark.
    destruct (negb (has_entries mm)); [now eexists|].
    destruct (marked && open_tables_fails host); now eexists.
Qed.

End StagingProofs.

(* ================================================================== *)
(** * Facts about [remove_extension_from_victionary] *)
(* ================================================================== *)

Module UninstallProofs.
Import CStr SystemTableMap Schema Victionary Uninstall.
Import MapSpec StdMapProofs TypeContextSpec UninstallSpec.

Lemma find_In_ok {V} (m : StdMap.t V) k v :
  StdMap.ok m -> In (k, v) m -> StdMap.find k m = Some v.
Proof.
  unfold StdMap.ok. induction m as [|[k0 v0] r IH]; simpl; intros Hok Hin;
    [destruct Hin|].
  inversion Hok as [|? ? Hr Hall]; subst.
  destruct Hin as [[= -> ->]|Hin]; [now rewrite String.eqb_refl|].
  destruct (String.eqb_spec k0 k) as [->|Hne]; [|now apply IH].
  exfalso. rewrite List.Forall_forall in Hall.
  apply (key_lt_irrefl k). apply Hall.
  unfold StdMap.keys. now apply (List.in_map fst _ (k, v)).
Qed.

(** The counting loop of [check_for_columns_of_extension]. *)
Lemma count_columns (ext : ExtensionEntry) (cols : list ColumnEntry) :
  forall (count : Z) (first_col : option ColumnEntry),
    (0 <= count)%Z -> (count = 0%Z <-> first_col = None) ->
    fold_left
      (fun (acc : Z * option ColumnEntry) (col : ColumnEntry) =>
         let '(count, first_col) := acc in
         if String.eqb (ce_extension_name col) (ee_extension_name ext)
            && String.eqb (ce_extension_version col)
                 (ee_extension_version ext)
         then ((count + 1)%Z,
               if (count =? 0)%Z then Some col else first_col)
         else acc)
      cols (count, first_col)
    = ((count + Z.of_nat (List.length
                            (List.filter (column_references ext) cols)))%Z,
       match first_col with
       | Some c => Some c
       | None => List.find (column_references ext) cols
       end).
Proof.
  induction cols as [|col rest IH]; intros count first_col Hpos Hinv; simpl.
  - rewrite Z.add_0_r. now destruct first_col.
  - fold (column_references ext col).
    destruct (column_references ext col); simpl.
    + rewrite IH.
      * f_equal; [rewrite Nat2Z.inj_succ; lia|].
        destruct first_col as [c|].
        -- destruct (Z.eqb_spec count 0) as [H0|_]; [|reflexivity].
           apply Hinv in H0. discriminate.
        -- destruct (Z.eqb_spec count 0) as [_|Hn]; [reflexivity|].
           exfalso. apply Hn. now apply Hinv.
      * lia.
      * split; [lia|].
        destruct (Z.eqb_spec count 0) as [_|Hn]; [discriminate|].
        intros ->. exfalso. apply Hn. now apply Hinv.
    + now apply IH.
Qed.

Lemma check_for_columns_spec (ext : ExtensionEntry)
    (cols : list ColumnEntry) :
  check_for_columns_of_extension ext cols
  = match List.find (column_references ext) cols with
    | Some first_col =>
        (true,
         Some ("Cannot drop extension `" ++ ee_extension_name ext
               ++ "` as "
               ++ print_d (Z.of_nat (List.length
                                       (List.filter (column_references ext)
                                          cols)))
               ++ " column(s) depend on it, e.g. "
               ++ ce_db_name first_col ++ "." ++ ce_table_name first_col
               ++ "." ++ ce_column_name first_col ++ " has type "
               ++ ce_type_name first_col))
    | None => (false, None)
    end.
Proof.
  unfold check_for_columns_of_extension.
  rewrite count_columns by (try lia; tauto).
  now destruct (List.find (column_references ext) cols).
Qed.

Lemma find_existsb {A} (p : A -> bool) (l : list A) :
  existsb p l = match List.find p l with Some _ => true | None => false end.
Proof.
  induction l as [|a l IH]; simpl; [reflexivity|].
  now destruct (p a).
Qed.

Section SameSpelling.
Variable ext : ExtensionEntry.
Variable t : THD_ptr.

Let name := ee_extension_name ext.
Let version := ee_extension_version ext.

Lemma type_context_of_descriptor (c : TypeContext) :
  has_descriptor c = true ->
  type_context_of name version c = Returned (context_belongs ext c).
Proof.
  unfold has_descriptor, type_context_of, context_belongs,
    tc_extension_name, tc_extension_version, tc_descriptor.
  destruct (descriptor_ c); [reflexivity | discriminate].
Qed.

Lemma type_context_of_belongs (c : TypeContext) :
  holds_matching_descriptor c = true ->
  type_context_of name version c = Returned (context_belongs ext c).
Proof.
  intros Hc. apply type_context_of_descriptor.
  unfold holds_matching_descriptor in Hc. unfold has_descriptor.
  now destruct (tc_descriptor c).
Qed.

Lemma type_context_in_use_spec (contexts : SystemTableMap TypeContext)
    (l : StdMap.t (shared_ptr TypeContext)) :
  committed_ok contexts -> incl l (m_committed contexts) ->
  Forall (fun kv => has_descriptor (obj (snd kv)) = true) l ->
  exists r,
    type_context_in_use contexts name version
      (List.map (fun kv => obj (snd kv)) l) = Returned r
    /\ (existsb (fun kv => context_belongs ext (obj (snd kv))
                           && (1 <? use_count (snd kv))) l
        = match r with Some _ => true | None => false end).
Proof.
  intros [Hok Hkeyed] Hincl Hall.
  induction l as [|[k p] rest IH]; simpl.
  - now exists None.
  - inversion Hall as [|? ? Hp Hrest]; subst. simpl in Hp.
    assert (Hin : In (k, p) (m_committed contexts))
      by (apply Hincl; now left).
    assert (Hkey : tck_normalized_key (key_ (obj p)) = k).
    { rewrite List.Forall_forall in Hkeyed. exact (Hkeyed _ Hin). }
    assert (Hcount : get_use_count contexts (tck_normalized_key (key_ (obj p)))
                     = use_count p).
    { unfold get_use_count. rewrite Hkey.
      now rewrite (find_In_ok _ _ _ Hok Hin). }
    rewrite type_context_of_descriptor by assumption.
    destruct IH as (r & Hr & Hex);
      [intros x Hx; apply Hincl; now right | assumption |].
    destruct (context_belongs ext (obj p)) eqn:Hbel; simpl.
    + rewrite Hcount. destruct (1 <? use_count p); simpl.
      * unfold context_belongs, tc_type_name, tc_descriptor in *.
        destruct (descriptor_ (obj p)); [|discriminate].
        now eexists.
      * now exists r.
    + now exists r.
Qed.

Lemma type_desc_in_use_spec (descs : SystemTableMap TypeDescriptor)
    (l : StdMap.t (shared_ptr TypeDescriptor)) :
  committed_ok descs -> incl l (m_committed descs) ->
  existsb (fun kv => descriptor_belongs ext (obj (snd kv))
                     && (1 <? use_count (snd kv))) l
  = match type_desc_in_use descs name version
            (List.map (fun kv => obj (snd kv)) l) with
    | Some _ => true
    | None => false
    end.
Proof.
  intros [Hok Hkeyed] Hincl.
  induction l as [|[k p] rest IH]; simpl; [reflexivity|].
  assert (Hin : In (k, p) (m_committed descs)) by (apply Hincl; now left).
  assert (Hkey : tdk_normalized_key (td_key (obj p)) = k).
  { rewrite List.Forall_forall in Hkeyed. exact (Hkeyed _ Hin). }
  assert (Hcount : get_use_count descs (tdk_normalized_key (td_key (obj p)))
                   = use_count p).
  { unfold get_use_count. rewrite Hkey.
    now rewrite (find_In_ok _ _ _ Hok Hin). }
  fold (descriptor_belongs ext (obj p)).
  change (type_desc_of name version (obj p))
    with (descriptor_belongs ext (obj p)).
  rewrite IH by (intros x Hx; apply Hincl; now right).
  destruct (descriptor_belongs ext (obj p)); simpl; [|reflexivity].
  rewrite Hcount. now destruct (1 <? use_count p).
Qed.

Lemma mark_type_contexts_returns (contexts : SystemTableMap TypeContext)
    (l : list TypeContext) :
  Forall (fun c => has_descriptor c = true) l ->
  forall acc, exists marked,
    mark_type_contexts acc t name version l = Returned marked.
Proof.
  induction l as [|c rest IH]; intros Hall acc; simpl; [now eexists|].
  inversion Hall as [|? ? Hc Hrest]; subst.
  rewrite type_context_of_descriptor by assumption.
  destruct (context_belongs ext c); now apply IH.
Qed.

(** Under the spelling the extension was installed with, uninstall is
    refused exactly when a committed column references the extension at
    its version or one of its type contexts or descriptors has a
    [use_count] above 1; a refusal stages nothing; and a refusal because
    of columns names the first such column and their number. *)
Lemma refused_iff_must_refuse (v : VictionaryClient) :
  get_committed (m_extensions v)
    (ek_normalized_key (ExtensionKey_make name)) = Some ext ->
  committed_ok (m_type_contexts v) ->
  committed_ok (m_type_descriptors v) ->
  all_contexts_have_descriptor (m_type_contexts v) ->
  exists rm,
    remove_extension_from_victionary t v name = Returned rm
    /\ rm_failed rm = must_refuse v ext
    /\ (rm_failed rm = true -> rm_vclient rm = v /\ rm_error rm <> None)
    /\ (forall first_col,
          List.find (column_references ext) (get_all_committed (m_columns v))
          = Some first_col ->
          rm_error rm
          = Some ("Cannot drop extension `" ++ name ++ "` as "
                  ++ print_d
                       (Z.of_nat
                          (List.length
                             (List.filter (column_references ext)
                                (get_all_committed (m_columns v)))))
                  ++ " column(s) depend on it, e.g. "
                  ++ ce_db_name first_col ++ "." ++ ce_table_name first_col
                  ++ "." ++ ce_column_name first_col ++ " has type "
                  ++ ce_type_name first_col)).
Proof.
  intros Hext Hctx Hdesc Hmatch.
  unfold remove_extension_from_victionary, must_refuse.
  rewrite Hext, check_for_columns_spec, find_existsb.
  fold name.
  destruct (List.find (column_references ext)
              (get_all_committed (m_columns v))) as [first_col|] eqn:Hcol.
  { eexists. split; [reflexivity|]. simpl.
    split; [reflexivity|]. split; [split; [reflexivity | discriminate]|].
    intros c [= <-]. reflexivity. }
  simpl orb.
  destruct (type_context_in_use_spec (m_type_contexts v)
              (m_committed (m_type_contexts v)) Hctx (incl_refl _) Hmatch)
    as (r & Hr & Hex).
  unfold get_all_committed at 1.
  fold version. rewrite Hr, Hex.
  destruct r as [type_name|].
  { eexists. split; [reflexivity|]. simpl.
    split; [reflexivity|]. split; [split; [reflexivity | discriminate]|].
    discriminate. }
  simpl orb.
  rewrite (type_desc_in_use_spec (m_type_descriptors v)
             (m_committed (m_type_descriptors v)) Hdesc (incl_refl _)).
  unfold get_all_committed at 1.
  destruct (type_desc_in_use (m_type_descriptors v) name version _)
    as [type_name|].
  { eexists. split; [reflexivity|]. simpl.
    split; [reflexivity|]. split; [split; [reflexivity | discriminate]|].
    discriminate. }
  destruct (mark_type_contexts_returns (m_type_contexts v)
              (get_all_committed (m_type_contexts v)))
    with (acc := m_type_contexts v) as (marked & Hmarked).
  { unfold get_all_committed. apply Forall_map.
    exact Hmatch. }
  rewrite Hmarked.
  destruct (get_committed (m_extension_descriptors v) _);
    (eexists; split; [reflexivity|]; simpl;
     split; [reflexivity|]; split; discriminate).
Qed.

End SameSpelling.
End UninstallProofs.

(* ================================================================== *)
(** * Facts about the cache of type contexts *)
(* ================================================================== *)

Module ContextCacheProofs.
Import CStr SystemTableMap Schema Victionary Uninstall Acquire TypeUtil.
Import MapSpec TypeContextSpec ContextCache.
Import StdMapProofs MapProofs PrefixProofs TypeContextProofs.

Implicit Types (st : SystemTableMap TypeContext) (thd : THD_ptr).

(** ** What a step may do to the committed contexts *)

Lemma kept_unchanged st st' :
  objects_kept st st' -> contexts_unchanged st st'.
Proof.
  intros Hkept k p p' Hp Hp'.
  destruct (Hkept k p Hp) as (q & Hq & Hobj). congruence.
Qed.

Lemma same_cache_ok st st' :
  m_committed st' = m_committed st -> only_deletions st' ->
  cache_ok st -> cache_ok st' /\ contexts_unchanged st st'.
Proof.
  intros Hc Hd [Hmatch _]. split.
  - split; [|exact Hd]. unfold all_contexts_match. now rewrite Hc.
  - intros k p p'. rewrite Hc. congruence.
Qed.

Lemma only_deletions_same st st' :
  m_uncommitted st' = m_uncommitted st ->
  only_deletions st -> only_deletions st'.
Proof.
  intros Hu Hd thd. specialize (Hd thd). unfold pending in *.
  now rewrite Hu.
Qed.

(** The binding of a key gets another count. *)
Lemma recount_ok st ks p n :
  StdMap.find ks (m_committed st) = Some p ->
  cache_ok st ->
  let st' := mkMap (StdMap.assign ks (mk_shared (obj p) n) (m_committed st))
               (m_uncommitted st) in
  cache_ok st' /\ contexts_unchanged st st'.
Proof.
  intros Hfind [Hmatch Hd] st'. split; [split|].
  - unfold all_contexts_match, st'. cbn [m_committed].
    apply Forall_assign; [|exact Hmatch].
    exact (Forall_find _ _ _ _ Hmatch Hfind).
  - now apply (only_deletions_same st).
  - intros k q q'. unfold st'. cbn [m_committed]. rewrite find_assign.
    destruct (String.eqb_spec ks k) as [<-|_]; [|congruence].
    rewrite Hfind. now intros [= <-] [= <-].
Qed.

(** ** Deletions *)

Lemma pending_link_cases st thd thd' (op : PendingOperation TypeContext) :
  pending (link_in_list st thd op) thd' = pending st thd'
  \/ pending (link_in_list st thd op) thd' = (pending st thd' ++ [op])%list.
Proof.
  unfold pending, link_in_list. cbn [m_uncommitted].
  destruct (thd' =? nullptr); [now left|].
  destruct (N.eq_dec thd thd') as [->|Hne].
  - right. now rewrite lookup_insert_eq.
  - left. now rewrite lookup_insert_ne.
Qed.

Lemma mark_for_deletion_ok st thd
    (k : @key_type TypeContext TypeContext_entry) :
  only_deletions st ->
  only_deletions (snd (MarkForDeletion st thd k)).
Proof.
  intros Hd thd'. cbn [MarkForDeletion snd].
  destruct (pending_link_cases st thd thd'
              (@PendingDelete TypeContext TypeContext_entry k))
    as [-> | ->]; [apply Hd|].
  apply Forall_app. split; [apply Hd|]. now repeat constructor.
Qed.

Lemma mark_type_contexts_ok thd (name version : string)
    (l : list TypeContext) :
  forall st marked,
    mark_type_contexts st thd name version l = Returned marked ->
    only_deletions st ->
    m_committed marked = m_committed st /\ only_deletions marked.
Proof.
  induction l as [|c rest IH]; intros st marked; cbn [mark_type_contexts].
  - intros [= <-] Hd. now split.
  - destruct (type_context_of name version c) as [[|]|]; [| |discriminate].
    + intros Hm Hd.
      destruct (IH _ _ Hm (mark_for_deletion_ok st thd (key c) Hd))
        as [Hc Hd'].
      split; [rewrite Hc; reflexivity|exact Hd'].
    + apply IH.
Qed.

Lemma Forall_erase {V} (P : string * V -> Prop) (k : string)
    (m : StdMap.t V) :
  Forall P m -> Forall P (StdMap.erase k m).
Proof.
  induction m as [|[k1 v1] r IH]; simpl; intros Hall; [constructor|].
  inversion Hall as [|? ? H1 Hr]; subst.
  destruct (String.eqb k1 k); [now apply IH|].
  constructor; [assumption|now apply IH].
Qed.

Lemma erase_all_kept (ops : list (PendingOperation TypeContext)) :
  Forall (fun op => entry op = None) ops ->
  forall m : StdMap.t (shared_ptr TypeContext),
    Forall (fun kv => holds_matching_descriptor (obj (snd kv)) = true) m ->
    Forall (fun kv => holds_matching_descriptor (obj (snd kv)) = true)
      (fold_left apply_op ops m)
    /\ (forall k p, StdMap.find k (fold_left apply_op ops m) = Some p ->
                    StdMap.find k m = Some p).
Proof.
  induction 1 as [|op rest Hop Hrest IH]; intros m Hall; cbn [fold_left].
  - now split.
  - destruct op as [e|e old|k0]; try discriminate Hop.
    cbn [apply_op stored_key_str].
    assert (Hall' : Forall
                      (fun kv => holds_matching_descriptor (obj (snd kv)) = true)
                      (StdMap.erase (key_str k0) m)).
    { now apply Forall_erase. }
    destruct (IH _ Hall') as [Hfold Hfind].
    split; [exact Hfold|].
    intros k p Hk. apply Hfind in Hk. rewrite find_erase in Hk.
    now destruct (String.eqb (key_str k0) k).
Qed.

Lemma commit_ok_cache st thd :
  cache_ok st ->
  cache_ok (commit st thd) /\ contexts_unchanged st (commit st thd).
Proof.
  intros [Hmatch Hd].
  assert (Hpending : forall thd', Forall (fun op => entry op = None)
                                    (pending (commit st thd) thd')).
  { intros thd'. destruct (N.eq_dec thd' thd) as [->|Hne].
    - rewrite commit_pending_same. constructor.
    - rewrite commit_pending_other by exact Hne. apply Hd. }
  unfold commit in *.
  destruct (thd =? nullptr) eqn:Hn.
  { split; [now split|]. intros k p p'. congruence. }
  destruct (m_uncommitted st !! thd) as [ops|] eqn:Hops.
  2:{ split; [now split|]. intros k p p'. congruence. }
  assert (Hdel : Forall (fun op => entry op = None) ops).
  { specialize (Hd thd). unfold pending in Hd.
    now rewrite Hn, Hops in Hd. }
  destruct (erase_all_kept ops Hdel (m_committed st) Hmatch)
    as [Hfold Hfind].
  split; [split; [exact Hfold|exact Hpending]|].
  intros k p p' Hp Hp'. cbn [m_committed] in Hp'.
  apply Hfind in Hp'. congruence.
Qed.

Lemma rollback_ok_cache st thd :
  cache_ok st ->
  cache_ok (rollback st thd) /\ contexts_unchanged st (rollback st thd).
Proof.
  intros Hok. apply same_cache_ok; [| |exact Hok].
  - unfold rollback. now destruct (thd =? nullptr).
  - destruct Hok as [_ Hd]. intros thd'. specialize (Hd thd').
    unfold rollback, pending in *.
    destruct (thd =? nullptr); [exact Hd|]. cbn [m_uncommitted].
    destruct (thd' =? nullptr); [constructor|].
    destruct (N.eq_dec thd thd') as [->|Hne].
    + rewrite lookup_delete_eq. constructor.
    + now rewrite lookup_delete_ne.
Qed.

Lemma empty_cache_ok : cache_ok empty_map.
Proof.
  split; [constructor|]. intros thd. unfold pending.
  destruct (thd =? nullptr); [constructor|].
  cbn [empty_map m_uncommitted]. rewrite lookup_empty. constructor.
Qed.

(** ** The two callers of [acquire_or_create] *)

(** [MaybeInjectCustomType] looks the descriptor up under the key it
    then builds the context key from. *)
Lemma inject_descriptor_fits (descs : SystemTableMap TypeDescriptor)
    (type_descriptor_key : TypeDescriptorKey) (d : TypeDescriptor)
    (parameters : TypeParameters) :
  committed_ok descs ->
  get_committed descs (tdk_normalized_key type_descriptor_key) = Some d ->
  fits (TypeContextKey_make type_descriptor_key parameters) (Some d) = true.
Proof.
  intros [_ Hkeyed] Hget. unfold get_committed in Hget.
  destruct (StdMap.find (tdk_normalized_key type_descriptor_key)
              (m_committed descs)) as [p|] eqn:Hfind; [|discriminate].
  injection Hget as <-.
  pose proof (Forall_find _ _ _ _ Hkeyed Hfind) as Hk. simpl in Hk.
  unfold fits, TypeDescriptorKey_eqb. simpl.
  now rewrite Hk, String.eqb_refl.
Qed.

(** [ResolveTypeToContext] builds the key from the names of the
    descriptor it found. *)
Lemma resolve_descriptor_fits (d : TypeDescriptor)
    (parameters : TypeParameters) :
  key_constructed d -> tdk_normalized_key (td_key d) <> "" ->
  fits (TypeContextKey_make
          (TypeDescriptorKey_make (td_type_name d) (td_extension_name d)
             (td_extension_version d)) parameters) (Some d) = true.
Proof.
  intros [Hkey|Hkey] Hne; [|now rewrite Hkey in Hne].
  unfold fits, TypeDescriptorKey_eqb.
  cbn [TypeContextKey_make tck_descriptor_key]. rewrite <- Hkey.
  apply String.eqb_refl.
Qed.

Lemma resolved_is_committed (descs : SystemTableMap TypeDescriptor)
    (type_name extension_name : string) (d : TypeDescriptor)
    (rest : list TypeDescriptor) :
  committed_ok descs ->
  get_prefix_committed descs
    (tdp_normalized_prefix
       (TypeDescriptorKeyPrefix_make type_name extension_name))
  = d :: rest ->
  In d (get_all_committed descs) /\ tdk_normalized_key (td_key d) <> "".
Proof.
  intros Hok Hget.
  destruct (type_prefix_ends_in_dot type_name extension_name) as [Hne Hdot].
  rewrite get_prefix_committed_is_filter in Hget; [|exact Hok|exact Hne|].
  - assert (Hin : In d (entries_with_prefix descs
                          (tdp_normalized_prefix
                             (TypeDescriptorKeyPrefix_make type_name
                                extension_name))))
      by (rewrite Hget; now left).
    unfold entries_with_prefix in Hin.
    apply List.filter_In in Hin as [Hin Hprefix].
    split; [exact Hin|].
    cbn [key_str key TypeDescriptor_entry] in Hprefix.
    intros Hempty. rewrite Hempty in Hprefix.
    destruct (tdp_normalized_prefix _); [congruence|discriminate].
  - intros c Hc. rewrite Hdot in Hc. injection Hc as <-.
    vm_compute. reflexivity.
Qed.

Lemma stays_matching_refl st : all_contexts_match st -> stays_matching st st.
Proof.
  intros Hmatch. split; [exact Hmatch|]. split; [reflexivity|].
  intros k p p'. congruence.
Qed.

Lemma stays_matching_ok st st' :
  only_deletions st -> stays_matching st st' ->
  cache_ok st' /\ contexts_unchanged st st'.
Proof.
  intros Hd (Hmatch & Hu & Hsame).
  split; [split; [exact Hmatch|now apply (only_deletions_same st)]|].
  exact Hsame.
Qed.

Lemma acquired_ok ndebug st st' (k : TypeContextKey)
    (d : option TypeDescriptor) fails (r : option TypeContext) :
  all_contexts_match st -> fits k d = true ->
  acquire_or_create (fun k => TypeContext_create ndebug k d) st k fails
  = Returned (r, st') ->
  stays_matching st st'
  /\ (forall c, r = Some c -> holds_matching_descriptor c = true).
Proof.
  intros Hmatch Hfits Hacq.
  destruct (acquire_or_create_matches ndebug st st' k d fails r Hmatch
              (or_intror Hfits) Hacq) as (Hmatch' & Hr & Hkept & Hu).
  split; [|exact Hr].
  split; [exact Hmatch'|]. split; [exact Hu|]. now apply kept_unchanged.
Qed.

Lemma nothing_done st : cache_ok st -> cache_ok st /\ contexts_unchanged st st.
Proof. intros Hok. split; [exact Hok|]. intros k p p'. congruence. Qed.

Lemma inject_ok ndebug lctn (v : VictionaryClient) thd
    (db_name table_name column_name : string) fails (r : injected) :
  committed_ok (m_type_descriptors v) ->
  all_contexts_match (m_type_contexts v) ->
  MaybeInjectCustomType ndebug lctn v thd db_name table_name column_name
    fails = Returned r ->
  stays_matching (m_type_contexts v) (m_type_contexts (inj_vclient r))
  /\ (forall tc, inj_type_context r = Some tc ->
                 holds_matching_descriptor tc = true).
Proof.
  intros Hdescs Hok. unfold MaybeInjectCustomType, should_assert.
  assert (Hnone : forall r0,
    Returned (mkInjected (inj_failed r0) None v) = Returned r ->
    stays_matching (m_type_contexts v) (m_type_contexts (inj_vclient r))
    /\ (forall tc, inj_type_context r = Some tc ->
                   holds_matching_descriptor tc = true)).
  { intros r0 [= <-]. cbn.
    split; [now apply stays_matching_refl|discriminate]. }
  destruct (thd =? nullptr);
    [destruct ndebug; [apply (Hnone (mkInjected true None v))|discriminate]|].
  destruct (_ || _); [apply (Hnone (mkInjected false None v))|].
  destruct (negb (m_initialized v));
    [apply (Hnone (mkInjected false None v))|].
  destruct (get (m_columns v) thd _) as [column_entry|];
    [|apply (Hnone (mkInjected false None v))].
  destruct (get_committed (m_type_descriptors v) _) as [d|] eqn:Hget;
    [|destruct ndebug;
      [apply (Hnone (mkInjected true None v))|discriminate]].
  pose proof (inject_descriptor_fits _ _ _ TypeParameters_default Hdescs
                Hget) as Hfits.
  destruct (acquire_or_create _ _ _ _) as [[tc contexts]|] eqn:Hacq;
    [|discriminate].
  destruct (acquired_ok _ _ _ _ _ _ _ Hok Hfits Hacq) as [Hcache Htc].
  destruct tc as [tc|].
  - intros [= <-]. cbn. split; [exact Hcache|].
    intros tc' [= <-]. now apply Htc.
  - destruct ndebug; [|discriminate].
    intros [= <-]. cbn. split; [exact Hcache|discriminate].
Qed.

Lemma resolve_ok ndebug (v : VictionaryClient)
    (extension_name type_name : string) fails (r : resolved) :
  descriptors_ok (m_type_descriptors v) ->
  all_contexts_match (m_type_contexts v) ->
  ResolveTypeToContext ndebug v extension_name type_name fails
  = Returned r ->
  stays_matching (m_type_contexts v) (m_type_contexts (res_vclient r))
  /\ (forall tc, res_result r = Some tc ->
                 holds_matching_descriptor tc = true).
Proof.
  intros [Hdescs Hkeys] Hok. unfold ResolveTypeToContext, should_assert.
  assert (Hnone : forall r0,
    Returned (mkResolved (res_failed r0) None v) = Returned r ->
    stays_matching (m_type_contexts v) (m_type_contexts (res_vclient r))
    /\ (forall tc, res_result r = Some tc ->
                   holds_matching_descriptor tc = true)).
  { intros r0 [= <-]. cbn.
    split; [now apply stays_matching_refl|discriminate]. }
  destruct (negb (m_initialized v));
    [destruct ndebug; [apply (Hnone (mkResolved true None v))|discriminate]|].
  destruct (get_prefix_committed _ _) as [|d [|d' rest]] eqn:Hget;
    [apply (Hnone (mkResolved false None v))|
    |destruct ndebug;
     [apply (Hnone (mkResolved true None v))|discriminate]].
  assert (Hfits : fits
            (TypeContextKey_make
               (TypeDescriptorKey_make (td_type_name d) (td_extension_name d)
                  (td_extension_version d)) TypeParameters_default)
            (Some d) = true).
  { destruct (resolved_is_committed _ _ _ _ _ Hdescs Hget) as [Hin Hne].
    apply resolve_descriptor_fits; [|exact Hne].
    rewrite List.Forall_forall in Hkeys. now apply Hkeys. }
  destruct (acquire_or_create _ _ _ _) as [[tc contexts]|] eqn:Hacq;
    [|discriminate].
  destruct (acquired_ok _ _ _ _ _ _ _ Hok Hfits Hacq) as [Hcache Htc].
  destruct tc as [tc|].
  - intros [= <-]. cbn. split; [exact Hcache|].
    intros tc' [= <-]. now apply Htc.
  - destruct ndebug; [|discriminate].
    intros [= <-]. cbn. split; [exact Hcache|discriminate].
Qed.

Lemma uninstall_ok (v : VictionaryClient) thd (extension_name : string)
    (rm : removal) :
  cache_ok (m_type_contexts v) ->
  remove_extension_from_victionary thd v extension_name = Returned rm ->
  cache_ok (m_type_contexts (rm_vclient rm))
  /\ contexts_unchanged (m_type_contexts v) (m_type_contexts (rm_vclient rm)).
Proof.
  intros Hok. unfold remove_extension_from_victionary.
  destruct (get_committed (m_extensions v) _) as [ext_entry|];
    [|intros [= <-]; now apply nothing_done].
  destruct (check_for_columns_of_extension _ _) as [[|] msg];
    [intros [= <-]; now apply nothing_done|].
  destruct (type_context_in_use _ _ _ _) as [[type_name|]|];
    [intros [= <-]; now apply nothing_done| |discriminate].
  destruct (type_desc_in_use _ _ _ _) as [type_name|];
    [intros [= <-]; now apply nothing_done|].
  destruct (mark_type_contexts _ _ _ _ _) as [marked|] eqn:Hmark;
    [|discriminate].
  destruct (mark_type_contexts_ok _ _ _ _ _ _ Hmark (proj2 Hok))
    as [Hc Hd].
  destruct (get_committed (m_extension_descriptors v) _);
    intros [= <-]; cbn [rm_vclient m_type_contexts];
    now apply same_cache_ok.
Qed.

(** ** Every step *)

Lemma cache_step_ok ndebug lctn st st' :
  cache_ok st -> cache_step ndebug lctn st st' ->
  cache_ok st' /\ contexts_unchanged st st'.
Proof.
  intros Hok Hstep.
  destruct Hstep as [v thd db_name table_name column_name fails r Hdescs Hr
                    |v extension_name type_name fails r Hdescs Hr
                    |st k fails|st k|st ks
                    |v thd extension_name rm Hrm
                    |v thd|v thd|v].
  - apply (stays_matching_ok _ _ (proj2 Hok)).
    exact (proj1 (inject_ok _ _ _ _ _ _ _ _ _ Hdescs (proj1 Hok) Hr)).
  - apply (stays_matching_ok _ _ (proj2 Hok)).
    exact (proj1 (resolve_ok _ _ _ _ _ _ Hdescs (proj1 Hok) Hr)).
  - unfold acquire.
    destruct (StdMap.find _ _) as [p|] eqn:Hfind;
      [|now apply nothing_done].
    destruct fails; [now apply nothing_done|].
    cbn [snd]. unfold add_owner. now apply recount_ok.
  - unfold acquire_client_managed.
    destruct (StdMap.find _ _) as [p|] eqn:Hfind;
      [|now apply nothing_done].
    cbn [snd]. unfold add_owner. now apply recount_ok.
  - unfold release_shared_ptr_ref.
    destruct (StdMap.find _ _) as [p|] eqn:Hfind;
      [|now apply nothing_done].
    now apply recount_ok.
  - now apply (uninstall_ok v thd extension_name).
  - unfold commit_all_tables.
    destruct (negb (m_initialized v) || (thd =? nullptr));
      [now apply nothing_done|].
    cbn [m_type_contexts]. now apply commit_ok_cache.
  - unfold rollback_all_tables.
    destruct (negb (m_initialized v) || (thd =? nullptr));
      [now apply nothing_done|].
    cbn [m_type_contexts]. now apply rollback_ok_cache.
  - unfold clear_all_tables.
    destruct (negb (m_initialized v)); [now apply nothing_done|].
    cbn [m_type_contexts]. unfold clear. split; [apply empty_cache_ok|].
    intros k p p' _ Hp'. discriminate.
Qed.

Lemma reachable_ok ndebug lctn st st' :
  rtc (cache_step ndebug lctn) st st' -> cache_ok st -> cache_ok st'.
Proof.
  induction 1 as [|x y z Hstep _ IH]; intros Hok; [exact Hok|].
  apply IH. exact (proj1 (cache_step_ok _ _ _ _ Hok Hstep)).
Qed.

(** C10.  A [TypeContext] that the code constructs holds a non-null
    descriptor whose key equals the descriptor key of its own key, for
    as long as it lives, whether the build keeps the two [assert]s of
    the constructor or, with [NDEBUG], drops them.
    - [create(key, nullptr)] returns the empty pointer, and a context
      that [create] returns has the key and the non-null descriptor it
      was given.
    - [acquire_or_create] through [create] keeps a cache of matching
      contexts one, returns a matching context and leaves the contexts
      of the cache as they are: for every argument in the build with
      assertions, and in the other build for a descriptor that fits the
      key, which nothing checks there.
    - The callers pass such a descriptor: every state of the cache that
      the code reaches from the empty one holds only contexts with a
      matching descriptor and has nothing but deletions staged; every
      step of the code on the cache keeps that and leaves each context
      that stays in the cache as it is; and the contexts that
      [MaybeInjectCustomType] attaches and [ResolveTypeToContext]
      returns hold a matching descriptor.
    - The defaulted move, which no step uses, gives the new context the
      key and the descriptor of the old one together. *)
Theorem type_context_holds_matching_descriptor (ndebug : bool) (lctn : N) :
  (forall key, TypeContext_create ndebug key None = Returned None)
  /\ (forall key d p,
         TypeContext_create ndebug key d = Returned (Some p) ->
         tc_key (obj p) = key /\ tc_descriptor (obj p) = d /\ d <> None)
  /\ (forall st st' k d fails r,
         all_contexts_match st ->
         ndebug = false \/ fits k d = true ->
         acquire_or_create (fun k => TypeContext_create ndebug k d) st k
           fails = Returned (r, st') ->
         all_contexts_match st'
         /\ (forall c, r = Some c -> holds_matching_descriptor c = true)
         /\ contexts_unchanged st st')
  /\ (forall st,
         rtc (cache_step ndebug lctn) empty_map st -> cache_ok st)
  /\ (forall st st',
         cache_ok st -> cache_step ndebug lctn st st' ->
         cache_ok st' /\ contexts_unchanged st st')
  /\ (forall v thd db_name table_name column_name fails r tc,
         committed_ok (m_type_descriptors v) ->
         all_contexts_match (m_type_contexts v) ->
         MaybeInjectCustomType ndebug lctn v thd db_name table_name
           column_name fails = Returned r ->
         inj_type_context r = Some tc ->
         holds_matching_descriptor tc = true)
  /\ (forall v extension_name type_name fails r tc,
         descriptors_ok (m_type_descriptors v) ->
         all_contexts_match (m_type_contexts v) ->
         ResolveTypeToContext ndebug v extension_name type_name fails
         = Returned r ->
         res_result r = Some tc ->
         holds_matching_descriptor tc = true)
  /\ (forall moved_from other,
         fst (TypeContext_move moved_from other) = other).
Proof.
  split; [reflexivity|].
  split.
  { intros key d p Hcreate.
    apply create_stores in Hcreate as (-> & Hsome & _). now repeat split. }
  split.
  { intros st st' k d fails r Hmatch Hfits Hacq.
    destruct (acquire_or_create_matches ndebug st st' k d fails r Hmatch
                Hfits Hacq) as (Hmatch' & Hr & Hkept & _).
    split; [exact Hmatch'|]. split; [exact Hr|].
    now apply kept_unchanged. }
  split.
  { intros st Hreach. exact (reachable_ok _ _ _ _ Hreach empty_cache_ok). }
  split; [apply cache_step_ok|].
  split.
  { intros v thd db_name table_name column_name fails r tc Hdescs Hok Hr.
    exact (proj2 (inject_ok _ _ _ _ _ _ _ _ _ Hdescs Hok Hr) tc). }
  split.
  { intros v extension_name type_name fails r tc Hdescs Hok Hr.
    exact (proj2 (resolve_ok _ _ _ _ _ _ Hdescs Hok Hr) tc). }
  intros moved_from [d k]. reflexivity.
Qed.

End ContextCacheProofs.

(* ================================================================== *)
(** * The scenarios, run *)
(* ================================================================== *)

Module ScenarioProofs.
Import CStr SystemTableMap Schema Victionary MetadataModifier Uninstall.
Import MapSpec MapProofs PrefixProofs StagingSpec StagingProofs.
Import UninstallSpec Scenario.

(** ** Prefix queries *)

(** C6, as stated, fails: with the columns [db.t.x] and [db.t.] (empty
    column name) committed, the query for the prefix of table [db.t]
    returns both, although the key of the second equals the prefix string
    and so does not have it as a strict prefix. *)
Lemma prefix_query_returns_equal_key :
  ~ returns_strictly_prefixed (columns_of [column_x; column_unnamed])
      table_prefix.
Proof.
  unfold returns_strictly_prefixed. intros Hperm.
  apply Permutation_length in Hperm. vm_compute in Hperm. discriminate.
Qed.

Lemma columns_of_ok (entries : list ColumnEntry) :
  committed_ok (columns_of entries).
Proof.
  unfold columns_of. apply commit_ok.
  assert (Hgen : forall l (st : SystemTableMap ColumnEntry),
             committed_ok st ->
             committed_ok
               (fold_left (fun c e => snd (MarkForInsertion c thd e)) l st)).
  { induction l as [|e l IH]; intros st Hst; simpl; [assumption|].
    apply IH. exact Hst. }
  apply Hgen. apply committed_ok_empty.
Qed.

Lemma get_prefix_committed_returns_prefixed_witness :
  get_prefix_committed (columns_of [column_x; column_unnamed]) table_prefix
  = [column_unnamed; column_x]
  /\ has_prefix_committed (columns_of [column_x; column_unnamed]) table_prefix
     = true.
Proof.
  destruct (get_prefix_committed_returns_prefixed
              (columns_of [column_x; column_unnamed]) table_prefix)
    as (Hhas & _ & Hget).
  destruct (Hget (columns_of_ok _)) as [Heq _].
  - discriminate.
  - intros c Hc. vm_compute in Hc. injection Hc as <-.
    vm_compute. reflexivity.
  - split.
    + rewrite Heq. vm_compute. reflexivity.
    + rewrite Hhas, Heq. vm_compute. reflexivity.
Defined.

(** ** Type contexts *)

(** In the release build, while CREATE TABLE db.t (x COMPLEX) is under
    way, the first [MaybeInjectCustomType] for the column creates the
    context of [COMPLEX] in the empty cache; so does resolving the type
    name [myext.COMPLEX]. *)
Lemma installed_descriptors_constructed :
  ContextCache.descriptors_ok (m_type_descriptors MoreScenarios.creating_table).
Proof.
  split; [split; vm_compute; repeat constructor|].
  vm_compute. constructor; [now left|constructor].
Qed.

Lemma type_context_holds_matching_descriptor_witness :
  exists r,
    TypeUtil.MaybeInjectCustomType release lctn MoreScenarios.creating_table
      thd "db" "t" "x" false = Returned r
    /\ TypeUtil.inj_type_context r = Some MoreScenarios.complex_context
    /\ TypeContextSpec.holds_matching_descriptor MoreScenarios.complex_context = true
    /\ TypeContextSpec.all_contexts_match (m_type_contexts (TypeUtil.inj_vclient r))
    /\ exists r',
         TypeUtil.ResolveTypeToContext release installed "myext" "COMPLEX"
           false = Returned r'
         /\ TypeUtil.res_result r' = Some MoreScenarios.complex_context.
Proof.
  eexists. split; [vm_compute; reflexivity|].
  split; [vm_compute; reflexivity|].
  destruct (ContextCacheProofs.type_context_holds_matching_descriptor
              release lctn)
    as (_ & _ & _ & Hreach & _ & _ & Hresolve & _).
  assert (Hresolved :
    exists r',
      TypeUtil.ResolveTypeToContext release installed "myext" "COMPLEX"
        false = Returned r'
      /\ TypeUtil.res_result r' = Some MoreScenarios.complex_context)
    by (eexists; split; vm_compute; reflexivity).
  destruct Hresolved as (r' & Hr' & Hresult).
  pose proof (Hresolve installed "myext" "COMPLEX" false r'
                MoreScenarios.complex_context
                installed_descriptors_constructed
                (proj1 ContextCacheProofs.empty_cache_ok) Hr' Hresult)
    as Hmatch.
  split; [exact Hmatch|].
  split; [|now exists r'].
  refine (proj1 (Hreach _ (rtc_once _ _
            (ContextCache.inject_step release lctn
               MoreScenarios.creating_table thd "db" "t" "x" false _
               (proj1 installed_descriptors_constructed) eq_refl)))).
Defined.

(** ** Staging order *)

Lemma staging_order_removes_renames_inserts_witness :
  m_initialized (with_table [column_x]) = true
  /\ thd <> nullptr
  /\ exists cols,
       pending cols thd
       = [PendingDelete (key column_x); PendingInsert column_x_v2]
       /\ get_committed (commit cols thd) (key_str (key column_x))
          = Some column_x_v2.
Proof.
  split; [reflexivity|]. split; [discriminate|].
  destruct (staging_order_removes_renames_inserts modify_x
              (with_table [column_x]) thd eq_refl
              (fun Heq : thd = nullptr =>
                 match Heq in (_ = y)
                       return (match y with 0 => False | _ => True end)
                 with eq_refl => I end))
    as (marked & cols & Hmark & Hpending & Hcommitted & Hadd & _).
  exists cols. split.
  - rewrite Hpending. vm_compute. reflexivity.
  - destruct (Hadd column_x_v2 (or_introl eq_refl))
      as (e' & [<-|[]] & _ & Hget).
    exact Hget.
Defined.

(** ** UNINSTALL EXTENSION *)

(** In every execution of [execute] that unloads the extension, the unload
    precedes the commit. *)
Lemma every_unload_precedes_commit (host : Uninstall.Host)
    (v : VictionaryClient) (t : THD_ptr) (extension_name : string)
    (o : outcome) :
  execute host v t extension_name = Returned o ->
  unloads (trace o) = true ->
  unloads_after_commit false (trace o) = false.
Proof.
  unfold execute, finish, end_transaction.
  destruct (global_read_lock_fails host); [intros [= <-]; discriminate|].
  destruct (backup_lock_fails host); [intros [= <-]; discriminate|].
  destruct (extension_lock_fails host); [intros [= <-]; discriminate|].
  destruct (Uninstall.open_tables_fails host);
    [intros [= <-]; discriminate|].
  destruct (remove_extension_from_victionary t v extension_name)
    as [rm|]; [|discriminate].
  destruct (rm_failed rm).
  { intros [= <-]. simpl. destruct (rm_error rm); discriminate. }
  destruct (write_uncommitted_fails host).
  { intros [= <-]. simpl. destruct (rm_error rm); discriminate. }
  destruct (rm_to_unregister rm) as [reg|].
  - intros Ho _. destruct (commit_fails host); injection Ho as <-; simpl;
      destruct (rm_error rm); reflexivity.
  - intros Ho. destruct (commit_fails host); injection Ho as <-; simpl;
      destruct (rm_error rm); discriminate.
Qed.

(** C3.  On the installed extension, with every host call succeeding,
    [execute] unregisters the VDFs and unloads the shared object, and only
    then ends the transaction: both unload events precede the commit.
    When the commit then fails, the extension has been unloaded all the
    same, while its [extensions] entry stays committed. *)
Theorem uninstall_unloads_before_commit :
  (exists o,
      run host_ok installed "myext" = Some o
      /\ result o = false
      /\ trace o
         = [AcquireSharedGlobalReadLock; AcquireSharedBackupLock;
            LockExtensionExclusive "myext"; OpenAndLockTables;
            WriteAllUncommittedEntries;
            UnregisterVdfs "myext" myext_registration;
            UnloadVefExtension myext_registration;
            MyOk; TransactionCommitted]
      /\ unloads_after_commit false (trace o) = false)
  /\ (exists o,
         run host_commit_fails installed "myext" = Some o
         /\ result o = true
         /\ unloads (trace o) = true
         /\ existsb (fun ev => match ev with
                               | TransactionCommitted => true
                               | _ => false
                               end) (trace o) = false
         /\ get_committed (m_extensions (final o)) "myext"
            = Some myext_entry).
Proof.
  split.
  - eexists. split; [vm_compute; reflexivity|].
    repeat split; vm_compute; reflexivity.
  - eexists. split; [vm_compute; reflexivity|].
    repeat split; vm_compute; reflexivity.
Qed.

(** C4.  [myext] 1.0.0 is installed and its type context [COMPLEX] is
    held by an open table share ([use_count] 2), so uninstall is to be
    refused, and [UNINSTALL EXTENSION myext] is.  [UNINSTALL EXTENSION
    MYEXT] finds the same extension entry through the normalized key, but
    compares the names of the type contexts and descriptors with the
    statement's spelling: it is not refused, and it stages the deletion of
    the extension and of its descriptor only, not of its types. *)
Theorem uninstall_not_refused_under_other_spelling :
  get_committed (m_extensions installed_in_use)
    (ek_normalized_key (ExtensionKey_make "MYEXT")) = Some myext_entry
  /\ must_refuse installed_in_use myext_entry = true
  /\ (exists rm,
         remove_extension_from_victionary thd installed_in_use "myext"
         = Returned rm
         /\ rm_failed rm = true
         /\ rm_error rm
            = Some "Cannot uninstall extension 'myext': type 'COMPLEX' is currently in use"
         /\ rm_vclient rm = installed_in_use)
  /\ (exists rm,
         remove_extension_from_victionary thd installed_in_use "MYEXT"
         = Returned rm
         /\ rm_failed rm = false
         /\ rm_to_unregister rm = Some myext_registration
         /\ pending (m_extensions (rm_vclient rm)) thd
            = [PendingDelete (key myext_entry)]
         /\ pending (m_type_contexts (rm_vclient rm)) thd = []
         /\ pending (m_type_descriptors (rm_vclient rm)) thd = []).
Proof.
  split; [vm_compute; reflexivity|].
  split; [vm_compute; reflexivity|].
  split.
  - eexists. split; [vm_compute; reflexivity|].
    repeat split; vm_compute; reflexivity.
  - eexists. split; [vm_compute; reflexivity|].
    repeat split; vm_compute; reflexivity.
Qed.

(** A refusal because of columns names the first dependent column and the
    number of dependent columns. *)
Lemma uninstall_refused_by_columns :
  exists rm,
    remove_extension_from_victionary thd
      (with_table [column_x; column_unnamed]) "myext" = Returned rm
    /\ rm_failed rm = true
    /\ rm_error rm
       = Some "Cannot drop extension `myext` as 2 column(s) depend on it, e.g. db.t. has type COMPLEX"
    /\ rm_vclient rm = with_table [column_x; column_unnamed].
Proof.
  eexists. split; [vm_compute; reflexivity|].
  repeat split; vm_compute; reflexivity.
Qed.

End ScenarioProofs.

(* ================================================================== *)
(** * Sessions of a [SystemTableMap] *)
(* ================================================================== *)

Module SessionProofs.
Import SystemTableMap MapSpec SessionSpec StdMapProofs MapProofs StagingProofs.

Section Proofs.
Context {E : Type} `{EntryType E}.
Implicit Types (st : SystemTableMap E) (op : PendingOperation E).

Lemma get_view st thd k :
  get st thd k = view k (pending st thd) (get_committed st k).
Proof.
  unfold get, pending, view.
  destruct (thd =? nullptr); [reflexivity|].
  destruct (m_uncommitted st !! thd) as [ops|]; simpl; [|reflexivity].
  rewrite most_recent_op_last.
  destruct (last_touching k ops) as [[e | e old | old]|]; reflexivity.
Qed.

Lemma step_key_keeps k cur op :
  keeps_key op = true ->
  step_key k cur op = if touches k op then value_of op else cur.
Proof.
  destruct op as [e | e old | old]; simpl; intros Hk; try reflexivity.
  apply String.eqb_eq in Hk. rewrite Hk, String.eqb_refl.
  rewrite andb_false_r. simpl.
  now destruct (String.eqb (key_str (key e)) k).
Qed.

Lemma fold_step_key_view k ops :
  forallb keeps_key ops = true ->
  forall cur, fold_left (step_key k) ops cur = view k ops cur.
Proof.
  unfold view. induction ops as [|op rest IH]; intros Hall cur;
    [reflexivity|].
  cbn [forallb] in Hall. apply andb_true_iff in Hall as [Hop Hrest].
  cbn [fold_left last_touching]. rewrite IH by exact Hrest.
  destruct (last_touching k rest); [reflexivity|].
  rewrite step_key_keeps by exact Hop.
  now destruct (touches k op).
Qed.

(** X1.  As long as no staged Update moves its entry to another key, what
    a session reads before its commit is what everybody reads after it:
    [get(thd, k)] before [commit(thd)] equals [get_committed(k)] after. *)
Theorem session_view_is_what_commit_publishes st thd k :
  forallb keeps_key (pending st thd) = true ->
  get st thd k = get_committed (commit st thd) k.
Proof.
  intros Hkeep. rewrite get_view, commit_lookup.
  symmetry. now apply fold_step_key_view.
Qed.

Lemma get_committed_link st thd op k :
  get_committed (link_in_list st thd op) k = get_committed st k.
Proof. reflexivity. Qed.

Lemma pending_link_other st thd thd' op :
  thd' <> thd -> pending (link_in_list st thd op) thd' = pending st thd'.
Proof.
  intros Hne. unfold pending, link_in_list. simpl.
  destruct (thd' =? nullptr); [reflexivity|].
  now rewrite lookup_insert_ne by congruence.
Qed.

Lemma has_uncommitted_pending st thd :
  thd <> nullptr ->
  has_uncommitted st thd = negb (is_nil (pending st thd)).
Proof.
  intros Hthd. unfold has_uncommitted, pending.
  apply N.eqb_neq in Hthd. rewrite Hthd.
  destruct (m_uncommitted st !! thd) as [[|op ops]|]; reflexivity.
Qed.

(** X2.  Marking is private to the session: whatever one session stages,
    no other session and no committed lookup sees a difference. *)
Theorem marking_is_invisible_to_others st thd thd' op st' :
  marked st thd op st' -> thd' <> thd ->
  (forall k, get st' thd' k = get st thd' k)
  /\ (forall k, get_committed st' k = get_committed st k)
  /\ pending st' thd' = pending st thd'
  /\ get_all_committed st' = get_all_committed st.
Proof.
  intros Hmark Hne.
  assert (Hst' : st' = link_in_list st thd op) by (now destruct Hmark).
  subst st'. repeat split.
  - intros k. rewrite !get_view, get_committed_link.
    now rewrite pending_link_other.
  - now apply pending_link_other.
Qed.

Lemma last_touching_app k ops op :
  last_touching k (ops ++ [op])%list
  = if touches k op then Some op else last_touching k ops.
Proof.
  induction ops as [|o rest IH]; simpl.
  - now destruct (touches k op).
  - rewrite IH. destruct (touches k op); [reflexivity|].
    reflexivity.
Qed.

(** X3.  A session reads its own writes: after a marking call, [get] of
    that session returns the staged entry under its key (and, for an
    Update, also under the old key), nothing under the key of a staged
    Delete, and what it returned before under every other key. *)
Theorem session_reads_its_own_marks st thd op st' :
  marked st thd op st' -> thd <> nullptr ->
  forall k,
    get st' thd k = if touches k op then value_of op else get st thd k.
Proof.
  intros Hmark Hthd k.
  assert (Hst' : st' = link_in_list st thd op) by (now destruct Hmark).
  subst st'. rewrite !get_view, get_committed_link.
  rewrite pending_link by exact Hthd.
  unfold view. rewrite last_touching_app.
  now destruct (touches k op).
Qed.

Lemma pending_rollback_same st thd : pending (rollback st thd) thd = [].
Proof.
  unfold pending, rollback.
  destruct (thd =? nullptr) eqn:Hn; [reflexivity|]. simpl.
  now rewrite lookup_delete_eq.
Qed.

Lemma pending_rollback_other st thd thd' :
  thd' <> thd -> pending (rollback st thd) thd' = pending st thd'.
Proof.
  intros Hne. unfold pending, rollback.
  destruct (thd =? nullptr); [reflexivity|]. simpl.
  destruct (thd' =? nullptr); [reflexivity|].
  now rewrite lookup_delete_ne by congruence.
Qed.

Lemma get_committed_rollback st thd k :
  get_committed (rollback st thd) k = get_committed st k.
Proof. unfold rollback. now destruct (thd =? nullptr). Qed.

(** X4.  [rollback] forgets what the session staged and nothing else:
    the session reads the committed state again, committed lookups and
    the other sessions are as before. *)
Theorem rollback_discards_only_the_session st thd :
  (forall k, get (rollback st thd) thd k = get_committed st k)
  /\ (forall k, get_committed (rollback st thd) k = get_committed st k)
  /\ get_all_committed (rollback st thd) = get_all_committed st
  /\ pending (rollback st thd) thd = []
  /\ (forall thd' k, thd' <> thd ->
        get (rollback st thd) thd' k = get st thd' k).
Proof.
  repeat split.
  - intros k. rewrite get_view, pending_rollback_same.
    apply get_committed_rollback.
  - apply get_committed_rollback.
  - unfold rollback. now destruct (thd =? nullptr).
  - apply pending_rollback_same.
  - intros thd' k Hne. rewrite !get_view, get_committed_rollback.
    now rewrite pending_rollback_other.
Qed.

End Proofs.
End SessionProofs.

(* ================================================================== *)
(** * Reference-counted lookups *)
(* ================================================================== *)

Module AcquireProofs.
Import SystemTableMap MapSpec SessionSpec OwnerSpec Acquire.
Import StdMapProofs MapProofs SessionProofs.

Section Proofs.
Context {E : Type} `{EntryType E}.
Implicit Types (st : SystemTableMap E).

Lemma find_In {V} (m : StdMap.t V) k v :
  StdMap.find k m = Some v -> In (k, v) m.
Proof.
  induction m as [|[k0 v0] r IH]; simpl; [discriminate|].
  destruct (String.eqb_spec k0 k) as [->|Hne].
  - intros [= ->]. now left.
  - intros Hf. right. now apply IH.
Qed.

Lemma compare_lt_gt (a b : string) : StdMap.key_lt a b -> String.compare b a = Gt.
Proof.
  unfold StdMap.key_lt. intros Hlt.
  rewrite String.compare_antisym, Hlt. reflexivity.
Qed.

(** In a sorted map, assigning to a bound key replaces the value where
    it stands. *)
Lemma assign_in_place {V} (m : StdMap.t V) k v v' :
  StdMap.ok m -> StdMap.find k m = Some v ->
  exists before after,
    m = (before ++ (k, v) :: after)%list
    /\ StdMap.assign k v' m = (before ++ (k, v') :: after)%list.
Proof.
  unfold StdMap.ok. induction m as [|[k0 v0] r IH]; simpl;
    [discriminate|].
  intros Hok Hfind. inversion Hok as [|? ? Hr Hall]; subst.
  destruct (String.eqb_spec k0 k) as [->|Hne].
  - injection Hfind as ->. rewrite compare_refl.
    now exists [], r.
  - assert (Hin : In k (StdMap.keys r)).
    { apply find_In in Hfind. unfold StdMap.keys.
      now apply (List.in_map fst) in Hfind. }
    rewrite List.Forall_forall in Hall.
    rewrite (compare_lt_gt _ _ (Hall _ Hin)).
    destruct (IH Hr Hfind) as (before & after & -> & Hassign).
    exists ((k0, v0) :: before), after. simpl. now rewrite Hassign.
Qed.

Lemma get_all_committed_add_owner st ks p :
  StdMap.ok (m_committed st) ->
  StdMap.find ks (m_committed st) = Some p ->
  get_all_committed (add_owner st ks p) = get_all_committed st.
Proof.
  intros Hok Hfind. unfold get_all_committed, add_owner. simpl.
  destruct (assign_in_place _ ks p (mk_shared (obj p) (use_count p + 1))
              Hok Hfind) as (before & after & Hm & Hassign).
  rewrite Hassign. rewrite Hm.
  rewrite !List.map_app. reflexivity.
Qed.

Lemma get_committed_add_owner st ks p k :
  StdMap.find ks (m_committed st) = Some p ->
  get_committed (add_owner st ks p) k = get_committed st k.
Proof.
  intros Hfind. unfold get_committed, add_owner. simpl.
  rewrite find_assign.
  destruct (String.eqb_spec ks k) as [->|Hne]; [|reflexivity].
  now rewrite Hfind.
Qed.

Lemma same_lookups_add_owner st ks p :
  StdMap.ok (m_committed st) ->
  StdMap.find ks (m_committed st) = Some p ->
  same_lookups st (add_owner st ks p).
Proof.
  intros Hok Hfind. repeat split.
  - intros k. now apply get_committed_add_owner.
  - intros thd k. rewrite !get_view.
    rewrite get_committed_add_owner by exact Hfind. reflexivity.
  - now apply get_all_committed_add_owner.
Qed.

Lemma get_use_count_add_owner st ks p k :
  StdMap.find ks (m_committed st) = Some p ->
  get_use_count (add_owner st ks p) k
  = get_use_count st k + (if String.eqb ks k then 1 else 0).
Proof.
  intros Hfind. unfold get_use_count, add_owner. simpl.
  rewrite find_assign.
  destruct (String.eqb_spec ks k) as [->|Hne].
  - rewrite Hfind. reflexivity.
  - now rewrite N.add_0_r.
Qed.

(** X5.  [acquire] only counts owners.  It returns the committed entry
    (nothing when registering the cleanup fails), raises the use count of
    that key by one exactly when it returns an entry, and changes no
    lookup of any session and no other count. *)
Theorem acquire_only_counts_an_owner st ks fails :
  StdMap.ok (m_committed st) ->
  let r := fst (acquire st ks fails) in
  let st' := snd (acquire st ks fails) in
  r = (if fails then None else get_committed st ks)
  /\ same_lookups st st'
  /\ (forall k,
        get_use_count st' k
        = get_use_count st k
          + (if String.eqb ks k
             then match r with Some _ => 1 | None => 0 end
             else 0)).
Proof.
  intros Hok r st'. subst r st'. unfold acquire, get_committed.
  destruct (StdMap.find ks (m_committed st)) as [p|] eqn:Hfind.
  - destruct fails; simpl.
    + repeat split. intros k. destruct (String.eqb ks k); lia.
    + split; [reflexivity|].
      split; [now apply same_lookups_add_owner|].
      intros k. now apply get_use_count_add_owner.
  - simpl. split; [now destruct fails|].
    repeat split. intros k. destruct (String.eqb ks k); lia.
Qed.

Lemma acquire_or_create_new create st k p :
  StdMap.find (key_str k) (m_committed st) = None ->
  create k = Returned (Some p) ->
  acquire_or_create create st k false
  = Returned
      (Some (obj p),
       add_owner (mkMap (StdMap.emplace (key_str k) p (m_committed st))
                    (m_uncommitted st)) (key_str k) p).
Proof.
  intros Hfind Hcreate. unfold acquire_or_create. cbv zeta.
  rewrite Hfind, Hcreate.
  now rewrite (find_emplace_absent _ _ _ Hfind).
Qed.

Lemma acquire_or_create_bound create st k p :
  StdMap.find (key_str k) (m_committed st) = Some p ->
  acquire_or_create create st k false
  = Returned (Some (obj p), add_owner st (key_str k) p).
Proof.
  intros Hfind. unfold acquire_or_create. cbv zeta.
  now rewrite Hfind, Hfind.
Qed.

(** What [acquire_or_create] did when it returned an entry: it found one
    bound, or it bound the one [create] made. *)
Lemma acquire_or_create_returned create st k e st' :
  acquire_or_create create st k false = Returned (Some e, st') ->
  exists p base,
    e = obj p /\ st' = add_owner base (key_str k) p
    /\ StdMap.find (key_str k) (m_committed base) = Some p
    /\ m_uncommitted base = m_uncommitted st
    /\ ((base = st)
        \/ (StdMap.find (key_str k) (m_committed st) = None
            /\ create k = Returned (Some p)
            /\ m_committed base
               = StdMap.emplace (key_str k) p (m_committed st))).
Proof.
  destruct (StdMap.find (key_str k) (m_committed st)) as [p|] eqn:Hfind.
  - rewrite (acquire_or_create_bound create st k p Hfind).
    intros [= <- <-]. exists p, st. auto 6.
  - destruct (create k) as [[p|]|] eqn:Hcreate.
    + rewrite (acquire_or_create_new create st k p Hfind Hcreate).
      intros [= <- <-]. eexists p, _.
      split; [reflexivity|]. split; [reflexivity|].
      split; [now apply find_emplace_absent|].
      split; [reflexivity|]. right. auto.
    + unfold acquire_or_create. cbv zeta. rewrite Hfind, Hcreate.
      discriminate.
    + unfold acquire_or_create. cbv zeta. rewrite Hfind, Hcreate.
      discriminate.
Qed.

Lemma find_emplace_other {V} k (v : V) m k' :
  k' <> k -> StdMap.find k' (StdMap.emplace k v m) = StdMap.find k' m.
Proof.
  intros Hne. unfold StdMap.emplace.
  destruct (StdMap.find k m); [reflexivity|].
  rewrite find_assign.
  destruct (String.eqb_spec k k'); [congruence|reflexivity].
Qed.

(** X6.  [acquire_or_create] creates at most once.  When it returns an
    entry, that entry is what [get_committed] finds under the key from
    then on; an entry that was there before is returned as it is, with
    one owner more; no other key, count or pending list changes; and
    a further call on the state it leaves, with its cleanup registered,
    returns the same entry without using its [create], again with one
    owner more. *)
Theorem acquire_or_create_creates_once create st k e st' :
  acquire_or_create create st k false = Returned (Some e, st') ->
  get_committed st' (key_str k) = Some e
  /\ (forall e0, get_committed st (key_str k) = Some e0 ->
        e = e0
        /\ get_use_count st' (key_str k)
           = get_use_count st (key_str k) + 1)
  /\ (forall k', k' <> key_str k ->
        get_committed st' k' = get_committed st k'
        /\ get_use_count st' k' = get_use_count st k')
  /\ (forall thd, pending st' thd = pending st thd)
  /\ (forall create', exists st'',
        acquire_or_create create' st' k false = Returned (Some e, st'')
        /\ get_use_count st'' (key_str k)
           = get_use_count st' (key_str k) + 1).
Proof.
  intros Hacq.
  destruct (acquire_or_create_returned _ _ _ _ _ Hacq)
    as (p & base & -> & -> & Hbound & Hunc & Hbase).
  assert (Hfind' : StdMap.find (key_str k)
                     (m_committed (add_owner base (key_str k) p))
                   = Some (mk_shared (obj p) (use_count p + 1))).
  { unfold add_owner. simpl. now rewrite find_assign, String.eqb_refl. }
  split; [|split; [|split; [|split]]].
  - unfold get_committed. now rewrite Hfind'.
  - intros e0 He0. destruct Hbase as [->|(Hnone & _)].
    + unfold get_committed in He0. rewrite Hbound in He0.
      injection He0 as <-. split; [reflexivity|].
      rewrite get_use_count_add_owner by exact Hbound.
      now rewrite String.eqb_refl.
    + unfold get_committed in He0. now rewrite Hnone in He0.
  - intros k' Hne.
    assert (Hother : StdMap.find k' (m_committed (add_owner base (key_str k) p))
                     = StdMap.find k' (m_committed st)).
    { unfold add_owner. simpl. rewrite find_assign.
      destruct (String.eqb_spec (key_str k) k'); [congruence|].
      destruct Hbase as [->|(_ & _ & ->)]; [reflexivity|].
      now apply find_emplace_other. }
    unfold get_committed, get_use_count. now rewrite Hother.
  - intros thd. unfold pending, add_owner. simpl. now rewrite Hunc.
  - intros create'. eexists. split.
    + rewrite (acquire_or_create_bound create' _ k _ Hfind'). reflexivity.
    + rewrite get_use_count_add_owner by exact Hfind'.
      now rewrite String.eqb_refl.
Qed.

Lemma committed_ok_add_owner st ks p :
  committed_ok st -> StdMap.find ks (m_committed st) = Some p ->
  committed_ok (add_owner st ks p).
Proof.
  intros [Hok Hkeyed] Hfind. split; simpl.
  - now apply ok_assign.
  - apply keyed_assign; [|exact Hkeyed].
    simpl. rewrite List.Forall_forall in Hkeyed.
    exact (Hkeyed _ (find_In _ _ _ Hfind)).
Qed.

Lemma committed_ok_emplace st ks p :
  committed_ok st -> key_str (key (obj p)) = ks ->
  committed_ok (mkMap (StdMap.emplace ks p (m_committed st))
                  (m_uncommitted st)).
Proof.
  intros [Hok Hkeyed] Hkey. split; simpl.
  - now apply ok_emplace.
  - unfold StdMap.emplace.
    destruct (StdMap.find ks (m_committed st)); [exact Hkeyed|].
    now apply keyed_assign.
Qed.

End Proofs.
End AcquireProofs.

(* ================================================================== *)
(** * Types in use *)
(* ================================================================== *)

Module TypeUseProofs.
Import CStr SystemTableMap Schema Victionary Uninstall TypeUtil.
Import MapSpec TypeContextSpec UninstallSpec OwnerSpec Acquire.
Import StdMapProofs MapProofs TypeContextProofs UninstallProofs AcquireProofs.

(** The state [acquire_or_create] leaves when it hands out a context
    made by [TableTraits<TypeContext>::create]. *)
Lemma acquired_context_state ndebug (st st' : SystemTableMap TypeContext)
    (k : TypeContextKey) (d : option TypeDescriptor) (tc : TypeContext) :
  committed_ok st -> all_contexts_have_descriptor st -> owners_counted st ->
  acquire_or_create (fun k => TypeContext_create ndebug k d) st k false
  = Returned (Some tc, st') ->
  committed_ok st' /\ all_contexts_have_descriptor st'
  /\ exists p, In (tck_normalized_key k, p) (m_committed st')
               /\ obj p = tc /\ 1 < use_count p.
Proof.
  intros Hok Hmatch Howners Hacq.
  destruct (acquire_or_create_has_descriptor ndebug st st' k d false
              (Some tc) Hmatch Hacq) as (Hmatch' & _).
  destruct (acquire_or_create_returned _ _ _ _ _ Hacq)
    as (p & base & -> & -> & Hbound & Hunc & Hbase).
  assert (Hbase_ok : committed_ok base /\ 1 <= use_count p).
  { destruct Hbase as [->|(Hnone & Hcreate & Hcommitted)].
    - split; [exact Hok|].
      unfold owners_counted in Howners.
      rewrite List.Forall_forall in Howners.
      exact (Howners _ (find_In _ _ _ Hbound)).
    - destruct (create_stores _ _ _ _ Hcreate) as (Hp & _ & _).
      split.
      + assert (Hb : base
                     = mkMap (StdMap.emplace (key_str k) p (m_committed st))
                         (m_uncommitted st)).
        { destruct base as [bc bu]. simpl in *. now subst. }
        rewrite Hb. apply committed_ok_emplace; [exact Hok|].
        now rewrite Hp.
      + rewrite Hp. simpl. lia. }
  destruct Hbase_ok as [Hbase_ok Hcount].
  split; [now apply committed_ok_add_owner|].
  split; [exact Hmatch'|].
  exists (mk_shared (obj p) (use_count p + 1)).
  split; [|split; [reflexivity | simpl; lia]].
  apply find_In. unfold add_owner. simpl.
  change (@key_str TypeContext TypeContext_entry k)
    with (tck_normalized_key k).
  now rewrite find_assign, String.eqb_refl.
Qed.

(** A context of the extension with a second owner makes uninstall
    refuse. *)
Lemma context_in_use_refuses (v : VictionaryClient) (ext : ExtensionEntry)
    (t : THD_ptr) (ks : string) (p : shared_ptr TypeContext) :
  get_committed (m_extensions v)
    (ek_normalized_key (ExtensionKey_make (ee_extension_name ext)))
  = Some ext ->
  committed_ok (m_type_contexts v) ->
  committed_ok (m_type_descriptors v) ->
  all_contexts_have_descriptor (m_type_contexts v) ->
  In (ks, p) (m_committed (m_type_contexts v)) ->
  context_belongs ext (obj p) = true -> 1 < use_count p ->
  exists rm,
    remove_extension_from_victionary t v (ee_extension_name ext)
    = Returned rm
    /\ rm_failed rm = true /\ rm_vclient rm = v /\ rm_error rm <> None.
Proof.
  intros Hext Hctx Hdesc Hmatch Hin Hbel Hcount.
  destruct (refused_iff_must_refuse ext t v Hext Hctx Hdesc Hmatch)
    as (rm & Hrm & Hfailed & Hunchanged & _).
  exists rm. split; [exact Hrm|].
  assert (Hmust : must_refuse v ext = true).
  { unfold must_refuse. apply orb_true_iff. left. apply orb_true_iff. right.
    apply existsb_exists. exists (ks, p). split; [exact Hin|].
    simpl. rewrite Hbel. simpl. now apply N.ltb_lt. }
  rewrite Hmust in Hfailed.
  split; [exact Hfailed|]. now apply Hunchanged.
Qed.

(** X7.  A type that is in use cannot be uninstalled.  Once
    [MaybeInjectCustomType] has attached a type context to a field, or
    [ResolveTypeToContext] has resolved a type name to one, UNINSTALL of
    the extension the context belongs to (named as it was installed) is
    refused and stages nothing. *)
Theorem type_in_use_blocks_uninstall (ndebug : bool) (lctn : N)
    (v : VictionaryClient) (ext : ExtensionEntry) (t : THD_ptr)
    (tc : TypeContext) :
  get_committed (m_extensions v)
    (ek_normalized_key (ExtensionKey_make (ee_extension_name ext)))
  = Some ext ->
  committed_ok (m_type_contexts v) ->
  committed_ok (m_type_descriptors v) ->
  all_contexts_match (m_type_contexts v) ->
  owners_counted (m_type_contexts v) ->
  context_belongs ext tc = true ->
  (forall thd db_name table_name column_name r,
      MaybeInjectCustomType ndebug lctn v thd db_name table_name column_name
        false
      = Returned r ->
      inj_type_context r = Some tc ->
      exists rm,
        remove_extension_from_victionary t (inj_vclient r)
          (ee_extension_name ext) = Returned rm
        /\ rm_failed rm = true /\ rm_vclient rm = inj_vclient r
        /\ rm_error rm <> None)
  /\ (forall extension_name type_name r,
        ResolveTypeToContext ndebug v extension_name type_name false
        = Returned r ->
        res_result r = Some tc ->
        exists rm,
          remove_extension_from_victionary t (res_vclient r)
            (ee_extension_name ext) = Returned rm
          /\ rm_failed rm = true /\ rm_vclient rm = res_vclient r
          /\ rm_error rm <> None).
Proof.
  intros Hext Hctx Hdesc Hmatch Howners Hbel.
  apply all_match_have_descriptor in Hmatch.
  assert (Hacquired : forall k d contexts,
    acquire_or_create (fun k => TypeContext_create ndebug k d)
      (m_type_contexts v) k false = Returned (Some tc, contexts) ->
    exists rm,
      remove_extension_from_victionary t (with_type_contexts v contexts)
        (ee_extension_name ext) = Returned rm
      /\ rm_failed rm = true
      /\ rm_vclient rm = with_type_contexts v contexts
      /\ rm_error rm <> None).
  { intros k d contexts Hacq.
    destruct (acquired_context_state _ _ _ _ _ _ Hctx Hmatch Howners Hacq)
      as (Hctx' & Hmatch' & p & Hin & Hobj & Hcount).
    apply (context_in_use_refuses (with_type_contexts v contexts) ext t
             (tck_normalized_key k) p); try assumption.
    now rewrite Hobj. }
  split.
  - intros thd db_name table_name column_name r Hinj Htc.
    unfold MaybeInjectCustomType, should_assert in Hinj.
    destruct (thd =? nullptr);
      [destruct ndebug; [injection Hinj as <-|]; discriminate|].
    destruct (_ || _);
      [injection Hinj as <-; discriminate|].
    destruct (negb (m_initialized v));
      [injection Hinj as <-; discriminate|].
    destruct (get (m_columns v) thd _) as [column_entry|];
      [|injection Hinj as <-; discriminate].
    destruct (get_committed (m_type_descriptors v) _) as [d|];
      [|destruct ndebug; [injection Hinj as <-|]; discriminate].
    destruct (acquire_or_create _ _ _ _) as [[[tc'|] contexts]|] eqn:Hacq;
      [|destruct ndebug; [injection Hinj as <-|]; discriminate
       |discriminate].
    injection Hinj as <-. simpl in Htc. injection Htc as ->.
    simpl. exact (Hacquired _ _ _ Hacq).
  - intros extension_name type_name r Hres Htc.
    unfold ResolveTypeToContext, should_assert in Hres.
    destruct (negb (m_initialized v));
      [destruct ndebug; [injection Hres as <-|]; discriminate|].
    destruct (get_prefix_committed _ _) as [|d [|d' rest]];
      [injection Hres as <-; discriminate|
      |destruct ndebug; [injection Hres as <-|]; discriminate].
    destruct (acquire_or_create _ _ _ _) as [[[tc'|] contexts]|] eqn:Hacq;
      [|destruct ndebug; [injection Hres as <-|]; discriminate
       |discriminate].
    injection Hres as <-. simpl in Htc. injection Htc as ->.
    simpl. exact (Hacquired _ _ _ Hacq).
Qed.

End TypeUseProofs.

(* ================================================================== *)
(** * Committing deletions *)
(* ================================================================== *)

Module DeleteProofs.
Import SystemTableMap MapSpec SessionSpec.
Import StdMapProofs MapProofs StagingProofs SessionProofs.

Section Proofs.
Context {E : Type} `{EntryType E}.
Implicit Types (st : SystemTableMap E).

Lemma In_erase {V} (m : StdMap.t V) k0 k v :
  In (k, v) (StdMap.erase k0 m) <-> In (k, v) m /\ k <> k0.
Proof.
  induction m as [|[k1 v1] r IH]; simpl; [tauto|].
  destruct (String.eqb_spec k1 k0) as [->|Hne].
  - rewrite IH. split; [tauto|].
    intros [[[= -> ->]|Hin] Hk]; [congruence|tauto].
  - simpl. rewrite IH. split.
    + intros [[= -> ->]|[Hin Hk]]; [split; [now left|congruence]|tauto].
    + tauto.
Qed.

Lemma In_fold_deletes (keys : list key_type) :
  forall (m : StdMap.t (shared_ptr E)) k p,
    In (k, p) (fold_left apply_op (List.map PendingDelete keys) m)
    <-> In (k, p) m /\ ~ In k (List.map key_str keys).
Proof.
  induction keys as [|k0 keys IH]; intros m k p; simpl; [tauto|].
  rewrite IH, In_erase. split.
  - intros [[Hin Hne] Hnot]. split; [exact Hin|].
    intros [Heq|Hin']; [congruence|tauto].
  - intros [Hin Hnot]. split; [split; [exact Hin|]|]; intuition congruence.
Qed.

Lemma commit_fold st thd :
  thd <> nullptr ->
  m_committed (commit st thd)
  = fold_left apply_op (pending st thd) (m_committed st).
Proof.
  intros Hthd. apply N.eqb_neq in Hthd. unfold commit, pending.
  rewrite Hthd. now destruct (m_uncommitted st !! thd).
Qed.

(** Committing a session that staged only deletions removes exactly the
    bindings of the deleted keys. *)
Lemma commit_of_deletes st thd (keys : list key_type) :
  thd <> nullptr ->
  pending st thd = List.map PendingDelete keys ->
  forall k p,
    In (k, p) (m_committed (commit st thd))
    <-> In (k, p) (m_committed st) /\ ~ In k (List.map key_str keys).
Proof.
  intros Hthd Hpending k p.
  rewrite commit_fold, Hpending by exact Hthd.
  apply In_fold_deletes.
Qed.

Lemma commit_nothing st thd :
  pending st thd = [] -> m_committed (commit st thd) = m_committed st.
Proof.
  unfold commit, pending. destruct (thd =? nullptr); [reflexivity|].
  destruct (m_uncommitted st !! thd) as [ops|]; [|reflexivity].
  simpl. now intros ->.
Qed.

Lemma In_get_all_committed st e :
  In e (get_all_committed st)
  <-> exists k p, In (k, p) (m_committed st) /\ obj p = e.
Proof.
  unfold get_all_committed. rewrite List.in_map_iff. split.
  - intros ([k p] & Hobj & Hin). now exists k, p.
  - intros (k & p & Hin & Hobj). now exists (k, p).
Qed.

End Proofs.
End DeleteProofs.

(* ================================================================== *)
(** * More on UNINSTALL EXTENSION *)
(* ================================================================== *)

Module UninstallMoreProofs.
Import CStr SystemTableMap Schema Victionary Uninstall.
Import MapSpec TypeContextSpec UninstallSpec UninstallTrace.
Import StdMapProofs MapProofs StagingProofs UninstallProofs AcquireProofs.
Import DeleteProofs.

(** A refusal leaves the client as it was. *)
Lemma refusal_keeps_client (t : THD_ptr) (v : VictionaryClient)
    (extension_name : string) (rm : removal) :
  remove_extension_from_victionary t v extension_name = Returned rm ->
  rm_failed rm = true ->
  rm_vclient rm = v /\ rm_to_unregister rm = None /\ rm_error rm <> None.
Proof.
  unfold remove_extension_from_victionary.
  destruct (get_committed (m_extensions v) _) as [ext_entry|].
  2:{ intros [= <-]. simpl. intros _. repeat split. discriminate. }
  rewrite check_for_columns_spec.
  destruct (List.find _ _) as [first_col|].
  { intros [= <-]. simpl. intros _. repeat split. discriminate. }
  destruct (type_context_in_use _ _ _ _) as [[type_name|]|];
    [| |discriminate].
  { intros [= <-]. simpl. intros _. repeat split. discriminate. }
  destruct (type_desc_in_use _ _ _ _) as [type_name|].
  { intros [= <-]. simpl. intros _. repeat split. discriminate. }
  destruct (mark_type_contexts _ _ _ _ _) as [contexts|]; [|discriminate].
  destruct (get_committed (m_extension_descriptors v) _);
    intros [= <-]; simpl; discriminate.
Qed.

(** X8.  A refused uninstall stages nothing.  Whenever
    [remove_extension_from_victionary] returns an error, it has reported
    one, the Victionary is exactly as before and no shared object is
    handed back for unloading; and it refuses an extension that is not
    installed. *)
Theorem refused_uninstall_stages_nothing (t : THD_ptr)
    (v : VictionaryClient) (extension_name : string) (rm : removal) :
  remove_extension_from_victionary t v extension_name = Returned rm ->
  (rm_failed rm = true ->
   rm_vclient rm = v /\ rm_to_unregister rm = None /\ rm_error rm <> None)
  /\ (get_committed (m_extensions v)
        (ek_normalized_key (ExtensionKey_make extension_name)) = None ->
      rm_failed rm = true
      /\ rm_error rm
         = Some ("Extension '" ++ extension_name ++ "' is not installed")).
Proof.
  intros Hrm. split; [exact (refusal_keeps_client _ _ _ _ Hrm)|].
  revert Hrm. unfold remove_extension_from_victionary.
  intros Hrm Hnone. rewrite Hnone in Hrm. injection Hrm as <-. now simpl.
Qed.

Lemma registration_eqb_refl (reg : ExtensionRegistration) :
  registration_eqb reg reg = true.
Proof.
  unfold registration_eqb.
  now rewrite !N.eqb_refl, String.eqb_refl.
Qed.

(** X9.  In every run of UNINSTALL EXTENSION the VDFs of a registration
    are unregistered before its shared object is unloaded; a run that
    reports an error unregisters nothing, unloads nothing and sends no
    OK; an OK is sent only after the system tables were written, in a
    run without an error report; and whatever writes, unregisters,
    unloads or acknowledges comes after the global read lock, the backup
    lock, the exclusive extension lock and the opening of the tables, in
    that order. *)
Theorem uninstall_unregisters_before_unload (host : Uninstall.Host)
    (v : VictionaryClient) (t : THD_ptr) (extension_name : string)
    (o : outcome) :
  execute host v t extension_name = Returned o ->
  unregistered_before_unload [] (trace o) = true
  /\ (existsb is_error (trace o) = true ->
      existsb (fun ev => negb (is_write ev) && touches_host_state ev)
        (trace o) = false)
  /\ (existsb is_ok (trace o) = true ->
      existsb is_write (trace o) = true
      /\ existsb is_error (trace o) = false)
  /\ (existsb touches_host_state (trace o) = true ->
      exists after,
        trace o
        = AcquireSharedGlobalReadLock :: AcquireSharedBackupLock
          :: LockExtensionExclusive
               (ek_normalized_key (ExtensionKey_make extension_name))
          :: OpenAndLockTables :: WriteAllUncommittedEntries :: after).
Proof.
  unfold execute, finish, end_transaction.
  destruct (global_read_lock_fails host);
    [intros [= <-]; simpl; repeat split; discriminate|].
  destruct (backup_lock_fails host);
    [intros [= <-]; simpl; repeat split; discriminate|].
  destruct (extension_lock_fails host);
    [intros [= <-]; simpl; repeat split; discriminate|].
  destruct (Uninstall.open_tables_fails host);
    [intros [= <-]; simpl; repeat split; discriminate|].
  destruct (remove_extension_from_victionary t v extension_name)
    as [rm|] eqn:Hrm; [|discriminate].
  pose proof (refusal_keeps_client _ _ _ _ Hrm) as Hrefused.
  destruct (rm_failed rm) eqn:Hfailed.
  { destruct (Hrefused eq_refl) as (_ & _ & Herr).
    destruct (rm_error rm) as [msg|]; [|congruence].
    intros [= <-]; simpl; repeat split; discriminate. }
  assert (Hnoerr : rm_error rm = None).
  { revert Hrm Hfailed. clear. unfold remove_extension_from_victionary.
    destruct (get_committed (m_extensions v) _); [|intros [= <-]; discriminate].
    destruct (check_for_columns_of_extension _ _) as [[|] msg];
      [intros [= <-]; discriminate|].
    destruct (type_context_in_use _ _ _ _) as [[?|]|];
      [intros [= <-]; discriminate| |discriminate].
    destruct (type_desc_in_use _ _ _ _); [intros [= <-]; discriminate|].
    destruct (mark_type_contexts _ _ _ _ _); [|discriminate].
    destruct (get_committed (m_extension_descriptors v) _);
      now intros [= <-]. }
  rewrite Hnoerr.
  destruct (write_uncommitted_fails host).
  { intros [= <-]; simpl. repeat split; try discriminate.
    intros _. now eexists. }
  destruct (rm_to_unregister rm) as [reg|];
    destruct (unregister_vdfs_fails host);
    destruct (commit_fails host);
    intros [= <-]; simpl; rewrite ?registration_eqb_refl; simpl;
    (repeat split; try discriminate;
     intros _; eexists; reflexivity).
Qed.

(** ** What a successful removal stages *)

Section Staged.
Variable ext : ExtensionEntry.
Variable t : THD_ptr.
Hypothesis Ht : t <> nullptr.

Let name := ee_extension_name ext.
Let version := ee_extension_version ext.

Lemma mark_type_descs_staged (l : list TypeDescriptor) :
  forall descs : SystemTableMap TypeDescriptor,
    pending (mark_type_descs descs t name version l) t
    = (pending descs t
       ++ List.map (@PendingDelete TypeDescriptor TypeDescriptor_entry)
            (List.map td_key (List.filter (descriptor_belongs ext) l)))%list
    /\ m_committed (mark_type_descs descs t name version l)
       = m_committed descs.
Proof.
  unfold mark_type_descs.
  induction l as [|d rest IH]; intros descs; simpl.
  - now rewrite List.app_nil_r.
  - change (type_desc_of name version d) with (descriptor_belongs ext d).
    destruct (descriptor_belongs ext d); [|apply IH].
    destruct (IH (link_in_list descs t
                    (@PendingDelete TypeDescriptor TypeDescriptor_entry
                       (td_key d))))
      as [Hp Hc].
    split; [|exact Hc].
    etransitivity; [exact Hp|].
    rewrite (pending_link (E := TypeDescriptor)) by exact Ht.
    simpl. now rewrite <- List.app_assoc.
Qed.

Lemma mark_type_contexts_staged (l : list TypeContext) :
  Forall (fun c => holds_matching_descriptor c = true) l ->
  forall contexts : SystemTableMap TypeContext,
  exists marked,
    mark_type_contexts contexts t name version l = Returned marked
    /\ pending marked t
       = (pending contexts t
          ++ List.map (@PendingDelete TypeContext TypeContext_entry)
               (List.map key_ (List.filter (context_belongs ext) l)))%list
    /\ m_committed marked = m_committed contexts.
Proof.
  induction l as [|c rest IH]; intros Hall contexts;
    cbn [mark_type_contexts List.filter List.map].
  - eexists. split; [reflexivity|]. now rewrite List.app_nil_r.
  - inversion Hall as [|? ? Hc Hrest]; subst.
    unfold name, version.
    rewrite (type_context_of_belongs ext c Hc). fold name version.
    destruct (context_belongs ext c); [|now apply IH].
    destruct (IH Hrest
                (link_in_list contexts t
                   (@PendingDelete TypeContext TypeContext_entry (key_ c))))
      as (marked & Hm & Hp & Hcm).
    exists marked. split; [exact Hm|]. split; [|exact Hcm].
    etransitivity; [exact Hp|].
    rewrite (pending_link (E := TypeContext)) by exact Ht.
    simpl. now rewrite <- List.app_assoc.
Qed.

End Staged.

Lemma get_committed_key {E : Type} `{EntryType E} (st : SystemTableMap E)
    (k : string) (e : E) :
  committed_ok st -> get_committed st k = Some e -> key_str (key e) = k.
Proof.
  intros [_ Hkeyed]. unfold get_committed.
  destruct (StdMap.find k (m_committed st)) as [p|] eqn:Hfind;
    [|discriminate].
  intros [= <-]. rewrite List.Forall_forall in Hkeyed.
  exact (Hkeyed _ (find_In _ _ _ Hfind)).
Qed.

Lemma commit_single_delete {E : Type} `{EntryType E} (st : SystemTableMap E)
    (t : THD_ptr) (k0 : key_type) (k : string) :
  t <> nullptr -> pending st t = [] ->
  get_committed (commit (link_in_list st t (PendingDelete k0)) t) k
  = if String.eqb (key_str k0) k then None else get_committed st k.
Proof.
  intros Ht Hp. rewrite commit_lookup.
  rewrite (pending_link st t (PendingDelete k0) Ht), Hp. reflexivity.
Qed.

(** Committing the deletions of the keys of the entries [belongs]
    selects leaves the entries it does not select, and only those. *)
Lemma commit_of_selected {E : Type} `{EntryType E}
    (st st' : SystemTableMap E) (t : THD_ptr) (belongs : E -> bool)
    (keys : list key_type) :
  t <> nullptr -> committed_ok st ->
  pending st' t = List.map PendingDelete keys ->
  List.map key_str keys
  = List.map (fun e => key_str (key e))
      (List.filter belongs (get_all_committed st)) ->
  m_committed st' = m_committed st ->
  forall e,
    In e (get_all_committed (commit st' t))
    <-> In e (get_all_committed st) /\ belongs e = false.
Proof.
  intros Ht [Hok Hkeyed] Hp Hkeys Hc e.
  rewrite List.Forall_forall in Hkeyed.
  rewrite !In_get_all_committed. split.
  - intros (k & p & Hin & <-).
    apply (commit_of_deletes st' t _ Ht Hp) in Hin as [Hin Hnot].
    rewrite Hc in Hin. split; [now exists k, p|].
    destruct (belongs (obj p)) eqn:Hb; [|reflexivity].
    exfalso. apply Hnot. rewrite Hkeys.
    apply List.in_map_iff. exists (obj p). split.
    + exact (Hkeyed _ Hin).
    + apply List.filter_In. split; [|exact Hb].
      apply In_get_all_committed. now exists k, p.
  - intros [(k & p & Hin & <-) Hb]. exists k, p. split; [|reflexivity].
    apply (commit_of_deletes st' t _ Ht Hp). rewrite Hc.
    split; [exact Hin|].
    rewrite Hkeys. intros Hdel.
    apply List.in_map_iff in Hdel as (e' & Hkey & He').
    apply List.filter_In in He' as [He' Hb'].
    apply In_get_all_committed in He' as (k' & p' & Hin' & <-).
    pose proof (Hkeyed _ Hin') as Hk'. simpl in Hk'.
    rewrite Hk' in Hkey. subst k'.
    pose proof (find_In_ok _ _ _ Hok Hin) as Hf.
    pose proof (find_In_ok _ _ _ Hok Hin') as Hf'.
    rewrite Hf in Hf'. injection Hf' as <-. congruence.
Qed.

(** X10.  A successful UNINSTALL removes the extension and all of its
    types.  When [remove_extension_from_victionary] succeeds for the
    name the extension was installed under, in a session with nothing
    else staged, then after [commit_all_tables] the extension entry, its
    descriptor and every type descriptor and type context of the
    extension are gone, while the type descriptors of other extensions,
    the other extension entries and the custom columns are as before. *)
Theorem uninstall_then_commit_removes_extension (v : VictionaryClient)
    (ext : ExtensionEntry) (t : THD_ptr) (rm : removal) :
  t <> nullptr -> m_initialized v = true ->
  get_committed (m_extensions v)
    (ek_normalized_key (ExtensionKey_make (ee_extension_name ext)))
  = Some ext ->
  committed_ok (m_type_contexts v) ->
  committed_ok (m_type_descriptors v) ->
  committed_ok (m_extension_descriptors v) ->
  all_contexts_match (m_type_contexts v) ->
  nothing_staged v t ->
  remove_extension_from_victionary t v (ee_extension_name ext)
  = Returned rm ->
  rm_failed rm = false ->
  let v' := commit_all_tables (rm_vclient rm) t in
  extension_gone v' ext
  /\ (forall d, In d (get_all_committed (m_type_descriptors v')) <->
                In d (get_all_committed (m_type_descriptors v))
                /\ descriptor_belongs ext d = false)
  /\ (forall k, k <> ek_normalized_key (ee_key ext) ->
                get_committed (m_extensions v') k
                = get_committed (m_extensions v) k)
  /\ get_all_committed (m_columns v') = get_all_committed (m_columns v).
Proof.
  intros Ht Hinit Hext Hctx Hdesc Hextdesc Hmatch
    (Hp_prop & Hp_col & Hp_ext & Hp_desc & Hp_extdesc & Hp_ctx) Hrm Hok.
  unfold remove_extension_from_victionary in Hrm. rewrite Hext in Hrm.
  destruct (check_for_columns_of_extension _ _) as [[|] msg];
    [injection Hrm as <-; discriminate|].
  destruct (type_context_in_use _ _ _ _) as [[?|]|];
    [injection Hrm as <-; discriminate| |discriminate].
  destruct (type_desc_in_use _ _ _ _);
    [injection Hrm as <-; discriminate|].
  destruct (mark_type_contexts_staged ext t Ht
              (get_all_committed (m_type_contexts v))
              ltac:(unfold get_all_committed; apply Forall_map;
                    exact Hmatch)
              (m_type_contexts v)) as (marked & Hmarked & Hpm & Hcm).
  rewrite Hmarked in Hrm. rewrite Hp_ctx in Hpm. simpl in Hpm.
  destruct (mark_type_descs_staged ext t Ht
              (get_all_committed (m_type_descriptors v))
              (m_type_descriptors v)) as [Hpd Hcd].
  rewrite Hp_desc in Hpd. simpl in Hpd.
  assert (Hnn : (t =? nullptr) = false) by now apply N.eqb_neq.
  assert (Htypes :
    (forall d,
        In d (get_all_committed
                (commit (mark_type_descs (m_type_descriptors v) t
                           (ee_extension_name ext)
                           (ee_extension_version ext)
                           (get_all_committed (m_type_descriptors v))) t))
        <-> In d (get_all_committed (m_type_descriptors v))
            /\ descriptor_belongs ext d = false)
    /\ (forall c,
           In c (get_all_committed (commit marked t))
           <-> In c (get_all_committed (m_type_contexts v))
               /\ context_belongs ext c = false)).
  { split.
    - apply (commit_of_selected (E := TypeDescriptor)) with (keys :=
        List.map td_key
          (List.filter (descriptor_belongs ext)
             (get_all_committed (m_type_descriptors v))));
        try assumption.
      now rewrite List.map_map.
    - apply (commit_of_selected (E := TypeContext)) with (keys :=
        List.map key_
          (List.filter (context_belongs ext)
             (get_all_committed (m_type_contexts v))));
        try assumption.
      now rewrite List.map_map. }
  destruct Htypes as [Hdescs Hctxs].
  assert (Hexts : forall k,
    get_committed
      (commit (link_in_list (m_extensions v) t
                 (@PendingDelete ExtensionEntry ExtensionEntry_entry
                    (ee_key ext))) t) k
    = if String.eqb (ek_normalized_key (ee_key ext)) k then None
      else get_committed (m_extensions v) k).
  { intros k.
    now rewrite (commit_single_delete (E := ExtensionEntry)). }
  assert (Hcols : get_all_committed (commit (m_columns v) t)
                  = get_all_committed (m_columns v)).
  { unfold get_all_committed. now rewrite commit_nothing. }
  set (edkey := edk_normalized_key
                  (ExtensionDescriptorKey_make (ee_extension_name ext)
                     (ee_extension_version ext))) in *.
  destruct (get_committed (m_extension_descriptors v) edkey)
    as [ext_desc|] eqn:Hed;
    injection Hrm as <-; intros v'; subst v';
    unfold commit_all_tables; cbn [rm_vclient m_initialized];
    rewrite Hinit, Hnn; cbn [negb orb];
    unfold extension_gone;
    cbn [m_extensions m_extension_descriptors m_type_descriptors
         m_type_contexts m_columns MarkForDeletion snd].
  - split; [split; [|split; [|split]]|split; [|split]].
    + rewrite Hexts. now rewrite String.eqb_refl.
    + rewrite (commit_single_delete (E := ExtensionDescriptor))
        by assumption.
      pose proof (get_committed_key _ _ _ Hextdesc Hed) as Hkey.
      simpl in Hkey. simpl. now rewrite Hkey, String.eqb_refl.
    + intros d Hd. now apply Hdescs in Hd.
    + intros c Hc. now apply Hctxs in Hc.
    + exact Hdescs.
    + intros k Hk. rewrite Hexts.
      destruct (String.eqb_spec (ek_normalized_key (ee_key ext)) k);
        congruence.
    + exact Hcols.
  - split; [split; [|split; [|split]]|split; [|split]].
    + rewrite Hexts. now rewrite String.eqb_refl.
    + unfold get_committed. rewrite commit_nothing by assumption.
      exact Hed.
    + intros d Hd. now apply Hdescs in Hd.
    + intros c Hc. now apply Hctxs in Hc.
    + exact Hdescs.
    + intros k Hk. rewrite Hexts.
      destruct (String.eqb_spec (ek_normalized_key (ee_key ext)) k);
        congruence.
    + exact Hcols.
Qed.

End UninstallMoreProofs.

(* ================================================================== *)
(** * Locking, validating and staging DDL changes *)
(* ================================================================== *)

Module DdlProofs.
Import CStr SystemTableMap Schema Victionary MetadataModifier Ddl.
Import MapSpec StagingSpec DdlSpec SessionSpec.
Import StdMapProofs MapProofs StagingProofs SessionProofs DeleteProofs.

(** ** [lock_extensions_shared] *)

Lemma fold_add_mdl_request (names : list string) :
  forall reqs seen,
    fold_left add_mdl_request names (reqs, seen)
    = ((List.map normalize_extension_name (rev (fresh names seen)) ++ reqs)%list,
       (rev (fresh names seen) ++ seen)%list).
Proof.
  induction names as [|n rest IH]; intros reqs seen; [reflexivity|].
  cbn [fold_left fresh]. unfold add_mdl_request at 2.
  destruct (is_empty_string n || existsb (String.eqb n) seen);
    [apply IH|].
  rewrite IH. cbn [rev]. rewrite List.map_app, <- !List.app_assoc.
  reflexivity.
Qed.

Lemma existsb_eqb_In (n : string) (seen : list string) :
  existsb (String.eqb n) seen = true <-> In n seen.
Proof.
  rewrite existsb_exists. split.
  - intros (x & Hin & Heq). apply String.eqb_eq in Heq. now subst.
  - intros Hin. exists n. now rewrite String.eqb_refl.
Qed.

Lemma is_empty_string_spec (n : string) : is_empty_string n = true <-> n = "".
Proof. destruct n; simpl; split; congruence. Qed.

Lemma In_fresh (names : list string) :
  forall seen n,
    In n (fresh names seen) <-> In n names /\ n <> "" /\ ~ In n seen.
Proof.
  induction names as [|m rest IH]; intros seen n; cbn [fresh In];
    [tauto|].
  destruct (is_empty_string m) eqn:Hm; cbn [orb].
  - apply is_empty_string_spec in Hm. subst m. rewrite IH.
    intuition congruence.
  - assert (Hm' : m <> "")
      by (intros ->; discriminate).
    destruct (existsb (String.eqb m) seen) eqn:Hs.
    + apply existsb_eqb_In in Hs. rewrite IH.
      intuition (subst; tauto).
    + assert (Hs' : ~ In m seen).
      { intros Hin. apply existsb_eqb_In in Hin. congruence. }
      cbn [In]. rewrite IH. cbn [In].
      destruct (String.eqb_spec m n) as [->|Hne]; intuition congruence.
Qed.

Lemma NoDup_fresh (names : list string) :
  forall seen, List.NoDup (fresh names seen).
Proof.
  induction names as [|m rest IH]; intros seen; cbn [fresh];
    [constructor|].
  destruct (is_empty_string m || existsb (String.eqb m) seen);
    [apply IH|].
  constructor; [|apply IH].
  rewrite In_fresh. cbn [In]. tauto.
Qed.

Lemma mdl_requests_fresh (mm : Metadata_modifier) :
  mdl_requests mm
  = List.map normalize_extension_name
      (rev (fresh (referenced_extensions mm) [])).
Proof.
  unfold mdl_requests, referenced_extensions.
  rewrite <- !fold_left_app, fold_add_mdl_request. cbn [fst].
  now rewrite List.app_nil_r.
Qed.

(** X11.  [lock_extensions_shared] asks for one shared lock per extension
    name the pending modifications refer to: the requests are the
    normalized forms of a duplicate-free list made of exactly the
    non-empty names referred to, and with no such name no lock is asked
    for and the call succeeds. *)
Theorem one_shared_lock_per_referenced_extension (mm : Metadata_modifier) :
  (exists names,
      List.NoDup names
      /\ mdl_requests mm = List.map normalize_extension_name names
      /\ (forall n, In n names <->
                    In n (referenced_extensions mm) /\ n <> ""))
  /\ (forall host thd,
         thd <> nullptr ->
         (forall n, In n (referenced_extensions mm) -> n = "") ->
         lock_extensions_shared host mm thd = Returned false)
  /\ (forall host thd,
         thd <> nullptr ->
         (exists n, In n (referenced_extensions mm) /\ n <> "") ->
         lock_extensions_shared host mm thd
         = Returned (acquire_locks_fails host)).
Proof.
  assert (Hnames : forall n,
    In n (rev (fresh (referenced_extensions mm) [])) <->
    In n (referenced_extensions mm) /\ n <> "").
  { intros n. rewrite <- in_rev, In_fresh. cbn [In]. tauto. }
  split; [|split].
  - exists (rev (fresh (referenced_extensions mm) [])).
    split; [apply List.NoDup_rev, NoDup_fresh|].
    split; [apply mdl_requests_fresh|exact Hnames].
  - intros host thd Hthd Hnone. unfold lock_extensions_shared.
    apply N.eqb_neq in Hthd. rewrite Hthd, mdl_requests_fresh.
    destruct (rev (fresh (referenced_extensions mm) [])) as [|n l] eqn:Hl;
      [reflexivity|].
    exfalso. destruct (proj1 (Hnames n)) as [Hin Hne]; [now left|].
    exact (Hne (Hnone _ Hin)).
  - intros host thd Hthd (n & Hin & Hne). unfold lock_extensions_shared.
    apply N.eqb_neq in Hthd. rewrite Hthd, mdl_requests_fresh.
    destruct (rev (fresh (referenced_extensions mm) [])) as [|n' l] eqn:Hl;
      [|reflexivity].
    exfalso. exact (proj2 (Hnames n) (conj Hin Hne)).
Qed.

(** ** [lock_and_apply] *)

Lemma pending_link_all_other {A}
    (mk : A -> PendingOperation ColumnEntry)
    (st : SystemTableMap ColumnEntry) (thd thd' : THD_ptr)
    (items : list A) :
  thd' <> thd ->
  pending (fold_left (fun c x => link_in_list c thd (mk x)) items st) thd'
  = pending st thd'.
Proof.
  intros Hne. revert st.
  induction items as [|x rest IH]; intros st; [reflexivity|].
  cbn [fold_left]. rewrite IH. now apply pending_link_other.
Qed.

Lemma mark_victionary_modifications_effect (mm : Metadata_modifier)
    (vclient : VictionaryClient) (thd : THD_ptr) :
  m_initialized vclient = true -> thd <> nullptr ->
  exists marked cols,
    mark_victionary_modifications mm vclient thd
    = Returned (false, marked, mkModifier [] [] [] (to_call_ mm),
                with_columns vclient cols)
    /\ pending cols thd
       = (pending (m_columns vclient) thd ++ staged_ops mm)%list
    /\ m_committed cols = m_committed (m_columns vclient)
    /\ (forall thd', thd' <> thd ->
          pending cols thd' = pending (m_columns vclient) thd')
    /\ marked = negb (is_empty (staged_ops mm)).
Proof.
  intros Hinit Hthd. unfold mark_victionary_modifications.
  rewrite Hinit. simpl negb. cbv iota.
  destruct (N.eqb_spec thd nullptr) as [|_]; [contradiction|].
  unfold MarkForDeletion, MarkForUpdate, MarkForInsertion.
  rewrite (mark_each_links
             (fun entry : ColumnEntry =>
                @PendingDelete ColumnEntry ColumnEntry_entry (ce_key entry))).
  cbv beta iota zeta. simpl to_rename_. simpl to_add_.
  rewrite (mark_each_links
             (fun p : ColumnEntry * ColumnKey =>
                @PendingUpdate ColumnEntry ColumnEntry_entry (fst p) (snd p))).
  cbv beta iota zeta. simpl to_add_.
  rewrite (mark_each_links (@PendingInsert ColumnEntry ColumnEntry_entry)).
  cbv beta iota zeta. simpl.
  eexists _, _. split; [reflexivity|].
  split; [|split; [|split]].
  - rewrite !pending_link_all by assumption.
    unfold staged_ops. now rewrite <- !List.app_assoc.
  - now rewrite !committed_link_all.
  - intros thd' Hne. now rewrite !pending_link_all_other by exact Hne.
  - unfold staged_ops.
    destruct (to_remove_ mm), (to_rename_ mm), (to_add_ mm); reflexivity.
Qed.

Lemma only_columns_staged_refl (v : VictionaryClient) :
  only_columns_staged v v.
Proof. now repeat split. Qed.

Lemma first_error_None {A} (check : A -> option string) (items : list A) :
  first_error check items = None ->
  forall x, In x items -> check x = None.
Proof.
  induction items as [|y rest IH]; simpl; [tauto|].
  destruct (check y) eqn:Hy; [discriminate|].
  intros Hrest x [<-|Hin]; [exact Hy|now apply IH].
Qed.

(** What [lock_and_apply] went through before it returned. *)
Lemma lock_and_apply_cases (host : Host) (mm : Metadata_modifier)
    (v : VictionaryClient) (thd : THD_ptr) (r : apply_result) :
  lock_and_apply host mm v thd = Returned r ->
  (has_entries mm = false /\ r = mkApply false None [] mm v)
  \/ (has_entries mm = true /\ thd <> nullptr
      /\ ((lock_extensions_shared host mm thd = Returned true
           /\ r = mkApply true None [] mm v)
          \/ (lock_extensions_shared host mm thd = Returned false
              /\ m_initialized v = true
              /\ ((exists msg,
                      validate_entries host mm v = Returned (Some msg)
                      /\ r = mkApply true (Some msg) (mdl_requests mm) mm v)
                  \/ (validate_entries host mm v = Returned None
                      /\ exists cols,
                           pending cols thd
                           = (pending (m_columns v) thd
                              ++ staged_ops mm)%list
                           /\ m_committed cols = m_committed (m_columns v)
                           /\ (forall thd', thd' <> thd ->
                                 pending cols thd'
                                 = pending (m_columns v) thd')
                           /\ (r = mkApply true
                                     (Some "Cannot open custom_columns table")
                                     (mdl_requests mm)
                                     (mkModifier [] [] [] (to_call_ mm))
                                     (with_columns v cols)
                               \/ r = mkApply false None (mdl_requests mm)
                                        (mkModifier [] [] [] (to_call_ mm))
                                        (with_columns v cols))))))).
Proof.
  unfold lock_and_apply.
  destruct (has_entries mm); [|intros [= <-]; now left].
  cbn [negb]. intros Hr. right. split; [reflexivity|].
  destruct (N.eqb_spec thd nullptr) as [->|Hthd];
    [discriminate|].
  split; [exact Hthd|].
  destruct (lock_extensions_shared host mm thd) as [[|]|] eqn:Hlock;
    [injection Hr as <-; now left| |discriminate].
  right. split; [reflexivity|].
  destruct (m_initialized v) eqn:Hinit.
  2:{ unfold validate_entries in Hr. rewrite Hinit in Hr. discriminate. }
  split; [reflexivity|].
  destruct (validate_entries host mm v) as [[msg|]|] eqn:Hval;
    [injection Hr as <-; left; now exists msg| |discriminate].
  right. split; [reflexivity|].
  destruct (mark_victionary_modifications_effect mm v thd Hinit Hthd)
    as (marked & cols & Hmark & Hp & Hc & Hother & _).
  rewrite Hmark in Hr. exists cols.
  split; [exact Hp|]. split; [exact Hc|]. split; [exact Hother|].
  destruct (marked && MetadataModifier.open_tables_fails host);
    injection Hr as <-; auto.
Qed.

(** X12.  [lock_and_apply] only stages.  Whatever it returns, every map
    but [columns] is untouched and so are the committed columns and what
    other sessions have pending; and when it fails for any reason but
    the opening of the system table, nothing at all has changed. *)
Theorem lock_and_apply_only_stages (host : Host) (mm : Metadata_modifier)
    (v : VictionaryClient) (thd : THD_ptr) (r : apply_result) :
  lock_and_apply host mm v thd = Returned r ->
  only_columns_staged v (la_vclient r)
  /\ (forall thd' k, thd' <> thd ->
        get (m_columns (la_vclient r)) thd' k = get (m_columns v) thd' k)
  /\ (forall k, get_committed (m_columns (la_vclient r)) k
                = get_committed (m_columns v) k)
  /\ (la_failed r = true ->
      la_error r <> Some "Cannot open custom_columns table" ->
      la_vclient r = v).
Proof.
  intros Hr.
  destruct (lock_and_apply_cases _ _ _ _ _ Hr)
    as [[_ ->]|(_ & Hthd & [[_ ->]|(_ & Hinit & [(msg & _ & ->)|
         (_ & cols & Hp & Hc & Hother & [->| ->])])])];
    cbn [la_vclient la_failed la_error];
    try (split; [apply only_columns_staged_refl|];
         split; [reflexivity|]; split; [reflexivity|]; reflexivity).
  - split; [now repeat split|].
    split; [|split].
    + intros thd' k Hne. cbn [with_columns m_columns].
      rewrite !get_view, Hother by exact Hne.
      unfold get_committed. now rewrite Hc.
    + intros k. cbn [with_columns m_columns].
      unfold get_committed. now rewrite Hc.
    + intros _ Herr. now elim Herr.
  - split; [now repeat split|].
    split; [|split].
    + intros thd' k Hne. cbn [with_columns m_columns].
      rewrite !get_view, Hother by exact Hne.
      unfold get_committed. now rewrite Hc.
    + intros k. cbn [with_columns m_columns].
      unfold get_committed. now rewrite Hc.
    + discriminate.
Qed.

Lemma validate_entry_None (v : VictionaryClient) (entry : ColumnEntry) :
  validate_entry v entry = None ->
  ce_extension_name entry <> "" -> ce_type_name entry <> "" ->
  type_is_installed v entry.
Proof.
  unfold validate_entry, type_is_installed. intros Hval Hext Htype.
  destruct (ce_extension_name entry) as [|c1 r1] eqn:He; [congruence|].
  destruct (ce_type_name entry) as [|c2 r2] eqn:Ht; [congruence|].
  cbn [is_empty_string orb] in Hval.
  destruct (get_committed (m_type_descriptors v) _) as [d|];
    [|discriminate].
  exists d. split; [reflexivity|].
  destruct (String.eqb_spec (td_extension_name d) (String c1 r1));
    [|discriminate].
  destruct (String.eqb_spec (td_extension_version d)
              (ce_extension_version entry)); [|discriminate].
  now split.
Qed.

Lemma validate_entries_None (host : Host) (mm : Metadata_modifier)
    (v : VictionaryClient) :
  validate_entries host mm v = Returned None ->
  (forall entry, In entry (carried_columns mm) ->
                 validate_entry v entry = None)
  /\ (forall routine, In routine (to_call_ mm) ->
                      validate_routine host v routine = None).
Proof.
  unfold validate_entries. destruct (negb (m_initialized v)); [discriminate|].
  destruct (first_error (validate_entry v) (to_add_ mm)) eqn:Hadd;
    [discriminate|].
  destruct (first_error (validate_entry v) (to_remove_ mm)) eqn:Hrem;
    [discriminate|].
  destruct (first_error (fun p => validate_entry v (fst p)) (to_rename_ mm))
    eqn:Hren; [discriminate|].
  intros [= Hcall]. split.
  - intros entry Hin. unfold carried_columns in Hin.
    apply in_app_or in Hin as [Hin|Hin];
      [exact (first_error_None _ _ Hadd _ Hin)|].
    apply in_app_or in Hin as [Hin|Hin];
      [exact (first_error_None _ _ Hrem _ Hin)|].
    apply List.in_map_iff in Hin as (p & <- & Hin).
    exact (first_error_None _ _ Hren _ Hin).
  - intros routine Hin. exact (first_error_None _ _ Hcall _ Hin).
Qed.

(** X13.  A successful [lock_and_apply] has validated what it staged:
    every column entry of the modifier that names an extension and a
    type refers to a committed type descriptor of exactly that extension
    name and version, and every function to call belongs to an installed
    extension and is registered there. *)
Theorem successful_lock_and_apply_has_validated (host : Host)
    (mm : Metadata_modifier) (v : VictionaryClient) (thd : THD_ptr)
    (r : apply_result) :
  lock_and_apply host mm v thd = Returned r -> la_failed r = false ->
  (forall entry,
      In entry (carried_columns mm) ->
      ce_extension_name entry <> "" -> ce_type_name entry <> "" ->
      type_is_installed v entry)
  /\ (forall routine,
         In routine (to_call_ mm) ->
         (exists ext,
             get_committed (m_extensions v)
               (ek_normalized_key
                  (ExtensionKey_make (cr_extension_name routine)))
             = Some ext)
         /\ udf_exists host (cr_extension_name routine)
              (cr_function_name routine) = true).
Proof.
  intros Hr Hok.
  destruct (lock_and_apply_cases _ _ _ _ _ Hr)
    as [[Hnone ->]|(_ & Hthd & [[_ ->]|(_ & Hinit & [(msg & _ & ->)|
         (Hval & cols & _ & _ & _ & [->| ->])])])];
    try discriminate.
  - unfold has_entries in Hnone. unfold carried_columns.
    destruct (to_add_ mm), (to_remove_ mm), (to_rename_ mm), (to_call_ mm);
      try discriminate.
    split; intros ? [].
  - destruct (validate_entries_None _ _ _ Hval) as [Hcols Hcalls].
    split.
    + intros entry Hin. apply validate_entry_None. now apply Hcols.
    + intros routine Hin. specialize (Hcalls _ Hin).
      unfold validate_routine in Hcalls.
      destruct (get_committed (m_extensions v) _) as [ext|];
        [|discriminate].
      split; [now exists ext|].
      now destruct (udf_exists host _ _).
Qed.

End DdlProofs.

(* ================================================================== *)
(** * DROP TABLE and RENAME TABLE *)
(* ================================================================== *)

Module TableDdlProofs.
Import CStr SystemTableMap Schema Victionary MetadataModifier Ddl TypeUtil.
Import SemverText MapSpec StagingSpec DdlSpec SessionSpec.
Import StdMapProofs MapProofs PrefixProofs StagingProofs SessionProofs.
Import DeleteProofs UninstallMoreProofs DdlProofs RoundTripProofs.

(** Two dotted names with dot-free heads: a prefix matches head by
    head. *)
Lemma prefix_dot_split (a a' x y : string) :
  lacks "." a = true -> lacks "." a' = true ->
  String.prefix (a ++ String "." x) (a' ++ String "." y) = true ->
  a = a' /\ String.prefix x y = true.
Proof.
  revert a'. induction a as [|c r IH]; intros [|c' r'] Ha Ha';
    rewrite ?app_String, ?app_empty_l, prefix_cons.
  - now split.
  - unfold lacks in Ha'. cbn [all_of] in Ha'.
    destruct (Ascii.eqb_spec "." c') as [<-|]; [|discriminate].
    discriminate.
  - unfold lacks in Ha. cbn [all_of] in Ha.
    destruct (Ascii.eqb_spec c "."); [subst; discriminate|discriminate].
  - unfold lacks in Ha, Ha'. cbn [all_of] in Ha, Ha'.
    apply andb_true_iff in Ha as [_ Ha].
    apply andb_true_iff in Ha' as [_ Ha'].
    destruct (Ascii.eqb_spec c c') as [<-|]; [|discriminate].
    intros Hp. destruct (IH r' Ha Ha' Hp) as [-> Hxy]. now split.
Qed.

Lemma prefix_app_same (a x y : string) :
  String.prefix (a ++ x) (a ++ y) = String.prefix x y.
Proof.
  induction a as [|c r IH]; rewrite ?app_String, ?app_empty_l;
    [reflexivity|].
  now rewrite prefix_cons, Ascii.eqb_refl.
Qed.

Lemma table_prefix_eq (lctn : N) (db_name table_name : string) :
  table_name <> "" ->
  table_prefix lctn db_name table_name
  = normalize_database_name lctn db_name
    ++ String "." (normalize_table_name lctn table_name ++ String "." "").
Proof.
  intros Hne. unfold table_prefix, ColumnKeyPrefix_make. cbn.
  destruct table_name; [congruence|reflexivity].
Qed.

Lemma column_key_eq (lctn : N) (db_name table_name column_name : string) :
  ck_normalized_key (ColumnKey_make lctn db_name table_name column_name)
  = normalize_database_name lctn db_name
    ++ String "." (normalize_table_name lctn table_name
                   ++ String "." (normalize_column_name column_name)).
Proof. reflexivity. Qed.

Lemma filter_none {A} (f : A -> bool) (l : list A) :
  (forall x, In x l -> f x = false) -> List.filter f l = [].
Proof.
  induction l as [|x r IH]; intros Hall; [reflexivity|]. simpl.
  rewrite (Hall x (or_introl eq_refl)). apply IH.
  intros y Hy. apply Hall. now right.
Qed.

Lemma committed_ok_same (st st' : SystemTableMap ColumnEntry) :
  m_committed st' = m_committed st -> committed_ok st -> committed_ok st'.
Proof. unfold committed_ok. now intros ->. Qed.

(** X14.  DROP TABLE drops the custom column entries of the table.  Take
    a session with nothing staged on the columns, an initialized
    Victionary with a well-formed columns map, and a table outside
    [mysql], [sys] and [villagesql] for which
    [GetCustomColumnsForTable] finds only columns of its own.  When
    [process_drop] (not DROP TEMPORARY) for that one table succeeds and
    the transaction commits, the table has no custom column left, the
    committed entries are those of before whose key does not start with
    the table's prefix, and no extension lock was asked for: the
    entries to remove carry no extension name. *)
Theorem drop_table_removes_its_custom_columns (lctn : N) (host : Host)
    (v : VictionaryClient) (thd : THD_ptr) (db_name table_name : string)
    (r : apply_result) :
  thd <> nullptr -> m_initialized v = true ->
  committed_ok (m_columns v) -> pending (m_columns v) thd = [] ->
  finds_own_columns lctn v db_name table_name ->
  special_database db_name = false ->
  process_drop lctn host v thd false [(db_name, table_name)] = Returned r ->
  la_failed r = false ->
  let v' := snd (Ddl.commit (la_vclient r) thd) in
  GetCustomColumnsForTable lctn v' db_name table_name = []
  /\ (forall e,
        In e (get_all_committed (m_columns v'))
        <-> In e (get_all_committed (m_columns v))
            /\ String.prefix (table_prefix lctn db_name table_name)
                 (key_str (key e)) = false)
  /\ la_locked r = [].
Proof.
  intros Hthd Hinit Hok Hpending Hown Hspecial Hdrop Hsucc.
  assert (Hnn : (thd =? nullptr) = false) by now apply N.eqb_neq.
  set (P := table_prefix lctn db_name table_name).
  set (belongs := fun e : ColumnEntry =>
                    String.prefix P (ck_normalized_key (ce_key e))).
  assert (Hcustom : GetCustomColumnsForTable lctn v db_name table_name
                    = List.filter belongs (get_all_committed (m_columns v))).
  { now rewrite custom_columns_for_table. }
  unfold process_drop in Hdrop. cbn [fold_left fst snd] in Hdrop.
  unfold remove_columns in Hdrop.
  rewrite Hspecial, Hinit, Hcustom in Hdrop. cbn [negb snd] in Hdrop.
  cbn [Metadata_modifier_new to_add_ to_remove_ to_rename_ to_call_
       List.app] in Hdrop.
  set (removed := List.map
                    (fun entry =>
                       ColumnEntry_of_key
                         (ColumnKey_make lctn db_name table_name
                            (ce_column_name entry)))
                    (List.filter belongs (get_all_committed (m_columns v))))
    in *.
  assert (Hstrings :
    List.map (@key_str ColumnEntry ColumnEntry_entry)
      (List.map ce_key removed)
    = List.map (fun e => ck_normalized_key (ce_key e))
        (List.filter belongs (get_all_committed (m_columns v)))).
  { unfold removed. rewrite !List.map_map. apply List.map_ext_in.
    intros e He. unfold finds_own_columns in Hown.
    rewrite Hcustom, List.Forall_forall in Hown.
    symmetry. now apply Hown. }
  assert (Hfinal : forall cols : SystemTableMap ColumnEntry,
    pending cols thd
    = List.map (@PendingDelete ColumnEntry ColumnEntry_entry)
        (List.map ce_key removed) ->
    m_committed cols = m_committed (m_columns v) ->
    GetCustomColumnsForTable lctn
      (commit_all_tables (with_columns v cols) thd) db_name table_name = []
    /\ (forall e,
          In e (get_all_committed
                  (m_columns (commit_all_tables (with_columns v cols) thd)))
          <-> In e (get_all_committed (m_columns v)) /\ belongs e = false)).
  { intros cols Hp Hc.
    assert (Hleft : forall e,
      In e (get_all_committed (SystemTableMap.commit cols thd))
      <-> In e (get_all_committed (m_columns v)) /\ belongs e = false).
    { apply (commit_of_selected (E := ColumnEntry)) with
        (keys := List.map ce_key removed); assumption. }
    unfold commit_all_tables. cbn [with_columns m_initialized].
    rewrite Hinit, Hnn. cbn [negb orb m_columns].
    split; [|exact Hleft].
    rewrite custom_columns_for_table;
      [|reflexivity
       |cbn [m_columns]; apply commit_ok;
        now apply (committed_ok_same (m_columns v))].
    cbn [m_columns]. unfold entries_with_prefix.
    apply filter_none. intros e He. now apply Hleft in He. }
  unfold Ddl.commit.
  destruct (lock_and_apply_cases _ _ _ _ _ Hdrop)
    as [[Hnone ->]|(_ & _ & [[_ ->]|(_ & _ & [(msg & _ & ->)|
         (_ & cols & Hp & Hc & _ & [->| ->])])])];
    try discriminate; cbn [la_vclient la_locked].
  - (* nothing to remove *)
    assert (Hempty : removed = []).
    { unfold has_entries in Hnone. cbn in Hnone.
      now destruct removed. }
    rewrite Hinit. cbn [negb snd].
    destruct (Hfinal (m_columns v)) as [Hget Hleft].
    { now rewrite Hpending, Hempty. }
    { reflexivity. }
    assert (Hsame : with_columns v (m_columns v) = v) by now destruct v.
    rewrite Hsame in *. now split.
  - cbn [with_columns m_initialized]. rewrite Hinit. cbn [negb snd].
    rewrite Hpending in Hp. unfold staged_ops in Hp.
    cbn [to_add_ to_remove_ to_rename_ List.map List.app] in Hp.
    rewrite List.app_nil_r in Hp.
    destruct (Hfinal cols) as [Hget Hleft];
      [now rewrite Hp, List.map_map | exact Hc |].
    split; [exact Hget|]. split; [exact Hleft|].
    rewrite mdl_requests_fresh. unfold referenced_extensions.
    cbn [to_add_ to_remove_ to_rename_ to_call_ List.map List.app].
    rewrite List.app_nil_r. unfold removed. rewrite List.map_map.
    cbn [ColumnEntry_of_key ce_extension_name].
    generalize (List.filter belongs (get_all_committed (m_columns v))).
    intros l. induction l as [|x l IH]; [reflexivity|exact IH].
Qed.

End TableDdlProofs.

(* ================================================================== *)
(** * The comparison operators of [Semver] *)
(* ================================================================== *)

Module SemverOrderProofs.
Import CStr Semver SemverSpec SemverText SemverOrder.
Import SemverProofs RoundTripProofs StdMapProofs.

(** ** Digit strings without a leading zero are what [%lu] prints *)

Lemma digit_string_of_uint (s : string) :
  all_of isdigit s = true -> exists d, s = NilEmpty.string_of_uint d.
Proof.
  induction s as [|c r IH]; [now exists Decimal.Nil|].
  cbn [all_of]. intros H. apply andb_true_iff in H as [Hc Hr].
  destruct (IH Hr) as [d ->].
  destruct c as [[] [] [] [] [] [] [] []]; vm_compute in Hc;
    try discriminate Hc;
    first [ now exists (Decimal.D0 d) | now exists (Decimal.D1 d)
          | now exists (Decimal.D2 d) | now exists (Decimal.D3 d)
          | now exists (Decimal.D4 d) | now exists (Decimal.D5 d)
          | now exists (Decimal.D6 d) | now exists (Decimal.D7 d)
          | now exists (Decimal.D8 d) | now exists (Decimal.D9 d) ].
Qed.

Lemma string_of_uint_empty (d : Decimal.uint) :
  NilEmpty.string_of_uint d = "" -> d = Decimal.Nil.
Proof. now destruct d. Qed.

Lemma unorm_canonical (d : Decimal.uint) :
  d <> Decimal.Nil ->
  has_leading_zero (NilEmpty.string_of_uint d) = false ->
  Decimal.unorm d = d.
Proof.
  intros Hne. destruct d as [|d|d|d|d|d|d|d|d|d|d]; try reflexivity;
    [now elim Hne|].
  unfold has_leading_zero. cbn [NilEmpty.string_of_uint front_is].
  rewrite Ascii.eqb_refl, andb_true_r. intros Hsize.
  apply N.ltb_ge in Hsize. rewrite size_String in Hsize.
  assert (Hd : NilEmpty.string_of_uint d = "").
  { destruct (NilEmpty.string_of_uint d); [reflexivity|].
    rewrite size_String in Hsize. lia. }
  apply string_of_uint_empty in Hd. now subst d.
Qed.

Lemma print_lu_digits_value (s : string) :
  is_numeric s = true -> has_leading_zero s = false ->
  print_lu (digits_value s 0) = s.
Proof.
  intros Hnum Hlz.
  assert (Hne : s <> "") by (intros ->; discriminate).
  assert (Hd : all_of isdigit s = true) by (now destruct s).
  destruct (digit_string_of_uint s Hd) as [d ->].
  unfold print_lu. rewrite digits_value_of_uint, DecimalN.Unsigned.to_of.
  rewrite unorm_canonical; [reflexivity| |exact Hlz].
  intros ->. now elim Hne.
Qed.

(** ** The comparisons are strict total orders *)

Lemma N_compare_strict : strict_total N.compare.
Proof.
  constructor.
  - intros x y. apply N.compare_antisym.
  - intros x y z. rewrite !N.compare_lt_iff. lia.
  - intros x y. apply N.compare_eq.
  - apply N.compare_refl.
Qed.

Lemma string_compare_strict : strict_total String.compare.
Proof.
  constructor.
  - intros x y. apply String.compare_antisym.
  - intros x y z. apply key_lt_trans.
  - intros x y. apply String.compare_eq_iff.
  - apply compare_refl.
Qed.

Lemma identifier_compare_strict : strict_total identifier_compare.
Proof.
  destruct N_compare_strict as [Ns Nt Ne Nr].
  destruct string_compare_strict as [Ss St Se Sr].
  constructor.
  - intros [x|x] [y|y]; cbn [identifier_compare CompOpp]; auto.
  - intros [x|x] [y|y] [z|z]; cbn [identifier_compare];
      try discriminate; try reflexivity; eauto.
  - intros [x|x] [y|y]; cbn [identifier_compare]; try discriminate;
      intros H; f_equal; auto.
  - intros [x|x]; cbn [identifier_compare]; auto.
Qed.

Section Lists.
Context {T : Type} (cmp : T -> T -> comparison) (Hcmp : strict_total cmp).

Lemma list_compare_strict : strict_total (list_compare cmp).
Proof.
  destruct Hcmp as [Cs Ct Ce Cr].
  constructor.
  - induction x as [|a x IH]; intros [|b y]; cbn [list_compare CompOpp];
      try reflexivity.
    rewrite (Cs a b). destruct (cmp a b); cbn [CompOpp]; auto.
  - induction x as [|a x IH]; intros [|b y] [|c z]; cbn [list_compare];
      try discriminate; try reflexivity.
    destruct (cmp a b) eqn:Hab; try discriminate;
      destruct (cmp b c) eqn:Hbc; try discriminate.
    + apply Ce in Hab, Hbc. subst b c. rewrite Cr. apply IH.
    + apply Ce in Hab. subst b. now rewrite Hbc.
    + apply Ce in Hbc. subst c. now rewrite Hab.
    + now rewrite (Ct _ _ _ Hab Hbc).
  - induction x as [|a x IH]; intros [|b y]; cbn [list_compare];
      try discriminate; try reflexivity.
    destruct (cmp a b) eqn:Hab; try discriminate.
    intros H. apply Ce in Hab. apply IH in H. now subst.
  - induction x as [|a x IH]; cbn [list_compare]; [reflexivity|].
    now rewrite Cr.
Qed.

End Lists.

Lemma identifiers_compare_list (l : list identifier) :
  forall r, identifiers_compare l r = list_compare identifier_compare l r.
Proof.
  induction l as [|a l IH]; intros [|b r]; try reflexivity.
  cbn [identifiers_compare list_compare]. now rewrite IH.
Qed.

Lemma prerelease_compare_strict : strict_total prerelease_compare.
Proof.
  destruct (list_compare_strict identifier_compare identifier_compare_strict)
    as [Ls Lt Le Lr].
  constructor.
  - intros [|a x] [|b y]; try reflexivity.
    unfold prerelease_compare. rewrite !identifiers_compare_list. apply Ls.
  - intros [|a x] [|b y] [|c z]; try discriminate; try reflexivity.
    unfold prerelease_compare. rewrite !identifiers_compare_list. apply Lt.
  - intros [|a x] [|b y]; try discriminate; try reflexivity.
    unfold prerelease_compare. rewrite !identifiers_compare_list. apply Le.
  - intros [|a x]; [reflexivity|].
    unfold prerelease_compare. rewrite !identifiers_compare_list. apply Lr.
Qed.

Lemma lex_pair_strict {A B} (ca : A -> A -> comparison)
    (cb : B -> B -> comparison) :
  strict_total ca -> strict_total cb -> strict_total (lex_pair ca cb).
Proof.
  intros [As At Ae Ar] [Bs Bt Be Br].
  constructor; unfold lex_pair.
  - intros x y. rewrite (As (fst x) (fst y)).
    destruct (ca (fst x) (fst y)); cbn [CompOpp]; auto.
  - intros x y z.
    destruct (ca (fst x) (fst y)) eqn:Hxy; try discriminate;
      destruct (ca (fst y) (fst z)) eqn:Hyz; try discriminate.
    + apply Ae in Hxy, Hyz. rewrite Hxy, Hyz, Ar. apply Bt.
    + apply Ae in Hxy. rewrite Hxy, Hyz. reflexivity.
    + apply Ae in Hyz. rewrite <- Hyz, Hxy. reflexivity.
    + rewrite (At _ _ _ Hxy Hyz). reflexivity.
  - intros [x1 x2] [y1 y2]. cbn [fst snd].
    destruct (ca x1 y1) eqn:Hxy; try discriminate.
    intros H. apply Ae in Hxy. apply Be in H. now subst.
  - intros x. now rewrite Ar.
Qed.

Lemma key_compare_strict : strict_total key_compare.
Proof.
  unfold key_compare.
  repeat apply lex_pair_strict;
    auto using N_compare_strict, prerelease_compare_strict.
Qed.

(** ** [operator<] and [operator==] read off the three-way comparison *)

Lemma precedes_compare (a b : Semver) :
  precedes a b
  = match version_compare a b with Lt => true | _ => false end.
Proof.
  unfold precedes, version_compare, key_compare, precedence_key, lex_pair.
  cbn [fst snd].
  destruct (N.compare (major_ a) (major_ b)); try reflexivity.
  destruct (N.compare (minor_ a) (minor_ b)); try reflexivity.
  destruct (N.compare (patch_ a) (patch_ b)); try reflexivity.
  destruct (prerelease_ a) as [|x xs], (prerelease_ b) as [|y ys];
    reflexivity.
Qed.

Lemma comparable_parts (v : Semver) :
  comparable v = true ->
  is_valid v = true
  /\ forallb prerelease_id_ok (prerelease_ v) = true
  /\ numeric_in_range (prerelease_ v) = true.
Proof.
  unfold comparable, is_valid. intros H.
  apply andb_true_iff in H as [H Hr]. apply andb_true_iff in H as [Hv Hok].
  auto.
Qed.

Lemma op_lt_compare (a b : Semver) :
  comparable a = true -> comparable b = true ->
  op_lt a b
  = Some match version_compare a b with Lt => true | _ => false end.
Proof.
  intros Ha Hb.
  destruct (comparable_parts a Ha) as (Hva & _ & Hra).
  destruct (comparable_parts b Hb) as (Hvb & _ & Hrb).
  rewrite op_lt_is_precedence by assumption.
  now rewrite precedes_compare.
Qed.

Lemma classify_inj (x y : string) :
  prerelease_id_ok x = true -> prerelease_id_ok y = true ->
  classify x = classify y -> x = y.
Proof.
  unfold prerelease_id_ok, classify. intros Hx Hy.
  apply andb_true_iff in Hx as [_ Hx]. apply andb_true_iff in Hy as [_ Hy].
  destruct (is_numeric x) eqn:Nx, (is_numeric y) eqn:Ny;
    try discriminate; cbn [andb negb] in *.
  - apply negb_true_iff in Hx, Hy. intros [= H].
    rewrite <- (print_lu_digits_value x Nx Hx),
            <- (print_lu_digits_value y Ny Hy).
    now rewrite H.
  - now intros [= H].
Qed.

Lemma map_classify_inj (l : list string) :
  forall r,
    forallb prerelease_id_ok l = true -> forallb prerelease_id_ok r = true ->
    List.map classify l = List.map classify r -> l = r.
Proof.
  induction l as [|x l IH]; intros [|y r]; cbn [forallb List.map];
    try discriminate; try reflexivity.
  intros Hl Hr [= Hxy Hrest].
  apply andb_true_iff in Hl as [Hx Hl]. apply andb_true_iff in Hr as [Hy Hr].
  f_equal; [now apply classify_inj|now apply IH].
Qed.

Lemma list_string_eqb_spec (l r : list string) :
  list_string_eqb l r = true <-> l = r.
Proof.
  unfold list_string_eqb.
  destruct (List.list_eq_dec String.string_dec l r); split; congruence.
Qed.

Lemma op_eq_compare (a b : Semver) :
  comparable a = true -> comparable b = true ->
  op_eq a b
  = match version_compare a b with Eq => true | _ => false end.
Proof.
  intros Ha Hb.
  destruct (comparable_parts a Ha) as (Hva & Hoka & _).
  destruct (comparable_parts b Hb) as (Hvb & Hokb & _).
  unfold is_valid in Hva, Hvb.
  assert (Heq : op_eq a b = true <-> version_compare a b = Eq).
  { unfold op_eq. rewrite Hva, Hvb. cbn [negb orb].
    rewrite !andb_true_iff, !N.eqb_eq, list_string_eqb_spec.
    unfold version_compare. split.
    - intros [[[HM Hm] Hp] Hpre].
      replace (precedence_key b) with (precedence_key a)
        by (unfold precedence_key; now rewrite HM, Hm, Hp, Hpre).
      apply (cmp_refl _ key_compare_strict).
    - intros H. apply (cmp_eq _ key_compare_strict) in H.
      unfold precedence_key in H. injection H as HM Hm Hp Hpre.
      repeat split; auto. now apply map_classify_inj. }
  destruct (op_eq a b).
  - now rewrite (proj1 Heq eq_refl).
  - destruct (version_compare a b); try reflexivity.
    discriminate (proj2 Heq eq_refl).
Qed.

Lemma version_compare_swap (a b : Semver) :
  version_compare b a = CompOpp (version_compare a b).
Proof. apply (cmp_swap _ key_compare_strict). Qed.

(** X15.  On valid versions whose numeric pre-release identifiers fit an
    [unsigned long], [operator<] is a strict order: no version is below
    itself, of two versions at most one is below the other, and [a < b]
    with [b < c] gives [a < c]. *)
Theorem op_lt_is_a_strict_order (a b c : Semver) :
  comparable a = true -> comparable b = true -> comparable c = true ->
  op_lt a a = Some false
  /\ (op_lt a b = Some true -> op_lt b a = Some false)
  /\ (op_lt a b = Some true -> op_lt b c = Some true ->
      op_lt a c = Some true).
Proof.
  intros Ha Hb Hc.
  rewrite !op_lt_compare by assumption.
  split; [|split].
  - unfold version_compare. now rewrite (cmp_refl _ key_compare_strict).
  - rewrite (version_compare_swap a b).
    now destruct (version_compare a b).
  - intros Hab Hbc.
    destruct (version_compare a b) eqn:Eab; try discriminate.
    destruct (version_compare b c) eqn:Ebc; try discriminate.
    unfold version_compare in *.
    now rewrite (cmp_trans _ key_compare_strict _ _ _ Eab Ebc).
Qed.

(** X16.  On such versions the six operators tell one story.  [a < b]
    and [b < a] never both hold; [a == b] holds exactly when neither
    does and [a != b] when one does; [a <= b] is the negation of
    [b < a], [a >= b] the negation of [a < b], and [a > b] is
    [b < a]. *)
Theorem comparison_operators_agree (a b : Semver) :
  comparable a = true -> comparable b = true ->
  exists lt gt : bool,
    op_lt a b = Some lt /\ op_lt b a = Some gt
    /\ lt && gt = false
    /\ op_eq a b = negb lt && negb gt
    /\ op_ne a b = lt || gt
    /\ op_le a b = Some (negb gt)
    /\ op_ge a b = Some (negb lt)
    /\ op_gt a b = Some gt.
Proof.
  intros Ha Hb.
  unfold op_gt, op_ge, op_le, op_ne.
  rewrite !op_lt_compare, !op_eq_compare by assumption.
  rewrite (version_compare_swap a b).
  destruct (version_compare a b); cbn [CompOpp option_map negb];
    do 2 eexists; repeat split.
Qed.

End SemverOrderProofs.

(* ================================================================== *)
(** * What [parse] accepts is what [to_string] prints *)
(* ================================================================== *)

Module CanonicalTextProofs.
Import CStr Semver SemverSpec SemverText.
Import SemverProofs RoundTripProofs SemverOrderProofs.

(** ** Cutting a string at the first of some characters *)

Lemma cut_at_first (p : ascii -> bool) (s : string) :
  exists a b,
    s = a ++ b
    /\ all_of (fun x => negb (p x)) a = true
    /\ (b = "" \/ exists x r, b = String x r /\ p x = true).
Proof.
  induction s as [|x s (a & b & -> & Ha & Hb)].
  - exists "", "". auto.
  - destruct (p x) eqn:Hx.
    + exists "", (String x (a ++ b)). rewrite app_empty_l.
      repeat split; eauto.
    + exists (String x a), b. rewrite app_String. cbn [all_of].
      rewrite Hx, Ha. auto.
Qed.

Lemma cut_at (c : ascii) (s : string) :
  exists a b,
    s = a ++ b /\ lacks c a = true /\ (b = "" \/ front_is c b = true).
Proof.
  destruct (cut_at_first (fun x => Ascii.eqb x c) s)
    as (a & b & -> & Ha & Hb).
  exists a, b. repeat split; [exact Ha|].
  destruct Hb as [->|(x & r & -> & Hx)]; auto.
Qed.

Lemma cut_at_either (c d : ascii) (s : string) :
  exists a b,
    s = a ++ b /\ lacks c a = true /\ lacks d a = true
    /\ (b = "" \/ front_is c b = true \/ front_is d b = true).
Proof.
  destruct (cut_at_first (fun x => Ascii.eqb x c || Ascii.eqb x d) s)
    as (a & b & -> & Ha & Hb).
  exists a, b. split; [reflexivity|].
  split; [|split].
  - revert Ha. apply all_of_impl. intros x Hx.
    apply negb_true_iff, orb_false_iff in Hx as [Hx _]. now rewrite Hx.
  - revert Ha. apply all_of_impl. intros x Hx.
    apply negb_true_iff, orb_false_iff in Hx as [_ Hx]. now rewrite Hx.
  - destruct Hb as [->|(x & r & -> & Hx)]; [auto|].
    cbn [front_is]. apply orb_true_iff in Hx. tauto.
Qed.

Lemma substr_to_first (c : ascii) (a b : string) :
  lacks c a = true -> b = "" \/ front_is c b = true ->
  size (a ++ b) <= npos ->
  substr (a ++ b) 0 (find c (a ++ b)) = a.
Proof.
  intros Ha Hb Hsize. apply substr_head.
  rewrite find_zero, find_at_lacks by exact Ha.
  rewrite size_app in *. rewrite N.add_0_l.
  destruct Hb as [->|Hb].
  - cbn [find_at]. change (size "") with 0 in *. lia.
  - destruct b as [|x b]; [discriminate|]. cbn [front_is] in Hb.
    apply Ascii.eqb_eq in Hb. subst x. rewrite find_at_here. lia.
Qed.

Lemma count_zero_lacks (c : ascii) (s : string) :
  count c s = 0 -> lacks c s = true.
Proof.
  induction s as [|x s IH]; [reflexivity|].
  cbn [count]. unfold lacks. cbn [all_of].
  destruct (Ascii.eqb x c); [lia|]. intros H. apply IH. lia.
Qed.

Lemma count_String_here (c : ascii) (s : string) :
  count c (String c s) = 1 + count c s.
Proof. cbn [count]. now rewrite Ascii.eqb_refl. Qed.

(** A string with two dots is three dot-free fields. *)
Lemma three_fields (s : string) :
  count "." s = 2 ->
  exists M m p,
    s = dotted3 M m p
    /\ lacks "." M = true /\ lacks "." m = true /\ lacks "." p = true.
Proof.
  intros Hcount.
  destruct (cut_at "." s) as (M & r1 & -> & HM & Hr1).
  rewrite count_app, (count_lacks _ _ HM) in Hcount.
  destruct Hr1 as [->|Hr1]; [discriminate|].
  destruct r1 as [|x r1]; [discriminate|]. cbn [front_is] in Hr1.
  apply Ascii.eqb_eq in Hr1. subst x.
  rewrite count_String_here in Hcount.
  destruct (cut_at "." r1) as (m & r2 & -> & Hm & Hr2).
  rewrite count_app, (count_lacks _ _ Hm) in Hcount.
  destruct Hr2 as [->|Hr2]; [cbn [count] in Hcount; lia|].
  destruct r2 as [|x r2]; [discriminate|]. cbn [front_is] in Hr2.
  apply Ascii.eqb_eq in Hr2. subst x.
  rewrite count_String_here in Hcount.
  exists M, m, r2. repeat split; auto.
  apply count_zero_lacks. lia.
Qed.

(** ** The loops of [parse] take a joined list apart *)

Lemma split_prerelease_text (fuel : nat) :
  forall (c : ascii) (r : string) (acc ids : list string),
    size (String c r) <= npos ->
    split_prerelease fuel (String c r) acc = SplitOk ids ->
    exists ids', ids = (acc ++ ids')%list /\ String c r = joined c ids'.
Proof.
  induction fuel as [|fuel IH]; intros c r acc ids Hsize;
    cbn [split_prerelease]; [discriminate|].
  rewrite remove_prefix_1.
  destruct (cut_at "." r) as (I & T & -> & HI & HT).
  rewrite size_String in Hsize.
  rewrite substr_to_first by (assumption || lia).
  destruct (is_valid_identifier I); [|discriminate]. cbn [negb].
  destruct (is_numeric I && has_leading_zero I); [discriminate|].
  rewrite remove_prefix_app.
  destruct T as [|x T].
  - destruct fuel; cbn [split_prerelease]; intros [= <-];
      exists [I]; split; reflexivity.
  - destruct HT as [HT|HT]; [discriminate|]. cbn [front_is] in HT.
    apply Ascii.eqb_eq in HT. subst x. intros Hsplit.
    apply IH in Hsplit; [|rewrite size_app in Hsize; lia].
    destruct Hsplit as (ids' & -> & HTids).
    exists (I :: ids'). rewrite <- List.app_assoc. split; [reflexivity|].
    cbn [joined]. now rewrite <- HTids.
Qed.

Lemma split_build_text (fuel : nat) :
  forall (c : ascii) (r : string) (acc ids : list string),
    size (String c r) <= npos ->
    split_build fuel (String c r) acc = SplitOk ids ->
    exists ids', ids = (acc ++ ids')%list /\ String c r = joined c ids'.
Proof.
  induction fuel as [|fuel IH]; intros c r acc ids Hsize;
    cbn [split_build]; [discriminate|].
  rewrite remove_prefix_1.
  destruct (cut_at "." r) as (I & T & -> & HI & HT).
  rewrite size_String in Hsize.
  rewrite substr_to_first by (assumption || lia).
  destruct (is_valid_identifier I); [|discriminate]. cbn [negb].
  rewrite remove_prefix_app.
  destruct T as [|x T].
  - destruct fuel; cbn [split_build]; intros [= <-];
      exists [I]; split; reflexivity.
  - destruct HT as [HT|HT]; [discriminate|]. cbn [front_is] in HT.
    apply Ascii.eqb_eq in HT. subst x. intros Hsplit.
    apply IH in Hsplit; [|rewrite size_app in Hsize; lia].
    destruct Hsplit as (ids' & -> & HTids).
    exists (I :: ids'). rewrite <- List.app_assoc. split; [reflexivity|].
    cbn [joined]. now rewrite <- HTids.
Qed.

(** ** A field [parse] accepts prints back as it was written *)

Lemma print_lu_strtoul (s : string) :
  is_numeric s = true -> has_leading_zero s = false ->
  (strtoul s =? ULONG_MAX) = false ->
  print_lu (strtoul s) = s.
Proof.
  intros Hnum Hlz. unfold strtoul.
  destruct (digits_value s 0 <=? ULONG_MAX).
  - intros _. now apply print_lu_digits_value.
  - now rewrite N.eqb_refl.
Qed.

(** ** The text of an accepted string *)

Lemma build_section_text (B : string) (build : list string) :
  (if front_is "+" B
   then
     match split_build (String.length B) B [] with
     | SplitOk [] => SplitError "Build metadata section cannot be empty"
     | r => r
     end
   else SplitOk []) = SplitOk build ->
  size B <= npos -> B = "" \/ front_is "+" B = true ->
  B = joined "+" build.
Proof.
  intros HX HsB HB. destruct (front_is "+" B) eqn:HfB.
  - destruct B as [|x B]; [discriminate|].
    cbn [front_is] in HfB. apply Ascii.eqb_eq in HfB. subst x.
    destruct (split_build _ _ _) as [[|id ids]| |] eqn:Hsplit;
      try discriminate.
    injection HX as <-.
    apply split_build_text in Hsplit; [|exact HsB].
    destruct Hsplit as (ids' & Hids & HBids). cbn [List.app] in Hids.
    now subst ids'.
  - destruct HB as [->|HB]; [|discriminate]. now injection HX as <-.
Qed.

Lemma accepted_text (s : string) :
  size s <= npos ->
  is_valid (from_string s) = true -> text (from_string s) = s.
Proof.
  unfold from_string, parse. destruct s as [|c0 s0]; [discriminate|].
  generalize (String c0 s0). clear c0 s0. intros s Hsize. cbv zeta.
  destruct (cut_at_either "+" "-" s) as (C & R & -> & HCp & HCm & HR).
  rewrite core_cut, remove_prefix_app by assumption.
  destruct (N.eqb_spec (count "." C) 2) as [Hcount|]; [|discriminate].
  cbn [negb].
  destruct (three_fields C Hcount) as (M & m & p & -> & HM & Hm & Hp).
  rewrite size_app in Hsize.
  assert (Hcs : size (dotted3 M m p) <= npos) by lia.
  rewrite minor_pos_dotted3, patch_pos_dotted3, major_str_dotted3,
    minor_str_dotted3, patch_str_dotted3 by auto.
  destruct (is_numeric M) eqn:NM; [|discriminate].
  destruct (is_numeric m) eqn:Nm; [|discriminate].
  destruct (is_numeric p) eqn:Np; [|discriminate].
  cbn [negb orb].
  destruct (has_leading_zero M) eqn:ZM; [discriminate|].
  destruct (has_leading_zero m) eqn:Zm; [discriminate|].
  destruct (has_leading_zero p) eqn:Zp; [discriminate|].
  cbn [orb].
  destruct (strtoul M =? ULONG_MAX) eqn:RM; [discriminate|].
  destruct (strtoul m =? ULONG_MAX) eqn:Rm; [discriminate|].
  destruct (strtoul p =? ULONG_MAX) eqn:Rp; [discriminate|].
  cbn [orb].
  assert (Hcore : forall pre build,
    text (mkSemver (strtoul M) (strtoul m) (strtoul p) pre build true)
    = dotted3 M m p ++ joined "-" pre ++ joined "+" build).
  { intros pre build. unfold text, core_text.
    cbn [major_ minor_ patch_ prerelease_ build_metadata_].
    now rewrite !print_lu_strtoul by assumption. }
  destruct (front_is "-" R) eqn:HfR.
  - destruct (cut_at "+" R) as (P & B & -> & HP & HB).
    rewrite size_app in Hsize.
    rewrite substr_to_first, remove_prefix_app
      by (assumption || rewrite size_app; lia).
    destruct P as [|x P].
    { rewrite app_empty_l in HfR.
      destruct HB as [->|HB]; [discriminate|].
      destruct B as [|y B]; [discriminate|]. cbn [front_is] in HfR, HB.
      apply Ascii.eqb_eq in HfR, HB. congruence. }
    assert (Hx : x = "-"%char).
    { rewrite app_String in HfR. cbn [front_is] in HfR.
      now apply Ascii.eqb_eq in HfR. }
    subst x.
    destruct (split_prerelease _ _ _) as [[|id ids]| |] eqn:Hsplit;
      try discriminate.
    apply split_prerelease_text in Hsplit; [|lia].
    destruct Hsplit as (ids' & Hids & HPids). cbn [List.app] in Hids.
    subst ids'.
    match goal with
    | |- context [if front_is "+" B then ?t else ?e] =>
        destruct (if front_is "+" B then t else e) as [build| |] eqn:HX;
          try discriminate
    end.
    apply build_section_text in HX; [|lia|exact HB].
    intros _. now rewrite Hcore, HPids, HX.
  - assert (HR' : R = "" \/ front_is "+" R = true).
    { destruct HR as [HR|[HR|HR]]; auto. congruence. }
    match goal with
    | |- context [if front_is "+" R then ?t else ?e] =>
        destruct (if front_is "+" R then t else e) as [build| |] eqn:HX;
          try discriminate
    end.
    apply build_section_text in HX; [|lia|exact HR'].
    intros _. now rewrite Hcore, HX.
Qed.

(** X17.  [to_string] undoes [from_string].  Whatever string [from_string]
    accepts, [to_string] of the parsed version is that very string, as
    long as its [MAJOR.MINOR.PATCH] part fits the 32 characters the
    buffer of [to_string] leaves for it. *)
Theorem to_string_undoes_from_string (s : string) :
  size s <= npos ->
  is_valid (from_string s) = true ->
  size (core_text (from_string s)) <= 32 ->
  to_string (from_string s) = Some s.
Proof.
  intros Hsize Hv Hcore.
  rewrite to_string_text by assumption.
  now rewrite accepted_text.
Qed.

(** X18.  [from_string] undoes [to_string] on what [from_components]
    builds.  A valid version made of components below ten digits and
    checked identifiers prints to a string that parses back to the same
    version, build metadata included. *)
Theorem from_string_undoes_to_string (major minor patch : N)
    (prerelease build_metadata : list string) :
  let v := from_components major minor patch prerelease build_metadata in
  is_valid v = true ->
  major < 10 ^ 10 -> minor < 10 ^ 10 -> patch < 10 ^ 10 ->
  size (text v) <= npos ->
  exists s,
    to_string v = Some s
    /\ from_string s
       = mkSemver major minor patch prerelease build_metadata true.
Proof.
  intros v Hv HM Hm Hp Hsize.
  assert (Hwf : well_formed v = true).
  { apply from_components_well_formed; try assumption;
      unfold ULONG_MAX; lia. }
  assert (Hfields : v = mkSemver major minor patch prerelease
                          build_metadata true).
  { subst v. unfold from_components in *.
    destruct (negb (forallb _ prerelease)); [discriminate|].
    destruct (negb (forallb _ build_metadata)); [discriminate|].
    reflexivity. }
  exists (text v). rewrite <- Hfields.
  apply round_trip_within_buffer; try assumption.
  apply core_text_fits; rewrite Hfields; assumption.
Qed.

End CanonicalTextProofs.

(* ================================================================== *)
(** * RENAME TABLE *)
(* ================================================================== *)

Module RenameProofs.
Import CStr SystemTableMap Schema Victionary MetadataModifier Ddl TypeUtil.
Import SemverText MapSpec StagingSpec DdlSpec SessionSpec RenameSpec.
Import StdMapProofs MapProofs PrefixProofs StagingProofs SessionProofs.
Import DeleteProofs UninstallProofs AcquireProofs UninstallMoreProofs.
Import DdlProofs RoundTripProofs TableDdlProofs.

(** ** Entries and lookups *)

Lemma In_lookup {E : Type} `{EntryType E} (st : SystemTableMap E) (e : E) :
  committed_ok st ->
  In e (get_all_committed st)
  <-> get_committed st (key_str (key e)) = Some e.
Proof.
  intros [Hok Hkeyed]. rewrite List.Forall_forall in Hkeyed.
  rewrite In_get_all_committed, get_committed_find. split.
  - intros (k & p & Hin & <-).
    pose proof (Hkeyed _ Hin) as Hk. simpl in Hk. rewrite Hk.
    now rewrite (find_In_ok _ _ _ Hok Hin).
  - destruct (StdMap.find _ _) as [p|] eqn:Hfind; [|discriminate].
    intros [= <-]. exists (key_str (key (obj p))), p.
    split; [now apply find_In|reflexivity].
Qed.

(** ** Prefixes of column keys *)

Lemma prefix_nil (k : string) : String.prefix "" k = true.
Proof. now destruct k. Qed.

Lemma prefix_both (p q : string) :
  forall k,
    String.prefix p k = true -> String.prefix q k = true ->
    String.prefix p q = true \/ String.prefix q p = true.
Proof.
  revert q. induction p as [|c p IH]; intros [|d q] k; try (now left);
    try (now right).
  destruct k as [|x k]; [discriminate|].
  rewrite !prefix_cons.
  destruct (Ascii.eqb_spec c x) as [->|]; [|discriminate].
  destruct (Ascii.eqb_spec d x) as [->|]; [|discriminate].
  rewrite Ascii.eqb_refl. apply IH.
Qed.

Section Tables.
Variables (lctn : N) (db_name table_name db_name' table_name' : string).
Hypothesis (Hne : table_name <> "") (Hne' : table_name' <> "").
Hypothesis Hdb : lacks "." (normalize_database_name lctn db_name) = true.
Hypothesis Htable : lacks "." (normalize_table_name lctn table_name) = true.
Hypothesis Hdb' : lacks "." (normalize_database_name lctn db_name') = true.
Hypothesis Htable' :
  lacks "." (normalize_table_name lctn table_name') = true.

Lemma table_prefix_of_prefix :
  String.prefix (table_prefix lctn db_name table_name)
    (table_prefix lctn db_name' table_name') = true ->
  table_prefix lctn db_name table_name
  = table_prefix lctn db_name' table_name'.
Proof.
  rewrite !table_prefix_eq by assumption. intros Hp.
  destruct (prefix_dot_split _ _ _ _ Hdb Hdb' Hp) as [-> Hrest].
  destruct (prefix_dot_split _ _ _ _ Htable Htable' Hrest) as [-> _].
  reflexivity.
Qed.

End Tables.

(** No key lies under the prefixes of two different tables. *)
Lemma tables_apart (lctn : N) (db1 t1 db2 t2 k : string) :
  t1 <> "" -> t2 <> "" ->
  lacks "." (normalize_database_name lctn db1) = true ->
  lacks "." (normalize_table_name lctn t1) = true ->
  lacks "." (normalize_database_name lctn db2) = true ->
  lacks "." (normalize_table_name lctn t2) = true ->
  table_prefix lctn db1 t1 <> table_prefix lctn db2 t2 ->
  String.prefix (table_prefix lctn db1 t1) k = true ->
  String.prefix (table_prefix lctn db2 t2) k = false.
Proof.
  intros H1 H2 Hd1 Ht1 Hd2 Ht2 Hdiff Hp1.
  destruct (String.prefix (table_prefix lctn db2 t2) k) eqn:Hp2;
    [|reflexivity].
  exfalso. apply Hdiff.
  destruct (prefix_both _ _ _ Hp1 Hp2) as [Hp|Hp].
  - now apply table_prefix_of_prefix.
  - symmetry. now apply table_prefix_of_prefix.
Qed.

Lemma key_under_prefix (lctn : N) (db_name table_name column_name : string) :
  table_name <> "" ->
  String.prefix (table_prefix lctn db_name table_name)
    (ck_normalized_key (ColumnKey_make lctn db_name table_name column_name))
  = true.
Proof.
  intros Hne. rewrite table_prefix_eq, column_key_eq by exact Hne.
  rewrite prefix_app_same, prefix_cons, Ascii.eqb_refl.
  rewrite prefix_app_same, prefix_cons, Ascii.eqb_refl.
  apply prefix_nil.
Qed.

Lemma prefix_not_empty (lctn : N) (db_name table_name k : string) :
  table_name <> "" ->
  String.prefix (table_prefix lctn db_name table_name) k = true -> k <> "".
Proof.
  intros Hne Hp ->. rewrite table_prefix_eq in Hp by exact Hne.
  destruct (normalize_database_name lctn db_name); discriminate.
Qed.

Lemma append_same_head (a x y : string) : a ++ x = a ++ y -> x = y.
Proof.
  induction a as [|c a IH]; rewrite ?app_String, ?app_empty_l; [auto|].
  intros [= H]. auto.
Qed.

(** ** What committing the staged renames does to one key *)

Section Rename.
Variables (lctn : N) (old_db old_table new_db new_table : string).
Hypothesis (Hold : old_table <> "") (Hnew : new_table <> "").
Hypothesis Hodb : lacks "." (normalize_database_name lctn old_db) = true.
Hypothesis Hotable :
  lacks "." (normalize_table_name lctn old_table) = true.
Hypothesis Hndb : lacks "." (normalize_database_name lctn new_db) = true.
Hypothesis Hntable :
  lacks "." (normalize_table_name lctn new_table) = true.
Hypothesis Hapart :
  table_prefix lctn old_db old_table <> table_prefix lctn new_db new_table.

Let Pold := table_prefix lctn old_db old_table.
Let Pnew := table_prefix lctn new_db new_table.
Let ren := renamed lctn new_db new_table.
Let op := rename_op lctn new_db new_table.
Let oldkey (o : ColumnEntry) := ck_normalized_key (ce_key o).
Let newkey (o : ColumnEntry) := ck_normalized_key (ce_key (ren o)).

Lemma newkey_under_new (o : ColumnEntry) : String.prefix Pnew (newkey o) = true.
Proof. apply key_under_prefix. exact Hnew. Qed.

Lemma old_not_under_new (k : string) :
  String.prefix Pold k = true -> String.prefix Pnew k = false.
Proof. now apply tables_apart. Qed.

Lemma new_not_under_old (k : string) :
  String.prefix Pnew k = true -> String.prefix Pold k = false.
Proof. apply tables_apart; auto. Qed.

Lemma step_rename (k : string) (cur : option ColumnEntry) (o : ColumnEntry) :
  String.prefix Pold (oldkey o) = true ->
  step_key k cur (op o)
  = if String.eqb (newkey o) k then Some (ren o)
    else if String.eqb (oldkey o) k then None else cur.
Proof.
  intros Hunder. unfold op, rename_op. cbn [step_key].
  change (key_str (key (renamed lctn new_db new_table o))) with (newkey o).
  change (@key_str ColumnEntry ColumnEntry_entry (ce_key o)) with (oldkey o).
  destruct (String.eqb (newkey o) k); [reflexivity|].
  destruct (String.eqb_spec (oldkey o) "") as [He|_].
  { exfalso. revert He. now apply (prefix_not_empty lctn old_db old_table). }
  destruct (String.eqb_spec (oldkey o) (newkey o)) as [He|_].
  { exfalso. pose proof (newkey_under_new o) as Hn. rewrite <- He in Hn.
    now rewrite (old_not_under_new _ Hunder) in Hn. }
  reflexivity.
Qed.

Lemma fold_rename_source (olds : list ColumnEntry) :
  forall (k : string) (cur : option ColumnEntry) (e : ColumnEntry),
    (forall o, In o olds -> String.prefix Pold (oldkey o) = true) ->
    fold_left (step_key k) (List.map op olds) cur = Some e ->
    cur = Some e \/ exists o, In o olds /\ newkey o = k /\ e = ren o.
Proof.
  induction olds as [|o1 rest IH]; intros k cur e Hunder; cbn [List.map fold_left].
  - now left.
  - intros Hfold. apply IH in Hfold.
    2:{ intros o Ho. apply Hunder. now right. }
    destruct Hfold as [Hstep|(o & Ho & Hk & He)].
    + rewrite step_rename in Hstep by (apply Hunder; now left).
      destruct (String.eqb_spec (newkey o1) k) as [Hk|_].
      * right. exists o1. injection Hstep as <-. repeat split; auto.
        now left.
      * destruct (String.eqb (oldkey o1) k); [discriminate|now left].
    + right. exists o. repeat split; auto. now right.
Qed.

Lemma fold_rename_old_key (olds : list ColumnEntry) :
  forall (k : string) (cur : option ColumnEntry),
    (forall o, In o olds -> String.prefix Pold (oldkey o) = true) ->
    String.prefix Pnew k = false ->
    fold_left (step_key k) (List.map op olds) cur
    = if existsb (fun o => String.eqb (oldkey o) k) olds then None else cur.
Proof.
  induction olds as [|o1 rest IH]; intros k cur Hunder Hk;
    cbn [List.map fold_left existsb]; [reflexivity|].
  rewrite IH by (auto; intros o Ho; apply Hunder; now right).
  rewrite step_rename by (apply Hunder; now left).
  destruct (String.eqb_spec (newkey o1) k) as [He|_].
  { exfalso. pose proof (newkey_under_new o1) as Hn. rewrite He in Hn.
    congruence. }
  destruct (String.eqb (oldkey o1) k); cbn [orb];
    now destruct (existsb _ rest).
Qed.

Lemma fold_rename_new_key (olds : list ColumnEntry) (o : ColumnEntry) :
  forall cur : option ColumnEntry,
    (forall o', In o' olds -> String.prefix Pold (oldkey o') = true) ->
    (forall o', In o' olds -> newkey o' = newkey o -> ren o' = ren o) ->
    In o olds \/ cur = Some (ren o) ->
    fold_left (step_key (newkey o)) (List.map op olds) cur = Some (ren o).
Proof.
  induction olds as [|o1 rest IH]; intros cur Hunder Huniq Hstart;
    cbn [List.map fold_left].
  - now destruct Hstart.
  - apply IH.
    + intros o' Ho'. apply Hunder. now right.
    + intros o' Ho'. apply Huniq. now right.
    + rewrite step_rename by (apply Hunder; now left).
      destruct (String.eqb_spec (newkey o1) (newkey o)) as [He|Hdiff].
      * right. f_equal. apply Huniq; [now left|exact He].
      * destruct (String.eqb_spec (oldkey o1) (newkey o)) as [He|_].
        { exfalso. pose proof (newkey_under_new o) as Hn. rewrite <- He in Hn.
          rewrite old_not_under_new in Hn; [discriminate|].
          apply Hunder. now left. }
        destruct Hstart as [[->|Hin]|Hcur]; [congruence|now left|now right].
Qed.

End Rename.

(** Two columns of one table that are renamed to the same key are the
    same column. *)
Lemma renamed_key_unique (lctn : N) (st : SystemTableMap ColumnEntry)
    (old_db old_table new_db new_table : string) (o o' : ColumnEntry) :
  committed_ok st ->
  column_of lctn old_db old_table o -> column_of lctn old_db old_table o' ->
  In o (get_all_committed st) -> In o' (get_all_committed st) ->
  ck_normalized_key (ce_key (renamed lctn new_db new_table o'))
  = ck_normalized_key (ce_key (renamed lctn new_db new_table o)) ->
  o' = o.
Proof.
  intros Hok Hcol Hcol' Hin Hin' Hnew.
  unfold renamed in Hnew. cbn [ce_key] in Hnew.
  rewrite !column_key_eq in Hnew.
  apply append_same_head in Hnew. injection Hnew as Hnew.
  apply append_same_head in Hnew. injection Hnew as Hnew.
  assert (Hkeys : ck_normalized_key (ce_key o')
                  = ck_normalized_key (ce_key o)).
  { unfold column_of in Hcol, Hcol'. rewrite Hcol, Hcol'.
    rewrite !column_key_eq. now rewrite Hnew. }
  apply (In_lookup st) in Hin; [|exact Hok].
  apply (In_lookup st) in Hin'; [|exact Hok].
  cbn [key_str key ColumnEntry_entry] in Hin, Hin'.
  rewrite Hkeys, Hin in Hin'. now injection Hin'.
Qed.

(** What committing the renames of the columns of one table makes of
    the committed columns. *)
Lemma renames_committed (lctn : N) (v : VictionaryClient) (thd : THD_ptr)
    (old_db old_table new_db new_table : string)
    (cols : SystemTableMap ColumnEntry) :
  thd <> nullptr -> m_initialized v = true ->
  committed_ok (m_columns v) ->
  finds_own_columns lctn v old_db old_table ->
  old_table <> "" -> new_table <> "" ->
  lacks "." (normalize_database_name lctn old_db) = true ->
  lacks "." (normalize_table_name lctn old_table) = true ->
  lacks "." (normalize_database_name lctn new_db) = true ->
  lacks "." (normalize_table_name lctn new_table) = true ->
  table_prefix lctn old_db old_table <> table_prefix lctn new_db new_table ->
  GetCustomColumnsForTable lctn v new_db new_table = [] ->
  pending cols thd
  = List.map (rename_op lctn new_db new_table)
      (GetCustomColumnsForTable lctn v old_db old_table) ->
  m_committed cols = m_committed (m_columns v) ->
  let v' := commit_all_tables (with_columns v cols) thd in
  GetCustomColumnsForTable lctn v' old_db old_table = []
  /\ (forall e,
        In e (GetCustomColumnsForTable lctn v' new_db new_table)
        <-> exists o,
              In o (GetCustomColumnsForTable lctn v old_db old_table)
              /\ e = renamed lctn new_db new_table o)
  /\ (forall e,
        String.prefix (table_prefix lctn old_db old_table)
          (key_str (key e)) = false ->
        String.prefix (table_prefix lctn new_db new_table)
          (key_str (key e)) = false ->
        In e (get_all_committed (m_columns v'))
        <-> In e (get_all_committed (m_columns v))).
Proof.
  intros Hthd Hinit Hok Hplain Hold Hnew Hodb Hotable Hndb Hntable
    Hapart Hfresh Hp Hc.
  assert (Hnn : (thd =? nullptr) = false) by now apply N.eqb_neq.
  unfold finds_own_columns in Hplain.
  rewrite List.Forall_forall in Hplain.
  set (Pold := table_prefix lctn old_db old_table) in *.
  set (Pnew := table_prefix lctn new_db new_table) in *.
  set (under := fun (P : string) (e : ColumnEntry) =>
                  String.prefix P (ck_normalized_key (ce_key e))).
  set (olds := List.filter (under Pold) (get_all_committed (m_columns v))).
  assert (Hcustom : GetCustomColumnsForTable lctn v old_db old_table = olds).
  { now rewrite custom_columns_for_table. }
  assert (Hnone : forall e, In e (get_all_committed (m_columns v)) ->
                            under Pnew e = false).
  { rewrite custom_columns_for_table in Hfresh by assumption.
    intros e He. destruct (under Pnew e) eqn:Hu; [|reflexivity].
    exfalso.
    change (entries_with_prefix (m_columns v) Pnew = []) in Hfresh.
    unfold entries_with_prefix in Hfresh.
    assert (Hin : In e (List.filter
                          (fun e => String.prefix Pnew (key_str (key e)))
                          (get_all_committed (m_columns v))))
      by (apply List.filter_In; now split).
    rewrite Hfresh in Hin. destruct Hin. }
  assert (Hunder : forall o, In o olds ->
                             String.prefix Pold (ck_normalized_key (ce_key o))
                             = true).
  { intros o Ho. now apply List.filter_In in Ho as [_ Ho]. }
  assert (Huniq : forall o o', In o olds -> In o' olds ->
    ck_normalized_key (ce_key (renamed lctn new_db new_table o'))
    = ck_normalized_key (ce_key (renamed lctn new_db new_table o)) ->
    renamed lctn new_db new_table o' = renamed lctn new_db new_table o).
  { intros o o' Ho Ho' Hk. f_equal. rewrite Hcustom in Hplain.
    pose proof (Hplain _ Ho) as Hcol. pose proof (Hplain _ Ho') as Hcol'.
    apply List.filter_In in Ho as [Ho Hu], Ho' as [Ho' Hu'].
    eapply (renamed_key_unique lctn (m_columns v) old_db old_table);
      eauto. }
  rewrite Hcustom in *.
  assert (Hok' : committed_ok (SystemTableMap.commit cols thd)).
  { apply commit_ok. now apply (committed_ok_same (m_columns v)). }
  assert (Hlook : forall k,
    get_committed (SystemTableMap.commit cols thd) k
    = fold_left (step_key k)
        (List.map (rename_op lctn new_db new_table) olds)
        (get_committed (m_columns v) k)).
  { intros k. rewrite commit_lookup, Hp. f_equal.
    unfold get_committed. now rewrite Hc. }
  unfold commit_all_tables. cbn [with_columns m_initialized].
  rewrite Hinit, Hnn. cbn [negb orb m_columns]. cbv zeta.
  rewrite !custom_columns_for_table by (reflexivity || exact Hok').
  cbn [m_columns]. unfold entries_with_prefix.
  fold Pold. fold Pnew.
  split; [|split].
  - apply filter_none. intros e He.
    change (under Pold e = false).
    destruct (under Pold e) eqn:Hu; [|reflexivity]. exfalso.
    apply (In_lookup _ e Hok') in He. rewrite Hlook in He.
    cbn [key_str key ColumnEntry_entry] in He.
    rewrite (fold_rename_old_key lctn old_db old_table new_db new_table)
      in He; auto.
    2:{ now apply (tables_apart lctn old_db old_table new_db new_table). }
    destruct (existsb _ olds) eqn:Hex; [discriminate|].
    assert (Hin : In e olds).
    { apply List.filter_In. split; [|exact Hu].
      now apply (In_lookup (m_columns v) e Hok). }
    assert (Hex' : existsb
                     (fun o => String.eqb (ck_normalized_key (ce_key o))
                                 (ck_normalized_key (ce_key e))) olds
                   = true).
    { apply List.existsb_exists. exists e. split; [exact Hin|].
      apply String.eqb_refl. }
    congruence.
  - intros e. rewrite List.filter_In. split.
    + intros [He Hu].
      apply (In_lookup _ e Hok') in He. rewrite Hlook in He.
      apply (fold_rename_source lctn old_db old_table new_db new_table)
        in He; auto.
      destruct He as [He|(o & Ho & _ & ->)]; [|now exists o].
      exfalso.
      apply (In_lookup (m_columns v) e Hok) in He.
      apply Hnone in He. change (under Pnew e = true) in Hu.
      congruence.
    + intros (o & Ho & ->). split.
      * apply (In_lookup _ _ Hok'). rewrite Hlook.
        apply (fold_rename_new_key lctn old_db old_table new_db
                 new_table); auto.
      * apply key_under_prefix. exact Hnew.
  - intros e Huo Hun.
    change (under Pold e = false) in Huo.
    change (under Pnew e = false) in Hun.
    rewrite (In_lookup _ e Hok'), (In_lookup _ e Hok), Hlook.
    cbn [key_str key ColumnEntry_entry].
    rewrite (fold_rename_old_key lctn old_db old_table new_db new_table);
      auto.
    assert (Hex : existsb
                    (fun o => String.eqb (ck_normalized_key (ce_key o))
                                (ck_normalized_key (ce_key e))) olds
                  = false).
    { apply not_true_is_false. intros Hex.
      apply List.existsb_exists in Hex as (o & Ho & Hk).
      apply String.eqb_eq in Hk. apply Hunder in Ho.
      rewrite Hk in Ho. unfold under in Huo. congruence. }
    now rewrite Hex.
Qed.

(** X19.  RENAME TABLE moves the custom column entries to the new table.
    Take a session with nothing staged on the columns, an initialized
    Victionary with a well-formed columns map, two different tables
    with dot-free names, the old one such that
    [GetCustomColumnsForTable] finds only columns of its own, the new
    one without custom columns.  When [process_rename] for that pair
    succeeds and the session commits, the old table has no custom
    column left, the new table has exactly the columns of the old one,
    each under the new names with its extension, version and type, and
    the entries whose key starts with neither table's prefix are as
    before. *)
Theorem rename_table_moves_its_custom_columns (lctn : N) (host : Host)
    (v : VictionaryClient) (thd : THD_ptr)
    (old_db old_table new_db new_table : string) (r : apply_result) :
  thd <> nullptr -> m_initialized v = true ->
  committed_ok (m_columns v) -> pending (m_columns v) thd = [] ->
  finds_own_columns lctn v old_db old_table ->
  old_table <> "" -> new_table <> "" ->
  lacks "." (normalize_database_name lctn old_db) = true ->
  lacks "." (normalize_table_name lctn old_table) = true ->
  lacks "." (normalize_database_name lctn new_db) = true ->
  lacks "." (normalize_table_name lctn new_table) = true ->
  table_prefix lctn old_db old_table <> table_prefix lctn new_db new_table ->
  GetCustomColumnsForTable lctn v new_db new_table = [] ->
  process_rename lctn host v thd [((old_db, old_table), (new_db, new_table))]
  = Returned r ->
  la_failed r = false ->
  let v' := snd (Ddl.commit (la_vclient r) thd) in
  GetCustomColumnsForTable lctn v' old_db old_table = []
  /\ (forall e,
        In e (GetCustomColumnsForTable lctn v' new_db new_table)
        <-> exists o,
              In o (GetCustomColumnsForTable lctn v old_db old_table)
              /\ e = renamed lctn new_db new_table o)
  /\ (forall e,
        String.prefix (table_prefix lctn old_db old_table)
          (key_str (key e)) = false ->
        String.prefix (table_prefix lctn new_db new_table)
          (key_str (key e)) = false ->
        In e (get_all_committed (m_columns v'))
        <-> In e (get_all_committed (m_columns v))).
Proof.
  intros Hthd Hinit Hok Hpending Hplain Hold Hnew Hodb Hotable Hndb Hntable
    Hapart Hfresh Hrename Hsucc.
  assert (Hfinal : forall cols : SystemTableMap ColumnEntry,
    pending cols thd
    = List.map (rename_op lctn new_db new_table)
        (GetCustomColumnsForTable lctn v old_db old_table) ->
    m_committed cols = m_committed (m_columns v) ->
    let v' := commit_all_tables (with_columns v cols) thd in
    GetCustomColumnsForTable lctn v' old_db old_table = []
    /\ (forall e,
          In e (GetCustomColumnsForTable lctn v' new_db new_table)
          <-> exists o,
                In o (GetCustomColumnsForTable lctn v old_db old_table)
                /\ e = renamed lctn new_db new_table o)
    /\ (forall e,
          String.prefix (table_prefix lctn old_db old_table)
            (key_str (key e)) = false ->
          String.prefix (table_prefix lctn new_db new_table)
            (key_str (key e)) = false ->
          In e (get_all_committed (m_columns v'))
          <-> In e (get_all_committed (m_columns v)))).
  { intros cols Hp Hc. now apply renames_committed. }
  unfold process_rename in Hrename. cbn [fold_left snd] in Hrename.
  unfold rename_columns_table in Hrename.
  rewrite Hinit in Hrename. cbn [negb snd] in Hrename.
  cbn [Metadata_modifier_new to_add_ to_remove_ to_rename_ to_call_
       List.app] in Hrename.
  set (olds := GetCustomColumnsForTable lctn v old_db old_table) in *.
  unfold Ddl.commit.
  destruct (lock_and_apply_cases _ _ _ _ _ Hrename)
    as [[Hnone' ->]|(_ & _ & [[_ ->]|(_ & _ & [(msg & _ & ->)|
         (_ & cols & Hp & Hc & _ & [->| ->])])])];
    try discriminate; cbn [la_vclient].
  - (* nothing to rename *)
    assert (Hempty : olds = []).
    { unfold has_entries in Hnone'. cbn in Hnone'. now destruct olds. }
    rewrite Hinit. cbn [negb snd].
    assert (Hsame : with_columns v (m_columns v) = v) by now destruct v.
    replace (commit_all_tables v thd)
      with (commit_all_tables (with_columns v (m_columns v)) thd)
      by now rewrite Hsame.
    apply Hfinal; [|reflexivity].
    now rewrite Hpending, Hempty.
  - cbn [with_columns m_initialized]. rewrite Hinit. cbn [negb snd].
    rewrite Hpending in Hp. unfold staged_ops in Hp.
    cbn [to_add_ to_remove_ to_rename_ List.map List.app] in Hp.
    rewrite List.app_nil_r in Hp.
    apply Hfinal; [|exact Hc]. now rewrite Hp, List.map_map.
Qed.

End RenameProofs.

(* ================================================================== *)
(** * The normalized key of type parameters *)
(* ================================================================== *)

Module ParametersProofs.
Import CStr Schema SemverText ParametersSpec.
Import RoundTripProofs RenameProofs.

(** The text of one parameter and of the parameters after the first. *)
Lemma build_from (params : StdMap.t string) :
  forall acc : string,
    acc <> "" ->
    fold_left
      (fun (normalized_key : string) (kv : string * string) =>
         (match normalized_key with
          | EmptyString => normalized_key
          | _ => normalized_key ++ ";"
          end) ++ (fst kv ++ "=" ++ snd kv))
      params acc
    = acc ++ fold_right
               (fun kv rest => String ";" (fst kv ++ String "=" (snd kv ++ rest)))
               "" params.
Proof.
  induction params as [|[k v] rest IH]; intros acc Hacc; cbn [fold_left fold_right].
  - now rewrite app_empty_r.
  - cbn [fst snd]. destruct acc as [|c acc]; [congruence|].
    rewrite IH.
    + rewrite !app_assoc_s. f_equal.
    + rewrite !app_String. discriminate.
Qed.

Lemma build_normalized_key_cons (k v : string) (rest : StdMap.t string) :
  build_normalized_key ((k, v) :: rest)
  = k ++ String "=" (v ++ fold_right
                             (fun kv rest =>
                                String ";" (fst kv ++ String "=" (snd kv ++ rest)))
                             "" rest).
Proof.
  unfold build_normalized_key. cbn [fold_left fst snd].
  rewrite app_empty_l, build_from.
  - now rewrite !app_assoc_s, app_String, app_empty_l.
  - destruct k; rewrite ?app_String, ?app_empty_l; discriminate.
Qed.

(** Two texts cut at the first [c] agree piece by piece. *)
Lemma cut_unique (c : ascii) (a a' x y : string) :
  lacks c a = true -> lacks c a' = true ->
  a ++ String c x = a' ++ String c y -> a = a' /\ x = y.
Proof.
  revert a'. induction a as [|d a IH]; intros [|d' a'] Ha Ha';
    rewrite ?app_String, ?app_empty_l.
  - now intros [= ->].
  - intros [= <- _]. unfold lacks in Ha'. cbn [all_of] in Ha'.
    now rewrite Ascii.eqb_refl in Ha'.
  - intros [= -> _]. unfold lacks in Ha. cbn [all_of] in Ha.
    now rewrite Ascii.eqb_refl in Ha.
  - unfold lacks in Ha, Ha'. cbn [all_of] in Ha, Ha'.
    apply andb_true_iff in Ha as [_ Ha].
    apply andb_true_iff in Ha' as [_ Ha'].
    intros [= -> Hrest]. destruct (IH a' Ha Ha' Hrest) as [-> ->]. now split.
Qed.

Lemma lacks_with_cons (c : ascii) (a x : string) :
  lacks c (a ++ String c x) = false.
Proof.
  rewrite lacks_app. unfold lacks at 2. cbn [all_of].
  rewrite Ascii.eqb_refl. apply andb_false_r.
Qed.

Lemma tail_unique (params : StdMap.t string) :
  forall (params' : StdMap.t string) (v v' : string),
    lacks ";" v = true -> lacks ";" v' = true ->
    separator_free params = true -> separator_free params' = true ->
    v ++ fold_right
           (fun kv rest => String ";" (fst kv ++ String "=" (snd kv ++ rest)))
           "" params
    = v' ++ fold_right
              (fun kv rest => String ";" (fst kv ++ String "=" (snd kv ++ rest)))
              "" params' ->
    v = v' /\ params = params'.
Proof.
  induction params as [|[k1 v1] rest IH]; intros [|[k2 v2] rest'] v v'
    Hv Hv' Hp Hp'; cbn [fold_right fst snd].
  - rewrite !app_empty_r. now intros ->.
  - rewrite app_empty_r. intros ->. now rewrite lacks_with_cons in Hv.
  - rewrite app_empty_r. intros <-. now rewrite lacks_with_cons in Hv'.
  - intros Heq. apply cut_unique in Heq as [-> Heq]; try assumption.
    cbn [separator_free forallb fst snd] in Hp, Hp'.
    apply andb_true_iff in Hp as [Hkv Hrest].
    apply andb_true_iff in Hp' as [Hkv' Hrest'].
    apply andb_true_iff in Hkv as [Hkv H4]. apply andb_true_iff in Hkv as [Hkv H3].
    apply andb_true_iff in Hkv as [H1 H2].
    apply andb_true_iff in Hkv' as [Hkv' H4'].
    apply andb_true_iff in Hkv' as [Hkv' H3'].
    apply andb_true_iff in Hkv' as [H1' H2'].
    apply cut_unique in Heq as [-> Heq]; try assumption.
    destruct (IH rest' v1 v2 H3 H3' Hrest Hrest' Heq) as [-> ->].
    now split.
Qed.

(** X20.  The normalized key tells type parameters apart.  For parameter
    maps whose names and values contain neither [;] nor [=], equal
    normalized keys mean equal maps; so [operator==] of
    [TypeParameters] decides equality of the parameters, and two
    [TypeContextKey]s over one descriptor key have the same key string
    only for the same parameters. *)
Theorem normalized_key_identifies_parameters (p q : StdMap.t string) :
  separator_free p = true -> separator_free q = true ->
  (build_normalized_key p = build_normalized_key q -> p = q)
  /\ (TypeParameters_eqb (TypeParameters_make p) (TypeParameters_make q)
      = true <-> p = q)
  /\ (forall desc_key,
        tck_normalized_key
          (TypeContextKey_make desc_key (TypeParameters_make p))
        = tck_normalized_key
            (TypeContextKey_make desc_key (TypeParameters_make q))
        -> p = q).
Proof.
  intros Hp Hq.
  assert (Hinj : build_normalized_key p = build_normalized_key q -> p = q).
  { destruct p as [|[k v] p], q as [|[k' v'] q].
    - reflexivity.
    - rewrite build_normalized_key_cons. intros H. exfalso.
      destruct k'; rewrite ?app_String, ?app_empty_l in H; discriminate.
    - rewrite build_normalized_key_cons. intros H. exfalso.
      destruct k; rewrite ?app_String, ?app_empty_l in H; discriminate.
    - rewrite !build_normalized_key_cons.
      cbn [separator_free forallb fst snd] in Hp, Hq.
      apply andb_true_iff in Hp as [Hkv Hrest].
      apply andb_true_iff in Hq as [Hkv' Hrest'].
      apply andb_true_iff in Hkv as [Hkv H4].
      apply andb_true_iff in Hkv as [Hkv H3].
      apply andb_true_iff in Hkv as [H1 H2].
      apply andb_true_iff in Hkv' as [Hkv' H4'].
      apply andb_true_iff in Hkv' as [Hkv' H3'].
      apply andb_true_iff in Hkv' as [H1' H2'].
      intros Heq. apply cut_unique in Heq as [-> Heq]; try assumption.
      destruct (tail_unique p q v v' H3 H3' Hrest Hrest' Heq) as [-> ->].
      reflexivity. }
  split; [exact Hinj|]. split.
  - unfold TypeParameters_eqb, TypeParameters_make.
    cbn [tp_normalized_key]. rewrite String.eqb_eq.
    split; [exact Hinj|now intros ->].
  - intros desc_key. unfold TypeContextKey_make, TypeParameters_make.
    cbn [tck_normalized_key tp_normalized_key].
    destruct (build_normalized_key p) as [|c s] eqn:Ep,
             (build_normalized_key q) as [|c' s'] eqn:Eq.
    + intros _. now apply Hinj.
    + intros H. exfalso.
      rewrite <- (app_empty_r (tdk_normalized_key desc_key)) in H at 1.
      apply append_same_head in H. discriminate.
    + intros H. exfalso.
      rewrite <- (app_empty_r (tdk_normalized_key desc_key)) in H at 2.
      apply append_same_head in H. discriminate.
    + intros H. apply append_same_head in H.
      apply (append_same_head ".") in H. now apply Hinj.
Qed.

End ParametersProofs.

(* ================================================================== *)
(** * Rolling back what a statement staged *)
(* ================================================================== *)

Module RollbackProofs.
Import CStr SystemTableMap Schema Victionary MetadataModifier Uninstall.
Import TypeUtil.
Import MapSpec StagingSpec DdlSpec UninstallSpec.
Import MapProofs StagingProofs PrefixProofs.

Section Links.
Context {E : Type} `{EntryType E}.
Implicit Types (st : SystemTableMap E).

Lemma rollback_link st thd op :
  thd <> nullptr ->
  rollback (link_in_list st thd op) thd = rollback st thd.
Proof.
  intros Hthd. apply N.eqb_neq in Hthd.
  unfold rollback, link_in_list. rewrite Hthd. cbn [m_committed m_uncommitted].
  now rewrite delete_insert_eq.
Qed.

Lemma rollback_link_all {A} (mk : A -> PendingOperation E) thd items :
  thd <> nullptr ->
  forall st,
    rollback (fold_left (fun c x => link_in_list c thd (mk x)) items st) thd
    = rollback st thd.
Proof.
  intros Hthd. induction items as [|x rest IH]; intros st; cbn [fold_left];
    [reflexivity|].
  now rewrite IH, rollback_link.
Qed.

End Links.

(** ** DDL *)

Lemma mark_victionary_modifications_rolled_back (mm : Metadata_modifier)
    (vclient : VictionaryClient) (thd : THD_ptr) :
  m_initialized vclient = true -> thd <> nullptr ->
  exists marked cols,
    mark_victionary_modifications mm vclient thd
    = Returned (false, marked, mkModifier [] [] [] (to_call_ mm),
                with_columns vclient cols)
    /\ rollback cols thd = rollback (m_columns vclient) thd.
Proof.
  intros Hinit Hthd. unfold mark_victionary_modifications.
  rewrite Hinit. simpl negb. cbv iota.
  destruct (N.eqb_spec thd nullptr) as [|_]; [contradiction|].
  unfold MarkForDeletion, MarkForUpdate, MarkForInsertion.
  rewrite (mark_each_links
             (fun entry : ColumnEntry =>
                @PendingDelete ColumnEntry ColumnEntry_entry (ce_key entry))).
  cbv beta iota zeta. simpl to_rename_. simpl to_add_.
  rewrite (mark_each_links
             (fun p : ColumnEntry * ColumnKey =>
                @PendingUpdate ColumnEntry ColumnEntry_entry (fst p) (snd p))).
  cbv beta iota zeta. simpl to_add_.
  rewrite (mark_each_links (@PendingInsert ColumnEntry ColumnEntry_entry)).
  cbv beta iota zeta. simpl.
  eexists _, _. split; [reflexivity|].
  now rewrite !rollback_link_all.
Qed.

Lemma rollback_all_with_columns (v : VictionaryClient)
    (cols : SystemTableMap ColumnEntry) (thd : THD_ptr) :
  m_initialized v = true -> thd <> nullptr ->
  rollback cols thd = rollback (m_columns v) thd ->
  rollback_all_tables (with_columns v cols) thd = rollback_all_tables v thd.
Proof.
  intros Hinit Hthd Hcols. apply N.eqb_neq in Hthd.
  unfold rollback_all_tables, with_columns.
  cbn [m_initialized m_properties m_columns m_extensions m_type_descriptors
       m_extension_descriptors m_type_contexts].
  rewrite Hinit, Hthd. cbn [negb orb]. now rewrite Hcols.
Qed.

(** X21.  Rolling back forgets what a DDL statement staged.  Whatever
    [lock_and_apply] returned, [Metadata_modifier::rollback] afterwards
    leaves the Victionary in the very state a rollback before the
    statement would have left it in. *)
Theorem rollback_forgets_staged_ddl (host : MetadataModifier.Host) (mm : Metadata_modifier)
    (v : VictionaryClient) (thd : THD_ptr) (r : apply_result) :
  lock_and_apply host mm v thd = Returned r ->
  Ddl.rollback (la_vclient r) thd = Ddl.rollback v thd.
Proof.
  unfold lock_and_apply.
  destruct (has_entries mm); [|now intros [= <-]].
  cbn [negb].
  destruct (N.eqb_spec thd nullptr) as [->|Hthd]; [discriminate|].
  destruct (lock_extensions_shared host mm thd) as [[|]|];
    [now intros [= <-]| |discriminate].
  destruct (m_initialized v) eqn:Hinit.
  2:{ unfold validate_entries. rewrite Hinit. discriminate. }
  destruct (validate_entries host mm v) as [[msg|]|];
    [now intros [= <-]| |discriminate].
  destruct (mark_victionary_modifications_rolled_back mm v thd Hinit Hthd)
    as (marked & cols & -> & Hcols).
  assert (Hsame : Ddl.rollback (with_columns v cols) thd = Ddl.rollback v thd).
  { unfold Ddl.rollback. cbn [with_columns m_initialized].
    rewrite Hinit. cbn [negb]. now apply rollback_all_with_columns. }
  destruct (marked && MetadataModifier.open_tables_fails host);
    now intros [= <-].
Qed.

(** ** UNINSTALL EXTENSION *)

Lemma rollback_mark_type_descs (t : THD_ptr)
    (extension_name extension_version : string) (l : list TypeDescriptor) :
  t <> nullptr ->
  forall descs : SystemTableMap TypeDescriptor,
    rollback (mark_type_descs descs t extension_name extension_version l) t
    = rollback descs t.
Proof.
  intros Ht. unfold mark_type_descs.
  induction l as [|d rest IH]; intros descs; cbn [fold_left];
    [reflexivity|].
  rewrite IH. destruct (type_desc_of _ _ d); [|reflexivity].
  unfold MarkForDeletion. cbn [snd].
  now apply (rollback_link (E := TypeDescriptor)).
Qed.

Lemma rollback_mark_type_contexts (t : THD_ptr)
    (extension_name extension_version : string) (l : list TypeContext) :
  t <> nullptr ->
  forall contexts marked : SystemTableMap TypeContext,
    mark_type_contexts contexts t extension_name extension_version l
    = Returned marked ->
    rollback marked t = rollback contexts t.
Proof.
  intros Ht.
  induction l as [|c rest IH]; intros contexts marked;
    cbn [mark_type_contexts].
  - now intros [= <-].
  - destruct (type_context_of _ _ c) as [[|]|]; [| |discriminate].
    + intros Hm. rewrite (IH _ _ Hm). unfold MarkForDeletion. cbn [snd].
      now apply (rollback_link (E := TypeContext)).
    + apply IH.
Qed.

(** X22.  Rolling back forgets what UNINSTALL staged.  Whatever
    [remove_extension_from_victionary] returned, [rollback_all_tables]
    afterwards leaves the Victionary in the very state a rollback before
    it would have left it in. *)
Theorem rollback_forgets_staged_uninstall (t : THD_ptr)
    (v : VictionaryClient) (extension_name : string) (rm : removal) :
  t <> nullptr -> m_initialized v = true ->
  remove_extension_from_victionary t v extension_name = Returned rm ->
  rollback_all_tables (rm_vclient rm) t = rollback_all_tables v t.
Proof.
  intros Ht Hinit. unfold remove_extension_from_victionary.
  destruct (get_committed (m_extensions v) _) as [ext_entry|];
    [|now intros [= <-]].
  destruct (check_for_columns_of_extension _ _) as [[|] msg];
    [now intros [= <-]|].
  destruct (type_context_in_use _ _ _ _) as [[type_name|]|];
    [now intros [= <-]| |discriminate].
  destruct (type_desc_in_use _ _ _ _); [now intros [= <-]|].
  destruct (mark_type_contexts _ _ _ _ _) as [contexts|] eqn:Hctx;
    [|discriminate].
  apply (rollback_mark_type_contexts t _ _ _ Ht) in Hctx.
  assert (Hnn : (t =? nullptr) = false) by now apply N.eqb_neq.
  assert (Hfinal : forall ext_descs : SystemTableMap ExtensionDescriptor,
    rollback ext_descs t = rollback (m_extension_descriptors v) t ->
    rollback_all_tables
      (mkVictionary (m_initialized v) (m_properties v) (m_columns v)
         (snd (MarkForDeletion (m_extensions v) t (key ext_entry)))
         (mark_type_descs (m_type_descriptors v) t extension_name
            (ee_extension_version ext_entry)
            (get_all_committed (m_type_descriptors v)))
         ext_descs contexts) t
    = rollback_all_tables v t).
  { intros ext_descs Hed. unfold rollback_all_tables.
    cbn [m_initialized m_properties m_columns m_extensions
         m_type_descriptors m_extension_descriptors m_type_contexts].
    rewrite Hinit, Hnn. cbn [negb orb].
    rewrite Hctx, Hed, rollback_mark_type_descs by exact Ht.
    unfold MarkForDeletion. cbn [snd].
    now rewrite (rollback_link (E := ExtensionEntry)) by exact Ht. }
  destruct (get_committed (m_extension_descriptors v) _) as [ext_desc|];
    intros [= <-]; cbn [rm_vclient]; apply Hfinal; [|reflexivity].
  unfold MarkForDeletion. cbn [snd].
  now apply (rollback_link (E := ExtensionDescriptor)).
Qed.

End RollbackProofs.

(* ================================================================== *)
(** * Does a table have custom columns? *)
(* ================================================================== *)

Module TableQueryProofs.
Import CStr SystemTableMap Schema Victionary TypeUtil.
Import MapSpec DdlSpec.
Import MapProofs PrefixProofs.

(** X23.  [TableHasCustomColumns] and [GetCustomColumnsForTable] agree.
    Outside the databases [mysql] and [villagesql], the first answers
    [true] exactly when the second returns an entry, and that is exactly
    when some committed column entry is keyed under the prefix of the
    table; for the two databases it answers [false] whatever is
    stored. *)
Theorem table_has_custom_columns_iff (lctn : N) (v : VictionaryClient)
    (db_name table_name : string) :
  m_initialized v = true -> committed_ok (m_columns v) ->
  (db_name <> "mysql" -> db_name <> VILLAGESQL_SCHEMA_NAME ->
   (TableHasCustomColumns lctn v db_name table_name = true
    <-> GetCustomColumnsForTable lctn v db_name table_name <> [])
   /\ (TableHasCustomColumns lctn v db_name table_name = true
       <-> exists e,
             In e (get_all_committed (m_columns v))
             /\ String.prefix (table_prefix lctn db_name table_name)
                  (key_str (key e)) = true))
  /\ (db_name = "mysql" \/ db_name = VILLAGESQL_SCHEMA_NAME ->
      TableHasCustomColumns lctn v db_name table_name = false).
Proof.
  intros Hinit Hok. unfold TableHasCustomColumns. rewrite Hinit.
  cbn [negb]. split.
  - intros Hmysql Hvsql.
    destruct (String.eqb_spec db_name "mysql") as [|_]; [contradiction|].
    destruct (String.eqb_spec db_name VILLAGESQL_SCHEMA_NAME) as [|_];
      [contradiction|].
    cbn [orb].
    assert (Hfirst :
      has_prefix_committed (m_columns v)
        (ckp_normalized_prefix (ColumnKeyPrefix_make lctn db_name table_name))
      = true
      <-> GetCustomColumnsForTable lctn v db_name table_name <> []).
    { unfold GetCustomColumnsForTable. rewrite Hinit. cbn [negb].
      rewrite has_prefix_iff_nonempty.
      destruct (get_prefix_committed _ _); cbn [is_nil negb];
        split; congruence. }
    split; [exact Hfirst|].
    rewrite Hfirst, custom_columns_for_table by assumption.
    unfold entries_with_prefix, table_prefix. split.
    + intros Hne.
      destruct (List.filter _ _) as [|e rest] eqn:Hf; [congruence|].
      exists e.
      apply (proj1 (List.filter_In
                      (fun e => String.prefix
                                  (ckp_normalized_prefix
                                     (ColumnKeyPrefix_make lctn db_name
                                        table_name))
                                  (key_str (key e)))
                      e (get_all_committed (m_columns v)))).
      rewrite Hf. now left.
    + intros (e & He & Hp) Hnil.
      assert (Hin : In e (List.filter
                            (fun e => String.prefix
                                        (ckp_normalized_prefix
                                           (ColumnKeyPrefix_make lctn db_name
                                              table_name))
                                        (key_str (key e)))
                            (get_all_committed (m_columns v))))
        by (apply List.filter_In; now split).
      rewrite Hnil in Hin. destruct Hin.
  - intros [->| ->]; reflexivity.
Qed.

End TableQueryProofs.

(* ================================================================== *)
(** * CREATE TABLE *)
(* ================================================================== *)

Module CreateProofs.
Import CStr SystemTableMap Schema Victionary MetadataModifier Ddl Create.
Import MapSpec StagingSpec DdlSpec CreateSpec.
Import StdMapProofs MapProofs StagingProofs DdlProofs TableDdlProofs.
Import RenameProofs.

Section Loop.
Variables (lctn : N) (same_name : string -> string -> bool).
Variables (db_name table_name : string).

Let step (acc : checked (list ColumnEntry)) (create_field : Create_field) :=
  match acc with
  | Aborted => Aborted
  | Returned to_add =>
      add_column lctn same_name db_name table_name to_add create_field
  end.

Lemma loop_aborted (fields : list Create_field) :
  fold_left step fields Aborted = Aborted.
Proof. induction fields as [|f rest IH]; [reflexivity|exact IH]. Qed.

(** The loop only appends. *)
Lemma loop_appends (fields : list Create_field) :
  forall acc out,
    fold_left step fields (Returned acc) = Returned out ->
    exists added, out = (acc ++ added)%list.
Proof.
  induction fields as [|f rest IH]; intros acc out; cbn [fold_left].
  - intros [= <-]. exists []. now rewrite List.app_nil_r.
  - cbn [step]. unfold add_column.
    destruct (custom_type_context f) as [tc|]; [|apply IH].
    destruct (existsb _ acc); [apply IH|].
    destruct (descriptor_ tc) as [d|];
      [|rewrite loop_aborted; discriminate].
    intros Hrest. apply IH in Hrest as [added ->].
    rewrite <- List.app_assoc. eauto.
Qed.

(** A custom column leaves the list to add non-empty. *)
Lemma loop_adds (fields : list Create_field) :
  forall acc out,
    fold_left step fields (Returned acc) = Returned out ->
    existsb is_custom fields = true -> out <> [].
Proof.
  induction fields as [|f rest IH]; intros acc out; cbn [fold_left existsb];
    [discriminate|].
  cbn [step]. unfold add_column, is_custom.
  destruct (custom_type_context f) as [tc|]; [|apply IH].
  cbn [orb]. intros Hrest _.
  destruct (existsb _ acc) eqn:Hdup.
  - apply loop_appends in Hrest as [added ->].
    destruct acc; [discriminate|discriminate].
  - destruct (descriptor_ tc) as [d|];
      [|rewrite loop_aborted in Hrest; discriminate].
    apply loop_appends in Hrest as [added ->].
    destruct acc; discriminate.
Qed.

(** Without a custom column the loop adds nothing. *)
Lemma loop_adds_nothing (fields : list Create_field) :
  forall acc,
    existsb is_custom fields = false ->
    fold_left step fields (Returned acc) = Returned acc.
Proof.
  induction fields as [|f rest IH]; intros acc; cbn [fold_left existsb];
    [reflexivity|].
  cbn [step]. unfold add_column, is_custom.
  destruct (custom_type_context f); [discriminate|]. apply IH.
Qed.

(** With no repeated name, every custom column is added. *)
Lemma loop_entries (fields : list Create_field) :
  forall acc out,
    fold_left step fields (Returned acc) = Returned out ->
    no_repeated_name same_name
      (List.map field_name (List.filter is_custom fields)) = true ->
    (forall f e, In f fields -> is_custom f = true -> In e acc ->
                 same_name (field_name f) (ce_column_name e) = false) ->
    out = (acc ++ entries_of lctn db_name table_name fields)%list.
Proof.
  induction fields as [|f rest IH]; intros acc out;
    cbn [fold_left entries_of flat_map].
  - intros [= <-] _ _. now rewrite List.app_nil_r.
  - cbn [step List.filter]. unfold add_column.
    unfold is_custom at 1.
    destruct (custom_type_context f) as [tc|] eqn:Hf.
    2:{ intros Hrest Hnames Hacc. cbn [List.app].
        apply IH; auto. intros g e Hg. apply Hacc. now right. }
    cbn [List.map no_repeated_name]. intros Hrest Hnames Hacc.
    apply andb_true_iff in Hnames as [Hlater Hnames].
    assert (Hdup : existsb (duplicate_of same_name db_name table_name
                              (field_name f)) acc = false).
    { apply not_true_is_false. intros Hex.
      apply List.existsb_exists in Hex as (e & He & Hd).
      unfold duplicate_of in Hd.
      apply andb_true_iff in Hd as [Hd _]. apply andb_true_iff in Hd as [Hd _].
      rewrite (Hacc f e) in Hd; [discriminate|now left| |exact He].
      unfold is_custom. now rewrite Hf. }
    rewrite Hdup in Hrest.
    destruct (descriptor_ tc) as [d|];
      [|rewrite loop_aborted in Hrest; discriminate].
    rewrite (IH _ _ Hrest Hnames).
    + now rewrite <- List.app_assoc.
    + intros g e Hg Hcustom He. apply List.in_app_or in He as [He|He].
      * apply (Hacc g e); auto. now right.
      * destruct He as [<-|[]]. cbn [ce_column_name ce_key ColumnKey_make ck_column].
        rewrite List.forallb_forall in Hlater.
        apply negb_true_iff. apply Hlater.
        apply List.in_map. apply List.filter_In. now split.
Qed.

End Loop.

Lemma In_entries_of (lctn : N) (db_name table_name : string)
    (fields : list Create_field) (e : ColumnEntry) :
  In e (entries_of lctn db_name table_name fields)
  <-> exists f d,
        In f fields /\ custom_with f d
        /\ e = entry_of lctn db_name table_name f d.
Proof.
  unfold entries_of. rewrite List.in_flat_map. split.
  - intros (f & Hf & He). unfold custom_with.
    destruct (custom_type_context f) as [tc|] eqn:Htc; [|destruct He].
    destruct (descriptor_ tc) as [d|] eqn:Hd; [|destruct He].
    destruct He as [<-|[]]. exists f, d. eauto.
  - intros (f & d & Hf & (tc & Htc & Hd) & ->). exists f.
    split; [exact Hf|]. rewrite Htc, Hd. now left.
Qed.

Lemma custom_is_custom (f : Create_field) (d : TypeDescriptor) :
  custom_with f d -> is_custom f = true.
Proof. intros (tc & Htc & _). unfold is_custom. now rewrite Htc. Qed.

Lemma NoDup_map_eq {A B} (g : A -> B) (l : list A) (x y : A) :
  List.NoDup (List.map g l) -> In x l -> In y l -> g x = g y -> x = y.
Proof.
  induction l as [|a l IH]; cbn [List.map]; [now intros _ []|].
  intros Hnd Hx Hy Heq. inversion Hnd as [|? ? Hnot Hrest]; subst.
  destruct Hx as [->|Hx], Hy as [->|Hy]; auto.
  - exfalso. apply Hnot. rewrite Heq. now apply List.in_map.
  - exfalso. apply Hnot. rewrite <- Heq. now apply List.in_map.
Qed.

(** Columns with different normalized names have different keys. *)
Lemma entries_keys_unique (lctn : N) (db_name table_name : string)
    (fields : list Create_field) (e e' : ColumnEntry) :
  List.NoDup (List.map (fun f => normalize_column_name (field_name f))
                (List.filter is_custom fields)) ->
  In e (entries_of lctn db_name table_name fields) ->
  In e' (entries_of lctn db_name table_name fields) ->
  ck_normalized_key (ce_key e') = ck_normalized_key (ce_key e) -> e' = e.
Proof.
  intros Hnd He He' Hkey.
  apply In_entries_of in He as (f & d & Hf & Hc & ->).
  apply In_entries_of in He' as (f' & d' & Hf' & Hc' & ->).
  unfold entry_of in Hkey. cbn [ce_key] in Hkey.
  rewrite !column_key_eq in Hkey.
  apply append_same_head in Hkey. injection Hkey as Hkey.
  apply append_same_head in Hkey. injection Hkey as Hkey.
  assert (Hsame : f' = f).
  { apply (NoDup_map_eq _ _ _ _ Hnd); auto;
      apply List.filter_In; split; auto; eapply custom_is_custom; eauto. }
  subst f'. destruct Hc as (tc & Htc & Hd), Hc' as (tc' & Htc' & Hd').
  rewrite Htc in Htc'. injection Htc' as <-.
  rewrite Hd in Hd'. now injection Hd' as <-.
Qed.

(** What [add_columns] hands to [process_create]. *)
Lemma add_columns_new (lctn : N) (same_name : string -> string -> bool)
    (db_name table_name : string) (fields : list Create_field)
    (failed : bool) (mm : Metadata_modifier) :
  special_database db_name = false ->
  add_columns lctn same_name Metadata_modifier_new db_name table_name fields
  = Returned (failed, mm) ->
  failed = false
  /\ exists to_add,
       mm = mkModifier to_add [] [] []
       /\ (existsb is_custom fields = true -> to_add <> [])
       /\ (existsb is_custom fields = false -> to_add = [])
       /\ (no_repeated_name same_name
             (List.map field_name (List.filter is_custom fields)) = true ->
           to_add = entries_of lctn db_name table_name fields).
Proof.
  intros Hspecial. unfold add_columns. rewrite Hspecial.
  cbn [Metadata_modifier_new to_add_ to_remove_ to_rename_ to_call_].
  destruct (fold_left _ fields (Returned [])) as [to_add|] eqn:Hloop;
    [|discriminate].
  intros [= <- <-]. split; [reflexivity|]. exists to_add.
  split; [reflexivity|]. split; [|split].
  - now apply (loop_adds lctn same_name db_name table_name fields []).
  - intros Hnone.
    rewrite (loop_adds_nothing lctn same_name db_name table_name)
      in Hloop by exact Hnone.
    now injection Hloop as <-.
  - intros Hnames.
    rewrite (loop_entries lctn same_name db_name table_name fields []
               to_add Hloop Hnames); [reflexivity|].
    intros f e _ _ [].
Qed.

(** X24.  Custom types need InnoDB.  CREATE TABLE with a column of a
    custom type on another storage engine fails with an error that names
    the engine, before anything is locked or staged; without such a
    column [process_create] succeeds at once, whatever the engine. *)
Theorem custom_columns_need_innodb (lctn : N)
    (same_name : string -> string -> bool) (host : Host)
    (v : VictionaryClient) (thd : THD_ptr) (create_info : HA_CREATE_INFO)
    (fields : list Create_field) (db table_name : string)
    (r : apply_result) :
  create_tmp_table create_info = false -> special_database db = false ->
  process_create lctn same_name host v thd (Some create_info) (Some fields)
    db table_name = Returned r ->
  (existsb is_custom fields = true ->
   forall h, db_type create_info = Some h -> is_innodb h = false ->
     la_failed r = true /\ la_vclient r = v /\ la_locked r = []
     /\ la_error r
        = Some ("Custom types are only supported with InnoDB storage engine. "
                ++ "Cannot create table with " ++ storage_engine_name h
                ++ " storage engine."))
  /\ (existsb is_custom fields = false ->
      r = mkApply false None [] Metadata_modifier_new v).
Proof.
  intros Htmp Hspecial. unfold process_create. rewrite Htmp.
  destruct (add_columns _ _ _ _ _ _) as [[failed mm]|] eqn:Hadd;
    [|discriminate].
  destruct (add_columns_new _ _ _ _ _ _ _ Hspecial Hadd)
    as (-> & to_add & -> & Hsome & Hnone & _).
  intros Hr. split.
  - intros Hcustom h Hh Hengine. specialize (Hsome Hcustom).
    assert (Hentries : has_entries (mkModifier to_add [] [] []) = true).
    { unfold has_entries. cbn. now destruct to_add. }
    rewrite Hentries, Hh in Hr. unfold ensure_engine_is_innodb in Hr.
    rewrite Hengine in Hr. cbn [negb] in Hr. injection Hr as <-.
    now repeat split.
  - intros Hcustom. rewrite (Hnone Hcustom) in Hr.
    cbn [has_entries to_add_ to_remove_ to_rename_ to_call_ is_empty negb
         orb] in Hr.
    unfold lock_and_apply in Hr. cbn in Hr. now injection Hr as <-.
Qed.

(** X25.  CREATE TABLE records its custom columns.  Take a session with
    nothing staged on the columns, an initialized Victionary, and a
    table that is not temporary and not in [mysql], [sys] or
    [villagesql].  When [process_create] succeeds for a list whose
    custom columns have pairwise different names, and the session
    commits, every custom column is committed under the key of its
    database, table and column name with the extension, version and
    type name of its type context, and every other key holds what it
    held before. *)
Theorem create_table_records_custom_columns (lctn : N)
    (same_name : string -> string -> bool) (host : Host)
    (v : VictionaryClient) (thd : THD_ptr) (create_info : HA_CREATE_INFO)
    (fields : list Create_field) (db table_name : string)
    (r : apply_result) :
  thd <> nullptr -> m_initialized v = true ->
  pending (m_columns v) thd = [] ->
  create_tmp_table create_info = false -> special_database db = false ->
  no_repeated_name same_name
    (List.map field_name (List.filter is_custom fields)) = true ->
  List.NoDup (List.map (fun f => normalize_column_name (field_name f))
                (List.filter is_custom fields)) ->
  process_create lctn same_name host v thd (Some create_info) (Some fields)
    db table_name = Returned r ->
  la_failed r = false ->
  let v' := snd (Ddl.commit (la_vclient r) thd) in
  (forall f d,
      In f fields -> custom_with f d ->
      get_committed (m_columns v')
        (key_str (key (entry_of lctn db table_name f d)))
      = Some (entry_of lctn db table_name f d))
  /\ (forall k,
        (forall f, In f fields -> is_custom f = true ->
                   ck_normalized_key
                     (ColumnKey_make lctn db table_name (field_name f))
                   <> k) ->
        get_committed (m_columns v') k = get_committed (m_columns v) k).
Proof.
  intros Hthd Hinit Hpending Htmp Hspecial Hnames Hnd Hr Hsucc.
  assert (Hnn : (thd =? nullptr) = false) by now apply N.eqb_neq.
  unfold process_create in Hr. rewrite Htmp in Hr.
  destruct (add_columns _ _ _ _ _ _) as [[failed mm]|] eqn:Hadd;
    [|discriminate].
  destruct (add_columns_new _ _ _ _ _ _ _ Hspecial Hadd)
    as (-> & to_add & -> & _ & _ & Hentries).
  specialize (Hentries Hnames). subst to_add.
  set (added := entries_of lctn db table_name fields) in *.
  assert (Hlock : lock_and_apply host (mkModifier added [] [] []) v thd
                  = Returned r).
  { destruct (has_entries _); [|exact Hr].
    destruct (ensure_engine_is_innodb _ _) as [[msg|]|];
      [|exact Hr|discriminate].
    injection Hr as <-. discriminate. }
  clear Hr.
  assert (Hfinal : forall cols : SystemTableMap ColumnEntry,
    pending cols thd
    = List.map (@PendingInsert ColumnEntry ColumnEntry_entry) added ->
    m_committed cols = m_committed (m_columns v) ->
    (forall e, In e added ->
               get_committed (SystemTableMap.commit cols thd)
                 (key_str (key e)) = Some e)
    /\ (forall k, (forall e, In e added -> key_str (key e) <> k) ->
                  get_committed (SystemTableMap.commit cols thd) k
                  = get_committed (m_columns v) k)).
  { intros cols Hp Hc.
    assert (Hcur : forall k, get_committed cols k
                             = get_committed (m_columns v) k).
    { intros k. unfold get_committed. now rewrite Hc. }
    split.
    - intros e He. rewrite commit_lookup, Hp.
      destruct (fold_insert_present (key_str (key e)) added
                  (get_committed cols (key_str (key e))) e He eq_refl)
        as (e' & He' & Hk & ->).
      f_equal. now apply (entries_keys_unique lctn db table_name fields).
    - intros k Hk. rewrite commit_lookup, Hp, Hcur.
      now apply fold_insert_untouched. }
  assert (Hgoal : forall cols : SystemTableMap ColumnEntry,
    pending cols thd
    = List.map (@PendingInsert ColumnEntry ColumnEntry_entry) added ->
    m_committed cols = m_committed (m_columns v) ->
    let v' := snd (Ddl.commit (with_columns v cols) thd) in
    (forall f d,
        In f fields -> custom_with f d ->
        get_committed (m_columns v')
          (key_str (key (entry_of lctn db table_name f d)))
        = Some (entry_of lctn db table_name f d))
    /\ (forall k,
          (forall f, In f fields -> is_custom f = true ->
                     ck_normalized_key
                       (ColumnKey_make lctn db table_name (field_name f))
                     <> k) ->
          get_committed (m_columns v') k = get_committed (m_columns v) k)).
  { intros cols Hp Hc. destruct (Hfinal cols Hp Hc) as [Hin Hout].
    unfold Ddl.commit, commit_all_tables.
    cbn [with_columns m_initialized]. rewrite Hinit, Hnn.
    cbn [negb orb snd m_columns]. split.
    - intros f d Hf Hcustom. apply Hin. apply In_entries_of. eauto.
    - intros k Hk. apply Hout. intros e He.
      apply In_entries_of in He as (f & d & Hf & Hcustom & ->).
      apply Hk; [exact Hf|]. eapply custom_is_custom; eauto. }
  destruct (lock_and_apply_cases _ _ _ _ _ Hlock)
    as [[Hnone ->]|(_ & _ & [[_ ->]|(_ & _ & [(msg & _ & ->)|
         (_ & cols & Hp & Hc & _ & [->| ->])])])];
    try discriminate; cbn [la_vclient].
  - assert (Hempty : added = []).
    { unfold has_entries in Hnone. cbn in Hnone. now destruct added. }
    assert (Hsame : with_columns v (m_columns v) = v) by now destruct v.
    rewrite <- Hsame. apply Hgoal; [|reflexivity].
    now rewrite Hpending, Hempty.
  - apply Hgoal; [|exact Hc].
    rewrite Hpending in Hp. unfold staged_ops in Hp.
    cbn [to_add_ to_remove_ to_rename_ List.map List.app] in Hp.
    exact Hp.
Qed.

End CreateProofs.

(* ================================================================== *)
(** * ALTER TABLE *)
(* ================================================================== *)

Module AlterProofs.
Import CStr SystemTableMap Schema Victionary MetadataModifier Ddl Create.
Import MapSpec StagingSpec DdlSpec CreateSpec.
Import StdMapProofs MapProofs StagingProofs DdlProofs TableDdlProofs.

(** What committing the staged operations of a modifier does to a key,
    in a session that had nothing staged. *)
Lemma apply_then_commit (host : Host) (mm : Metadata_modifier)
    (v : VictionaryClient) (thd : THD_ptr) (r : apply_result) :
  thd <> nullptr -> m_initialized v = true ->
  pending (m_columns v) thd = [] ->
  lock_and_apply host mm v thd = Returned r -> la_failed r = false ->
  forall k,
    get_committed (m_columns (snd (Ddl.commit (la_vclient r) thd))) k
    = fold_left (step_key k) (staged_ops mm) (get_committed (m_columns v) k).
Proof.
  intros Hthd Hinit Hpending Hr Hsucc k.
  assert (Hnn : (thd =? nullptr) = false) by now apply N.eqb_neq.
  assert (Hcols : forall cols : SystemTableMap ColumnEntry,
    pending cols thd = staged_ops mm ->
    m_committed cols = m_committed (m_columns v) ->
    get_committed
      (m_columns (snd (Ddl.commit (with_columns v cols) thd))) k
    = fold_left (step_key k) (staged_ops mm)
        (get_committed (m_columns v) k)).
  { intros cols Hp Hc. unfold Ddl.commit, commit_all_tables.
    cbn [with_columns m_initialized]. rewrite Hinit, Hnn.
    cbn [negb orb snd m_columns]. rewrite commit_lookup.
    change (m_columns (with_columns v cols)) with cols. rewrite Hp. f_equal.
    unfold get_committed. now rewrite Hc. }
  destruct (lock_and_apply_cases _ _ _ _ _ Hr)
    as [[Hnone ->]|(_ & _ & [[_ ->]|(_ & _ & [(msg & _ & ->)|
         (_ & cols & Hp & Hc & _ & [->| ->])])])];
    try discriminate; cbn [la_vclient].
  - assert (Hempty : staged_ops mm = []).
    { unfold has_entries in Hnone. unfold staged_ops.
      destruct (to_add_ mm), (to_remove_ mm), (to_rename_ mm);
        try discriminate; reflexivity. }
    assert (Hsame : with_columns v (m_columns v) = v) by now destruct v.
    rewrite <- Hsame at 1. apply Hcols; [|reflexivity].
    now rewrite Hpending, Hempty.
  - apply Hcols; [|exact Hc]. now rewrite Hpending in Hp.
Qed.

(** [process_alter] on an open table that is not temporary, once
    [alter_columns] has returned. *)
Lemma process_alter_applies (lctn : N) (host : Host) (v : VictionaryClient)
    (thd : THD_ptr) (db table_name : string) (t : TABLE)
    (alter_info : option Alter_info) (mm : Metadata_modifier)
    (r : apply_result) :
  is_tmp_table t = false ->
  alter_columns lctn v Metadata_modifier_new db table_name alter_info
  = Returned (false, mm) ->
  process_alter lctn host v thd (Some (mkTable_ref db table_name (Some t)))
    alter_info = Returned r ->
  la_failed r = false ->
  lock_and_apply host mm v thd = Returned r.
Proof.
  intros Htmp Halter. unfold process_alter.
  cbn [tr_table tr_db tr_table_name]. rewrite Htmp, Halter.
  destruct (has_entries mm); [|auto].
  destruct (ensure_engine_is_innodb _ _) as [[msg|]|];
    [|auto|discriminate].
  intros [= <-]. discriminate.
Qed.

(** X26.  ALTER TABLE ... DROP COLUMN drops the entry of a custom column.
    Take a session with nothing staged on the columns, an initialized
    Victionary, and an open table that is not temporary and not in
    [mysql], [sys] or [villagesql].  When [process_alter] succeeds for
    the drop of one column and the session commits, nothing is
    committed under the key of that column if the table has a custom
    column stored under exactly the name the statement uses; if it has
    none under that name, the statement changes nothing; and in both
    cases every other key holds what it held before. *)
Theorem alter_drop_column_removes_its_entry (lctn : N) (host : Host)
    (v : VictionaryClient) (thd : THD_ptr) (db table_name name : string)
    (t : TABLE) (r : apply_result) :
  thd <> nullptr -> m_initialized v = true ->
  pending (m_columns v) thd = [] ->
  special_database db = false -> is_tmp_table t = false ->
  process_alter lctn host v thd (Some (mkTable_ref db table_name (Some t)))
    (Some (mkAlter_info false None None [mkAlter_drop true name] [] []))
  = Returned r ->
  la_failed r = false ->
  let v' := snd (Ddl.commit (la_vclient r) thd) in
  let k := ck_normalized_key (ColumnKey_make lctn db table_name name) in
  let stored :=
    List.map ce_column_name
      (GetCustomColumnsForTable lctn v db table_name) in
  (In name stored -> get_committed (m_columns v') k = None)
  /\ (~ In name stored ->
      forall k', get_committed (m_columns v') k'
                 = get_committed (m_columns v) k')
  /\ (forall k', k' <> k ->
        get_committed (m_columns v') k' = get_committed (m_columns v) k').
Proof.
  intros Hthd Hinit Hpending Hspecial Htmp Hr Hsucc v' k stored.
  destruct (names_count stored name) eqn:Hcount.
  - assert (Hin : In name stored).
    { unfold names_count in Hcount.
      apply List.existsb_exists in Hcount as (n & Hn & He).
      apply String.eqb_eq in He. now subst n. }
    assert (Halter :
      alter_columns lctn v Metadata_modifier_new db table_name
        (Some (mkAlter_info false None None [mkAlter_drop true name] [] []))
      = Returned (false,
                  mkModifier []
                    [ColumnEntry_of_key
                       (ColumnKey_make lctn db table_name name)] [] [])).
    { unfold alter_columns. rewrite Hspecial, Hinit.
      cbn [negb alter_rename new_table_name fst snd drop_list alter_list
           create_list alter_drops alter_renames fold_left
           Metadata_modifier_new to_add_ to_remove_ to_rename_ to_call_
           drop_is_column drop_name andb].
      fold stored. rewrite Hcount. reflexivity. }
    pose proof (process_alter_applies _ _ _ _ _ _ _ _ _ _ Htmp Halter Hr
                  Hsucc) as Hlock.
    pose proof (apply_then_commit _ _ _ _ _ Hthd Hinit Hpending Hlock Hsucc)
      as Hlook.
    unfold staged_ops in Hlook.
    cbn [to_add_ to_remove_ to_rename_ List.map List.app fold_left
         step_key ColumnEntry_of_key ce_key] in Hlook.
    split; [|split].
    + intros _. unfold v'. rewrite Hlook.
      change (@key_str ColumnEntry ColumnEntry_entry
                (ColumnKey_make lctn db table_name name)) with k.
      now rewrite String.eqb_refl.
    + intros Hnot. contradiction.
    + intros k' Hk'. unfold v'. rewrite Hlook.
      change (@key_str ColumnEntry ColumnEntry_entry
                (ColumnKey_make lctn db table_name name)) with k.
      destruct (String.eqb_spec k k'); [congruence|reflexivity].
  - assert (Hnot : ~ In name stored).
    { intros Hin. unfold names_count in Hcount.
      assert (existsb (String.eqb name) stored = true); [|congruence].
      apply List.existsb_exists. exists name. split; [exact Hin|].
      apply String.eqb_refl. }
    assert (Halter :
      alter_columns lctn v Metadata_modifier_new db table_name
        (Some (mkAlter_info false None None [mkAlter_drop true name] [] []))
      = Returned (false, mkModifier [] [] [] [])).
    { unfold alter_columns. rewrite Hspecial, Hinit.
      cbn [negb alter_rename new_table_name fst snd drop_list alter_list
           create_list alter_drops alter_renames fold_left
           Metadata_modifier_new to_add_ to_remove_ to_rename_ to_call_
           drop_is_column drop_name andb].
      fold stored. rewrite Hcount. reflexivity. }
    pose proof (process_alter_applies _ _ _ _ _ _ _ _ _ _ Htmp Halter Hr
                  Hsucc) as Hlock.
    pose proof (apply_then_commit _ _ _ _ _ Hthd Hinit Hpending Hlock Hsucc)
      as Hlook.
    split; [|split].
    + intros Hin. contradiction.
    + intros _ k'. apply Hlook.
    + intros k' _. apply Hlook.
Qed.

(** X27.  ALTER TABLE ... RENAME COLUMN moves the entry of a custom
    column.  Take a session with nothing staged on the columns, an
    initialized Victionary, and an open table that is not temporary and
    not in [mysql], [sys] or [villagesql].  When [process_alter]
    succeeds for the renaming of a column for which
    [GetCustomColumnsForTable] has an entry, and the session commits,
    the first such entry is committed under the key of the new column
    name with the extension, version and type name it had, its old
    key (when it is another one and not empty) holds nothing, and every
    other key holds what it held before. *)
Theorem alter_rename_column_moves_its_entry (lctn : N) (host : Host)
    (v : VictionaryClient) (thd : THD_ptr)
    (db table_name name new_name : string) (t : TABLE)
    (old : ColumnEntry) (r : apply_result) :
  thd <> nullptr -> m_initialized v = true ->
  pending (m_columns v) thd = [] ->
  special_database db = false -> is_tmp_table t = false ->
  List.find (fun col => String.eqb (ce_column_name col) name)
    (GetCustomColumnsForTable lctn v db table_name) = Some old ->
  process_alter lctn host v thd (Some (mkTable_ref db table_name (Some t)))
    (Some (mkAlter_info false None None []
             [mkAlter_column true name new_name] []))
  = Returned r ->
  la_failed r = false ->
  let v' := snd (Ddl.commit (la_vclient r) thd) in
  let moved :=
    mkColumnEntry (ColumnKey_make lctn db table_name new_name)
      (ce_extension_name old) (ce_extension_version old)
      (ce_type_name old) in
  let new_key := ck_normalized_key (ce_key moved) in
  let old_key := ck_normalized_key (ce_key old) in
  get_committed (m_columns v') new_key = Some moved
  /\ (old_key <> new_key -> old_key <> "" ->
      get_committed (m_columns v') old_key = None)
  /\ (forall k', k' <> new_key -> k' <> old_key ->
        get_committed (m_columns v') k' = get_committed (m_columns v) k').
Proof.
  intros Hthd Hinit Hpending Hspecial Htmp Hfind Hr Hsucc v' moved new_key
    old_key.
  assert (Hcount :
    names_count
      (List.map ce_column_name
         (GetCustomColumnsForTable lctn v db table_name)) name = true).
  { apply List.find_some in Hfind as [Hin Heq].
    apply String.eqb_eq in Heq. unfold names_count.
    apply List.existsb_exists. exists (ce_column_name old).
    split; [now apply List.in_map|]. rewrite Heq. apply String.eqb_refl. }
  assert (Halter :
    alter_columns lctn v Metadata_modifier_new db table_name
      (Some (mkAlter_info false None None []
               [mkAlter_column true name new_name] []))
    = Returned (false, mkModifier [] [] [(moved, ce_key old)] [])).
  { unfold alter_columns. rewrite Hspecial, Hinit.
    cbn [negb alter_rename new_table_name fst snd drop_list alter_list
         create_list alter_drops alter_renames fold_left
         Metadata_modifier_new to_add_ to_remove_ to_rename_ to_call_
         is_rename_column alter_name m_new_name andb].
    rewrite Hcount, Hfind. reflexivity. }
  pose proof (process_alter_applies _ _ _ _ _ _ _ _ _ _ Htmp Halter Hr
                Hsucc) as Hlock.
  pose proof (apply_then_commit _ _ _ _ _ Hthd Hinit Hpending Hlock Hsucc)
    as Hlook.
  unfold staged_ops in Hlook.
  cbn [to_add_ to_remove_ to_rename_ List.map List.app fold_left
       step_key fst snd] in Hlook.
  change (@key_str ColumnEntry ColumnEntry_entry
            (@key ColumnEntry ColumnEntry_entry moved)) with new_key
    in Hlook.
  change (@key_str ColumnEntry ColumnEntry_entry (ce_key old)) with old_key
    in Hlook.
  split; [|split].
  - unfold v'. rewrite Hlook. now rewrite String.eqb_refl.
  - intros Hdiff Hne. unfold v'. rewrite Hlook.
    destruct (String.eqb_spec new_key old_key) as [He|_]; [congruence|].
    destruct (String.eqb_spec old_key "") as [He|_]; [congruence|].
    destruct (String.eqb_spec old_key new_key) as [He|_]; [congruence|].
    now rewrite String.eqb_refl.
  - intros k' Hnew Hold. unfold v'. rewrite Hlook.
    destruct (String.eqb_spec new_key k') as [He|_]; [congruence|].
    destruct (String.eqb_spec old_key k') as [He|_]; [congruence|].
    now rewrite andb_false_r.
Qed.

(** X28.  ALTER TABLE ... MODIFY or CHANGE COLUMN from one custom type to
    another replaces the entry.  Take a session with nothing staged on
    the columns, an initialized Victionary, and an open table that is
    not temporary and not in [mysql], [sys] or [villagesql].  When
    [process_alter] succeeds for such a change of a column for which
    [GetCustomColumnsForTable] has an entry, and the session commits,
    the key of the new column name holds the entry of the new type
    context, the key of the old name (if it is another one) holds
    nothing, and every other key holds what it held before. *)
Theorem alter_change_column_replaces_its_entry (lctn : N) (host : Host)
    (v : VictionaryClient) (thd : THD_ptr)
    (db table_name old_name : string) (t : TABLE) (field : Create_field)
    (d : TypeDescriptor) (r : apply_result) :
  thd <> nullptr -> m_initialized v = true ->
  pending (m_columns v) thd = [] ->
  special_database db = false -> is_tmp_table t = false ->
  change field = Some old_name -> custom_with field d ->
  In old_name
    (List.map ce_column_name
       (GetCustomColumnsForTable lctn v db table_name)) ->
  process_alter lctn host v thd (Some (mkTable_ref db table_name (Some t)))
    (Some (mkAlter_info false None None [] [] [field]))
  = Returned r ->
  la_failed r = false ->
  let v' := snd (Ddl.commit (la_vclient r) thd) in
  let new_key :=
    ck_normalized_key
      (ColumnKey_make lctn db table_name (field_name field)) in
  let old_key :=
    ck_normalized_key (ColumnKey_make lctn db table_name old_name) in
  get_committed (m_columns v') new_key
  = Some (entry_of lctn db table_name field d)
  /\ (old_key <> new_key -> get_committed (m_columns v') old_key = None)
  /\ (forall k', k' <> new_key -> k' <> old_key ->
        get_committed (m_columns v') k' = get_committed (m_columns v) k').
Proof.
  intros Hthd Hinit Hpending Hspecial Htmp Hchange (tc & Htc & Hd) Hin Hr
    Hsucc v' new_key old_key.
  assert (Hcount :
    names_count
      (List.map ce_column_name
         (GetCustomColumnsForTable lctn v db table_name)) old_name = true).
  { unfold names_count. apply List.existsb_exists. exists old_name.
    split; [exact Hin|apply String.eqb_refl]. }
  assert (Halter :
    alter_columns lctn v Metadata_modifier_new db table_name
      (Some (mkAlter_info false None None [] [] [field]))
    = Returned
        (false,
         mkModifier [entry_of lctn db table_name field d]
           [ColumnEntry_of_key
              (ColumnKey_make lctn db table_name old_name)] [] [])).
  { unfold alter_columns. rewrite Hspecial, Hinit.
    cbn [negb alter_rename new_table_name fst snd drop_list alter_list
         create_list alter_drops alter_renames fold_left
         Metadata_modifier_new to_add_ to_remove_ to_rename_ to_call_].
    unfold alter_field, new_entry. rewrite Hchange, Hcount, Htc, Hd.
    reflexivity. }
  pose proof (process_alter_applies _ _ _ _ _ _ _ _ _ _ Htmp Halter Hr
                Hsucc) as Hlock.
  pose proof (apply_then_commit _ _ _ _ _ Hthd Hinit Hpending Hlock Hsucc)
    as Hlook.
  unfold staged_ops in Hlook.
  cbn [to_add_ to_remove_ to_rename_ List.map List.app fold_left
       step_key ColumnEntry_of_key ce_key] in Hlook.
  change (@key_str ColumnEntry ColumnEntry_entry
            (ColumnKey_make lctn db table_name old_name)) with old_key
    in Hlook.
  change (@key_str ColumnEntry ColumnEntry_entry
            (@key ColumnEntry ColumnEntry_entry
               (entry_of lctn db table_name field d))) with new_key
    in Hlook.
  split; [|split].
  - unfold v'. rewrite Hlook. now rewrite String.eqb_refl.
  - intros Hdiff. unfold v'. rewrite Hlook.
    destruct (String.eqb_spec new_key old_key) as [He|_]; [congruence|].
    now rewrite String.eqb_refl.
  - intros k' Hnew Hold. unfold v'. rewrite Hlook.
    destruct (String.eqb_spec new_key k') as [He|_]; [congruence|].
    destruct (String.eqb_spec old_key k') as [He|_]; [congruence|].
    reflexivity.
Qed.

End AlterProofs.

(* ================================================================== *)
(** * Renaming a table in place *)
(* ================================================================== *)

Module TableRenameProofs.
Import CStr SystemTableMap Schema Victionary TableRename.
Import SemverText MapSpec DdlSpec RenameSpec.
Import MapProofs StagingProofs RenameProofs.

(** X29.  [HandleCustomColumnsForTableRename] does for the data
    dictionary what RENAME TABLE does.  Take a session with nothing
    staged on the columns, an initialized Victionary with a well-formed
    columns map, two different tables with dot-free names, the old one
    such that [GetCustomColumnsForTable] finds only columns of its own,
    the new one without custom columns.  The call returns false and,
    once the session commits, the old table has no custom column left,
    the new table has exactly the columns of the old one under the new
    names, and the entries whose key starts with neither table's prefix
    are as before. *)
Theorem handle_rename_moves_the_custom_columns (lctn : N)
    (v : VictionaryClient) (thd : THD_ptr)
    (old_db old_table new_db new_table : string) :
  thd <> nullptr -> m_initialized v = true ->
  committed_ok (m_columns v) -> pending (m_columns v) thd = [] ->
  finds_own_columns lctn v old_db old_table ->
  old_table <> "" -> new_table <> "" ->
  lacks "." (normalize_database_name lctn old_db) = true ->
  lacks "." (normalize_table_name lctn old_table) = true ->
  lacks "." (normalize_database_name lctn new_db) = true ->
  lacks "." (normalize_table_name lctn new_table) = true ->
  table_prefix lctn old_db old_table <> table_prefix lctn new_db new_table ->
  GetCustomColumnsForTable lctn v new_db new_table = [] ->
  let r := HandleCustomColumnsForTableRename lctn v thd old_db old_table
             new_db new_table in
  let v' := commit_all_tables (snd r) thd in
  fst r = false
  /\ GetCustomColumnsForTable lctn v' old_db old_table = []
  /\ (forall e,
        In e (GetCustomColumnsForTable lctn v' new_db new_table)
        <-> exists o,
              In o (GetCustomColumnsForTable lctn v old_db old_table)
              /\ e = renamed lctn new_db new_table o)
  /\ (forall e,
        String.prefix (table_prefix lctn old_db old_table)
          (key_str (key e)) = false ->
        String.prefix (table_prefix lctn new_db new_table)
          (key_str (key e)) = false ->
        In e (get_all_committed (m_columns v'))
        <-> In e (get_all_committed (m_columns v))).
Proof.
  intros Hthd Hinit Hok Hpending Hplain Hold Hnew Hodb Hotable Hndb Hntable
    Hapart Hfresh.
  unfold HandleCustomColumnsForTableRename. rewrite Hinit. cbn [negb].
  set (olds := GetCustomColumnsForTable lctn v old_db old_table).
  set (cols :=
         fold_left
           (fun c x => link_in_list c thd (rename_op lctn new_db new_table x))
           olds (m_columns v)).
  assert (Hstaged :
    let v' := commit_all_tables (with_columns v cols) thd in
    GetCustomColumnsForTable lctn v' old_db old_table = []
    /\ (forall e,
          In e (GetCustomColumnsForTable lctn v' new_db new_table)
          <-> exists o, In o olds /\ e = renamed lctn new_db new_table o)
    /\ (forall e,
          String.prefix (table_prefix lctn old_db old_table)
            (key_str (key e)) = false ->
          String.prefix (table_prefix lctn new_db new_table)
            (key_str (key e)) = false ->
          In e (get_all_committed (m_columns v'))
          <-> In e (get_all_committed (m_columns v)))).
  { apply renames_committed; try assumption.
    - unfold cols.
      rewrite (pending_link_all (E := ColumnEntry)) by exact Hthd.
      now rewrite Hpending.
    - unfold cols. apply (committed_link_all (E := ColumnEntry)). }
  destruct olds as [|o rest] eqn:Holds.
  - cbn [fst snd]. split; [reflexivity|].
    assert (Hsame : with_columns v cols = v).
    { unfold cols. cbn [fold_left]. now destruct v. }
    now rewrite Hsame in Hstaged.
  - cbn [fst snd]. split; [reflexivity|]. exact Hstaged.
Qed.

End TableRenameProofs.

(* ================================================================== *)
(** * Calling functions of an extension *)
(* ================================================================== *)

Module CallProofs.
Import CStr SystemTableMap Schema Victionary MetadataModifier Ddl.
Import MapSpec StagingSpec DdlSpec.
Import MapProofs StagingProofs DdlProofs.

Lemma validate_routine_None (host : Host) (v : VictionaryClient)
    (routine : Croutine_entry) :
  validate_routine host v routine = None ->
  (exists ext,
      get_committed (m_extensions v)
        (ek_normalized_key (ExtensionKey_make (cr_extension_name routine)))
      = Some ext)
  /\ udf_exists host (cr_extension_name routine) (cr_function_name routine)
     = true.
Proof.
  unfold validate_routine.
  destruct (get_committed (m_extensions v) _) as [ext|]; [|discriminate].
  intros Hudf. split; [now exists ext|].
  now destruct (udf_exists host _ _).
Qed.

(** X30.  Calling functions of extensions locks and checks, and stages
    nothing.  Whatever [process_calls] returns, the Victionary is as
    before; when it succeeds, it has asked for the shared locks of the
    extensions of the functions, and every function belongs to an
    installed extension and is registered; and for an empty list it
    succeeds without asking for a lock. *)
Theorem process_calls_only_locks (host : Host) (v : VictionaryClient)
    (thd : THD_ptr) (croutines_list : list Croutine_entry)
    (r : apply_result) :
  process_calls host v thd croutines_list = Returned r ->
  la_vclient r = v
  /\ (la_failed r = false ->
      la_locked r = mdl_requests (mkModifier [] [] [] croutines_list)
      /\ forall routine,
           In routine croutines_list ->
           (exists ext,
               get_committed (m_extensions v)
                 (ek_normalized_key
                    (ExtensionKey_make (cr_extension_name routine)))
               = Some ext)
           /\ udf_exists host (cr_extension_name routine)
                (cr_function_name routine) = true)
  /\ (croutines_list = [] -> la_failed r = false /\ la_locked r = []).
Proof.
  unfold process_calls, add_functions.
  cbn [Metadata_modifier_new to_add_ to_remove_ to_rename_ to_call_
       List.app].
  destruct (forallb _ croutines_list); [|discriminate].
  intros Hr.
  destruct croutines_list as [|routine rest].
  { unfold lock_and_apply in Hr. cbn in Hr. injection Hr as <-.
    cbn. split; [reflexivity|]. split; [|now split].
    intros _. split; [reflexivity|]. intros ? []. }
  set (mm := mkModifier [] [] [] (routine :: rest)) in *.
  assert (Hsame : with_columns v (m_columns v) = v) by now destruct v.
  unfold lock_and_apply in Hr.
  change (has_entries mm) with true in Hr. cbn [negb] in Hr.
  destruct (lock_extensions_shared host mm thd) as [[|]|];
    [injection Hr as <-; repeat split; discriminate| |discriminate].
  destruct (validate_entries host mm v) as [[msg|]|] eqn:Hval;
    [injection Hr as <-; repeat split; discriminate| |discriminate].
  destruct (validate_entries_None _ _ _ Hval) as [_ Hcalls].
  unfold mark_victionary_modifications in Hr.
  destruct (negb (m_initialized v)); [discriminate|].
  destruct (thd =? nullptr); [discriminate|].
  cbn in Hr. rewrite Hsame in Hr. injection Hr as <-.
  cbn [la_vclient la_failed la_locked].
  split; [reflexivity|]. split; [|discriminate].
  intros _. split; [reflexivity|].
  intros routine' Hin. apply validate_routine_None. now apply Hcalls.
Qed.

End CallProofs.

(* ================================================================== *)
(** * More scenarios, run *)
(* ================================================================== *)

Module MoreScenarioProofs.
Import CStr SystemTableMap Schema Victionary MetadataModifier Uninstall.
Import TypeUtil Acquire Ddl.
Import MapSpec SessionSpec OwnerSpec TypeContextSpec UninstallSpec
  UninstallTrace DdlSpec.
Import MapProofs Scenario MoreScenarios ScenarioProofs.

Lemma other_thd_differs : other_thd <> thd.
Proof. discriminate. Qed.

Lemma thd_not_null : thd <> nullptr.
Proof. discriminate. Qed.

Lemma session_view_is_what_commit_publishes_witness :
  let st := snd (MarkForInsertion (columns_of [column_unnamed]) thd column_x) in
  get st thd (key_str (key column_x))
  = get_committed (SystemTableMap.commit st thd) (key_str (key column_x)).
Proof.
  apply SessionProofs.session_view_is_what_commit_publishes.
  vm_compute. reflexivity.
Defined.

Lemma marking_is_invisible_to_others_witness :
  let st := columns_of [column_unnamed] in
  let st' := snd (MarkForInsertion st thd column_x) in
  get st' other_thd (key_str (key column_x))
  = get st other_thd (key_str (key column_x)).
Proof.
  exact (proj1 (SessionProofs.marking_is_invisible_to_others
                  (columns_of [column_unnamed]) thd other_thd
                  (PendingInsert column_x) _
                  (marked_insertion _ thd column_x) other_thd_differs)
           (key_str (key column_x))).
Defined.

Lemma session_reads_its_own_marks_witness :
  let st := columns_of [column_x] in
  get (snd (MarkForDeletion st thd (key column_x))) thd
    (key_str (key column_x)) = None
  /\ get st thd (key_str (key column_x)) = Some column_x.
Proof.
  split; [|vm_compute; reflexivity].
  rewrite (SessionProofs.session_reads_its_own_marks
             (columns_of [column_x]) thd (PendingDelete (key column_x)) _
             (marked_deletion _ thd (key column_x)) thd_not_null).
  vm_compute. reflexivity.
Defined.

Lemma installed_in_use_contexts_ok :
  committed_ok (m_type_contexts installed_in_use).
Proof.
  split.
  - vm_compute. repeat constructor.
  - vm_compute. repeat constructor.
Qed.

Lemma acquire_only_counts_an_owner_witness :
  let st := m_type_contexts installed_in_use in
  let ks := @key_str TypeContext TypeContext_entry complex_context_key in
  fst (acquire st ks false) = get_committed st ks
  /\ get_use_count (snd (acquire st ks false)) ks = 3.
Proof.
  destruct (AcquireProofs.acquire_only_counts_an_owner
              (m_type_contexts installed_in_use)
              (@key_str TypeContext TypeContext_entry complex_context_key) false
              (proj1 installed_in_use_contexts_ok))
    as (Hr & _ & Hcount).
  split; [exact Hr|].
  rewrite Hcount. vm_compute. reflexivity.
Defined.

Lemma acquire_or_create_creates_once_witness :
  exists st',
    @acquire_or_create TypeContext TypeContext_entry
      (fun k => TypeContext_create release k (Some complex_descriptor))
      (m_type_contexts installed) complex_context_key false
    = Returned (Some complex_context, st')
    /\ get_committed st' (@key_str TypeContext TypeContext_entry complex_context_key)
       = Some complex_context
    /\ exists st'',
         @acquire_or_create TypeContext TypeContext_entry (fun _ => Aborted) st'
           complex_context_key false
         = Returned (Some complex_context, st'').
Proof.
  eexists. split; [vm_compute; reflexivity|].
  match goal with
  | |- get_committed ?st' _ = _ /\ _ =>
      destruct (AcquireProofs.acquire_or_create_creates_once
                  (E := TypeContext) (H := TypeContext_entry)
                  (fun k => TypeContext_create release k (Some complex_descriptor))
                  (m_type_contexts installed) complex_context_key
                  complex_context st')
        as (Hget & _ & _ & _ & Hagain); [vm_compute; reflexivity|]
  end.
  split; [exact Hget|].
  destruct (Hagain (fun _ => Aborted)) as (st'' & Hacq & _).
  now exists st''.
Defined.

Lemma installed_descriptors_ok : committed_ok (m_type_descriptors installed).
Proof. split; vm_compute; repeat constructor. Qed.

Lemma installed_extension_descriptors_ok :
  committed_ok (m_extension_descriptors installed).
Proof. split; vm_compute; repeat constructor. Qed.

Lemma installed_contexts_ok : committed_ok (m_type_contexts installed).
Proof. split; vm_compute; repeat constructor. Qed.

Lemma installed_contexts_match : all_contexts_match (m_type_contexts installed).
Proof. vm_compute. constructor. Qed.

Lemma installed_owners_counted : owners_counted (m_type_contexts installed).
Proof. vm_compute. constructor. Qed.

Lemma installed_nothing_staged : nothing_staged installed thd.
Proof. repeat split; vm_compute; reflexivity. Qed.

Lemma type_in_use_blocks_uninstall_witness :
  match MaybeInjectCustomType release lctn creating_table thd "db" "t" "x"
          false with
  | Returned r =>
      inj_type_context r = Some complex_context
      /\ exists rm,
           remove_extension_from_victionary other_thd (inj_vclient r) "myext"
           = Returned rm
           /\ rm_failed rm = true
  | Aborted => False
  end.
Proof.
  destruct (TypeUseProofs.type_in_use_blocks_uninstall release lctn
              creating_table myext_entry other_thd complex_context)
    as [Hinject _].
  - vm_compute. reflexivity.
  - exact installed_contexts_ok.
  - exact installed_descriptors_ok.
  - exact installed_contexts_match.
  - exact installed_owners_counted.
  - vm_compute. reflexivity.
  - destruct (MaybeInjectCustomType release lctn creating_table thd "db"
                "t" "x" false) as [r|] eqn:Hr;
      [|vm_compute in Hr; discriminate].
    assert (Htc : inj_type_context r = Some complex_context).
    { vm_compute in Hr. injection Hr as <-. vm_compute. reflexivity. }
    split; [exact Htc|].
    destruct (Hinject thd "db" "t" "x" r Hr Htc) as (rm & Hrm & Hfailed & _).
    exists rm. now split.
Defined.

Lemma refused_uninstall_stages_nothing_witness :
  exists rm,
    remove_extension_from_victionary thd installed "other" = Returned rm
    /\ rm_failed rm = true
    /\ rm_error rm = Some "Extension 'other' is not installed".
Proof.
  eexists. split; [vm_compute; reflexivity|].
  match goal with
  | |- rm_failed ?rm = _ /\ _ =>
      destruct (UninstallMoreProofs.refused_uninstall_stages_nothing
                  thd installed "other" rm) as [_ Hmissing];
        [vm_compute; reflexivity|]
  end.
  apply Hmissing. vm_compute. reflexivity.
Defined.

Lemma uninstall_unregisters_before_unload_witness :
  exists o,
    execute host_ok installed thd "myext" = Returned o
    /\ unregistered_before_unload [] (trace o) = true.
Proof.
  eexists. split; [vm_compute; reflexivity|].
  match goal with
  | |- unregistered_before_unload [] (trace ?o) = _ =>
      refine (proj1 (UninstallMoreProofs.uninstall_unregisters_before_unload
                       host_ok installed thd "myext" o _))
  end.
  vm_compute. reflexivity.
Defined.

Lemma uninstall_then_commit_removes_extension_witness :
  exists rm,
    remove_extension_from_victionary thd installed "myext" = Returned rm
    /\ extension_gone (commit_all_tables (rm_vclient rm) thd) myext_entry.
Proof.
  eexists. split; [vm_compute; reflexivity|].
  match goal with
  | |- extension_gone (commit_all_tables (rm_vclient ?rm) _) _ =>
      refine (proj1 (UninstallMoreProofs.uninstall_then_commit_removes_extension
                       installed myext_entry thd rm thd_not_null _ _
                       installed_contexts_ok installed_descriptors_ok
                       installed_extension_descriptors_ok
                       installed_contexts_match installed_nothing_staged
                       _ _))
  end; vm_compute; reflexivity.
Defined.

Lemma with_table_x_own_columns :
  finds_own_columns lctn (with_table [column_x]) "db" "t".
Proof.
  vm_compute. repeat constructor.
Qed.

Lemma lock_and_apply_only_stages_witness :
  exists r,
    lock_and_apply ddl_host_ok create_x installed thd = Returned r
    /\ only_columns_staged installed (la_vclient r).
Proof.
  eexists. split; [vm_compute; reflexivity|].
  match goal with
  | |- only_columns_staged _ (la_vclient ?r) =>
      refine (proj1 (DdlProofs.lock_and_apply_only_stages
                       ddl_host_ok create_x installed thd r _))
  end.
  vm_compute. reflexivity.
Defined.

Lemma successful_lock_and_apply_has_validated_witness :
  type_is_installed installed column_x.
Proof.
  destruct (lock_and_apply ddl_host_ok create_x installed thd)
    as [r|] eqn:Hr; [|vm_compute in Hr; discriminate].
  refine (proj1 (DdlProofs.successful_lock_and_apply_has_validated
                   ddl_host_ok create_x installed thd r Hr _)
            column_x _ _ _).
  - vm_compute in Hr. injection Hr as <-. reflexivity.
  - vm_compute. now left.
  - vm_compute. discriminate.
  - vm_compute. discriminate.
Defined.

Lemma drop_table_removes_its_custom_columns_witness :
  exists r,
    process_drop lctn ddl_host_ok (with_table [column_x]) thd false
      [("db", "t")] = Returned r
    /\ GetCustomColumnsForTable lctn
         (snd (Ddl.commit (la_vclient r) thd)) "db" "t" = []
    /\ GetCustomColumnsForTable lctn (with_table [column_x]) "db" "t"
       = [column_x].
Proof.
  eexists. split; [vm_compute; reflexivity|].
  split; [|vm_compute; reflexivity].
  match goal with
  | |- GetCustomColumnsForTable _ (snd (Ddl.commit (la_vclient ?r) _)) _ _
       = _ =>
      refine (proj1 (TableDdlProofs.drop_table_removes_its_custom_columns
                       lctn ddl_host_ok (with_table [column_x]) thd
                       "db" "t" r thd_not_null _ (columns_of_ok [column_x])
                       _ with_table_x_own_columns _ _ _))
  end; vm_compute; reflexivity.
Defined.

End MoreScenarioProofs.

(* ================================================================== *)
(** * Versions, compared and printed *)
(* ================================================================== *)

Module VersionScenarioProofs.
Import CStr Semver SemverSpec SemverText SemverOrder.

Lemma op_lt_is_a_strict_order_witness :
  op_lt (v "1.0.0-alpha") (v "1.0.0") = Some true.
Proof.
  refine (proj2 (proj2 (SemverOrderProofs.op_lt_is_a_strict_order
                          (v "1.0.0-alpha") (v "1.0.0-beta.2") (v "1.0.0")
                          _ _ _)) _ _);
    vm_compute; reflexivity.
Defined.

Lemma comparison_operators_agree_witness :
  exists lt gt : bool,
    op_lt (v "1.0.0-rc.1") (v "1.0.0") = Some lt
    /\ op_lt (v "1.0.0") (v "1.0.0-rc.1") = Some gt
    /\ lt && gt = false
    /\ op_eq (v "1.0.0-rc.1") (v "1.0.0") = negb lt && negb gt
    /\ op_ne (v "1.0.0-rc.1") (v "1.0.0") = lt || gt
    /\ op_le (v "1.0.0-rc.1") (v "1.0.0") = Some (negb gt)
    /\ op_ge (v "1.0.0-rc.1") (v "1.0.0") = Some (negb lt)
    /\ op_gt (v "1.0.0-rc.1") (v "1.0.0") = Some gt.
Proof.
  apply SemverOrderProofs.comparison_operators_agree;
    vm_compute; reflexivity.
Defined.

Lemma to_string_undoes_from_string_witness :
  to_string (from_string "1.2.3-alpha.1+build.5")
  = Some "1.2.3-alpha.1+build.5".
Proof.
  apply CanonicalTextProofs.to_string_undoes_from_string.
  - vm_compute. discriminate.
  - vm_compute. reflexivity.
  - vm_compute. discriminate.
Defined.

Lemma from_string_undoes_to_string_witness :
  exists s,
    to_string (from_components 1 2 3 ["rc"; "1"] ["build"]) = Some s
    /\ from_string s = mkSemver 1 2 3 ["rc"; "1"] ["build"] true.
Proof.
  apply CanonicalTextProofs.from_string_undoes_to_string.
  - vm_compute. reflexivity.
  - vm_compute. reflexivity.
  - vm_compute. reflexivity.
  - vm_compute. reflexivity.
  - vm_compute. discriminate.
Defined.

End VersionScenarioProofs.

(* ================================================================== *)
(** * A table, renamed *)
(* ================================================================== *)

Module RenameScenarioProofs.
Import CStr SystemTableMap Schema Victionary MetadataModifier Ddl.
Import MapSpec DdlSpec RenameSpec.
Import Scenario MoreScenarios ScenarioProofs MoreScenarioProofs.

Lemma rename_table_moves_its_custom_columns_witness :
  exists r,
    process_rename lctn ddl_host_ok (with_table [column_x]) thd
      [(("db", "t"), ("db", "u"))] = Returned r
    /\ GetCustomColumnsForTable lctn
         (snd (Ddl.commit (la_vclient r) thd)) "db" "t" = []
    /\ In (renamed lctn "db" "u" column_x)
         (GetCustomColumnsForTable lctn
            (snd (Ddl.commit (la_vclient r) thd)) "db" "u").
Proof.
  eexists. split; [vm_compute; reflexivity|].
  match goal with
  | |- GetCustomColumnsForTable _ (snd (Ddl.commit (la_vclient ?r) _)) _ _
       = _ /\ _ =>
      destruct (RenameProofs.rename_table_moves_its_custom_columns
                  lctn ddl_host_ok (with_table [column_x]) thd
                  "db" "t" "db" "u" r thd_not_null)
        as (Hold & Hnew & _)
  end; try (vm_compute; reflexivity); try (vm_compute; discriminate).
  - exact (columns_of_ok [column_x]).
  - exact with_table_x_own_columns.
  - split; [exact Hold|].
    apply Hnew. exists column_x. split; [|reflexivity].
    vm_compute. now left.
Defined.

End RenameScenarioProofs.

(* ================================================================== *)
(** * The scenarios of CREATE and ALTER TABLE, run *)
(* ================================================================== *)

Module DdlScenarioProofs.
Import CStr SystemTableMap Schema Victionary MetadataModifier Uninstall.
Import TypeUtil Ddl Create TableRename.
Import MapSpec DdlSpec RenameSpec CreateSpec ParametersSpec.
Import Scenario MoreScenarios DdlScenarios.
Import ScenarioProofs MoreScenarioProofs.

Lemma normalized_key_identifies_parameters_witness :
  TypeParameters_eqb (TypeParameters_make vector_1536)
    (TypeParameters_make vector_3) = true
  <-> vector_1536 = vector_3.
Proof.
  apply (ParametersProofs.normalized_key_identifies_parameters
           vector_1536 vector_3); vm_compute; reflexivity.
Defined.

Lemma rollback_forgets_staged_ddl_witness :
  exists r,
    lock_and_apply ddl_host_ok create_x installed thd = Returned r
    /\ Ddl.rollback (la_vclient r) thd = Ddl.rollback installed thd.
Proof.
  eexists. split; [vm_compute; reflexivity|].
  apply (RollbackProofs.rollback_forgets_staged_ddl ddl_host_ok create_x).
  vm_compute. reflexivity.
Defined.

Lemma rollback_forgets_staged_uninstall_witness :
  exists rm,
    remove_extension_from_victionary thd installed "myext" = Returned rm
    /\ rollback_all_tables (rm_vclient rm) thd
       = rollback_all_tables installed thd.
Proof.
  eexists. split; [vm_compute; reflexivity|].
  apply (RollbackProofs.rollback_forgets_staged_uninstall thd installed
           "myext").
  - exact thd_not_null.
  - vm_compute. reflexivity.
  - vm_compute. reflexivity.
Defined.

Lemma table_has_custom_columns_iff_witness :
  TableHasCustomColumns lctn (with_table [column_x]) "db" "t" = true
  <-> GetCustomColumnsForTable lctn (with_table [column_x]) "db" "t" <> [].
Proof.
  destruct (TableQueryProofs.table_has_custom_columns_iff lctn
              (with_table [column_x]) "db" "t") as [Hiff _].
  - vm_compute. reflexivity.
  - exact (columns_of_ok [column_x]).
  - apply Hiff; vm_compute; discriminate.
Defined.

Lemma custom_columns_need_innodb_witness :
  exists r,
    process_create lctn same_name ddl_host_ok installed thd
      (Some (mkCreateInfo false (Some myisam))) (Some create_n_x) "db" "t"
    = Returned r
    /\ la_failed r = true /\ la_vclient r = installed.
Proof.
  eexists. split; [vm_compute; reflexivity|].
  match goal with
  | |- la_failed ?r = _ /\ _ =>
      destruct (CreateProofs.custom_columns_need_innodb lctn same_name
                  ddl_host_ok installed thd
                  (mkCreateInfo false (Some myisam)) create_n_x "db" "t" r)
        as [Hneeds _]
  end; [vm_compute; reflexivity ..|].
  destruct (Hneeds eq_refl myisam eq_refl eq_refl) as (Hfailed & Hsame & _).
  now split.
Defined.

Lemma create_table_records_custom_columns_witness :
  exists r,
    process_create lctn same_name ddl_host_ok installed thd
      (Some (mkCreateInfo false (Some innodb))) (Some create_n_x) "db" "t"
    = Returned r
    /\ get_committed (m_columns (snd (Ddl.commit (la_vclient r) thd)))
         (key_str (key column_x))
       = Some column_x.
Proof.
  eexists. split; [vm_compute; reflexivity|].
  match goal with
  | |- get_committed (m_columns (snd (Ddl.commit (la_vclient ?r) _))) _ = _ =>
      destruct (CreateProofs.create_table_records_custom_columns lctn
                  same_name ddl_host_ok installed thd
                  (mkCreateInfo false (Some innodb)) create_n_x "db" "t" r
                  thd_not_null)
        as [Hrecorded _]
  end;
    [first [ solve [vm_compute; reflexivity]
           | vm_compute; apply List.NoDup_cons;
             [intros []|apply List.NoDup_nil] ] ..|].
  apply (Hrecorded field_x complex_descriptor).
  - right. now left.
  - exists complex_context. split; reflexivity.
Defined.

Lemma alter_drop_column_removes_its_entry_witness :
  exists r,
    process_alter lctn ddl_host_ok (with_table [column_x]) thd
      (Some (mkTable_ref "db" "t" (Some table_t)))
      (Some (mkAlter_info false None None [mkAlter_drop true "x"] [] []))
    = Returned r
    /\ get_committed (m_columns (snd (Ddl.commit (la_vclient r) thd)))
         (key_str (key column_x)) = None
    /\ get_committed (m_columns (with_table [column_x]))
         (key_str (key column_x)) = Some column_x.
Proof.
  eexists. split; [vm_compute; reflexivity|].
  split; [|vm_compute; reflexivity].
  match goal with
  | |- get_committed (m_columns (snd (Ddl.commit (la_vclient ?r) _))) _ = _ =>
      destruct (AlterProofs.alter_drop_column_removes_its_entry lctn
                  ddl_host_ok (with_table [column_x]) thd "db" "t" "x"
                  table_t r thd_not_null)
        as [Hdropped _]
  end; [vm_compute; reflexivity ..|].
  apply Hdropped. vm_compute. now left.
Defined.

Lemma alter_rename_column_moves_its_entry_witness :
  exists r,
    process_alter lctn ddl_host_ok (with_table [column_x]) thd
      (Some (mkTable_ref "db" "t" (Some table_t)))
      (Some (mkAlter_info false None None []
               [mkAlter_column true "x" "y"] []))
    = Returned r
    /\ get_committed (m_columns (snd (Ddl.commit (la_vclient r) thd)))
         "db.t.y"
       = Some (mkColumnEntry (ColumnKey_make lctn "db" "t" "y") "myext"
                 "1.0.0" "COMPLEX")
    /\ get_committed (m_columns (snd (Ddl.commit (la_vclient r) thd)))
         "db.t.x" = None.
Proof.
  eexists. split; [vm_compute; reflexivity|].
  match goal with
  | |- get_committed (m_columns (snd (Ddl.commit (la_vclient ?r) _))) _ = _
       /\ _ =>
      destruct (AlterProofs.alter_rename_column_moves_its_entry lctn
                  ddl_host_ok (with_table [column_x]) thd "db" "t" "x" "y"
                  table_t column_x r thd_not_null)
        as (Hnew & Hold & _)
  end; [vm_compute; reflexivity ..|].
  split; [exact Hnew|].
  apply Hold; vm_compute; discriminate.
Defined.

Lemma handle_rename_moves_the_custom_columns_witness :
  let v' :=
    commit_all_tables
      (snd (HandleCustomColumnsForTableRename lctn (with_table [column_x])
              thd "db" "t" "db" "u")) thd in
  GetCustomColumnsForTable lctn v' "db" "t" = []
  /\ In (renamed lctn "db" "u" column_x)
       (GetCustomColumnsForTable lctn v' "db" "u").
Proof.
  destruct (TableRenameProofs.handle_rename_moves_the_custom_columns lctn
              (with_table [column_x]) thd "db" "t" "db" "u" thd_not_null)
    as (_ & Hold & Hnew & _);
    try (vm_compute; reflexivity); try (vm_compute; discriminate).
  - exact (columns_of_ok [column_x]).
  - exact with_table_x_own_columns.
  - split; [exact Hold|].
    apply Hnew. exists column_x. split; [|reflexivity].
    vm_compute. now left.
Defined.

End DdlScenarioProofs.

(* ================================================================== *)
(** * The scenarios of CHANGE COLUMN and of function calls, run *)
(* ================================================================== *)

Module CallScenarioProofs.
Import CStr SystemTableMap Schema Victionary MetadataModifier Uninstall.
Import TypeUtil Ddl Create TableRename.
Import MapSpec DdlSpec RenameSpec CreateSpec ParametersSpec.
Import Scenario MoreScenarios DdlScenarios.
Import ScenarioProofs MoreScenarioProofs.

(** [ALTER TABLE db.t CHANGE COLUMN x y COMPLEX] on a table whose column
    [x] is a COMPLEX already. *)
Lemma alter_change_column_replaces_its_entry_witness :
  exists r,
    process_alter lctn ddl_host_ok (with_table [column_x]) thd
      (Some (mkTable_ref "db" "t" (Some table_t)))
      (Some (mkAlter_info false None None [] []
               [mkCreate_field "y" (Some "x") (Some complex_context)]))
    = Returned r
    /\ get_committed (m_columns (snd (Ddl.commit (la_vclient r) thd)))
         "db.t.y"
       = Some (mkColumnEntry (ColumnKey_make lctn "db" "t" "y") "myext"
                 "1.0.0" "COMPLEX")
    /\ get_committed (m_columns (snd (Ddl.commit (la_vclient r) thd)))
         "db.t.x" = None.
Proof.
  eexists. split; [vm_compute; reflexivity|].
  match goal with
  | |- get_committed (m_columns (snd (Ddl.commit (la_vclient ?r) _))) _ = _
       /\ _ =>
      destruct (AlterProofs.alter_change_column_replaces_its_entry lctn
                  ddl_host_ok (with_table [column_x]) thd "db" "t" "x"
                  table_t
                  (mkCreate_field "y" (Some "x") (Some complex_context))
                  complex_descriptor r thd_not_null)
        as (Hnew & Hold & _)
  end; [first [ vm_compute; reflexivity
              | exists complex_context; split; reflexivity
              | vm_compute; now left ] ..|].
  split; [exact Hnew|].
  apply Hold; vm_compute; discriminate.
Defined.

(** A statement that calls the function [f] of the installed extension. *)
Lemma process_calls_only_locks_witness :
  exists r,
    process_calls ddl_host_ok installed thd [mkCroutine "myext" "f"]
    = Returned r
    /\ la_vclient r = installed
    /\ la_locked r = ["myext"].
Proof.
  eexists. split; [vm_compute; reflexivity|].
  match goal with
  | |- la_vclient ?r = _ /\ _ =>
      destruct (CallProofs.process_calls_only_locks ddl_host_ok installed
                  thd [mkCroutine "myext" "f"] r)
        as (Hsame & Hlocked & _)
  end; [vm_compute; reflexivity|].
  split; [exact Hsame|].
  destruct Hlocked as [Hl _]; [vm_compute; reflexivity|].
  rewrite Hl. vm_compute. reflexivity.
Defined.

End CallScenarioProofs.
